(** * EmuS4Tutorials: the notebooks' sweep drivers, writers and readers

    A shallow embedding of the Python code of the gold-nanodisk-array
    notebooks (S4 spectra, EMUstack spectra, EMUstack wavelength-angle
    sweep, EMUstack and S4 local-field maps, data exploration), and the
    properties of that code.

    - Python floats and numpy's float64 are IEEE binary64 numbers,
      modelled by the Standard Library's [spec_float] with [prec = 53] and
      [emax = 1024]; nothing is rounded away.
    - Python exceptions are the left summand of [result].
    - Dictionaries are association lists in insertion order, since
      [str(dict)] prints in that order.
    - The electromagnetic solvers (S4, EMUstack) are not part of the
      repository: they are [Variable]s of the sections that use them. *)

From Stdlib Require Import ZArith List String Ascii Bool Lia.
From Stdlib Require Import Floats.SpecFloat.
Import ListNotations.

Open Scope string_scope.
Open Scope list_scope.
Open Scope Z_scope.

(** ** Exceptions and fallible computations

    [SolverError] stands for whatever an external solver raises;
    [Unmodelled] is no Python exception: it marks an input that leaves
    the fragment of Python modelled here. *)

Inductive exn : Type :=
| KeyError (key : string)
| TypeError
| ValueError
| IndexError
| ZeroDivisionError
| OverflowError
| SyntaxError
| MemoryError
| SolverError (code : Z)
| Unmodelled.

Definition result (A : Type) : Type := (exn + A)%type.

Definition ret {A : Type} (a : A) : result A := inr a.

Definition raise {A : Type} (e : exn) : result A := inl e.

Definition bind {A B : Type} (m : result A) (k : A -> result B) : result B :=
  match m with
  | inl e => inl e
  | inr a => k a
  end.

Notation "x <- m ;; k" := (bind m (fun x => k))
  (at level 61, m at next level, right associativity).

Notation "' pat <- m ;; k" := (bind m (fun x => match x with pat => k end))
  (at level 61, pat pattern, m at next level, right associativity).

(** [for x in xs: body(x)] with early exit on the first exception. *)
Fixpoint mapM {A B : Type} (f : A -> result B) (xs : list A) : result (list B) :=
  match xs with
  | [] => ret []
  | x :: xs' => y <- f x ;; ys <- mapM f xs' ;; ret (y :: ys)
  end.

(** [xs[i]] on a Python list: [IndexError] out of range.  Only
    non-negative indexes occur in the notebooks. *)
Definition index {A : Type} (xs : list A) (i : nat) : result A :=
  match nth_error xs i with
  | Some x => ret x
  | None => raise IndexError
  end.

(** ** Binary64 arithmetic *)

Module F64.

Definition prec : Z := 53.
Definition emax : Z := 1024.

Definition float : Type := spec_float.

Definition add (x y : float) : float := SFadd prec emax x y.
Definition sub (x y : float) : float := SFsub prec emax x y.
Definition mul (x y : float) : float := SFmul prec emax x y.
Definition div (x y : float) : float := SFdiv prec emax x y.
Definition sqrt (x : float) : float := SFsqrt prec emax x.
Definition opp (x : float) : float := SFopp x.
Definition abs (x : float) : float := SFabs x.

(** [float(z)] for an integer [z]. *)
Definition of_Z (z : Z) : float := binary_normalize prec emax z 0 false.

(** [a / b] rounded to the nearest integer, ties to even ([0 <= a],
    [0 < b]). *)
Definition half_even (a b : Z) : Z :=
  let q := a / b in
  let r := a mod b in
  if 2 * r <? b then q
  else if b <? 2 * r then q + 1
  else if Z.even q then q else q + 1.

(** [n / d / 2^e] as a fraction. *)
Definition scaled (n d : positive) (e : Z) : Z * Z :=
  if 0 <=? e then (Zpos n, Zpos d * 2 ^ e) else (Zpos n * 2 ^ (- e), Zpos d).

(** The [k] with [2^k <= n/d < 2^(k+1)]. *)
Definition binade (n d : positive) : Z :=
  let k0 := Z.log2 (Zpos n) - Z.log2 (Zpos d) in
  let '(a, b) := scaled n d k0 in
  if b <=? a then k0 else k0 - 1.

(** The float nearest to [n / d] (ties to even), with sign [s]: what
    reading a decimal literal does.  The quotient is rounded to a
    multiple of [2^e], where [e] leaves 53 bits to the mantissa or,
    for a subnormal result, is [-1074]; a mantissa that rounds up to
    [2^53] moves to the next exponent, and past the largest exponent
    the result is an infinity. *)
Definition of_ratio (s : bool) (n d : positive) : float :=
  let e := Z.max (binade n d - 52) (-1074) in
  let '(a, b) := scaled n d e in
  let m := half_even a b in
  if m =? 0 then S754_zero s
  else
    let '(m, e) := if m =? 2 ^ 53 then (2 ^ 52, e + 1) else (m, e) in
    if e <=? 971 then S754_finite s (Z.to_pos m) e else S754_infinity s.

(** The decimal literal [m * 10^e], as the Python reader rounds it. *)
Definition dec (m : Z) (e : Z) : float :=
  match m with
  | Z0 => S754_zero false
  | Zpos p =>
      if 0 <=? e then of_ratio false (p * Z.to_pos (10 ^ e)) 1
      else of_ratio false p (Z.to_pos (10 ^ (- e)))
  | Zneg p =>
      if 0 <=? e then of_ratio true (p * Z.to_pos (10 ^ e)) 1
      else of_ratio true p (Z.to_pos (10 ^ (- e)))
  end.

Definition zero : float := S754_zero false.
Definition one : float := of_Z 1.
Definition nan : float := S754_nan.
Definition inf : float := S754_infinity false.

Definition is_nan (x : float) : bool :=
  match x with S754_nan => true | _ => false end.

Definition is_inf (x : float) : bool :=
  match x with S754_infinity _ => true | _ => false end.

Definition is_zero (x : float) : bool :=
  match x with S754_zero _ => true | _ => false end.

(** Neither an infinity nor a NaN. *)
Definition is_finite (x : float) : bool :=
  match x with S754_zero _ | S754_finite _ _ _ => true | _ => false end.

(** Same bits (NaN payloads apart, which [spec_float] does not have). *)
Definition same (x y : float) : bool :=
  match x, y with
  | S754_zero s, S754_zero t => Bool.eqb s t
  | S754_infinity s, S754_infinity t => Bool.eqb s t
  | S754_nan, S754_nan => true
  | S754_finite s m e, S754_finite t n f =>
      Bool.eqb s t && Pos.eqb m n && Z.eqb e f
  | _, _ => false
  end.

(** Python's [==] on floats. *)
Definition eqb (x y : float) : bool := SFeqb x y.

End F64.

(** ** Python values, [repr] and [str] *)

Module Py.

Import F64.

(** A Python [str] whose code points are below 256, one per character. *)
Definition text : Type := string.

Definition chr (n : Z) : ascii := ascii_of_N (Z.to_N n).
Definition ord (c : ascii) : Z := Z.of_N (N_of_ascii c).

(** The double quote, code 34. *)
Definition dquote : ascii := Eval cbv in chr 34.
Definition squote : ascii := "'"%char.
Definition backslash : ascii := Eval cbv in chr 92.

Definition str1 (c : ascii) : text := String c EmptyString.

(** The line feed, code 10. *)
Definition newline : text := Eval cbv in str1 (chr 10).

Fixpoint repeat_char (c : ascii) (n : nat) : text :=
  match n with
  | O => EmptyString
  | S n' => String c (repeat_char c n')
  end.

(** [sep.join(parts)]. *)
Fixpoint join (sep : text) (parts : list text) : text :=
  match parts with
  | [] => EmptyString
  | [p] => p
  | p :: ps => (p ++ sep ++ join sep ps)%string
  end.

(** *** Integers *)

Definition digit_char (d : Z) : ascii := chr (48 + d).

(** The decimal digits of [n >= 0], most significant first, in front of
    [acc]; [fuel] bounds the number of digits. *)
Fixpoint digits_from (fuel : nat) (n : Z) (acc : text) : text :=
  match fuel with
  | O => acc
  | S f =>
      if n <? 10 then String (digit_char n) acc
      else digits_from f (n / 10) (String (digit_char (n mod 10)) acc)
  end.

Definition digits_of (n : Z) : text :=
  digits_from (S (Z.to_nat (Z.log2 n))) n EmptyString.

(** [repr] of an [int]. *)
Definition int_repr (z : Z) : text :=
  if z <? 0 then String "-"%char (digits_of (- z)) else digits_of z.

(** *** Floats: the shortest decimal string that reads back

    [repr(float)] prints the shortest run of decimal digits that the
    reader rounds back to the same float, and among those the nearest
    one; seventeen digits always do. *)

(** A positive rational as numerator and denominator. *)
Definition frac_of (m : positive) (e : Z) : Z * Z :=
  if 0 <=? e then (Zpos m * 2 ^ e, 1) else (Zpos m, 2 ^ (- e)).

Definition scale10 (nd : Z * Z) (p : Z) : Z * Z :=
  let '(n, d) := nd in
  if 0 <=? p then (n * 10 ^ p, d) else (n, d * 10 ^ (- p)).

(** [10^k <= n/d]. *)
Definition ge_pow10 (nd : Z * Z) (k : Z) : bool :=
  let '(n, d) := scale10 nd (- k) in d <=? n.

Fixpoint adjust_down (fuel : nat) (nd : Z * Z) (k : Z) : Z :=
  match fuel with
  | O => k
  | S f => if ge_pow10 nd k then k else adjust_down f nd (k - 1)
  end.

Fixpoint adjust_up (fuel : nat) (nd : Z * Z) (k : Z) : Z :=
  match fuel with
  | O => k
  | S f => if ge_pow10 nd (k + 1) then adjust_up f nd (k + 1) else k
  end.

(** The [k] with [10^k <= n/d < 10^(k+1)]. *)
Definition exp10 (nd : Z * Z) : Z :=
  let '(n, d) := nd in
  let est := (Z.log2 n - Z.log2 d) * 30103 / 100000 in
  adjust_up 4 nd (adjust_down 4 nd est).

(** Does the decimal [c * 10^q] read back as the positive float
    [S754_finite false m e]? *)
Definition reads_back (m : positive) (e : Z) (c q : Z) : bool :=
  same (dec c q) (S754_finite false m e).

(** The two [ndig]-digit decimals around [n/d], the nearer one first. *)
Definition neighbours (nd : Z * Z) (k ndig : Z) : (Z * Z) * Z :=
  let p := ndig - 1 - k in
  let '(n, d) := scale10 nd p in
  let lo := n / d in
  let r := n mod d in
  let nearer_lo := (2 * r <? d) || ((2 * r =? d) && Z.even lo) in
  if nearer_lo then (lo, lo + 1, - p) else (lo + 1, lo, - p).

Definition candidate (m : positive) (e : Z) (nd : Z * Z) (k ndig : Z)
  : option (Z * Z) :=
  let '(c1, c2, q) := neighbours nd k ndig in
  if reads_back m e c1 q then Some (c1, q)
  else if reads_back m e c2 q then Some (c2, q)
  else None.

Fixpoint shortest_from (fuel : nat) (ndig : Z) (m : positive) (e : Z)
  (nd : Z * Z) (k : Z) : Z * Z :=
  match fuel with
  | O => let '(c1, _, q) := neighbours nd k 17 in (c1, q)
  | S f =>
      match candidate m e nd k ndig with
      | Some cq => cq
      | None => shortest_from f (ndig + 1) m e nd k
      end
  end.

(** The digits [c] and the exponent [q] of the shortest decimal
    [c * 10^q] for [m * 2^e]. *)
Definition shortest (m : positive) (e : Z) : Z * Z :=
  let nd := frac_of m e in
  shortest_from 17 1 m e nd (exp10 nd).

Fixpoint strip_zeros_rev (s : list ascii) : list ascii :=
  match s with
  | "0"%char :: r => strip_zeros_rev r
  | _ => s
  end.

(** Trailing zeros removed. *)
Definition strip_zeros (s : text) : text :=
  string_of_list_ascii (rev (strip_zeros_rev (rev (list_ascii_of_string s)))).

Definition take (n : nat) (s : text) : text := substring 0 n s.
Definition drop (n : nat) (s : text) : text := substring n (String.length s - n) s.

(** Digits [ds] with the decimal point after the first [decpt] of them,
    in the layout of [repr]: positional when [-4 < decpt <= 16]. *)
Definition layout (ds : text) (decpt : Z) : text :=
  let n := Z.of_nat (String.length ds) in
  if (decpt <=? -4) || (16 <? decpt) then
    let e := decpt - 1 in
    let mant :=
      match ds with
      | String c EmptyString => str1 c
      | String c r => String c (String "."%char r)
      | EmptyString => EmptyString
      end in
    let ex := digits_of (Z.abs e) in
    let ex2 := if Z.abs e <? 10 then String "0"%char ex else ex in
    let sign := if e <? 0 then "-" else "+" in
    (mant ++ "e" ++ sign ++ ex2)%string
  else if decpt <=? 0 then
    ("0." ++ repeat_char "0"%char (Z.to_nat (- decpt)) ++ ds)%string
  else if n <=? decpt then
    (ds ++ repeat_char "0"%char (Z.to_nat (decpt - n)) ++ ".0")%string
  else
    (take (Z.to_nat decpt) ds ++ "." ++ drop (Z.to_nat decpt) ds)%string.

Definition positive_float_repr (m : positive) (e : Z) : text :=
  let '(c, q) := shortest m e in
  let ds := digits_of c in
  layout (strip_zeros ds) (Z.of_nat (String.length ds) + q).

(** [repr] of a [float]. *)
Definition float_repr (x : float) : text :=
  match x with
  | S754_nan => "nan"
  | S754_infinity false => "inf"
  | S754_infinity true => "-inf"
  | S754_zero false => "0.0"
  | S754_zero true => "-0.0"
  | S754_finite false m e => positive_float_repr m e
  | S754_finite true m e => String "-"%char (positive_float_repr m e)
  end.

(** *** Strings *)

Definition hex_char (d : Z) : ascii :=
  if d <? 10 then chr (48 + d) else chr (87 + d).

(** Printable code points below 256: ASCII 32..126 and Latin-1 161..255
    without the soft hyphen 173. *)
Definition printable (c : ascii) : bool :=
  let n := ord c in
  ((32 <=? n) && (n <? 127)) || ((161 <=? n) && negb (n =? 173)).

Fixpoint contains (c : ascii) (s : text) : bool :=
  match s with
  | EmptyString => false
  | String a r => Ascii.eqb a c || contains c r
  end.

(** The quote [repr] puts around a string: double quotes only when the
    string has a single quote and no double quote. *)
Definition quote_for (s : text) : ascii :=
  if contains squote s && negb (contains dquote s) then dquote else squote.

Definition escape_char (q c : ascii) : text :=
  if Ascii.eqb c q || Ascii.eqb c backslash then String backslash (str1 c)
  else if ord c =? 9 then String backslash "t"
  else if ord c =? 10 then String backslash "n"
  else if ord c =? 13 then String backslash "r"
  else if printable c then str1 c
  else String backslash
         (String "x"%char
            (String (hex_char (ord c / 16)) (str1 (hex_char (ord c mod 16))))).

Fixpoint escape (q : ascii) (s : text) : text :=
  match s with
  | EmptyString => EmptyString
  | String c r => (escape_char q c ++ escape q r)%string
  end.

(** [repr] of a [str]. *)
Definition str_repr (s : text) : text :=
  let q := quote_for s in
  String q (escape q s ++ str1 q)%string.

(** *** Values *)

#[local] Unset Elimination Schemes.

Inductive pyval : Type :=
| VNone
| VBool (b : bool)
| VInt (z : Z)
| VFloat (x : float)
| VStr (s : text)
| VList (vs : list pyval).

#[local] Set Elimination Schemes.

Fixpoint repr (v : pyval) : text :=
  match v with
  | VNone => "None"
  | VBool true => "True"
  | VBool false => "False"
  | VInt z => int_repr z
  | VFloat x => float_repr x
  | VStr s => str_repr s
  | VList vs => ("[" ++ join ", " (map repr vs) ++ "]")%string
  end.

(** [str(v)]. *)
Definition str (v : pyval) : text :=
  match v with
  | VStr s => s
  | _ => repr v
  end.

(** [prefix + v] for a string [prefix]: a [TypeError] unless [v] is a
    string. *)
Definition concat_str (prefix : text) (v : pyval) : result text :=
  match v with
  | VStr s => ret (prefix ++ s)%string
  | _ => raise TypeError
  end.

(** *** Dictionaries with string keys, in insertion order *)

Definition dict : Type := list (text * pyval).

(** [d[k] = v]: an existing key keeps its place. *)
Fixpoint setitem (d : dict) (k : text) (v : pyval) : dict :=
  match d with
  | [] => [(k, v)]
  | (k', v') :: r =>
      if String.eqb k' k then (k', v) :: r else (k', v') :: setitem r k v
  end.

(** [d[k]]. *)
Fixpoint getitem (d : dict) (k : text) : result pyval :=
  match d with
  | [] => raise (KeyError k)
  | (k', v) :: r => if String.eqb k' k then ret v else getitem r k
  end.

Definition item_repr (kv : text * pyval) : text :=
  (str_repr (fst kv) ++ ": " ++ repr (snd kv))%string.

(** [str(d)] for a dictionary [d]. *)
Definition str_dict (d : dict) : text :=
  ("{" ++ join ", " (map item_repr d) ++ "}")%string.

(** The keys of a dictionary are distinct. *)
Definition wf_dict (d : dict) : Prop := NoDup (map fst d).

(** *** The [%] operator on strings

    The conversions the notebooks use: [%d], [%s] and [%f], with an
    optional width and precision and no flags; [%%] is a percent sign.
    Any other conversion character is refused. *)

Definition is_digit (c : ascii) : bool :=
  (48 <=? ord c) && (ord c <=? 57).

(** The leading decimal digits of [s] and what follows them. *)
Fixpoint span_digits (s : text) : text * text :=
  match s with
  | String c r =>
      if is_digit c then let '(ds, rest) := span_digits r in (String c ds, rest)
      else (EmptyString, s)
  | EmptyString => (EmptyString, EmptyString)
  end.

(** The number a run of decimal digits denotes, after [acc]. *)
Fixpoint number_from (acc : Z) (ds : text) : Z :=
  match ds with
  | EmptyString => acc
  | String c r => number_from (10 * acc + (ord c - 48)) r
  end.

Definition number_of (ds : text) : Z := number_from 0 ds.

Definition pad_left (width : Z) (s : text) : text :=
  (repeat_char " "%char (Z.to_nat (width - Z.of_nat (String.length s))) ++ s)%string.

(** [n / d] rounded to the nearest integer, ties to even ([0 <= n], [0 < d]). *)
Definition round_half_even (n d : Z) : Z :=
  let q := n / d in
  let r := n mod d in
  if 2 * r <? d then q
  else if d <? 2 * r then q + 1
  else if Z.even q then q else q + 1.

(** The digits of [r] with a decimal point before the last [p] of them. *)
Definition fixed_digits (p : Z) (r : Z) : text :=
  let ds := digits_of r in
  let n := Z.of_nat (String.length ds) in
  let ds' := (repeat_char "0"%char (Z.to_nat (p + 1 - n)) ++ ds)%string in
  let k := Z.to_nat (Z.of_nat (String.length ds') - p) in
  if p <=? 0 then ds' else (take k ds' ++ "." ++ drop k ds')%string.

(** [x] with [p] digits after the point, the last one correctly rounded. *)
Definition fixed_repr (p : Z) (x : float) : text :=
  match x with
  | S754_nan => "nan"
  | S754_infinity false => "inf"
  | S754_infinity true => "-inf"
  | S754_zero false => fixed_digits p 0
  | S754_zero true => String "-"%char (fixed_digits p 0)
  | S754_finite s m e =>
      let '(n, d) := scale10 (frac_of m e) p in
      let body := fixed_digits p (round_half_even n d) in
      if s then String "-"%char body else body
  end.

(** The integer part of a finite float, towards zero. *)
Definition trunc (x : float) : result Z :=
  match x with
  | S754_nan => raise ValueError
  | S754_infinity _ => raise OverflowError
  | S754_zero _ => ret 0
  | S754_finite s m e =>
      let '(n, d) := frac_of m e in
      ret (if s then - (n / d) else n / d)
  end.

(** [float(z)] of an [int]: the nearest float, ties to even, and
    OverflowError when that is beyond the largest float. *)
Definition int_to_float (z : Z) : result float :=
  let x := of_Z z in
  if is_inf x then raise OverflowError else ret x.

(** A number where a float is wanted ([%f], an argument of the
    solvers, an operand beside a float). *)
Definition as_float (v : pyval) : result float :=
  match v with
  | VFloat x => ret x
  | VInt z => int_to_float z
  | VBool b => ret (of_Z (if b then 1 else 0))
  | _ => raise TypeError
  end.

Definition as_int (v : pyval) : result Z :=
  match v with
  | VInt z => ret z
  | VBool b => ret (if b then 1 else 0)
  | VFloat x => trunc x
  | _ => raise TypeError
  end.

(** One conversion: the character [c], the precision [p] when one is
    given, the argument [a]. *)
Definition convert (c : ascii) (p : option Z) (a : pyval) : result text :=
  if Ascii.eqb c "d"%char then z <- as_int a ;; ret (int_repr z)
  else if Ascii.eqb c "s"%char then
    ret match p with
        | Some n => take (Z.to_nat n) (str a)
        | None => str a
        end
  else if Ascii.eqb c "f"%char then
    x <- as_float a ;;
    ret (fixed_repr match p with Some n => n | None => 6 end x)
  else raise ValueError.

Fixpoint format_from (fuel : nat) (fmt : text) (args : list pyval)
  : result text :=
  match fuel with
  | O => raise ValueError
  | S f =>
      match fmt with
      | EmptyString =>
          match args with
          | [] => ret EmptyString
          | _ :: _ => raise TypeError
          end
      | String c r =>
          if Ascii.eqb c "%"%char then
            let '(w, r1) := span_digits r in
            let '(p, r2) :=
              match r1 with
              | String "."%char r' =>
                  let '(ds, r'') := span_digits r' in (Some (number_of ds), r'')
              | _ => (None, r1)
              end in
            match r2 with
            | EmptyString => raise ValueError
            | String k r3 =>
                if Ascii.eqb k "%"%char then
                  rest <- format_from f r3 args ;;
                  ret (String "%"%char rest)
                else
                  match args with
                  | [] => raise TypeError
                  | a :: args' =>
                      piece <- convert k p a ;;
                      rest <- format_from f r3 args' ;;
                      ret (pad_left (number_of w) piece ++ rest)%string
                  end
            end
          else
            rest <- format_from f r args ;;
            ret (String c rest)
      end
  end.

(** [fmt % args]. *)
Definition format (fmt : text) (args : list pyval) : result text :=
  format_from (S (String.length fmt)) fmt args.

(** [v[i]] for a list or a string; a negative [i] counts from the end. *)
Definition subscript (v : pyval) (i : Z) : result pyval :=
  match v with
  | VList vs =>
      let n := Z.of_nat (List.length vs) in
      let j := if i <? 0 then i + n else i in
      if (0 <=? j) && (j <? n) then index vs (Z.to_nat j) else raise IndexError
  | VStr s =>
      let n := Z.of_nat (String.length s) in
      let j := if i <? 0 then i + n else i in
      match (if (0 <=? j) && (j <? n) then String.get (Z.to_nat j) s else None) with
      | Some c => ret (VStr (str1 c))
      | None => raise IndexError
      end
  | _ => raise TypeError
  end.

(** [xs[i]] on a list of floats, a negative [i] counting from the end. *)
Definition item {A : Type} (xs : list A) (i : Z) : result A :=
  let n := Z.of_nat (List.length xs) in
  let j := if i <? 0 then i + n else i in
  if (0 <=? j) && (j <? n) then index xs (Z.to_nat j) else raise IndexError.

(** [x / y] on Python floats. *)
Definition float_div (x y : float) : result float :=
  if is_zero y then raise ZeroDivisionError else ret (div x y).

(** [a / b] on two ints: the float nearest to the quotient, ties to
    even, with the sign of the quotient when it is zero; OverflowError
    when the quotient is beyond the largest float. *)
Definition int_true_div (a b : Z) : result float :=
  if b =? 0 then raise ZeroDivisionError
  else
    let negative := xorb (a <? 0) (b <? 0) in
    if a =? 0 then ret (S754_zero negative)
    else
      let x := of_ratio negative (Z.to_pos (Z.abs a)) (Z.to_pos (Z.abs b)) in
      if is_inf x then raise OverflowError else ret x.

(** [x / y] on two values: the quotient of two ints is rounded once;
    beside a float an int is converted first, the left operand before
    the right one. *)
Definition true_div (x y : pyval) : result float :=
  match x, y with
  | (VNone | VStr _ | VList _), _ | _, (VNone | VStr _ | VList _) => raise TypeError
  | VFloat a, _ => b <- as_float y ;; float_div a b
  | _, VFloat b => a <- as_float x ;; float_div a b
  | _, _ =>
      a <- as_int x ;; b <- as_int y ;; int_true_div a b
  end.

(** [operator.index(v)]. *)
Definition as_index (v : pyval) : result Z :=
  match v with
  | VInt z => ret z
  | VBool b => ret (if b then 1 else 0)
  | _ => raise TypeError
  end.

Definition as_text (v : pyval) : result text :=
  match v with
  | VStr s => ret s
  | _ => raise TypeError
  end.

End Py.

(** ** [datetime] and [strftime] *)

Module Datetime.

Import Py.

Record datetime : Type := {
  year : Z;
  month : Z;
  day : Z;
  hour : Z;
  minute : Z;
  second : Z;
  microsecond : Z
}.

(** The fields are in the ranges [datetime] keeps them in. *)
Definition valid (t : datetime) : Prop :=
  1 <= year t <= 9999 /\ 1 <= month t <= 12 /\ 1 <= day t <= 31 /\
  0 <= hour t <= 23 /\ 0 <= minute t <= 59 /\ 0 <= second t <= 59 /\
  0 <= microsecond t <= 999999.

(** A number below 100 on two digits. *)
Definition pad2 (n : Z) : text :=
  if n <? 10 then String "0"%char (digits_of n) else digits_of n.

Definition pad4 (n : Z) : text :=
  (repeat_char "0"%char (4 - String.length (digits_of n)) ++ digits_of n)%string.

Definition directive (t : datetime) (c : ascii) : text :=
  if Ascii.eqb c "d"%char then pad2 (day t)
  else if Ascii.eqb c "m"%char then pad2 (month t)
  else if Ascii.eqb c "y"%char then pad2 (year t mod 100)
  else if Ascii.eqb c "Y"%char then pad4 (year t)
  else if Ascii.eqb c "H"%char then pad2 (hour t)
  else if Ascii.eqb c "M"%char then pad2 (minute t)
  else if Ascii.eqb c "S"%char then pad2 (second t)
  else if Ascii.eqb c "%"%char then "%"
  else String "%"%char (str1 c).

(** [t.strftime(fmt)], for the numeric directives. *)
Fixpoint strftime (t : datetime) (fmt : text) : text :=
  match fmt with
  | String "%"%char (String c r) => (directive t c ++ strftime t r)%string
  | String c r => String c (strftime t r)
  | EmptyString => EmptyString
  end.

(** Two instants of the same wall-clock second. *)
Definition same_second (t u : datetime) : Prop :=
  year t = year u /\ month t = month u /\ day t = day u /\
  hour t = hour u /\ minute t = minute u /\ second t = second u.

End Datetime.

(** ** numpy arrays of float64 *)

Module Np.

Import F64.

Definition array : Type := list float.

(** [np.arange(0, num)] as floats. *)
Definition arange (num : nat) : array :=
  map (fun i => of_Z (Z.of_nat i)) (seq 0 num).

(** [y[-1] = v] on a non-empty array. *)
Fixpoint set_last (y : array) (v : float) : array :=
  match y with
  | [] => []
  | [_] => [v]
  | x :: r => x :: set_last r v
  end.

(** [np.linspace(start, stop, num)], end point included. *)
Definition linspace (start stop : float) (num : Z) : result array :=
  if num <? 0 then raise ValueError
  else
    let dv := num - 1 in
    let y := arange (Z.to_nat num) in
    let delta := sub stop start in
    let y1 :=
      if 0 <? dv then
        let step := div delta (of_Z dv) in
        if is_zero step
        then map (fun v => mul (div v (of_Z dv)) delta) y
        else map (fun v => mul v step) y
      else map (fun v => mul v delta) y in
    let y2 := map (fun v => add v start) y1 in
    ret (if 1 <? num then set_last y2 stop else y2).

(** The floating-point conditions numpy reports with a [RuntimeWarning]
    and no exception (the default error state). *)
Inductive warning : Type :=
| DivideByZero
| InvalidValue
| Overflow.

(** The conditions one scalar operation with operands [x], [y] and
    result [r] raises; [quotient] tells a division. *)
Definition flags (quotient : bool) (x y r : float) : list warning :=
  let invalid := is_nan r && negb (is_nan x) && negb (is_nan y) in
  let by_zero :=
    quotient && is_zero y && is_finite x && negb (is_zero x) in
  let over :=
    is_inf r && is_finite x && is_finite y && negb by_zero in
  (if invalid then [InvalidValue] else []) ++
  (if by_zero then [DivideByZero] else []) ++
  (if over then [Overflow] else []).

Fixpoint zip_with (f : float -> float -> float) (a b : array) : array :=
  match a, b with
  | x :: a', y :: b' => f x y :: zip_with f a' b'
  | _, _ => []
  end.

Fixpoint zip_flags (quotient : bool) (f : float -> float -> float)
  (a b : array) : list warning :=
  match a, b with
  | x :: a', y :: b' => flags quotient x y (f x y) ++ zip_flags quotient f a' b'
  | _, _ => []
  end.

(** Two one-dimensional arrays brought to a common length: equal
    lengths, or one of them of length one; a [ValueError] otherwise. *)
Definition broadcast (a b : array) : result (array * array) :=
  if Nat.eqb (List.length a) (List.length b) then ret (a, b)
  else
    match a, b with
    | [x], _ => ret (map (fun _ => x) b, b)
    | _, [y] => ret (a, map (fun _ => y) a)
    | _, _ => raise ValueError
    end.

(** An elementwise operation: the result array and the warnings. *)
Definition elementwise (quotient : bool) (f : float -> float -> float)
  (a b : array) : result (array * list warning) :=
  '(a', b') <- broadcast a b ;;
  ret (zip_with f a' b', zip_flags quotient f a' b').

Definition subtract := elementwise false sub.
Definition plus := elementwise false add.
Definition divide := elementwise true div.

(** [a, b, c = np.array(rows).T] for a list of triples: the three
    columns; with no row there is nothing to unpack. *)
Definition unpack3 (rows : list (float * float * float))
  : result (array * array * array) :=
  match rows with
  | [] => raise ValueError
  | _ :: _ =>
      ret (map (fun t => fst (fst t)) rows,
           map (fun t => snd (fst t)) rows,
           map snd rows)
  end.

(** [np.column_stack((a, b, c))]: one row per index. *)
Fixpoint column_stack3 (a b c : array) : result (list (list float)) :=
  match a, b, c with
  | [], [], [] => ret []
  | x :: a', y :: b', z :: c' =>
      rows <- column_stack3 a' b' c' ;; ret ([x; y; z] :: rows)
  | _, _, _ => raise ValueError
  end.

(** [a.reshape(rows, cols)] of a flat array. *)
Fixpoint chunks (rows cols : nat) (a : array) : list (list float) :=
  match rows with
  | O => []
  | S r => firstn cols a :: chunks r cols (skipn cols a)
  end.

Definition reshape (a : array) (rows cols : nat) : result (list (list float)) :=
  if Nat.eqb (List.length a) (rows * cols) then ret (chunks rows cols a)
  else raise ValueError.

(** [m.T] of a matrix with [cols] columns. *)
Definition transpose (cols : nat) (m : list (list float)) : list (list float) :=
  map (fun j => map (fun row => nth j row zero) m) (seq 0 cols).

End Np.

(** ** Labelled arrays and the files they are written to *)

Module Xr.

Import F64 Py.

Inductive coord : Type :=
| Numbers (xs : list float)
| Labels (ls : list text).

Definition coord_length (c : coord) : nat :=
  match c with
  | Numbers xs => List.length xs
  | Labels ls => List.length ls
  end.

Record DataArray : Type := {
  values : list (list float);
  coords : coord * coord;
  dims : text * text;
  attrs : list (text * text)
}.

(** [xr.DataArray(values, coords=[c0, c1], dims=[d0, d1])]: the shape of
    the data has to match the coordinates. *)
Definition new (vals : list (list float)) (c0 c1 : coord) (d0 d1 : text)
  : result DataArray :=
  if Nat.eqb (List.length vals) (coord_length c0)
     && forallb (fun row => Nat.eqb (List.length row) (coord_length c1)) vals
  then ret {| values := vals; coords := (c0, c1); dims := (d0, d1); attrs := [] |}
  else raise ValueError.

(** [da.attrs[k] = v]. *)
Fixpoint set_assoc (l : list (text * text)) (k v : text) : list (text * text) :=
  match l with
  | [] => [(k, v)]
  | (k', v') :: r =>
      if String.eqb k' k then (k', v) :: r else (k', v') :: set_assoc r k v
  end.

Definition set_attr (da : DataArray) (k v : text) : DataArray :=
  {| values := values da; coords := coords da; dims := dims da;
     attrs := set_assoc (attrs da) k v |}.

(** [da.k], an attribute read by name. *)
Fixpoint get_assoc (l : list (text * text)) (k : text) : result text :=
  match l with
  | [] => raise (KeyError k)
  | (k', v) :: r => if String.eqb k' k then ret v else get_assoc r k
  end.

Definition attr (da : DataArray) (k : text) : result text :=
  get_assoc (attrs da) k.

(** The netCDF files on disk, by path; the latest write first. *)
Definition disk : Type := list (text * DataArray).

(** [da.to_netcdf(path)]. *)
Definition to_netcdf (fs : disk) (path : text) (da : DataArray) : disk :=
  (path, da) :: fs.

(** [xr.load_dataarray(path)]. *)
Fixpoint load_dataarray (fs : disk) (path : text) : result DataArray :=
  match fs with
  | [] => raise (KeyError path)
  | (p, da) :: r => if String.eqb p path then ret da else load_dataarray r path
  end.

End Xr.

(** ** [concurrent.futures]: a pool of worker processes

    Every worker process starts with its own copy of the state of the
    notebook and runs the tasks it is handed one after the other, in
    submission order; nothing flows back but the results.  [sched]
    names the worker of each task.  All tasks run; [list(executor.map(..))]
    then hands the results over in input order and raises at the first
    failed one. *)

Module Pool.

Section Pool.

Variables St A B : Type.
Variable step : St -> A -> St * result B.

Definition set_worker (states : nat -> St) (w : nat) (s : St) : nat -> St :=
  fun v => if Nat.eqb v w then s else states v.

Fixpoint run (states : nat -> St) (sched : list nat) (xs : list A)
  : list (result B) :=
  match xs with
  | [] => []
  | x :: xs' =>
      let w := hd O sched in
      let '(s', r) := step (states w) x in
      r :: run (set_worker states w s') (tl sched) xs'
  end.

Fixpoint collect (rs : list (result B)) : result (list B) :=
  match rs with
  | [] => ret []
  | r :: rs' => y <- r ;; ys <- collect rs' ;; ret (y :: ys)
  end.

Definition executor_map (s0 : St) (sched : list nat) (xs : list A)
  : result (list B) :=
  collect (run (fun _ => s0) sched xs).

End Pool.

Arguments set_worker {St} states w s.
Arguments run {St A B} step states sched xs.
Arguments collect {B} rs.
Arguments executor_map {St A B} step s0 sched xs.

End Pool.

(** ** [ast.literal_eval]

    The reader of Python literals, for the literals [str] writes for a
    dictionary of the notebooks: a dictionary display with string keys
    whose values are [None], [True], [False], integers, floats, strings
    and lists of these.  Python reads more than that (tuples, sets,
    nested dictionaries, bytes, other number and escape forms): such
    text is answered with [Unmodelled].  A name other than the three
    constants is a malformed node, a [ValueError].

    The notebooks record Python 3.8.12.  Its parser keeps a stack of
    1700 entries and takes seventeen of them for every display inside
    another: 99 empty lists inside one another are parsed, at 100 it
    gives up with [MemoryError] before anything is evaluated.  Where
    the limit falls exactly depends on what is nested, so the reader
    here parses up to [max_nesting] levels, gives up from
    [overflow_nesting] levels on, and answers [Unmodelled] between the
    two. *)

Module Ast.

Import F64 Py.

Inductive token : Type :=
| LBrace | RBrace | LBracket | RBracket | Comma | Colon | Minus
| Name (n : text)
| IntLit (z : Z)
| FloatLit (x : float)
| StrLit (s : text).

Definition is_space (c : ascii) : bool :=
  (ord c =? 32) || (ord c =? 9) || (ord c =? 10) || (ord c =? 13) || (ord c =? 12).

Definition is_letter (c : ascii) : bool :=
  let n := ord c in
  ((65 <=? n) && (n <=? 90)) || ((97 <=? n) && (n <=? 122)) || (n =? 95).

Definition is_name_char (c : ascii) : bool := is_letter c || is_digit c.

Fixpoint skip_spaces (s : text) : text :=
  match s with
  | String c r => if is_space c then skip_spaces r else s
  | EmptyString => s
  end.

Fixpoint span_name (s : text) : text * text :=
  match s with
  | String c r =>
      if is_name_char c then let '(n, rest) := span_name r in (String c n, rest)
      else (EmptyString, s)
  | EmptyString => (EmptyString, EmptyString)
  end.

Definition hex_val (c : ascii) : option Z :=
  let n := ord c in
  if (48 <=? n) && (n <=? 57) then Some (n - 48)
  else if (97 <=? n) && (n <=? 102) then Some (n - 87)
  else if (65 <=? n) && (n <=? 70) then Some (n - 55)
  else None.

(** The character an escape sequence [\e] with one letter stands for. *)
Definition simple_escape (e : ascii) : option ascii :=
  if Ascii.eqb e backslash || Ascii.eqb e squote || Ascii.eqb e dquote then Some e
  else if Ascii.eqb e "n"%char then Some (chr 10)
  else if Ascii.eqb e "t"%char then Some (chr 9)
  else if Ascii.eqb e "r"%char then Some (chr 13)
  else if Ascii.eqb e "a"%char then Some (chr 7)
  else if Ascii.eqb e "b"%char then Some (chr 8)
  else if Ascii.eqb e "f"%char then Some (chr 12)
  else if Ascii.eqb e "v"%char then Some (chr 11)
  else None.

(** The body of a string literal opened by the quote [q], up to the
    closing quote, and the text after it. *)
Fixpoint lex_string (q : ascii) (s : text) : result (text * text) :=
  match s with
  | EmptyString => raise SyntaxError
  | String c r =>
      if Ascii.eqb c q then ret (EmptyString, r)
      else if Ascii.eqb c backslash then
        match r with
        | EmptyString => raise SyntaxError
        | String e r' =>
            match simple_escape e with
            | Some d =>
                '(body, rest) <- lex_string q r' ;; ret (String d body, rest)
            | None =>
                if Ascii.eqb e "x"%char then
                  match r' with
                  | String h1 (String h2 r'') =>
                      match hex_val h1, hex_val h2 with
                      | Some a, Some b =>
                          '(body, rest) <- lex_string q r'' ;;
                          ret (String (chr (16 * a + b)) body, rest)
                      | _, _ => raise SyntaxError
                      end
                  | _ => raise SyntaxError
                  end
                else raise Unmodelled
            end
        end
      else if ord c =? 10 then raise SyntaxError
      else '(body, rest) <- lex_string q r ;; ret (String c body, rest)
  end.

(** The exponent part [e], [e+] or [e-] and its digits, when there is
    one. *)
Definition lex_exponent (s : text) : result (option Z * text) :=
  match s with
  | String c r =>
      if Ascii.eqb c "e"%char || Ascii.eqb c "E"%char then
        let '(neg, r1) :=
          match r with
          | String "-"%char r' => (true, r')
          | String "+"%char r' => (false, r')
          | _ => (false, r)
          end in
        let '(ds, r2) := span_digits r1 in
        match ds with
        | EmptyString => raise SyntaxError
        | _ => ret (Some (if neg then - number_of ds else number_of ds), r2)
        end
      else ret (None, s)
  | EmptyString => ret (None, s)
  end.

(** A number literal at the head of [s], which starts with a digit. *)
Definition lex_number (s : text) : result (token * text) :=
  let '(ip, r1) := span_digits s in
  let '(fp, r2) :=
    match r1 with
    | String "."%char r =>
        let '(ds, r') := span_digits r in (Some ds, r')
    | _ => (None, r1)
    end in
  '(ex, r3) <- lex_exponent r2 ;;
  _ <- match r3 with
       | String c _ =>
           if is_name_char c || Ascii.eqb c "."%char then raise Unmodelled
           else ret tt
       | EmptyString => ret tt
       end ;;
  match fp, ex with
  | None, None =>
      match ip with
      | String "0"%char (String _ _) =>
          if number_of ip =? 0 then ret (IntLit 0, r3) else raise SyntaxError
      | _ => ret (IntLit (number_of ip), r3)
      end
  | _, _ =>
      let frac := match fp with Some ds => ds | None => EmptyString end in
      let e10 := match ex with Some e => e | None => 0 end in
      ret (FloatLit (dec (number_of (ip ++ frac)%string)
                         (e10 - Z.of_nat (String.length frac))), r3)
  end.

(** The first token of [s], which does not start with a space; [None]
    at the end of the text. *)
Definition lex1 (s : text) : result (option (token * text)) :=
  match s with
  | EmptyString => ret None
  | String c r =>
      if Ascii.eqb c "{"%char then ret (Some (LBrace, r))
      else if Ascii.eqb c "}"%char then ret (Some (RBrace, r))
      else if Ascii.eqb c "["%char then ret (Some (LBracket, r))
      else if Ascii.eqb c "]"%char then ret (Some (RBracket, r))
      else if Ascii.eqb c ","%char then ret (Some (Comma, r))
      else if Ascii.eqb c ":"%char then ret (Some (Colon, r))
      else if Ascii.eqb c "-"%char then ret (Some (Minus, r))
      else if Ascii.eqb c squote || Ascii.eqb c dquote then
        '(body, rest) <- lex_string c r ;; ret (Some (StrLit body, rest))
      else if is_digit c then
        tr <- lex_number s ;; ret (Some tr)
      else if is_letter c then
        let '(n, rest) := span_name s in ret (Some (Name n, rest))
      else raise Unmodelled
  end.

Fixpoint lex_from (fuel : nat) (s : text) : result (list token) :=
  match fuel with
  | O => raise Unmodelled
  | S f =>
      t <- lex1 (skip_spaces s) ;;
      match t with
      | None => ret []
      | Some (tok, rest) => ts <- lex_from f rest ;; ret (tok :: ts)
      end
  end.

(** The tokens of a text; a token takes at least one character, so the
    length of the text bounds their number. *)
Definition lex (s : text) : result (list token) :=
  lex_from (S (String.length s)) s.

(** What [literal_eval] returns. *)
Inductive pyobj : Type :=
| Value (v : pyval)
| Dict (d : dict).

Fixpoint parse_value (fuel : nat) (ts : list token) : result (pyval * list token) :=
  match fuel with
  | O => raise Unmodelled
  | S f =>
      match ts with
      | IntLit z :: r => ret (VInt z, r)
      | FloatLit x :: r => ret (VFloat x, r)
      | Minus :: IntLit z :: r => ret (VInt (- z), r)
      | Minus :: FloatLit x :: r => ret (VFloat (opp x), r)
      | Minus :: _ => raise ValueError
      | StrLit s :: r => ret (VStr s, r)
      | Name n :: r =>
          if String.eqb n "True" then ret (VBool true, r)
          else if String.eqb n "False" then ret (VBool false, r)
          else if String.eqb n "None" then ret (VNone, r)
          else raise ValueError
      | LBracket :: RBracket :: r => ret (VList [], r)
      | LBracket :: r =>
          '(vs, r') <- parse_items f r ;; ret (VList vs, r')
      | LBrace :: _ => raise Unmodelled
      | _ => raise SyntaxError
      end
  end

with parse_items (fuel : nat) (ts : list token) : result (list pyval * list token) :=
  match fuel with
  | O => raise Unmodelled
  | S f =>
      '(v, r) <- parse_value f ts ;;
      match r with
      | Comma :: RBracket :: r' => ret ([v], r')
      | Comma :: r' => '(vs, r'') <- parse_items f r' ;; ret (v :: vs, r'')
      | RBracket :: r' => ret ([v], r')
      | _ => raise SyntaxError
      end
  end.

(** The items of a dictionary display after the opening brace, put
    into [acc] one by one, as the display is evaluated. *)
Fixpoint parse_pairs (fuel : nat) (ts : list token) (acc : dict)
  : result (dict * list token) :=
  match fuel with
  | O => raise Unmodelled
  | S f =>
      match ts with
      | StrLit k :: Colon :: r =>
          '(v, r1) <- parse_value fuel r ;;
          let acc' := setitem acc k v in
          match r1 with
          | Comma :: RBrace :: r2 => ret (acc', r2)
          | Comma :: r2 => parse_pairs f r2 acc'
          | RBrace :: r2 => ret (acc', r2)
          | _ => raise SyntaxError
          end
      | StrLit _ :: _ => raise SyntaxError
      | _ => raise Unmodelled
      end
  end.

Definition parse (ts : list token) : result pyobj :=
  let fuel := S (List.length ts) in
  match ts with
  | LBrace :: RBrace :: [] => ret (Dict [])
  | LBrace :: r =>
      '(d, rest) <- parse_pairs fuel r [] ;;
      match rest with
      | [] => ret (Dict d)
      | _ => raise SyntaxError
      end
  | _ =>
      '(v, rest) <- parse_value fuel ts ;;
      match rest with
      | [] => ret (Value v)
      | _ => raise SyntaxError
      end
  end.

(** How deep the brackets and braces of the tokens are nested: [depth]
    of them are open, [deepest] is the most that were. *)
Fixpoint nesting_from (depth deepest : nat) (ts : list token) : nat :=
  match ts with
  | [] => deepest
  | (LBracket | LBrace) :: r => nesting_from (S depth) (Nat.max deepest (S depth)) r
  | (RBracket | RBrace) :: r => nesting_from (Nat.pred depth) deepest r
  | _ :: r => nesting_from depth deepest r
  end.

Definition nesting (ts : list token) : nat := nesting_from 0 0 ts.

(** A depth that the parser takes whatever is nested, and one at which
    its stack is full whatever is nested. *)
Definition max_nesting : nat := 90.
Definition overflow_nesting : nat := 110.

(** The opening brackets and braces of a text. *)
Fixpoint opening (s : text) : nat :=
  match s with
  | EmptyString => O
  | String c r =>
      if Ascii.eqb c "["%char || Ascii.eqb c "{"%char then S (opening r)
      else opening r
  end.

(** [ast.literal_eval(s)].  The parser reads the tokens as they come:
    text nested too deep stops it when nothing before is wrong, which
    is certain when the whole text is a literal, and a character that
    is no token stops it when the brackets before it do not. *)
Definition literal_eval (s : text) : result pyobj :=
  match lex s with
  | inr ts =>
      if (nesting ts <=? max_nesting)%nat then parse ts
      else if (nesting ts <=? overflow_nesting)%nat then raise Unmodelled
      else
        match parse ts with
        | inr _ => raise MemoryError
        | inl _ => raise Unmodelled
        end
  | inl e =>
      if (opening s <=? max_nesting)%nat then raise e else raise Unmodelled
  end.

End Ast.

(** ** Output file names

    Every notebook builds the name of its output file by the same
    expression, with a prefix of its own. *)

Module Naming.

Import Py Datetime.

(** [now.strftime("%d%m%y_%H%M%S")]. *)
Definition timestamp (now : datetime) : text := strftime now "%d%m%y_%H%M%S".

(** [prefix + struct["inc_shape"] + "_px" + str(struct["nd_period_x"]) +
    "_py" + str(struct["nd_period_y"]) + "_r" + str(struct["nd_radius"]) +
    "_h" + str(struct["nd_height"]) + "_" + timestamp]. *)
Definition out_filename (prefix : text) (struct : dict) (now : datetime)
  : result text :=
  shape <- getitem struct "inc_shape" ;;
  s <- concat_str prefix shape ;;
  px <- getitem struct "nd_period_x" ;;
  py <- getitem struct "nd_period_y" ;;
  r <- getitem struct "nd_radius" ;;
  h <- getitem struct "nd_height" ;;
  ret (s ++ "_px" ++ str px ++ "_py" ++ str py ++ "_r" ++ str r
         ++ "_h" ++ str h ++ "_" ++ timestamp now)%string.

(** The five writers of the repository. *)
Inductive writer : Type :=
| S4_Spectra
| EMU_Spectra
| EMU_Sweep
| EMU_LF
| S4_LF.

(** The string literal each writer's expression starts with. *)
Definition prefix (w : writer) : text :=
  match w with
  | S4_Spectra => "S4_AuNdArraySpectra_"
  | EMU_Spectra => "EMU_AuNdArraySpectra_"
  | EMU_Sweep => "EMU_AuNdArraySpectra_"
  | EMU_LF => "EMU_AuNdArrayLF_"
  | S4_LF => "S4_AuNdArrayLF_"
  end.

(** The path a writer hands to [to_netcdf] or [open]. *)
Definition out_path (w : writer) (name : text) : text :=
  match w with
  | EMU_Sweep => (name ++ ".out")%string
  | _ => ("data/" ++ name ++ ".nc")%string
  end.

Definition engine (w : writer) : text :=
  match w with
  | S4_Spectra | S4_LF => "S4"
  | _ => "EMU"
  end.

Definition sweep_kind (w : writer) : text :=
  match w with
  | EMU_LF | S4_LF => "AuNdArrayLF"
  | _ => "AuNdArraySpectra"
  end.

Definition extension (w : writer) : text :=
  match w with
  | EMU_Sweep => ".out"
  | _ => ".nc"
  end.

Definition directory (w : writer) : text :=
  match w with
  | EMU_Sweep => ""
  | _ => "data/"
  end.

End Naming.

(** ** The S4 solver object *)

Module S4.

Import F64 Py.

Definition complex : Type := (float * float)%type.

Definition of_real (x : float) : complex := (x, zero).

(** [a / b] on Python complex numbers. *)
Definition c_quot (a b : complex) : result complex :=
  let '(ar, ai) := a in
  let '(br, bi) := b in
  let abs_breal := if SFltb br zero then opp br else br in
  let abs_bimag := if SFltb bi zero then opp bi else bi in
  if SFleb abs_bimag abs_breal then
    if SFeqb abs_breal zero then raise ZeroDivisionError
    else
      let ratio := div bi br in
      let denom := add br (mul bi ratio) in
      ret (div (add ar (mul ai ratio)) denom,
           div (sub ai (mul ar ratio)) denom)
  else if SFleb abs_breal abs_bimag then
    let ratio := div br bi in
    let denom := add (mul br ratio) bi in
    ret (div (add (mul ar ratio) ai) denom,
         div (sub (mul ai ratio) ar) denom)
  else ret (nan, nan).

(** A complex number over a numpy float: both parts are divided. *)
Definition c_div_real (a : complex) (r : float) : complex :=
  (div (fst a) r, div (snd a) r).

Record Excitation : Type := {
  angles : float * float;
  s_amplitude : complex;
  p_amplitude : complex
}.

(** What an [S4.New] object holds. *)
Record Simulation : Type := {
  Lattice : (float * float) * (float * float);
  NumBasis : Z;
  Materials : list (text * complex);
  Layers : list (text * float * text);
  Regions : list (text * text * (float * float) * float);
  Planewave : option Excitation;
  Frequency : option float;
  Options : list (text * pyval)
}.

Definition New (lattice : (float * float) * (float * float)) (num_basis : Z)
  : Simulation :=
  {| Lattice := lattice; NumBasis := num_basis; Materials := [];
     Layers := []; Regions := []; Planewave := None; Frequency := None;
     Options := [] |}.

Fixpoint set_material (ms : list (text * complex)) (name : text) (eps : complex)
  : list (text * complex) :=
  match ms with
  | [] => [(name, eps)]
  | (n, e) :: r =>
      if String.eqb n name then (n, eps) :: r else (n, e) :: set_material r name eps
  end.

Definition SetMaterial (S : Simulation) (name : text) (eps : complex) : Simulation :=
  {| Lattice := Lattice S; NumBasis := NumBasis S;
     Materials := set_material (Materials S) name eps;
     Layers := Layers S; Regions := Regions S; Planewave := Planewave S;
     Frequency := Frequency S; Options := Options S |}.

Definition AddLayer (S : Simulation) (name : text) (thickness : float)
  (material : text) : Simulation :=
  {| Lattice := Lattice S; NumBasis := NumBasis S; Materials := Materials S;
     Layers := Layers S ++ [(name, thickness, material)];
     Regions := Regions S; Planewave := Planewave S;
     Frequency := Frequency S; Options := Options S |}.

Definition SetRegionCircle (S : Simulation) (layer material : text)
  (center : float * float) (radius : float) : Simulation :=
  {| Lattice := Lattice S; NumBasis := NumBasis S; Materials := Materials S;
     Layers := Layers S;
     Regions := Regions S ++ [(layer, material, center, radius)];
     Planewave := Planewave S; Frequency := Frequency S; Options := Options S |}.

Definition SetExcitationPlanewave (S : Simulation) (ang : float * float)
  (s p : complex) : Simulation :=
  {| Lattice := Lattice S; NumBasis := NumBasis S; Materials := Materials S;
     Layers := Layers S; Regions := Regions S;
     Planewave := Some {| angles := ang; s_amplitude := s; p_amplitude := p |};
     Frequency := Frequency S; Options := Options S |}.

Definition SetFrequency (S : Simulation) (f : float) : Simulation :=
  {| Lattice := Lattice S; NumBasis := NumBasis S; Materials := Materials S;
     Layers := Layers S; Regions := Regions S; Planewave := Planewave S;
     Frequency := Some f; Options := Options S |}.

Definition SetOptions (S : Simulation) (opts : list (text * pyval)) : Simulation :=
  {| Lattice := Lattice S; NumBasis := NumBasis S; Materials := Materials S;
     Layers := Layers S; Regions := Regions S; Planewave := Planewave S;
     Frequency := Frequency S; Options := opts |}.

(** Code that reads and updates the solver object and may raise. *)
Definition action (A : Type) : Type := Simulation -> Simulation * result A.

Definition pure {A : Type} (r : result A) : action A := fun S => (S, r).

Definition update (f : Simulation -> Simulation) : action unit :=
  fun S => (f S, ret tt).

Definition query {A : Type} (f : Simulation -> result A) : action A :=
  fun S => (S, f S).

Definition andthen {A B : Type} (m : action A) (k : A -> action B) : action B :=
  fun S =>
    match m S with
    | (S', inl e) => (S', inl e)
    | (S', inr a) => k a S'
    end.

End S4.

Notation "x <~ m ;; k" := (S4.andthen m (fun x => k))
  (at level 61, m at next level, right associativity).

(** ** The S4 spectra notebook *)

Module S4Spectra.

Import F64 Py Np S4 Datetime.

(** The dictionaries as the notebook fills them. *)
Module Inputs.

Definition light : dict :=
  let d := setitem [] "wl_min" (VFloat (dec 4000 (-1))) in
  let d := setitem d "wl_max" (VFloat (dec 8000 (-1))) in
  let d := setitem d "n_wl" (VInt 80) in
  let d := setitem d "theta" (VFloat (dec 0 (-1))) in
  let d := setitem d "phi" (VFloat (dec 0 (-1))) in
  let d := setitem d "pol" (VList [VFloat (dec 0 (-1)); VFloat (dec 10 (-1))]) in
  setitem d "NumBasis" (VInt 100).

Definition struct : dict :=
  let d := setitem [] "inc_shape" (VStr "circle") in
  let d := setitem d "nd_radius" (VFloat (dec 1000 (-1))) in
  let d := setitem d "nd_height" (VFloat (dec 1000 (-1))) in
  let d := setitem d "nd_period_x" (VFloat (dec 6000 (-1))) in
  let d := setitem d "nd_period_y" (VFloat (dec 6000 (-1))) in
  let d := setitem d "nd_inc_mat" (VStr "e_au") in
  let d := setitem d "nd_back_mat" (VStr "e_vacuum") in
  let d := setitem d "sub_mat" (VStr "e_vacuum") in
  let d := setitem d "sup_mat" (VStr "e_vacuum") in
  setitem d "materials_stack"
    (VList [VStr "e_vacuum"; VStr "e_au"; VStr "e_vacuum"]).

Definition s4 : dict :=
  let d := setitem [] "PolarizationDecomposition" (VBool true) in
  setitem d "PolarizationBasis" (VStr "Jones").

End Inputs.

(** [1.0/np.sqrt(2.0)] and [-1.0j/np.sqrt(2.0)]. *)
Definition s_circular : complex := of_real (div one (sqrt (dec 20 (-1)))).
Definition p_circular : complex :=
  c_div_real (opp zero, opp one) (sqrt (dec 20 (-1))).

Section Notebook.

Variables light struct s4 : dict.

(** The optical-constant lookup of [utils], the power fluxes of the
    solver and the modulus of a complex number are not part of the
    notebook. *)
Variable db_to_eps : float -> pyval -> result (list complex).
Variable GetPowerFlux : Simulation -> text -> float -> result (complex * complex).
Variable hypot : float -> float -> float.

Definition number (d : dict) (k : text) : result float :=
  v <- getitem d k ;; as_float v.

(** [np.linspace(light['wl_min'], light['wl_max'], light['n_wl'])]. *)
Definition v_wl : result array :=
  a <- getitem light "wl_min" ;;
  b <- getitem light "wl_max" ;;
  n <- getitem light "n_wl" ;;
  num <- as_index n ;;
  start <- as_float a ;;
  stop <- as_float b ;;
  linspace start stop num.

(** The cell that builds the S4 object [S]. *)
Definition build : result Simulation :=
  px <- getitem struct "nd_period_x" ;;
  py <- getitem struct "nd_period_y" ;;
  nb <- getitem light "NumBasis" ;;
  px <- as_float px ;;
  py <- as_float py ;;
  nb <- as_index nb ;;
  let S := New ((px, zero), (zero, py)) nb in
  wl_min <- getitem light "wl_min" ;;
  ms <- getitem struct "materials_stack" ;;
  wl_min <- as_float wl_min ;;
  e_list <- db_to_eps wl_min ms ;;
  e0 <- index e_list 0 ;;
  let S := SetMaterial S "Air" e0 in
  e1 <- index e_list 1 ;;
  let S := SetMaterial S "Au" e1 in
  let S := AddLayer S "Inc" zero "Air" in
  h <- number struct "nd_height" ;;
  let S := AddLayer S "Slab" h "Air" in
  r <- number struct "nd_radius" ;;
  let S := SetRegionCircle S "Slab" "Au" (zero, zero) r in
  let S := AddLayer S "Sub" zero "Air" in
  theta <- getitem light "theta" ;;
  phi <- getitem light "phi" ;;
  pol <- getitem light "pol" ;;
  pol0 <- subscript pol 0 ;;
  pol <- getitem light "pol" ;;
  pol1 <- subscript pol 1 ;;
  theta <- as_float theta ;;
  phi <- as_float phi ;;
  s <- as_float pol0 ;;
  p <- as_float pol1 ;;
  let S := SetExcitationPlanewave S (theta, phi) (of_real s) (of_real p) in
  wl_min <- number light "wl_min" ;;
  f <- float_div one wl_min ;;
  let S := SetFrequency S f in
  pd <- getitem s4 "PolarizationDecomposition" ;;
  pb <- getitem s4 "PolarizationBasis" ;;
  ret (SetOptions S [("PolarizationDecomposition", pd); ("PolarizationBasis", pb)]).

(** [rta(wl)]: R, T and A at one wavelength, on the solver object of
    the process that runs it. *)
Definition rta (wl : float) : action (float * float * float) :=
  theta <~ pure (getitem light "theta") ;;
  phi <~ pure (getitem light "phi") ;;
  theta <~ pure (as_float theta) ;;
  phi <~ pure (as_float phi) ;;
  _ <~ update (fun S => SetExcitationPlanewave S (theta, phi) s_circular p_circular) ;;
  _ <~ update (fun S => SetFrequency S (div one wl)) ;;
  ms <~ pure (getitem struct "materials_stack") ;;
  e_list <~ pure (db_to_eps wl ms) ;;
  e0 <~ pure (index e_list 0) ;;
  _ <~ update (fun S => SetMaterial S "Air" e0) ;;
  e1 <~ pure (index e_list 1) ;;
  _ <~ update (fun S => SetMaterial S "Au" e1) ;;
  f1 <~ query (fun S => GetPowerFlux S "Inc" zero) ;;
  f2 <~ query (fun S => GetPowerFlux S "Sub" zero) ;;
  let '(forw_1, back_1) := f1 in
  let '(forw_2, back_2) := f2 in
  qr <~ pure (c_quot back_1 forw_1) ;;
  let R := hypot (fst qr) (snd qr) in
  qt <~ pure (c_quot forw_2 forw_1) ;;
  let T := hypot (fst qt) (snd qt) in
  let A := sub (sub one R) T in
  pure (ret (R, T, A)).

(** [v_R, v_T, v_A = np.array(list(executor.map(rta, v_wl))).T]. *)
Definition spectra (S : Simulation) (sched : list nat) (wls : array)
  : result (array * array * array) :=
  rows <- Pool.executor_map (fun S wl => rta wl S) S sched wls ;;
  unpack3 rows.

Definition out_filename (now : datetime) : result text :=
  Naming.out_filename "S4_AuNdArraySpectra_" struct now.

(** The cell that saves the spectra and the three dictionaries. *)
Definition save (fs : Xr.disk) (now : datetime) (wls v_R v_T v_A : array)
  : result Xr.disk :=
  name <- out_filename now ;;
  m <- column_stack3 v_R v_T v_A ;;
  da <- Xr.new m (Xr.Numbers wls) (Xr.Labels ["R"; "T"; "A"])
          "wavelength" "spectrum" ;;
  let da := Xr.set_attr da "light" (str_dict light) in
  let da := Xr.set_attr da "struct" (str_dict struct) in
  let da := Xr.set_attr da "s4" (str_dict s4) in
  ret (Xr.to_netcdf fs ("data/" ++ name ++ ".nc")%string da).

(** The notebook from top to bottom. *)
Definition notebook (fs : Xr.disk) (now : datetime) (sched : list nat)
  : result Xr.disk :=
  wls <- v_wl ;;
  S <- build ;;
  '(v_R, v_T, v_A) <- spectra S sched wls ;;
  save fs now wls v_R v_T v_A.

End Notebook.

End S4Spectra.

(** ** EMUstack: layers, stacks and the two functions every EMUstack
    notebook defines

    [simulate_stack] and [rta_spectra] are written out, word for word
    the same, in the spectra notebook, the wavelength-angle sweep and
    the local-field notebook. *)

Module Emu.

Import F64 Py Np.

(** [objects.Light(wl, max_order_PWs=.., theta=.., phi=..)]. *)
Record Light : Type := {
  wl_nm : float;
  max_order_PWs : pyval;
  theta : pyval;
  phi : pyval
}.

(** An entry of EMUstack's [materials] module, by its name there. *)
Definition material : Type := text.

(** [objects.ThinFilm(period=.., period_y=.., height_nm=.., material=..,
    loss=..)]. *)
Record ThinFilm : Type := {
  tf_period : pyval;
  tf_period_y : pyval;
  tf_height_nm : pyval;
  tf_material : material;
  tf_loss : pyval
}.

(** [objects.NanoStruct(periodicity, period, diameter1, ..)]. *)
Record NanoStruct : Type := {
  ns_periodicity : pyval;
  ns_period : pyval;
  ns_diameter1 : float;
  ns_period_y : pyval;
  ns_height_nm : pyval;
  ns_inclusion_a : material;
  ns_background : material;
  ns_loss : pyval;
  ns_inc_shape : pyval;
  ns_plotting_fields : pyval;
  ns_make_mesh_now : pyval;
  ns_force_mesh : pyval;
  ns_lc_bkg : pyval;
  ns_lc2 : pyval;
  ns_lc3 : pyval
}.

Inductive layer : Type :=
| Film (f : ThinFilm)
| Nano (n : NanoStruct).

(** [mats[k]] for the dictionary of material objects. *)
Fixpoint lookup_material (mats : list (text * material)) (k : text)
  : result material :=
  match mats with
  | [] => raise (KeyError k)
  | (k', m) :: r => if String.eqb k' k then ret m else lookup_material r k
  end.

(** The three outputs of [calc_scat] that [rta_spectra] reads. *)
Record Scat : Type := {
  a_list : list float;
  t_list : list float;
  r_list : list float
}.

Section Solver.

(** A solved layer; the mode solver; and the scattering computation,
    which leaves its three lists on the stack. *)
Variable Simmo : Type.
Variable calc_modes : layer -> Light -> result Simmo.

(** [Stack((..))]. *)
Record Stack : Type := { layers : list Simmo }.

Variable calc_scat : Stack -> text -> result Scat.

Variables substrate superstrate NDs : layer.

Definition simulate_stack (light : Light) : result Stack :=
  sim_NDs <- calc_modes NDs light ;;
  sim_superstrate <- calc_modes superstrate light ;;
  sim_substrate <- calc_modes substrate light ;;
  let stackSub := {| layers := [sim_substrate; sim_NDs; sim_superstrate] |} in
  ret stackSub.

(** The totals of the [i]-th stack, read off the concatenated lists. *)
Definition totals (a t r : list float) (layers_steps : Z) (i : nat)
  : result (float * float * float) :=
  a_i <- item a (layers_steps - 1 + Z.of_nat i * layers_steps) ;;
  t_i <- item t (layers_steps - 1 + Z.of_nat i * layers_steps) ;;
  r_i <- item r (Z.of_nat i) ;;
  ret (r_i, t_i, a_i).

Definition rta_spectra (stacks_list : list Stack) (pol : text)
  : result (array * array * array) :=
  scats <- mapM (fun stack => calc_scat stack pol) stacks_list ;;
  let a := List.concat (map a_list scats) in
  let t := List.concat (map t_list scats) in
  let r := List.concat (map r_list scats) in
  first <- index stacks_list 0 ;;
  let layers_steps := Z.of_nat (List.length (layers first)) - 1 in
  tot <- mapM (totals a t r layers_steps) (seq 0 (List.length stacks_list)) ;;
  ret (map (fun x => fst (fst x)) tot,
       map (fun x => snd (fst x)) tot,
       map snd tot).

(** [list(executor.map(simulate_stack, light_list))]: the workers keep
    no state between tasks. *)
Definition solve_all (sched : list nat) (light_list : list Light)
  : result (list Stack) :=
  Pool.executor_map (fun (_ : unit) l => (tt, simulate_stack l)) tt sched light_list.

End Solver.

Arguments layers {Simmo} s.
Arguments simulate_stack {Simmo} calc_modes substrate superstrate NDs light.
Arguments rta_spectra {Simmo} calc_scat stacks_list pol.
Arguments solve_all {Simmo} calc_modes substrate superstrate NDs sched light_list.

(** The cell that initialises the three layers from the dictionaries. *)
Definition init_layers (struct emu : dict) (mats : list (text * material))
  : result (layer * layer * layer) :=
  px <- getitem struct "nd_period_x" ;;
  py <- getitem struct "nd_period_y" ;;
  sub_mat <- getitem struct "sub_mat" ;;
  sub_mat <- as_text sub_mat ;;
  sub_mat <- lookup_material mats sub_mat ;;
  sub_loss <- getitem struct "sub_loss" ;;
  let substrate :=
    Film {| tf_period := px; tf_period_y := py; tf_height_nm := VStr "semi_inf";
            tf_material := sub_mat; tf_loss := sub_loss |} in
  px <- getitem struct "nd_period_x" ;;
  py <- getitem struct "nd_period_y" ;;
  sup_mat <- getitem struct "sup_mat" ;;
  sup_mat <- as_text sup_mat ;;
  sup_mat <- lookup_material mats sup_mat ;;
  sup_loss <- getitem struct "sup_loss" ;;
  let superstrate :=
    Film {| tf_period := px; tf_period_y := py; tf_height_nm := VStr "semi_inf";
            tf_material := sup_mat; tf_loss := sup_loss |} in
  periodicity <- getitem struct "periodicity" ;;
  px <- getitem struct "nd_period_x" ;;
  radius <- getitem struct "nd_radius" ;;
  radius <- as_float radius ;;
  py <- getitem struct "nd_period_y" ;;
  h <- getitem struct "nd_height" ;;
  inc <- getitem struct "nd_inc_mat" ;;
  inc <- as_text inc ;;
  inc <- lookup_material mats inc ;;
  back <- getitem struct "nd_back_mat" ;;
  back <- as_text back ;;
  back <- lookup_material mats back ;;
  loss <- getitem struct "nd_loss" ;;
  shape <- getitem struct "inc_shape" ;;
  plotting_fields <- getitem emu "plotting_fields" ;;
  make_mesh_now <- getitem emu "make_mesh_now" ;;
  force_mesh <- getitem emu "force_mesh" ;;
  lc_bkg <- getitem emu "lc_bkg" ;;
  lc2 <- getitem emu "lc2" ;;
  lc3 <- getitem emu "lc3" ;;
  let NDs :=
    Nano {| ns_periodicity := periodicity; ns_period := px;
            ns_diameter1 := mul (dec 20 (-1)) radius; ns_period_y := py;
            ns_height_nm := h; ns_inclusion_a := inc; ns_background := back;
            ns_loss := loss; ns_inc_shape := shape;
            ns_plotting_fields := plotting_fields;
            ns_make_mesh_now := make_mesh_now; ns_force_mesh := force_mesh;
            ns_lc_bkg := lc_bkg; ns_lc2 := lc2; ns_lc3 := lc3 |} in
  ret (substrate, superstrate, NDs).

(** The two material objects every EMUstack notebook registers. *)
Definition mats : list (text * material) := [("Au", "Au"); ("Air", "Air")].

(** [str(mats)]: a material has no literal form; [obj_repr] is the
    text Python prints for the object. *)
Definition str_mats (obj_repr : material -> text) (ms : list (text * material))
  : text :=
  ("{" ++ join ", " (map (fun km => str_repr (fst km) ++ ": " ++ obj_repr (snd km)) ms)
     ++ "}")%string.

End Emu.

(** ** The EMUstack spectra notebook *)

Module EmuSpectra.

Import F64 Py Np Emu Datetime.

Module Inputs.

Definition light : dict :=
  let d := setitem [] "wl_min" (VFloat (dec 4000 (-1))) in
  let d := setitem d "wl_max" (VFloat (dec 8000 (-1))) in
  let d := setitem d "n_wl" (VInt 80) in
  let d := setitem d "theta" (VFloat (dec 0 (-1))) in
  let d := setitem d "phi" (VFloat (dec 0 (-1))) in
  let d := setitem d "pol" (VStr "TM") in
  setitem d "max_order_PWs" (VInt 2).

Definition struct : dict :=
  let d := setitem [] "periodicity" (VStr "2D_array") in
  let d := setitem d "inc_shape" (VStr "circle") in
  let d := setitem d "nd_radius" (VFloat (dec 1000 (-1))) in
  let d := setitem d "nd_height" (VFloat (dec 1000 (-1))) in
  let d := setitem d "nd_period_x" (VFloat (dec 6000 (-1))) in
  let d := setitem d "nd_period_y" (VFloat (dec 6000 (-1))) in
  let d := setitem d "nd_inc_mat" (VStr "Au") in
  let d := setitem d "nd_back_mat" (VStr "Air") in
  let d := setitem d "nd_loss" (VBool true) in
  let d := setitem d "sub_mat" (VStr "Air") in
  let d := setitem d "sup_mat" (VStr "Air") in
  let d := setitem d "sub_loss" (VBool false) in
  setitem d "sup_loss" (VBool false).

Definition emu : dict :=
  let d := setitem [] "plotting_fields" (VBool false) in
  let d := setitem d "make_mesh_now" (VBool true) in
  let d := setitem d "force_mesh" (VBool true) in
  let d := setitem d "lc_bkg" (VFloat (dec 15 (-2))) in
  let d := setitem d "lc2" (VFloat (dec 20 (-1))) in
  setitem d "lc3" (VFloat (dec 20 (-1))).

End Inputs.

Section Notebook.

Variables light struct emu : dict.
Variable obj_repr : material -> text.
Variable Simmo : Type.
Variable calc_modes : layer -> Light -> result Simmo.
Variable calc_scat : Stack Simmo -> text -> result Scat.

Definition v_wl : result array :=
  a <- getitem light "wl_min" ;;
  b <- getitem light "wl_max" ;;
  n <- getitem light "n_wl" ;;
  num <- as_index n ;;
  start <- as_float a ;;
  stop <- as_float b ;;
  linspace start stop num.

(** [[objects.Light(wl, max_order_PWs=light['max_order_PWs'],
    theta=light['theta'], phi=light['phi']) for wl in v_wl]]. *)
Definition light_list (wls : array) : result (list Light) :=
  mapM (fun wl =>
          m <- getitem light "max_order_PWs" ;;
          th <- getitem light "theta" ;;
          ph <- getitem light "phi" ;;
          ret {| wl_nm := wl; max_order_PWs := m; theta := th; phi := ph |})
       wls.

(** The two cells that compute: the stacks, then the spectra. *)
Definition spectra (substrate superstrate NDs : layer) (sched : list nat)
  (lights : list Light) : result (array * array * array) :=
  stacks_list <- solve_all calc_modes substrate superstrate NDs sched lights ;;
  pol <- getitem light "pol" ;;
  pol <- as_text pol ;;
  rta_spectra calc_scat stacks_list pol.

Definition out_filename (now : datetime) : result text :=
  Naming.out_filename "EMU_AuNdArraySpectra_" struct now.

Definition save (fs : Xr.disk) (now : datetime) (wls v_R v_T v_A : array)
  : result Xr.disk :=
  name <- out_filename now ;;
  m <- column_stack3 v_R v_T v_A ;;
  da <- Xr.new m (Xr.Numbers wls) (Xr.Labels ["R"; "T"; "A"])
          "wavelength" "spectrum" ;;
  let da := Xr.set_attr da "light" (str_dict light) in
  let da := Xr.set_attr da "struct" (str_dict struct) in
  let da := Xr.set_attr da "emu" (str_dict emu) in
  let da := Xr.set_attr da "mats" (str_mats obj_repr mats) in
  ret (Xr.to_netcdf fs ("data/" ++ name ++ ".nc")%string da).

(** The notebook from top to bottom. *)
Definition notebook (fs : Xr.disk) (now : datetime) (sched : list nat)
  : result Xr.disk :=
  wls <- v_wl ;;
  lights <- light_list wls ;;
  '(substrate, superstrate, NDs) <- init_layers struct emu mats ;;
  '(v_R, v_T, v_A) <- spectra substrate superstrate NDs sched lights ;;
  save fs now wls v_R v_T v_A.

End Notebook.

End EmuSpectra.

(** ** The EMUstack wavelength-angle sweep, written to a text table *)

Module EmuSweep.

Import F64 Py Np Emu Datetime.

Module Inputs.

Definition light : dict :=
  let d := setitem [] "wl_min" (VFloat (dec 4000 (-1))) in
  let d := setitem d "wl_max" (VFloat (dec 8000 (-1))) in
  let d := setitem d "n_wl" (VInt 10) in
  let d := setitem d "theta_min" (VFloat (dec 0 (-1))) in
  let d := setitem d "theta_max" (VFloat (dec 100 (-1))) in
  let d := setitem d "n_theta" (VInt 10) in
  let d := setitem d "phi" (VFloat (dec 0 (-1))) in
  setitem d "max_order_PWs" (VInt 2).

Definition struct : dict := setitem EmuSpectra.Inputs.struct "n_layers" (VInt 3).

Definition emu : dict := EmuSpectra.Inputs.emu.

End Inputs.

(** The text file [f] as the notebook drives it: the chunks passed to
    [f.write] so far, in order, and whether [f.close()] was called. *)
Record file : Type := {
  path : text;
  written : list text;
  closed : bool
}.

Definition open_w (p : text) : file :=
  {| path := p; written := []; closed := false |}.

Definition write (f : file) (s : text) : file :=
  {| path := path f; written := written f ++ [s]; closed := closed f |}.

Definition close (f : file) : file :=
  {| path := path f; written := written f; closed := true |}.

(** What of the file is on disk.  The text passed to [f.write] goes
    through the buffers of the io library: once the file is closed all
    of it is on disk; before that only the chunks the library has
    flushed are, the first [flushed (written f)] of them.  When the
    library flushes is its own business (the sizes of its buffers,
    the file system), which [flushed] stands for; the notebook never
    calls [flush]. *)
Definition on_disk (flushed : list text -> nat) (f : file) : list text :=
  if closed f then written f else firstn (flushed (written f)) (written f).

(** A loop over [xs] whose body updates [s] and may raise. *)
Fixpoint for_each {St A : Type} (body : St -> A -> St * result unit)
  (s : St) (xs : list A) : St * result unit :=
  match xs with
  | [] => (s, ret tt)
  | x :: r =>
      match body s x with
      | (s', inl e) => (s', inl e)
      | (s', inr _) => for_each body s' r
      end
  end.

(** [(l - r) / (l + r)] on arrays, with the warnings of the three
    operations. *)
Definition cd (l r : array) : result (array * list warning) :=
  '(d, w1) <- subtract l r ;;
  '(s, w2) <- plus l r ;;
  '(q, w3) <- divide d s ;;
  ret (q, w1 ++ w2 ++ w3).

Definition row_format : text :=
  (" %10.5f %8.5f %8.5f   %8.5f %8.5f %8.5f  %8.5f %8.5f %8.5f"
   ++ "  %8.5f %8.5f %8.5f  %8.5f %8.5f %8.5f  %8.5f %8.5f %8.5f " ++ newline)%string.

(** The fifteen spectra of one angle, in the order of the columns. *)
Record columns : Type := {
  R_te : array; T_te : array; A_te : array;
  R_tm : array; T_tm : array; A_tm : array;
  R_cd : array; T_cd : array; A_cd : array;
  R_r : array; T_r : array; A_r : array;
  R_l : array; T_l : array; A_l : array
}.

(** A chunk that is a row of the table: the rows start with a space,
    the header with [#], and the last chunk is an empty line. *)
Definition is_data_row (chunk : text) : bool :=
  match chunk with
  | String " "%char _ => true
  | _ => false
  end.

(** The rows among the chunks passed to [f.write]. *)
Definition data_rows (f : file) : list text := filter is_data_row (written f).

Section Notebook.

Variables light struct emu : dict.
Variable Simmo : Type.
Variable calc_modes : layer -> Light -> result Simmo.
Variable calc_scat : Stack Simmo -> text -> result Scat.

Definition v_wl : result array :=
  a <- getitem light "wl_min" ;;
  b <- getitem light "wl_max" ;;
  n <- getitem light "n_wl" ;;
  num <- as_index n ;;
  start <- as_float a ;;
  stop <- as_float b ;;
  linspace start stop num.

Definition v_theta : result array :=
  a <- getitem light "theta_min" ;;
  b <- getitem light "theta_max" ;;
  n <- getitem light "n_theta" ;;
  num <- as_index n ;;
  start <- as_float a ;;
  stop <- as_float b ;;
  linspace start stop num.

Definition out_filename (now : datetime) : result text :=
  Naming.out_filename "EMU_AuNdArraySpectra_" struct now.

Definition header : result text :=
  n_layers <- getitem struct "n_layers" ;;
  sup_mat <- getitem struct "sup_mat" ;;
  line0 <- format ("# number of layers = %d, superstrate_material = %s " ++ newline)%string
             [n_layers; sup_mat] ;;
  inc_mat <- getitem struct "nd_inc_mat" ;;
  height <- getitem struct "nd_height" ;;
  line1 <- format ("# film_material (patterned) = %s, film_nm= %10.5f " ++ newline)%string
             [inc_mat; height] ;;
  sub_mat <- getitem struct "sub_mat" ;;
  line4 <- format ("# substrate_material = %s " ++ newline)%string [sub_mat] ;;
  periodicity <- getitem struct "periodicity" ;;
  px <- getitem struct "nd_period_x" ;;
  py <- getitem struct "nd_period_y" ;;
  line5 <- format ("# lattice= %s, period= %8.3f,  period_y= %8.3f  " ++ newline)%string
             [periodicity; px; py] ;;
  radius <- getitem struct "nd_radius" ;;
  line6 <- format ("# radius1= %10.5f " ++ newline)%string [radius] ;;
  pws <- getitem light "max_order_PWs" ;;
  line7 <- format ("# max_order_PWs= %5d " ++ newline)%string [pws] ;;
  make_mesh_now <- getitem emu "make_mesh_now" ;;
  force_mesh <- getitem emu "force_mesh" ;;
  lc_bkg <- getitem emu "lc_bkg" ;;
  lc2 <- getitem emu "lc2" ;;
  lc3 <- getitem emu "lc3" ;;
  line8 <- format
             ("# make_mesh_now= %s, force_mesh= %s, lc_bkg= %8.3f, lc2= %8.3f, lc3= %8.3f  "
              ++ newline)%string
             [make_mesh_now; force_mesh; lc_bkg; lc2; lc3] ;;
  let line9 :=
    ("# lambda   theta  r_te t_te a_te r_tm t_tm a_tm r_cd t_cd a_cd r_rc t_rc a_rc r_lc t_lc a_lc  "
     ++ newline)%string in
  ret (line0 ++ line1 ++ line4 ++ line5 ++ line6 ++ line7 ++ line8 ++ line9)%string.

(** The cell that names the file, opens it and writes the header. *)
Definition start (now : datetime) : result file :=
  name <- out_filename now ;;
  h <- header ;;
  ret (write (open_w (name ++ ".out")%string) h).

Definition light_list (th : float) (wls : array) : result (list Light) :=
  mapM (fun wl =>
          m <- getitem light "max_order_PWs" ;;
          ph <- getitem light "phi" ;;
          ret {| wl_nm := wl; max_order_PWs := m; theta := VFloat th; phi := ph |})
       wls.

(** What one pass of the angle loop computes before it writes. *)
Definition angle_columns (substrate superstrate NDs : layer)
  (sched : list nat) (wls : array) (th : float) : result columns :=
  lights <- light_list th wls ;;
  stacks_list <- solve_all calc_modes substrate superstrate NDs sched lights ;;
  '(v_R_te, v_T_te, v_A_te) <- rta_spectra calc_scat stacks_list "TE" ;;
  '(v_R_tm, v_T_tm, v_A_tm) <- rta_spectra calc_scat stacks_list "TM" ;;
  '(v_R_r, v_T_r, v_A_r) <- rta_spectra calc_scat stacks_list "R Circ" ;;
  '(v_R_l, v_T_l, v_A_l) <- rta_spectra calc_scat stacks_list "L Circ" ;;
  '(v_R_cd, _) <- cd v_R_l v_R_r ;;
  '(v_T_cd, _) <- cd v_T_l v_T_r ;;
  '(v_A_cd, _) <- cd v_A_l v_A_r ;;
  ret {| R_te := v_R_te; T_te := v_T_te; A_te := v_A_te;
         R_tm := v_R_tm; T_tm := v_T_tm; A_tm := v_A_tm;
         R_cd := v_R_cd; T_cd := v_T_cd; A_cd := v_A_cd;
         R_r := v_R_r; T_r := v_T_r; A_r := v_A_r;
         R_l := v_R_l; T_l := v_T_l; A_l := v_A_l |}.

(** The text of the row of wavelength number [i_wl]. *)
Definition row (c : columns) (th : float) (i_wl : nat) (wl : float)
  : result text :=
  ph <- getitem light "phi" ;;
  r_te <- index (R_te c) i_wl ;; t_te <- index (T_te c) i_wl ;;
  a_te <- index (A_te c) i_wl ;;
  r_tm <- index (R_tm c) i_wl ;; t_tm <- index (T_tm c) i_wl ;;
  a_tm <- index (A_tm c) i_wl ;;
  r_cd <- index (R_cd c) i_wl ;; t_cd <- index (T_cd c) i_wl ;;
  a_cd <- index (A_cd c) i_wl ;;
  r_r <- index (R_r c) i_wl ;; t_r <- index (T_r c) i_wl ;;
  a_r <- index (A_r c) i_wl ;;
  r_l <- index (R_l c) i_wl ;; t_l <- index (T_l c) i_wl ;;
  a_l <- index (A_l c) i_wl ;;
  format row_format
    ([VFloat wl; VFloat th; ph] ++
     map VFloat [r_te; t_te; a_te; r_tm; t_tm; a_tm; r_cd; t_cd; a_cd;
                 r_r; t_r; a_r; r_l; t_l; a_l]).

Definition enumerate {A : Type} (xs : list A) : list (nat * A) :=
  combine (seq 0 (List.length xs)) xs.

(** One pass of the angle loop. *)
Definition one_angle (substrate superstrate NDs : layer)
  (sched : float -> list nat) (wls : array) (f : file) (th : float)
  : file * result unit :=
  match angle_columns substrate superstrate NDs (sched th) wls th with
  | inl e => (f, inl e)
  | inr c =>
      for_each (fun f iw =>
                  match row c th (fst iw) (snd iw) with
                  | inl e => (f, inl e)
                  | inr line => (write f line, ret tt)
                  end)
               f (enumerate wls)
  end.

(** The sweep cell: the angle loop, then the empty line and [close]. *)
Definition sweep (substrate superstrate NDs : layer)
  (sched : float -> list nat) (wls : array) (f : file) : file * result unit :=
  match v_theta with
  | inl e => (f, inl e)
  | inr thetas =>
      match for_each (one_angle substrate superstrate NDs sched wls) f thetas with
      | (f', inl e) => (f', inl e)
      | (f', inr _) => (close (write f' newline), ret tt)
      end
  end.

(** The notebook from top to bottom: the file, when it got to open
    one, and how the run ended. *)
Definition notebook (now : datetime) (sched : float -> list nat)
  : option file * result unit :=
  match (wls <- v_wl ;;
         ls <- init_layers struct emu mats ;;
         f <- start now ;;
         ret (wls, ls, f)) with
  | inl e => (None, inl e)
  | inr (wls, (substrate, superstrate, NDs), f) =>
      let '(f', r) := sweep substrate superstrate NDs sched wls f in
      (Some f', r)
  end.

End Notebook.

End EmuSweep.

(** ** The EMUstack local-field notebook *)

Module EmuLF.

Import F64 Py Np Emu Datetime.

Module Inputs.

Definition light : dict :=
  let d := setitem [] "theta" (VFloat (dec 0 (-1))) in
  let d := setitem d "phi" (VFloat (dec 0 (-1))) in
  let d := setitem d "pol" (VStr "TM") in
  setitem d "max_order_PWs" (VInt 2).

Definition struct : dict := EmuSpectra.Inputs.struct.

Definition emu : dict := setitem EmuSpectra.Inputs.emu "plotting_fields" (VBool true).

End Inputs.

(** A field component interpolated in the plane: called on the two
    coordinate arrays. *)
Definition interpolator : Type := array -> array -> result array.

(** The seven interpolators [plotting.fields_interpolator_in_plane]
    returns. *)
Record Fields : Type := {
  ReEx : interpolator; ImEx : interpolator;
  ReEy : interpolator; ImEy : interpolator;
  ReEz : interpolator; ImEz : interpolator;
  AbsE : interpolator
}.

(** The grid of the double loop: [x] outside, [y] inside. *)
Definition grid (xs ys : array) : array * array :=
  (List.concat (map (fun x => map (fun _ => x) ys) xs),
   List.concat (map (fun _ => ys) xs)).

Section Notebook.

Variables light struct emu : dict.
Variable obj_repr : material -> text.
Variable Simmo : Type.

(** A stack that holds the solution [calc_scat] computed. *)
Variable Solved : Type.
Variable calc_scat : Stack Simmo -> text -> result Solved.
Variable fields_interpolator_in_plane : Solved -> Z -> float -> result Fields.

(** [lf(stack, pol="TE", z=0.0, n_points=500, lay_interest=1)]. *)
Definition lf (stack : Stack Simmo) (pol : text) (z : float)
  (n_points lay_interest : Z) : result (list (list float)) :=
  solved <- calc_scat stack pol ;;
  fields <- fields_interpolator_in_plane solved 1 z ;;
  let n_points := 500 in
  let x_min := dec 0 (-1) in
  let x_max := dec 10 (-1) in
  py <- getitem struct "nd_period_y" ;;
  px <- getitem struct "nd_period_x" ;;
  q <- true_div py px ;;
  let y_min := opp q in
  let y_max := dec 0 (-1) in
  xs <- linspace x_min x_max n_points ;;
  ys <- linspace y_min y_max n_points ;;
  let '(v_x, v_y) := grid xs ys in
  vals <- AbsE fields v_x v_y ;;
  m <- reshape vals (Z.to_nat n_points) (Z.to_nat n_points) ;;
  ret (transpose (Z.to_nat n_points) m).

Definition out_filename (now : datetime) : result text :=
  Naming.out_filename "EMU_AuNdArrayLF_" struct now.

(** The cell that saves the map and the dictionaries. *)
Definition save (fs : Xr.disk) (now : datetime) (m_AbsE : list (list float))
  : result Xr.disk :=
  name <- out_filename now ;;
  px <- getitem struct "nd_period_x" ;;
  px <- as_float px ;;
  v_coords_x <- linspace (dec 0 (-1)) px 500 ;;
  py <- getitem struct "nd_period_y" ;;
  py <- as_float py ;;
  v_coords_y <- linspace (dec 0 (-1)) py 500 ;;
  da <- Xr.new m_AbsE (Xr.Numbers v_coords_y) (Xr.Numbers v_coords_x) "y" "x" ;;
  let da := Xr.set_attr da "light" (str_dict light) in
  let da := Xr.set_attr da "struct" (str_dict struct) in
  let da := Xr.set_attr da "emu" (str_dict emu) in
  let da := Xr.set_attr da "mats" (str_mats obj_repr mats) in
  ret (Xr.to_netcdf fs ("data/" ++ name ++ ".nc")%string da).

End Notebook.

End EmuLF.

(** ** The S4 local-field notebook: its output file name *)

Module S4LF.

Import Py Datetime.

Definition out_filename (struct : dict) (now : datetime) : result text :=
  Naming.out_filename "S4_AuNdArrayLF_" struct now.

End S4LF.

(** ** The data-exploration notebook: reading the metadata back *)

Module DataExploration.

Import Py Ast.

(** [emu_spectra = xr.load_dataarray(path)] and then
    [light = ast.literal_eval(emu_spectra.light)]. *)
Definition light (fs : Xr.disk) (path : text) : result pyobj :=
  emu_spectra <- Xr.load_dataarray fs path ;;
  t <- Xr.attr emu_spectra "light" ;;
  literal_eval t.

(** [struct_emu = ast.literal_eval(emu_lf.struct)]. *)
Definition struct_emu (fs : Xr.disk) (path : text) : result pyobj :=
  emu_lf <- Xr.load_dataarray fs path ;;
  t <- Xr.attr emu_lf "struct" ;;
  literal_eval t.

End DataExploration.

(** ** The five writers side by side *)

Module Writers.

Import Py Datetime Naming.

(** The [out_filename] of each notebook. *)
Definition out_filename (w : writer) (struct : dict) (now : datetime)
  : result text :=
  match w with
  | S4_Spectra => S4Spectra.out_filename struct now
  | EMU_Spectra => EmuSpectra.out_filename struct now
  | EMU_Sweep => EmuSweep.out_filename struct now
  | EMU_LF => EmuLF.out_filename struct now
  | S4_LF => S4LF.out_filename struct now
  end.

(** A number below 100 written on two digits. *)
Definition two_digits (n : Z) : text :=
  String (digit_char (n / 10)) (String (digit_char (n mod 10)) EmptyString).

(** Day, month, year, underscore, hour, minute, second. *)
Definition DDMMYY_HHMMSS (now : datetime) : text :=
  (two_digits (day now) ++ two_digits (month now) ++ two_digits (year now mod 100)
   ++ "_" ++ two_digits (hour now) ++ two_digits (minute now)
   ++ two_digits (second now))%string.

End Writers.

(** ** Small runs

    Stand-ins for the external solvers and small sweeps, on which the
    notebooks can be run from top to bottom. *)

Module Example.

Import F64 Py Np Emu Datetime.

(** The instant in the name of the spectra file the other notebooks
    load: 18 February 2022, 17:58:45. *)
Definition now : datetime :=
  {| year := 2022; month := 2; day := 18; hour := 17; minute := 58;
     second := 45; microsecond := 0 |}.

(** The same second, a little later. *)
Definition later : datetime :=
  {| year := 2022; month := 2; day := 18; hour := 17; minute := 58;
     second := 45; microsecond := 250000 |}.

(** A mode solver whose solved layer is the wavelength it was solved
    at. *)
Definition calc_modes (l : layer) (light : Light) : result float :=
  ret (wl_nm light).

(** A scattering computation whose totals are the wavelength of the
    first layer, whatever the polarization. *)
Definition calc_scat (st : Stack float) (pol : text) : result Scat :=
  let wl := hd zero (layers st) in
  ret {| a_list := [zero; wl]; t_list := [zero; wl]; r_list := [wl] |}.

(** A scattering computation that finds no power anywhere. *)
Definition calc_scat_dark (st : Stack float) (pol : text) : result Scat :=
  ret {| a_list := [zero; zero]; t_list := [zero; zero]; r_list := [zero] |}.

(** A mode solver that fails at every angle but zero. *)
Definition calc_modes_at_normal (l : layer) (light : Light) : result float :=
  match theta light with
  | VFloat th => if is_zero th then ret (wl_nm light) else raise (SolverError 1)
  | _ => raise TypeError
  end.

(** The sweep of the notebook cut down to two wavelengths and two
    angles. *)
Definition sweep_light : dict :=
  setitem (setitem EmuSweep.Inputs.light "n_wl" (VInt 2)) "n_theta" (VInt 2).

(** The sweep with fifty wavelengths and two angles: its rows of one
    angle are more than 8192 characters. *)
Definition long_sweep_light : dict :=
  setitem (setitem EmuSweep.Inputs.light "n_wl" (VInt 50)) "n_theta" (VInt 2).

(** An io library that holds back up to 8192 characters of pending
    text and writes all of it through when a write makes it more, as
    CPython does with ASCII text when the buffer below the text layer
    is of 8192 bytes or less: the number of chunks written through. *)
Fixpoint flushed_from (chunks : list text) (done pending : nat) (chars : Z) : nat :=
  match chunks with
  | [] => done
  | c :: r =>
      let chars' := chars + Z.of_nat (String.length c) in
      if 8192 <? chars' then flushed_from r (done + pending + 1) 0 0
      else flushed_from r done (pending + 1) chars'
  end.

Definition written_through (chunks : list text) : nat := flushed_from chunks 0 0 0.

(** The EMUstack spectra notebook cut down to three wavelengths. *)
Definition emu_light : dict := setitem EmuSpectra.Inputs.light "n_wl" (VInt 3).

(** The S4 notebook cut down to three wavelengths. *)
Definition s4_light : dict := setitem S4Spectra.Inputs.light "n_wl" (VInt 3).

(** Optical constants, power fluxes and a modulus for S4: a
    transparent stack that reflects a quarter of the power. *)
Definition db_to_eps (wl : float) (ms : pyval) : result (list S4.complex) :=
  ret [(one, zero); (one, zero); (one, zero)].

Definition GetPowerFlux (S : S4.Simulation) (layer : text) (z : float)
  : result (S4.complex * S4.complex) :=
  if String.eqb layer "Inc" then ret ((one, zero), (opp (dec 25 (-2)), zero))
  else ret ((dec 75 (-2), zero), (zero, zero)).

Definition hypot (re im : float) : float := abs re.

(** Every worker task on the first worker. *)
Definition sched : list nat := [].

(** For the local-field notebook: a scattering computation whose
    solution is a number, and interpolators that exist in layer 1
    only, with a field of modulus [hypot(x, y)] there. *)
Definition calc_scat_lf (st : Stack float) (pol : text) : result float := ret zero.

Definition radial : EmuLF.Fields :=
  let component : EmuLF.interpolator := fun v_x v_y => ret (map (fun _ => zero) v_x) in
  {| EmuLF.ReEx := component; EmuLF.ImEx := component;
     EmuLF.ReEy := component; EmuLF.ImEy := component;
     EmuLF.ReEz := component; EmuLF.ImEz := component;
     EmuLF.AbsE := fun v_x v_y =>
       ret (map (fun p => sqrt (add (mul (fst p) (fst p)) (mul (snd p) (snd p))))
              (combine v_x v_y)) |}.

Definition fields_interpolator_in_plane (solved : float) (lay_interest : Z)
  (z : float) : result EmuLF.Fields :=
  if lay_interest =? 1 then ret radial else raise IndexError.

(** [n] lists inside one another around [v]. *)
Fixpoint nested (n : nat) (v : pyval) : pyval :=
  match n with
  | O => v
  | S n' => VList [nested n' v]
  end.

End Example.

(** ** Terms of the statements

    What the statements below are written with: shapes of the values
    the solvers return, of the table rows and of the formats, and the
    tokens of the [repr] of a value.  None of it is code of the
    notebooks. *)

Module RunTerms.

Import F64 Py Np S4 S4Spectra Emu EmuSweep.

(** The solver object on which [rta] asks for the power fluxes. *)
Definition flux_state (S : Simulation) (ang : float * float) (wl : float)
  (e0 e1 : complex) : Simulation :=
  SetMaterial
    (SetMaterial
       (SetFrequency (SetExcitationPlanewave S ang s_circular p_circular)
          (div one wl)) "Air" e0) "Au" e1.

(** The lists [calc_scat] leaves for a stack of three layers: two
    entries in [a_list] and in [t_list], the total last, and one in
    [r_list]. *)
Definition well_shaped (sc : Scat) : Prop :=
  List.length (a_list sc) = 2%nat /\ List.length (t_list sc) = 2%nat
  /\ List.length (r_list sc) = 1%nat.

(** [f'] is [f] with [n] more rows. *)
Definition grown (f f' : file) (n : nat) : Prop :=
  exists rows,
    written f' = written f ++ rows /\ List.length rows = n /\
    Forall (fun l => is_data_row l = true) rows /\
    path f' = path f /\ closed f' = closed f.

(** [(l - r) / (l + r)] at one index. *)
Definition ratio (l r : float) : float := div (sub l r) (add l r).

(** A value that [%f] formats: a float, a bool, or an int that is not
    beyond the largest float. *)
Definition is_number (v : pyval) : bool :=
  match as_float v with
  | inr _ => true
  | inl _ => false
  end.

(** The format has [n] conversions, each a [%f] or a [%s]. *)
Fixpoint takes_numbers (fuel : nat) (fmt : text) (n : nat) : bool :=
  match fuel with
  | O => false
  | S f =>
      match fmt with
      | EmptyString => Nat.eqb n 0
      | String c r =>
          if Ascii.eqb c "%"%char then
            let '(w, r1) := span_digits r in
            let '(p, r2) :=
              match r1 with
              | String "."%char r' =>
                  let '(ds, r'') := span_digits r' in (Some (number_of ds), r'')
              | _ => (None, r1)
              end in
            match r2 with
            | EmptyString => false
            | String k r3 =>
                if Ascii.eqb k "%"%char then takes_numbers f r3 n
                else if Ascii.eqb k "f"%char || Ascii.eqb k "s"%char then
                  match n with
                  | O => false
                  | S n' => takes_numbers f r3 n'
                  end
                else false
            end
          else takes_numbers f r n
      end
  end.

(** All fifteen columns have [n] entries. *)
Definition columns_of_length (c : columns) (n : nat) : Prop :=
  List.length (R_te c) = n /\ List.length (T_te c) = n /\ List.length (A_te c) = n /\
  List.length (R_tm c) = n /\ List.length (T_tm c) = n /\ List.length (A_tm c) = n /\
  List.length (R_cd c) = n /\ List.length (T_cd c) = n /\ List.length (A_cd c) = n /\
  List.length (R_r c) = n /\ List.length (T_r c) = n /\ List.length (A_r c) = n /\
  List.length (R_l c) = n /\ List.length (T_l c) = n /\ List.length (A_l c) = n.

(** The keys of [struct] a file name is made of. *)
Definition geometry_keys : list text :=
  ["inc_shape"; "nd_period_x"; "nd_period_y"; "nd_radius"; "nd_height"].

End RunTerms.

(** ** Terms of the statements on floats *)

Module FloatTerms.

Import F64.

(** A float as binary64 has them: a finite one has a mantissa of 53
    bits, or fewer with the least exponent, and an exponent in
    range. *)
Definition valid (x : float) : bool := valid_binary prec emax x.

(** The float of mantissa [m] and exponent [e - 1074], as [of_ratio]
    packs it. *)
Definition pack (s : bool) (m e : Z) : float :=
  if m =? 0 then S754_zero s
  else
    let '(m, e) := if m =? 2 ^ 53 then (2 ^ 52, e + 1) else (m, e) in
    if e <=? 2045 then S754_finite s (Z.to_pos m) (e - 1074) else S754_infinity s.

(** [e] is the exponent, counted from [-1074], at which [N / D] has a
    mantissa of 53 bits, or zero when it has fewer there. *)
Definition exponent_of (N D e : Z) : Prop :=
  (e = 0 /\ N < D * 2 ^ 53) \/ (0 < e /\ D * 2 ^ (e + 52) <= N < D * 2 ^ (e + 53)).

End FloatTerms.

Import FloatTerms.

Module DigitTerms.

Import F64 Py.

(** [10^(k - 1) <= 2^j], where [k] is the estimate [exp10] starts
    from for a quotient of binade [j]; both sides are multiplied by
    [2^1074 * 10^400]. *)
Definition estimate_below (j : Z) : bool :=
  10 ^ (j * 30103 / 100000 - 1 + 400) * 2 ^ 1074 <=? 2 ^ (j + 1074) * 10 ^ 400.

(** [estimate_below] for the [n] binades from [j] on, with the two
    sides [a] and [b] of the comparison at [j] and the power [k] of ten
    on the left carried along. *)
Fixpoint estimates_from (n : nat) (j k a b : Z) : bool :=
  match n with
  | O => true
  | S n' =>
      (a <=? b) &&
      let k' := (j + 1) * 30103 / 100000 - 1 in
      if k' =? k then estimates_from n' (j + 1) k a (2 * b)
      else if k' =? k + 1 then estimates_from n' (j + 1) k' (10 * a) (2 * b)
      else false
  end.

End DigitTerms.

Import DigitTerms.

Module ReprTerms.

Import F64 Py.

(** What ends a run of digits: the end of the text or a character that
    is no digit. *)
Definition stops (rest : text) : Prop :=
  match rest with
  | EmptyString => True
  | String c _ => is_digit c = false
  end.

(** The mantissa of the exponent layout. *)
Definition mantissa (c : ascii) (r : text) : text :=
  match r with
  | EmptyString => str1 c
  | _ => String c (String "."%char r)
  end.

End ReprTerms.

Import ReprTerms.

Module LiteralTerms.

Import F64 Py Ast.

(** What may follow a value in a display: the end of the text, a
    comma or a closing bracket or brace. *)
Definition delimited (rest : text) : Prop :=
  match rest with
  | EmptyString => True
  | String c _ => c = ","%char \/ c = "]"%char \/ c = "}"%char
  end.

(** Every character of [ds] is a decimal digit. *)
Fixpoint all_digits (ds : text) : bool :=
  match ds with
  | EmptyString => true
  | String c r => is_digit c && all_digits r
  end.

(** The steps of [lex_number], one by one. *)
Definition frac_part (r1 : text) : option text * text :=
  match r1 with
  | String "."%char r => let '(ds, r') := span_digits r in (Some ds, r')
  | _ => (None, r1)
  end.

Definition exponent_sign (r : text) : bool * text :=
  match r with
  | String "-"%char r' => (true, r')
  | String "+"%char r' => (false, r')
  | _ => (false, r)
  end.

Definition end_check (r3 : text) : result unit :=
  match r3 with
  | String c _ =>
      if is_name_char c || Ascii.eqb c "."%char then raise Unmodelled else ret tt
  | EmptyString => ret tt
  end.

Definition number_token (ip : text) (fp : option text) (ex : option Z) (r3 : text)
  : result (token * text) :=
  match fp, ex with
  | None, None =>
      match ip with
      | String "0"%char (String _ _) =>
          if number_of ip =? 0 then ret (IntLit 0, r3) else raise SyntaxError
      | _ => ret (IntLit (number_of ip), r3)
      end
  | _, _ =>
      let frac := match fp with Some ds => ds | None => EmptyString end in
      let e10 := match ex with Some e => e | None => 0 end in
      ret (FloatLit (dec (number_of (ip ++ frac)%string)
                         (e10 - Z.of_nat (String.length frac))), r3)
  end.

(** Induction on values, with the entries of a list as smaller values. *)
Section Induction.

Variable P : pyval -> Prop.
Hypothesis HNone : P VNone.
Hypothesis HBool : forall b, P (VBool b).
Hypothesis HInt : forall z, P (VInt z).
Hypothesis HFloat : forall x, P (VFloat x).
Hypothesis HStr : forall s, P (VStr s).
Hypothesis HList : forall vs, Forall P vs -> P (VList vs).

Fixpoint pyval_induction (v : pyval) : P v :=
  match v with
  | VNone => HNone
  | VBool b => HBool b
  | VInt z => HInt z
  | VFloat x => HFloat x
  | VStr s => HStr s
  | VList vs =>
      HList vs
        ((fix entries (l : list pyval) : Forall P l :=
            match l with
            | [] => Forall_nil P
            | x :: r => Forall_cons x (pyval_induction x) (entries r)
            end) vs)
  end.

End Induction.

(** A value whose floats, at any depth, are finite numbers of
    binary64. *)
Fixpoint readable (v : pyval) : bool :=
  match v with
  | VFloat x => is_finite x && valid x
  | VList vs => forallb readable vs
  | _ => true
  end.

(** How deep the lists of a value are nested. *)
Fixpoint depth (v : pyval) : nat :=
  match v with
  | VList vs => S (list_max (map depth vs))
  | _ => O
  end.

(** The tokens of the [repr] of a value. *)
Fixpoint sep_tokens (tss : list (list token)) : list token :=
  match tss with
  | [] => []
  | [ts] => ts
  | ts :: r => ts ++ Comma :: sep_tokens r
  end.

(** A negative number is a minus sign and a literal. *)
Definition float_tokens (x : float) : list token :=
  match x with
  | S754_finite true m e => [Minus; FloatLit (S754_finite false m e)]
  | S754_zero true => [Minus; FloatLit zero]
  | _ => [FloatLit x]
  end.

Fixpoint tokens (v : pyval) : list token :=
  match v with
  | VNone => [Name "None"]
  | VBool true => [Name "True"]
  | VBool false => [Name "False"]
  | VInt z => if z <? 0 then [Minus; IntLit (- z)] else [IntLit z]
  | VFloat x => float_tokens x
  | VStr s => [StrLit s]
  | VList vs => LBracket :: sep_tokens (map tokens vs) ++ [RBracket]
  end.

Definition item_tokens (kv : text * pyval) : list token :=
  StrLit (fst kv) :: Colon :: tokens (snd kv).

Definition dict_tokens (d : dict) : list token :=
  LBrace :: sep_tokens (map item_tokens d) ++ [RBrace].

(** [s] is cut into the tokens [ts], whatever the fuel above its
    length. *)
Definition lexes (s : text) (ts : list token) : Prop :=
  forall f, (String.length s < f)%nat -> lex_from f s = ret ts.

(** The tokens [ts] close the brackets they open, [n] deep. *)
Definition nests (ts : list token) (n : nat) : Prop :=
  forall k m r, (k <= m)%nat ->
    nesting_from k m (ts ++ r) = nesting_from k (Nat.max m (k + n)) r.

(** The keys of [d] are distinct, as a test. *)
Fixpoint distinct (ks : list text) : bool :=
  match ks with
  | [] => true
  | k :: r => negb (existsb (String.eqb k) r) && distinct r
  end.

(** A dictionary as Python has them, with values whose floats are
    finite and whose lists, with the braces of the dictionary around
    them, are nested no deeper than [max_nesting]. *)
Definition readable_dict (d : dict) : bool :=
  distinct (map fst d) && forallb (fun kv => readable (snd kv)) d
  && forallb (fun kv => (depth (snd kv) <? max_nesting)%nat) d.

End LiteralTerms.

Import RunTerms LiteralTerms.

Module SolverTerms.

Import F64 Py S4.

(** The parts of the solver object that describe the structure. *)
Definition same_geometry (S S' : Simulation) : Prop :=
  Lattice S' = Lattice S /\ NumBasis S' = NumBasis S /\ Layers S' = Layers S /\
  Regions S' = Regions S /\ Options S' = Options S.

(** Every layer is made of a material that is defined, and every
    region lies in a layer that exists and is made of a material that
    is defined. *)
Definition well_formed (S : Simulation) : Prop :=
  (forall name thickness material,
      In (name, thickness, material) (Layers S) ->
      In material (map fst (Materials S))) /\
  (forall layer material center radius,
      In (layer, material, center, radius) (Regions S) ->
      In layer (map (fun l => fst (fst l)) (Layers S)) /\
      In material (map fst (Materials S))).

(** [S] has the geometry of [S0], and the two updates of [rta] make
    their materials the same. *)
Definition agree (S0 S : Simulation) : Prop :=
  same_geometry S0 S /\
  forall a b,
    set_material (set_material (Materials S) "Air" a) "Au" b
    = set_material (set_material (Materials S0) "Air" a) "Au" b.

End SolverTerms.

Import SolverTerms.

Module QuotientTerms.

Import F64 S4.

(** Both parts of a complex number are zero, of either sign. *)
Definition both_zero (c : complex) : bool := is_zero (fst c) && is_zero (snd c).

End QuotientTerms.

Import QuotientTerms.

Module ExampleFlux.

Import F64 Py S4.

(** A solver that finds no flux anywhere. *)
Definition GetPowerFlux_dark (S : Simulation) (layer : text) (z : float)
  : result (complex * complex) :=
  ret ((zero, zero), (zero, zero)).

End ExampleFlux.

Module NamingTerms.

Import Py Datetime.

(** What of an instant gets into a file name. *)
Definition stamp_fields (t : datetime) : list Z :=
  [day t; month t; year t mod 100; hour t; minute t; second t].

End NamingTerms.

Import NamingTerms.

Module TableTerms.

Import F64 Py Np Emu EmuSweep.

(** The rows of one angle, in the order of the wavelengths. *)
Definition angle_rows (light : dict) (c : columns) (th : float) (wls : array)
  : result (list text) :=
  mapM (fun iw => row light c th (fst iw) (snd iw)) (enumerate wls).

(** [f'] is [f] with the chunks [rows] written after what it had. *)
Definition appended (f f' : file) (rows : list text) : Prop :=
  written f' = written f ++ rows /\ path f' = path f /\ closed f' = closed f.

End TableTerms.

Import TableTerms.

(** ** Reading a spectrum back: the wavelength of maximum reflectance

    The two local-field notebooks load a spectra file and take the
    wavelength at which the stored reflectance is largest:
    [wl_index = spectra.sel(spectrum='R').argmax().item()] and then
    [spectra.coords['wavelength'][wl_index].item()]. *)

Module Selection.

Import F64 Py Np Xr.

(** The places of [label] among [ls], counted from [i]. *)
Fixpoint places (label : text) (ls : list text) (i : nat) : list nat :=
  match ls with
  | [] => []
  | l :: r =>
      if String.eqb l label then i :: places label r (S i)
      else places label r (S i)
  end.

(** [da.sel(spectrum=label)] on an array whose second dimension is
    [spectrum]: the column with that label, and a [KeyError] when the
    coordinate has no such label.  A label that occurs twice selects
    two columns, which is outside this model, as are arrays with
    another second dimension. *)
Definition sel_spectrum (da : DataArray) (label : text) : result array :=
  if String.eqb (snd (dims da)) "spectrum" then
    match snd (coords da) with
    | Numbers _ => raise (KeyError label)
    | Labels ls =>
        match places label ls 0 with
        | [] => raise (KeyError label)
        | [j] => mapM (fun row => index row j) (values da)
        | _ => raise Unmodelled
        end
    end
  else raise Unmodelled.

(** The first place of the largest entry of [a] that is no NaN, with
    that entry, scanning from the place [i] on with [best] so far. *)
Fixpoint first_max (a : array) (i : nat) (best : option (nat * float))
  : option (nat * float) :=
  match a with
  | [] => best
  | x :: r =>
      if is_nan x then first_max r (S i) best
      else
        match best with
        | None => first_max r (S i) (Some (i, x))
        | Some (_, b) =>
            if SFltb b x then first_max r (S i) (Some (i, x))
            else first_max r (S i) best
        end
  end.

(** [a.argmax().item()] on a one-dimensional float [DataArray]: NaNs
    are skipped, the first of several maxima is taken, and a
    [ValueError] is raised when nothing is left.  When NaNs are skipped
    and the largest entry left is minus infinity, numpy and bottleneck
    differ in the place they return: that case is outside this model. *)
Definition argmax (a : array) : result nat :=
  match first_max a 0 None with
  | None => raise ValueError
  | Some (k, m) =>
      if existsb is_nan a && SFeqb m (S754_infinity true) then raise Unmodelled
      else ret k
  end.

(** [da.coords[dim][i].item()] for a coordinate of numbers. *)
Definition coord_item (da : DataArray) (dim : text) (i : nat) : result float :=
  let pick (c : coord) : result float :=
    match c with
    | Numbers xs => index xs i
    | Labels _ => raise Unmodelled
    end in
  if String.eqb (fst (dims da)) dim then pick (fst (coords da))
  else if String.eqb (snd (dims da)) dim then pick (snd (coords da))
  else raise (KeyError dim).

(** The two lines that pick the wavelength the local field is computed
    at. *)
Definition max_reflectance_wavelength (spectra : DataArray) : result float :=
  v_R <- sel_spectrum spectra "R" ;;
  wl_index <- argmax v_R ;;
  coord_item spectra "wavelength" wl_index.

End Selection.

Module OrderTerms.

Import F64.

(** Where a float that is no NaN stands among the others: its class,
    then its exponent and its digits, both negated under the sign. *)
Definition rank (x : float) : Z * Z * Z :=
  match x with
  | S754_infinity true => (-2, 0, 0)
  | S754_finite true m e => (-1, - e, - Zpos m)
  | S754_zero _ => (0, 0, 0)
  | S754_finite false m e => (1, e, Zpos m)
  | S754_infinity false => (2, 0, 0)
  | S754_nan => (3, 0, 0)
  end.

Definition below (a b : Z * Z * Z) : Prop :=
  let '(a1, a2, a3) := a in
  let '(b1, b2, b3) := b in
  a1 < b1 \/ (a1 = b1 /\ (a2 < b2 \/ (a2 = b2 /\ a3 < b3))).

(** What the scan of [first_max] knows after the entries [pre]. *)
Definition scanned (pre : list float) (best : option (nat * float)) : Prop :=
  match best with
  | None => forall x, In x pre -> is_nan x = true
  | Some (k, b) =>
      nth_error pre k = Some b /\ is_nan b = false /\
      forall j x, nth_error pre j = Some x -> is_nan x = false ->
        SFltb b x = false /\ ((j < k)%nat -> SFltb x b = true)
  end.

End OrderTerms.

Import OrderTerms.

Module ExampleSpectra.

Import F64 Py Np Xr.

(** A spectra file of three wavelengths whose reflectance has two
    equal maxima and a NaN. *)
Definition twin_peaks : DataArray :=
  {| values := [[dec 2 (-1); dec 7 (-1); dec 1 (-1)];
                [dec 6 (-1); dec 3 (-1); dec 1 (-1)];
                [nan; dec 1 (-1); dec 1 (-1)];
                [dec 6 (-1); dec 3 (-1); dec 1 (-1)]];
     coords := (Numbers [dec 400 0; dec 500 0; dec 600 0; dec 700 0],
                Labels ["R"; "T"; "A"]);
     dims := ("wavelength", "spectrum");
     attrs := [] |}.

End ExampleSpectra.

(** * Properties *)

Module NamingFacts.

Import Py Datetime Naming Writers.

Lemma digits_of_small (n : Z) : 0 <= n < 10 -> digits_of n = str1 (digit_char n).
Proof.
  intros H. unfold digits_of. cbn [digits_from].
  destruct (Z.ltb_spec n 10); [reflexivity | lia].
Qed.

Lemma digits_of_two (n : Z) : 10 <= n < 100 -> digits_of n = two_digits n.
Proof.
  intros H. unfold digits_of. cbn [digits_from].
  destruct (Z.ltb_spec n 10); [lia |].
  assert (L : 3 <= Z.log2 n) by (apply Z.log2_le_pow2; lia).
  destruct (Z.to_nat (Z.log2 n)) as [| k] eqn:E; [lia |].
  cbn [digits_from].
  destruct (Z.ltb_spec (n / 10) 10) as [_ | B]; [reflexivity |].
  exfalso. assert (n / 10 < 10) by (apply Z.div_lt_upper_bound; lia). lia.
Qed.

Lemma pad2_two_digits (n : Z) : 0 <= n < 100 -> pad2 n = two_digits n.
Proof.
  intros H. unfold pad2.
  destruct (Z.ltb_spec n 10) as [A | A].
  - rewrite digits_of_small by lia. unfold two_digits, str1.
    rewrite Z.div_small, Z.mod_small by lia. reflexivity.
  - apply digits_of_two. lia.
Qed.

Lemma timestamp_layout (now : datetime) :
  valid now -> timestamp now = DDMMYY_HHMMSS now.
Proof.
  intros (Hy & Hm & Hd & Hh & Hmi & Hs & _).
  unfold timestamp, DDMMYY_HHMMSS. cbn [strftime].
  unfold directive. cbn [Ascii.eqb Bool.eqb].
  assert (0 <= year now mod 100 < 100) by (apply Z.mod_pos_bound; lia).
  rewrite !pad2_two_digits by lia. reflexivity.
Qed.

Lemma stamp_length (now : datetime) : String.length (DDMMYY_HHMMSS now) = 13%nat.
Proof. reflexivity. Qed.

End NamingFacts.

Module TextFacts.

Lemma append_assoc (a b c : string) : ((a ++ b) ++ c = a ++ (b ++ c))%string.
Proof. induction a as [| x a IH]; cbn; [reflexivity | now rewrite IH]. Qed.

Lemma append_nil_r (a : string) : (a ++ "")%string = a.
Proof. induction a as [| x a IH]; cbn; [reflexivity | now rewrite IH]. Qed.

Lemma length_append (a b : string) :
  String.length (a ++ b) = (String.length a + String.length b)%nat.
Proof. induction a as [| x a IH]; cbn; [reflexivity | now rewrite IH]. Qed.

End TextFacts.

Module NamingThms.

Import Py Datetime Naming Writers NamingFacts TextFacts.

(** C9.  Whatever the writer, the name of its output file is the
    engine tag, the kind of sweep, the inclusion shape, [_px], [_py],
    [_r] and [_h] each followed by the [str] of the entry of [struct],
    and the instant as day, month, two-digit year, underscore, hour,
    minute, second, joined by underscores; the path handed to the
    writing call is that name between the writer's directory and its
    extension. *)
Theorem out_filename_convention
  (w : writer) (struct : dict) (now : datetime) (shape : text) (px py r h : pyval) :
  getitem struct "inc_shape" = ret (VStr shape) ->
  getitem struct "nd_period_x" = ret px ->
  getitem struct "nd_period_y" = ret py ->
  getitem struct "nd_radius" = ret r ->
  getitem struct "nd_height" = ret h ->
  valid now ->
  exists name : text,
    out_filename w struct now = ret name /\
    name = (engine w ++ "_" ++ sweep_kind w ++ "_" ++ shape
            ++ "_px" ++ str px ++ "_py" ++ str py ++ "_r" ++ str r
            ++ "_h" ++ str h ++ "_" ++ DDMMYY_HHMMSS now)%string /\
    out_path w name = (directory w ++ name ++ extension w)%string.
Proof.
  intros Hs Hx Hy Hr Hh Hnow.
  exists ((prefix w ++ shape) ++ "_px" ++ str px ++ "_py" ++ str py ++ "_r"
            ++ str r ++ "_h" ++ str h ++ "_" ++ DDMMYY_HHMMSS now)%string.
  split; [| split].
  - destruct w; cbn [out_filename];
      unfold S4Spectra.out_filename, EmuSpectra.out_filename,
        EmuSweep.out_filename, EmuLF.out_filename, S4LF.out_filename,
        Naming.out_filename;
      rewrite Hs, Hx, Hy, Hr, Hh; cbn [bind ret concat_str];
      rewrite (timestamp_layout now Hnow); reflexivity.
  - destruct w; cbn [engine sweep_kind]; rewrite append_assoc; reflexivity.
  - destruct w; cbn [out_path directory extension];
      rewrite ?append_nil_r; reflexivity.
Qed.

End NamingThms.

Module ResultFacts.

Lemma bind_inr {A B : Type} (m : result A) (k : A -> result B) (b : B) :
  bind m k = inr b -> exists a, m = inr a /\ k a = inr b.
Proof. destruct m as [e | a]; cbn; [discriminate | eauto]. Qed.

Lemma bind_inl {A B : Type} (m : result A) (k : A -> result B) (e : exn) :
  bind m k = inl e -> m = inl e \/ exists a, m = inr a /\ k a = inl e.
Proof. destruct m as [e' | a]; cbn; [intros [= ->]; now left | eauto]. Qed.

Lemma mapM_length {A B : Type} (f : A -> result B) (xs : list A) (ys : list B) :
  mapM f xs = ret ys -> List.length ys = List.length xs.
Proof.
  revert ys. induction xs as [| x xs IH]; cbn; intros ys H.
  - injection H as <-. reflexivity.
  - apply bind_inr in H as (y & _ & H). apply bind_inr in H as (ys' & H' & H).
    injection H as <-. cbn. f_equal. now apply IH.
Qed.

Lemma mapM_nth {A B : Type} (f : A -> result B) (xs : list A) (ys : list B) :
  mapM f xs = ret ys ->
  forall i x, nth_error xs i = Some x ->
              exists y, nth_error ys i = Some y /\ f x = ret y.
Proof.
  revert ys. induction xs as [| x xs IH]; cbn; intros ys H i x' Hx.
  - destruct i; discriminate.
  - apply bind_inr in H as (y & Hy & H). apply bind_inr in H as (ys' & H' & H).
    injection H as <-. destruct i as [| i]; cbn in *.
    + injection Hx as <-. eauto.
    + eapply IH; eauto.
Qed.

Lemma mapM_ok {A B : Type} (f : A -> result B) (xs : list A) :
  (forall x, In x xs -> exists y, f x = ret y) ->
  exists ys, mapM f xs = ret ys.
Proof.
  induction xs as [| x xs IH]; cbn; intros H.
  - eexists. reflexivity.
  - destruct (H x) as (y & Hy); [now left |].
    destruct IH as (ys & Hys); [intros; apply H; now right |].
    rewrite Hy, Hys. eexists. reflexivity.
Qed.

Lemma mapM_first_failure {A B : Type} (f : A -> result B)
  (pre post : list A) (x : A) (e : exn) :
  (forall p, In p pre -> exists y, f p = ret y) ->
  f x = inl e ->
  mapM f (pre ++ x :: post) = inl e.
Proof.
  induction pre as [| p pre IH]; cbn; intros H Hx.
  - now rewrite Hx.
  - destruct (H p) as (y & Hy); [now left |]. rewrite Hy. cbn.
    rewrite IH; [reflexivity | intros; apply H; now right | assumption].
Qed.

Lemma index_nth {A : Type} (xs : list A) (i : nat) (x : A) :
  index xs i = ret x <-> nth_error xs i = Some x.
Proof.
  unfold index. destruct (nth_error xs i); split; intros [= ->]; reflexivity.
Qed.

End ResultFacts.

Module PoolFacts.

Import ResultFacts.

Section Facts.

Variables St A B : Type.
Variable step : St -> A -> St * result B.

Lemma run_length (states : nat -> St) (sched : list nat) (xs : list A) :
  List.length (Pool.run step states sched xs) = List.length xs.
Proof.
  revert states sched. induction xs as [| x xs IH]; cbn; intros; [reflexivity |].
  destruct (step _ x). cbn. now rewrite IH.
Qed.

Lemma collect_length (rs : list (result B)) (ys : list B) :
  Pool.collect rs = ret ys -> List.length ys = List.length rs.
Proof.
  revert ys. induction rs as [| r rs IH]; cbn; intros ys H.
  - injection H as <-. reflexivity.
  - apply bind_inr in H as (y & _ & H). apply bind_inr in H as (ys' & H' & H).
    injection H as <-. cbn. f_equal. now apply IH.
Qed.

Lemma executor_map_length s0 sched xs ys :
  Pool.executor_map step s0 sched xs = ret ys -> List.length ys = List.length xs.
Proof.
  unfold Pool.executor_map. intros H. apply collect_length in H.
  now rewrite run_length in H.
Qed.

(** Every task that the pool ran was run in some state of a worker. *)
Lemma run_nth (states : nat -> St) (sched : list nat) (xs : list A) :
  forall i x, nth_error xs i = Some x ->
    exists s, nth_error (Pool.run step states sched xs) i = Some (snd (step s x)).
Proof.
  revert states sched. induction xs as [| x xs IH]; cbn; intros states sched i x' Hx.
  - destruct i; discriminate.
  - destruct (step (states (hd 0%nat sched)) x) as [s' r] eqn:E.
    destruct i as [| i]; cbn in *.
    + injection Hx as <-. exists (states (hd 0%nat sched)). now rewrite E.
    + eapply IH; eauto.
Qed.

Lemma collect_nth (rs : list (result B)) (ys : list B) :
  Pool.collect rs = ret ys ->
  forall i r, nth_error rs i = Some r ->
              exists y, r = ret y /\ nth_error ys i = Some y.
Proof.
  revert ys. induction rs as [| r rs IH]; cbn; intros ys H i r' Hr.
  - destruct i; discriminate.
  - apply bind_inr in H as (y & Hy & H). apply bind_inr in H as (ys' & H' & H).
    injection H as <-. destruct i as [| i]; cbn in *.
    + injection Hr as <-. eauto.
    + eapply IH; eauto.
Qed.

Lemma collect_ok (rs : list (result B)) :
  (forall r, In r rs -> exists y, r = ret y) -> exists ys, Pool.collect rs = ret ys.
Proof.
  induction rs as [| r rs IH]; cbn; intros H.
  - eexists. reflexivity.
  - destruct (H r) as (y & ->); [now left |].
    destruct IH as (ys & Hys); [intros; apply H; now right |].
    rewrite Hys. eexists. reflexivity.
Qed.

(** The results come back in input order: the [i]-th one is what the
    [i]-th task returned in the state of the worker that ran it. *)
Lemma executor_map_nth s0 sched xs ys :
  Pool.executor_map step s0 sched xs = ret ys ->
  forall i x, nth_error xs i = Some x ->
    exists s y, nth_error ys i = Some y /\ snd (step s x) = ret y.
Proof.
  unfold Pool.executor_map. intros H i x Hx.
  destruct (run_nth (fun _ => s0) sched xs i x Hx) as (s & Hs).
  destruct (collect_nth _ _ H i _ Hs) as (y & Hy & Hn).
  eauto.
Qed.

Lemma run_in (states : nat -> St) (sched : list nat) (xs : list A) (r : result B) :
  In r (Pool.run step states sched xs) ->
  exists s x, In x xs /\ r = snd (step s x).
Proof.
  revert states sched. induction xs as [| x xs IH]; cbn; intros states sched H.
  - contradiction.
  - destruct (step (states (hd 0%nat sched)) x) as [s' r'] eqn:E.
    destruct H as [<- | H].
    + exists (states (hd 0%nat sched)), x. rewrite E. auto.
    + destruct (IH _ _ H) as (s & x' & Hin & Hr). eauto.
Qed.

(** When every task succeeds in every state, the batch succeeds. *)
Lemma executor_map_ok s0 sched xs :
  (forall s x, In x xs -> exists y, snd (step s x) = ret y) ->
  exists ys, Pool.executor_map step s0 sched xs = ret ys.
Proof.
  intros H. apply collect_ok. intros r Hr.
  apply run_in in Hr as (s & x & Hin & ->). now apply H.
Qed.

End Facts.

(** Workers without state: the pool is a plain map. *)
Lemma executor_map_stateless {A B : Type} (f : A -> result B)
  (sched : list nat) (xs : list A) :
  Pool.executor_map (fun (_ : unit) x => (tt, f x)) tt sched xs = mapM f xs.
Proof.
  unfold Pool.executor_map.
  assert (G : forall states sched,
             Pool.collect (Pool.run (fun (_ : unit) x => (tt, f x)) states sched xs)
             = mapM f xs).
  { induction xs as [| x xs IH]; cbn; intros; [reflexivity |].
    now rewrite IH. }
  apply G.
Qed.

End PoolFacts.

Module NpFacts.

Import F64 Np ResultFacts.

Lemma set_last_length (y : array) (v : float) :
  List.length (set_last y v) = List.length y.
Proof.
  induction y as [| x [| x' r] IH]; cbn in *; [reflexivity | reflexivity |].
  now rewrite IH.
Qed.

Lemma arange_length (n : nat) : List.length (arange n) = n.
Proof. unfold arange. now rewrite length_map, length_seq. Qed.

Lemma linspace_length (a b : float) (n : Z) (y : array) :
  linspace a b n = ret y -> List.length y = Z.to_nat n.
Proof.
  unfold linspace. destruct (n <? 0); [discriminate |].
  intros [= <-].
  destruct (1 <? n); rewrite ?set_last_length, length_map;
    destruct (0 <? n - 1); try destruct (is_zero _);
    now rewrite length_map, arange_length.
Qed.

Lemma linspace_ok (a b : float) (n : Z) :
  0 <= n -> exists y, linspace a b n = ret y.
Proof.
  intros H. unfold linspace. destruct (Z.ltb_spec n 0); [lia |]. eexists. reflexivity.
Qed.

Lemma unpack3_lengths (rows : list (float * float * float)) (a b c : array) :
  unpack3 rows = ret (a, b, c) ->
  List.length a = List.length rows /\ List.length b = List.length rows
  /\ List.length c = List.length rows.
Proof.
  destruct rows; cbn; [discriminate |]. intros [= <- <- <-].
  cbn. now rewrite !length_map.
Qed.

Lemma unpack3_columns (rows : list (float * float * float)) (a b c : array) :
  unpack3 rows = ret (a, b, c) ->
  a = map (fun t => fst (fst t)) rows /\ b = map (fun t => snd (fst t)) rows
  /\ c = map snd rows.
Proof.
  destruct rows as [| r rows]; [discriminate |].
  intros [= <- <- <-]. repeat split.
Qed.

Lemma unpack3_nth (rows : list (float * float * float)) (a b c : array) :
  unpack3 rows = ret (a, b, c) ->
  forall i t, nth_error rows i = Some t ->
    nth_error a i = Some (fst (fst t)) /\ nth_error b i = Some (snd (fst t))
    /\ nth_error c i = Some (snd t).
Proof.
  intros H i t Ht. apply unpack3_columns in H as (-> & -> & ->).
  rewrite !nth_error_map, Ht. repeat split.
Qed.

Lemma unpack3_ok (rows : list (float * float * float)) :
  rows <> [] -> exists a b c, unpack3 rows = ret (a, b, c).
Proof. destruct rows; [congruence |]. intros _. do 3 eexists. reflexivity. Qed.

End NpFacts.

Module S4Facts.

Import F64 Py Np S4 S4Spectra ResultFacts PoolFacts NpFacts.

Section Facts.

Variables light struct : dict.
Variable db_to_eps : float -> pyval -> result (list complex).
Variable GetPowerFlux : Simulation -> text -> float -> result (complex * complex).
Variable hypot : float -> float -> float.

Local Abbreviation rta := (S4Spectra.rta light struct db_to_eps GetPowerFlux hypot).

Lemma rta_returns (wl : float) (S S' : Simulation) (R T A : float) :
  rta wl S = (S', inr (R, T, A)) ->
  exists theta phi e0 e1 forw_1 back_1 forw_2 back_2 qr qt,
    S' = flux_state S (theta, phi) wl e0 e1 /\
    GetPowerFlux S' "Inc" zero = ret (forw_1, back_1) /\
    GetPowerFlux S' "Sub" zero = ret (forw_2, back_2) /\
    c_quot back_1 forw_1 = ret qr /\ R = hypot (fst qr) (snd qr) /\
    c_quot forw_2 forw_1 = ret qt /\ T = hypot (fst qt) (snd qt) /\
    A = sub (sub one R) T.
Proof.
  unfold S4Spectra.rta, andthen, pure, update, query. cbn.
  destruct (getitem light "theta") as [| th]; [discriminate |].
  destruct (getitem light "phi") as [| ph]; [discriminate |].
  destruct (as_float th) as [| theta]; [discriminate |].
  destruct (as_float ph) as [| phi]; [discriminate |].
  destruct (getitem struct "materials_stack") as [| ms]; [discriminate |].
  destruct (db_to_eps wl ms) as [| e_list]; [discriminate |].
  destruct (index e_list 0) as [| e0]; [discriminate |].
  destruct (index e_list 1) as [| e1]; [discriminate |].
  fold (flux_state S (theta, phi) wl e0 e1).
  destruct (GetPowerFlux _ "Inc" zero) as [| [forw_1 back_1]] eqn:F1; [discriminate |].
  destruct (GetPowerFlux _ "Sub" zero) as [| [forw_2 back_2]] eqn:F2; [discriminate |].
  destruct (c_quot back_1 forw_1) as [| qr] eqn:Q1; [discriminate |].
  destruct (c_quot forw_2 forw_1) as [| qt] eqn:Q2; [discriminate |].
  intros [= <- <- <- <-].
  exists theta, phi, e0, e1, forw_1, back_1, forw_2, back_2, qr, qt.
  repeat split; assumption.
Qed.

End Facts.

End S4Facts.

Module EmuFacts.

Import F64 Py Np Emu ResultFacts PoolFacts NpFacts.

Lemma item_nonneg {A : Type} (xs : list A) (i : Z) :
  0 <= i -> item xs i = index xs (Z.to_nat i).
Proof.
  intros H. unfold item.
  destruct (Z.ltb_spec i 0); [lia |].
  destruct (Z.leb_spec 0 i); [| lia]. cbn.
  destruct (Z.ltb_spec i (Z.of_nat (List.length xs))); [reflexivity |].
  unfold index. rewrite (proj2 (nth_error_None xs (Z.to_nat i))); [reflexivity | lia].
Qed.

(** In a concatenation of lists of length [L], the [j]-th entry of the
    [i]-th list sits at index [i * L + j]. *)
Lemma concat_nth_uniform {A : Type} (L : nat) (ls : list (list A)) :
  Forall (fun l => List.length l = L) ls ->
  forall i j l, nth_error ls i = Some l -> (j < L)%nat ->
    nth_error (List.concat ls) (i * L + j) = nth_error l j.
Proof.
  induction 1 as [| l0 ls H0 Hall IH]; intros i j l Hl Hj.
  - destruct i; discriminate.
  - destruct i as [| i]; cbn in *.
    + injection Hl as <-. apply nth_error_app1. lia.
    + rewrite nth_error_app2 by lia.
      replace (L + i * L + j - List.length l0)%nat with (i * L + j)%nat by lia.
      now apply IH.
Qed.

Section Facts.

Variable Simmo : Type.
Variable calc_modes : layer -> Light -> result Simmo.
Variable calc_scat : Stack Simmo -> text -> result Scat.
Variables substrate superstrate NDs : layer.

Lemma simulate_stack_layers (l : Light) (st : Stack Simmo) :
  simulate_stack calc_modes substrate superstrate NDs l = ret st ->
  List.length (layers st) = 3%nat.
Proof.
  unfold simulate_stack. intros H.
  apply bind_inr in H as (a & _ & H). apply bind_inr in H as (b & _ & H).
  apply bind_inr in H as (c & _ & H). injection H as <-. reflexivity.
Qed.

Lemma rta_spectra_lengths (stacks : list (Stack Simmo)) (pol : text) (R T A : array) :
  rta_spectra calc_scat stacks pol = ret (R, T, A) ->
  List.length R = List.length stacks /\ List.length T = List.length stacks
  /\ List.length A = List.length stacks.
Proof.
  unfold rta_spectra. intros H.
  apply bind_inr in H as (scats & _ & H). apply bind_inr in H as (st0 & _ & H).
  apply bind_inr in H as (tot & Htot & H). injection H as <- <- <-.
  apply mapM_length in Htot. rewrite length_seq in Htot.
  now rewrite !length_map.
Qed.

Lemma rta_spectra_returns (stacks : list (Stack Simmo)) (pol : text) :
  stacks <> [] ->
  (forall st, In st stacks -> List.length (layers st) = 3%nat) ->
  (forall st, In st stacks -> exists sc, calc_scat st pol = ret sc /\ well_shaped sc) ->
  exists R T A,
    rta_spectra calc_scat stacks pol = ret (R, T, A) /\
    forall i st, nth_error stacks i = Some st ->
      exists sc r t a,
        calc_scat st pol = ret sc /\
        nth_error (r_list sc) 0 = Some r /\ nth_error (t_list sc) 1 = Some t /\
        nth_error (a_list sc) 1 = Some a /\
        nth_error R i = Some r /\ nth_error T i = Some t /\ nth_error A i = Some a.
Proof.
  intros Hne H3 Hsc.
  destruct (mapM_ok (fun stack => calc_scat stack pol) stacks) as (scats & Hscats).
  { intros st Hin. destruct (Hsc st Hin) as (sc & -> & _). eauto. }
  assert (Hshape : Forall well_shaped scats).
  { apply Forall_forall. intros sc Hin.
    apply In_nth_error in Hin as (i & Hi).
    assert (Hlen := mapM_length _ _ _ Hscats).
    destruct (nth_error stacks i) as [st |] eqn:Est.
    - destruct (mapM_nth _ _ _ Hscats i st Est) as (sc' & Hsc' & Hc).
      rewrite Hi in Hsc'. injection Hsc' as <-.
      destruct (Hsc st (nth_error_In _ _ Est)) as (sc'' & Hc'' & Hw).
      rewrite Hc in Hc''. injection Hc'' as <-. exact Hw.
    - apply nth_error_None in Est. assert (i < List.length scats)%nat
        by (apply nth_error_Some; congruence). lia. }
  assert (Ha : Forall (fun l => List.length l = 2%nat) (map a_list scats)).
  { apply Forall_map. eapply Forall_impl; [| exact Hshape]. now intros sc (? & ? & ?). }
  assert (Ht : Forall (fun l => List.length l = 2%nat) (map t_list scats)).
  { apply Forall_map. eapply Forall_impl; [| exact Hshape]. now intros sc (? & ? & ?). }
  assert (Hr : Forall (fun l => List.length l = 1%nat) (map r_list scats)).
  { apply Forall_map. eapply Forall_impl; [| exact Hshape]. now intros sc (? & ? & ?). }
  set (a := List.concat (map a_list scats)).
  set (t := List.concat (map t_list scats)).
  set (r := List.concat (map r_list scats)).
  destruct stacks as [| st0 rest] eqn:Estacks; [congruence |]. rewrite <- Estacks in *.
  assert (H0 : index stacks 0 = ret st0) by (rewrite Estacks; reflexivity).
  assert (L0 : Z.of_nat (List.length (layers st0)) - 1 = 2).
  { rewrite (H3 st0); [reflexivity | rewrite Estacks; now left]. }
  (* the totals of every index *)
  assert (Htot : forall i st, nth_error stacks i = Some st ->
            exists sc rv tv av,
              calc_scat st pol = ret sc /\
              nth_error (r_list sc) 0 = Some rv /\ nth_error (t_list sc) 1 = Some tv /\
              nth_error (a_list sc) 1 = Some av /\
              totals a t r 2 i = ret (rv, tv, av)).
  { intros i st Hi.
    destruct (mapM_nth _ _ _ Hscats i st Hi) as (sc & Hsci & Hc).
    assert (Hw : well_shaped sc).
    { destruct (Hsc st (nth_error_In _ _ Hi)) as (sc' & Hc' & Hw).
      rewrite Hc in Hc'. now injection Hc' as <-. }
    destruct Hw as (La & Lt & Lr).
    destruct (a_list sc) as [| a0 [| a1 [| ? ?]]] eqn:Ea; try discriminate.
    destruct (t_list sc) as [| t0 [| t1 [| ? ?]]] eqn:Et; try discriminate.
    destruct (r_list sc) as [| r0 [| ? ?]] eqn:Er; try discriminate.
    exists sc, r0, t1, a1.
    split; [assumption |].
    split; [now rewrite Er |]. split; [now rewrite Et |]. split; [now rewrite Ea |].
    unfold totals. rewrite !item_nonneg by lia.
    replace (Z.to_nat (2 - 1 + Z.of_nat i * 2)) with (i * 2 + 1)%nat by lia.
    rewrite Nat2Z.id.
    unfold index, a, t, r.
    rewrite (concat_nth_uniform 2 _ Ha i 1 (a_list sc)); [| now rewrite nth_error_map, Hsci | lia].
    rewrite (concat_nth_uniform 2 _ Ht i 1 (t_list sc)); [| now rewrite nth_error_map, Hsci | lia].
    assert (Hrr := concat_nth_uniform 1 _ Hr i 0 (r_list sc)).
    replace (i * 1 + 0)%nat with i in Hrr by lia.
    rewrite Hrr; [| now rewrite nth_error_map, Hsci | lia].
    rewrite Ea, Et, Er. reflexivity. }
  destruct (mapM_ok (totals a t r 2) (seq 0 (List.length stacks))) as (tot & Htots).
  { intros i Hin. apply in_seq in Hin.
    destruct (nth_error stacks i) as [st |] eqn:Est.
    - destruct (Htot i st Est) as (sc & rv & tv & av & _ & _ & _ & _ & ->). eauto.
    - apply nth_error_None in Est. lia. }
  exists (map (fun x => fst (fst x)) tot), (map (fun x => snd (fst x)) tot), (map snd tot).
  split.
  - unfold rta_spectra. rewrite Hscats. cbn [bind ret]. rewrite H0. cbn [bind ret].
    rewrite L0. fold a t r. rewrite Htots. reflexivity.
  - intros i st Hi.
    destruct (Htot i st Hi) as (sc & rv & tv & av & Hc & Hrv & Htv & Hav & Hti).
    exists sc, rv, tv, av. repeat split; try assumption.
    all: assert (Hs : nth_error (seq 0 (List.length stacks)) i = Some i)
      by (rewrite nth_error_seq;
          assert (i < List.length stacks)%nat by (apply nth_error_Some; congruence);
          destruct (Nat.ltb_spec i (List.length stacks)); [reflexivity | lia]);
      destruct (mapM_nth _ _ _ Htots i i Hs) as (y & Hy & Hyt);
      rewrite Hti in Hyt; injection Hyt as <-;
      rewrite nth_error_map, Hy; reflexivity.
Qed.

End Facts.

End EmuFacts.

Module SweepFacts.

Import F64 Py Np Emu EmuSweep ResultFacts PoolFacts NpFacts EmuFacts.

Lemma for_each_app {St A : Type} (body : St -> A -> St * result unit)
  (s : St) (xs ys : list A) :
  for_each body s (xs ++ ys) =
  match for_each body s xs with
  | (s', inl e) => (s', inl e)
  | (s', inr _) => for_each body s' ys
  end.
Proof.
  revert s. induction xs as [| x xs IH]; cbn; intros s; [reflexivity |].
  destruct (body s x) as [s' [e | u]]; [reflexivity | apply IH].
Qed.

(** A format that starts with a plain character gives a text that
    starts with it. *)
Lemma format_head (c : ascii) (fmt : text) (args : list pyval) (line : text) :
  Ascii.eqb c "%"%char = false ->
  format (String c fmt) args = ret line ->
  exists rest, line = String c rest.
Proof.
  intros Hc. unfold format. cbn [String.length format_from]. rewrite Hc.
  intros H. apply bind_inr in H as (rest & _ & H). injection H as <-. eauto.
Qed.

Lemma grown_refl (f : file) : grown f f 0.
Proof. exists []. rewrite app_nil_r. repeat split. constructor. Qed.

Lemma grown_trans (f g h : file) (n m : nat) :
  grown f g n -> grown g h m -> grown f h (n + m).
Proof.
  intros (r1 & W1 & L1 & F1 & P1 & C1) (r2 & W2 & L2 & F2 & P2 & C2).
  exists (r1 ++ r2). rewrite W2, W1, <- app_assoc, length_app, L1, L2.
  repeat split; try congruence. now apply Forall_app.
Qed.

Lemma grown_write (f : file) (line : text) :
  is_data_row line = true -> grown f (write f line) 1.
Proof. intros H. exists [line]. repeat split. now constructor. Qed.

Lemma data_rows_grown (f f' : file) (n : nat) :
  grown f f' n -> List.length (data_rows f') = (List.length (data_rows f) + n)%nat.
Proof.
  intros (rows & W & L & F & _). unfold data_rows. rewrite W, filter_app, length_app.
  f_equal. rewrite <- L. f_equal. rewrite forallb_filter_id; [reflexivity |].
  now apply forallb_forall, Forall_forall.
Qed.

Section Facts.

Variables light struct emu : dict.
Variable Simmo : Type.
Variable calc_modes : layer -> Light -> result Simmo.
Variable calc_scat : Stack Simmo -> text -> result Scat.
Variables substrate superstrate NDs : layer.

Lemma row_is_data_row (c : columns) (th : float) (i : nat) (wl : float) (line : text) :
  row light c th i wl = ret line -> is_data_row line = true.
Proof.
  unfold row. intros H.
  do 16 (apply bind_inr in H as (? & _ & H)).
  apply format_head in H as (rest & ->); reflexivity.
Qed.

(** The loop over the wavelengths adds one row per wavelength it
    gets through. *)
Lemma rows_loop (c : columns) (th : float) (iws : list (nat * float))
  (f f' : file) (r : result unit) :
  for_each (fun f iw =>
              match row light c th (fst iw) (snd iw) with
              | inl e => (f, inl e)
              | inr line => (write f line, ret tt)
              end) f iws = (f', r) ->
  exists n, grown f f' n /\ (n <= List.length iws)%nat /\
            (forall u, r = inr u -> n = List.length iws).
Proof.
  revert f. induction iws as [| iw iws IH]; cbn; intros f H.
  - injection H as <- <-. exists 0%nat. split; [apply grown_refl | auto].
  - destruct (row light c th (fst iw) (snd iw)) as [e | line] eqn:E.
    + injection H as <- <-. exists 0%nat. split; [apply grown_refl |].
      split; [lia | discriminate].
    + apply IH in H as (n & G & Hle & Hn). exists (1 + n)%nat.
      split; [| split; [lia | intros u Hu; now rewrite (Hn u Hu)]].
      eapply grown_trans; [| exact G]. apply grown_write.
      eapply row_is_data_row; eauto.
Qed.

Lemma enumerate_length {A : Type} (xs : list A) :
  List.length (enumerate xs) = List.length xs.
Proof. unfold enumerate. rewrite length_combine, length_seq. lia. Qed.

Lemma one_angle_rows (sched : float -> list nat) (wls : array) (f f' : file)
  (th : float) (r : result unit) :
  one_angle light Simmo calc_modes calc_scat substrate superstrate NDs sched wls f th
  = (f', r) ->
  exists n, grown f f' n /\ (n <= List.length wls)%nat /\
            (forall u, r = inr u -> n = List.length wls).
Proof.
  unfold one_angle.
  destruct (angle_columns _ _ _ _ _ _ _ _ _ _) as [e | c].
  - intros [= <- <-]. exists 0%nat. split; [apply grown_refl |]. split; [lia | discriminate].
  - intros H. apply rows_loop in H. now rewrite enumerate_length in H.
Qed.

(** The angle loop: every angle it gets through adds one row per
    wavelength. *)
Lemma angle_loop_rows (sched : float -> list nat) (wls : array)
  (thetas : list float) (f f' : file) (u : unit) :
  for_each (one_angle light Simmo calc_modes calc_scat substrate superstrate NDs sched wls)
    f thetas = (f', inr u) ->
  grown f f' (List.length thetas * List.length wls).
Proof.
  revert f. induction thetas as [| th thetas IH]; cbn; intros f H.
  - injection H as <-. apply grown_refl.
  - destruct (one_angle _ _ _ _ _ _ _ _ _ _ th) as [f1 [e | u1]] eqn:E; [discriminate |].
    apply one_angle_rows in E as (n & G & _ & Hn). rewrite (Hn u1 eq_refl) in G.
    eapply grown_trans; [exact G | now apply IH].
Qed.

End Facts.

End SweepFacts.

Module FloatFacts.

Import F64.

Lemma shr_1_nonneg (mrs : shr_record) : 0 <= shr_m mrs -> 0 <= shr_m (shr_1 mrs).
Proof.
  destruct mrs as [m r s]. cbn. destruct m as [| [p | p |] | p]; cbn; lia.
Qed.

Lemma iter_shr_1_nonneg (p : positive) (mrs : shr_record) :
  0 <= shr_m mrs -> 0 <= shr_m (iter_pos shr_1 p mrs).
Proof.
  revert mrs. induction p as [p IH | p IH |]; cbn; intros mrs H.
  - apply IH, IH, shr_1_nonneg, H.
  - apply IH, IH, H.
  - apply shr_1_nonneg, H.
Qed.

Lemma shr_record_of_loc_m (m : Z) (l : location) : shr_m (shr_record_of_loc m l) = m.
Proof. destruct l as [| []]; reflexivity. Qed.

Lemma shr_fexp_nonneg (m e : Z) (l : location) :
  0 <= m -> 0 <= shr_m (fst (shr_fexp prec emax m e l)).
Proof.
  intros H. unfold shr_fexp, shr.
  destruct (fexp prec emax (Zdigits2 m + e) - e) as [| p | p]; cbn [fst];
    rewrite ?shr_record_of_loc_m; try assumption.
  apply iter_shr_1_nonneg. now rewrite shr_record_of_loc_m.
Qed.

Lemma round_nearest_even_nonneg (m : Z) (l : location) :
  0 <= m -> 0 <= round_nearest_even m l.
Proof.
  intros H. destruct l as [| []]; cbn; try lia. destruct (Z.even m); lia.
Qed.

(** Rounding a non-negative mantissa never gives a NaN. *)
Lemma binary_round_aux_not_nan (sx : bool) (mx ex : Z) (lx : location) :
  0 <= mx -> is_nan (binary_round_aux prec emax sx mx ex lx) = false.
Proof.
  intros H. unfold binary_round_aux.
  pose proof (shr_fexp_nonneg mx ex lx H) as H1.
  destruct (shr_fexp prec emax mx ex lx) as [mrs' e'] eqn:E1. cbn [fst] in H1.
  pose proof (shr_fexp_nonneg _ e' loc_Exact
                (round_nearest_even_nonneg _ (loc_of_shr_record mrs') H1)) as H2.
  destruct (shr_fexp prec emax _ e' loc_Exact) as [mrs'' e''] eqn:E2. cbn [fst] in H2.
  destruct (shr_m mrs'') as [| p | p]; [reflexivity | | lia].
  destruct (e'' <=? emax - prec); reflexivity.
Qed.

Lemma binary_normalize_not_nan (m e : Z) (s : bool) :
  is_nan (binary_normalize prec emax m e s) = false.
Proof.
  destruct m as [| p | p]; cbn; [reflexivity | |];
    unfold binary_round; destruct (shl_align _ _ _) as [mz ez];
    apply binary_round_aux_not_nan; lia.
Qed.

Lemma add_finite_not_nan (x y : float) :
  is_finite x = true -> is_finite y = true -> is_nan (add x y) = false.
Proof.
  destruct x as [sx | sx | | sx mx ex], y as [sy | sy | | sy my ey];
    try discriminate; intros _ _; unfold add; cbn;
    try reflexivity; try (destruct sx, sy; reflexivity).
  apply binary_normalize_not_nan.
Qed.

Lemma sub_finite_not_nan (x y : float) :
  is_finite x = true -> is_finite y = true -> is_nan (sub x y) = false.
Proof.
  destruct x as [sx | sx | | sx mx ex], y as [sy | sy | | sy my ey];
    try discriminate; intros _ _; unfold sub; cbn;
    try reflexivity; try (destruct sx, sy; reflexivity).
  apply binary_normalize_not_nan.
Qed.

(** [x - x] is [+0.0] for every finite [x]. *)
Lemma sub_self (x : float) : is_finite x = true -> sub x x = S754_zero false.
Proof.
  destruct x as [s | s | | s m e]; try discriminate; intros _; unfold sub, SFsub.
  - destruct s; reflexivity.
  - rewrite Z.min_id. unfold shl_align. rewrite !Z.sub_diag. reflexivity.
Qed.

(** A sum that is zero has finite terms. *)
Lemma add_zero_finite (x y : float) :
  is_zero (add x y) = true -> is_finite x = true /\ is_finite y = true.
Proof.
  destruct x as [sx | sx | | sx mx ex], y as [sy | sy | | sy my ey];
    unfold add; cbn; try (split; reflexivity); try discriminate;
    destruct sx, sy; discriminate.
Qed.

(** Zero over a number that is not zero, and not a NaN, is zero. *)
Lemma div_zero_l (s : bool) (y : float) :
  is_zero y = false -> is_nan y = false -> is_zero (div (S754_zero s) y) = true.
Proof. destruct y; cbn; intros; try discriminate; reflexivity. Qed.

(** Anything over zero is a NaN or an infinity. *)
Lemma div_zero_r (x y : float) :
  is_zero y = true -> is_nan (div x y) || is_inf (div x y) = true.
Proof. destruct x, y; cbn; intros; try discriminate; reflexivity. Qed.

(** The ratio of difference and sum of a number with itself. *)
Lemma ratio_self (x : float) :
  is_finite x = true -> is_zero (add x x) = false ->
  is_zero (div (sub x x) (add x x)) = true.
Proof.
  intros Hf Hz. rewrite (sub_self x Hf).
  apply div_zero_l; [assumption | now apply add_finite_not_nan].
Qed.

End FloatFacts.

Module CdFacts.

Import F64 Py Np Emu EmuSweep ResultFacts FloatFacts.

Lemma broadcast_same (a b : array) :
  List.length a = List.length b -> broadcast a b = ret (a, b).
Proof. intros H. unfold broadcast. now rewrite H, Nat.eqb_refl. Qed.

Lemma elementwise_same (quotient : bool) (f : float -> float -> float) (a b : array) :
  List.length a = List.length b ->
  elementwise quotient f a b = ret (zip_with f a b, zip_flags quotient f a b).
Proof. intros H. unfold elementwise. now rewrite broadcast_same. Qed.

Lemma zip_with_length (f : float -> float -> float) (a b : array) :
  List.length a = List.length b -> List.length (zip_with f a b) = List.length a.
Proof.
  revert b. induction a as [| x a IH]; destruct b as [| y b]; cbn; intros H;
    try discriminate; [reflexivity |]. f_equal. apply IH. lia.
Qed.

Lemma zip_with_nth (f : float -> float -> float) (a b : array) (i : nat) (x y : float) :
  nth_error a i = Some x -> nth_error b i = Some y ->
  nth_error (zip_with f a b) i = Some (f x y).
Proof.
  revert b i. induction a as [| x' a IH]; intros [| y' b] [| i]; cbn;
    intros Ha Hb; try discriminate.
  - now injection Ha as <-; injection Hb as <-.
  - now apply IH.
Qed.

Lemma zip_flags_incl (quotient : bool) (f : float -> float -> float)
  (a b : array) (i : nat) (x y : float) :
  nth_error a i = Some x -> nth_error b i = Some y ->
  incl (flags quotient x y (f x y)) (zip_flags quotient f a b).
Proof.
  revert b i. induction a as [| x' a IH]; intros [| y' b] [| i]; cbn;
    intros Ha Hb; try discriminate.
  - injection Ha as <-; injection Hb as <-. apply incl_appl, incl_refl.
  - apply incl_appr. eapply IH; eauto.
Qed.

(** On arrays of one length [cd] never raises; entry by entry it is
    [ratio], and the warnings of every entry are reported. *)
Lemma cd_returns (l r : array) :
  List.length l = List.length r ->
  exists q w,
    cd l r = ret (q, w) /\ List.length q = List.length l /\
    forall i x y, nth_error l i = Some x -> nth_error r i = Some y ->
      nth_error q i = Some (ratio x y) /\
      incl (flags false x y (sub x y)) w /\
      incl (flags true (sub x y) (add x y) (ratio x y)) w.
Proof.
  intros H. unfold cd, subtract, plus, divide.
  rewrite (elementwise_same false sub l r H). cbn [bind ret].
  rewrite (elementwise_same false add l r H). cbn [bind ret].
  assert (Hl : List.length (zip_with sub l r) = List.length (zip_with add l r))
    by now rewrite !zip_with_length.
  rewrite (elementwise_same true div _ _ Hl). cbn [bind ret].
  do 2 eexists. split; [reflexivity |]. split.
  - rewrite zip_with_length, zip_with_length; auto.
  - intros i x y Hx Hy.
    pose proof (zip_with_nth sub l r i x y Hx Hy) as Hs.
    pose proof (zip_with_nth add l r i x y Hx Hy) as Ha.
    split; [exact (zip_with_nth div _ _ i _ _ Hs Ha) |]. split.
    + apply incl_appl. eapply zip_flags_incl; eauto.
    + apply incl_appr, incl_appr.
      exact (zip_flags_incl true div _ _ i _ _ Hs Ha).
Qed.

(** Where the sum is zero, a warning is reported. *)
Lemma zero_sum_warns (x y : float) :
  is_zero (add x y) = true ->
  exists w, In w (flags false x y (sub x y) ++ flags true (sub x y) (add x y) (ratio x y)).
Proof.
  intros Hz. destruct (add_zero_finite x y Hz) as (Fx & Fy).
  pose proof (sub_finite_not_nan x y Fx Fy) as Hn.
  assert (Nx : is_nan x = false) by (destruct x; try discriminate; reflexivity).
  assert (Ny : is_nan y = false) by (destruct y; try discriminate; reflexivity).
  unfold ratio. destruct (add x y) as [s | | |] eqn:Ea; try discriminate.
  destruct (sub x y) as [sd | sd | | sd md ed] eqn:Ed; try discriminate.
  - exists InvalidValue. apply in_or_app. right. cbn. now left.
  - exists Overflow. apply in_or_app. left. unfold flags.
    rewrite Fx, Fy, Nx, Ny. cbn. now left.
  - exists DivideByZero. apply in_or_app. right. cbn. now left.
Qed.

End CdFacts.

Module FormatFacts.

Import F64 Py ResultFacts.

Lemma convert_number (k : ascii) (p : option Z) (a : pyval) :
  Ascii.eqb k "f"%char || Ascii.eqb k "s"%char = true -> is_number a = true ->
  exists t, convert k p a = ret t.
Proof.
  intros Hk Ha. unfold convert.
  destruct (Ascii.eqb k "d"%char) eqn:Ed.
  - apply Ascii.eqb_eq in Ed. subst k. discriminate.
  - destruct (Ascii.eqb k "s"%char); [eexists; reflexivity |].
    rewrite orb_false_r in Hk. rewrite Hk.
    unfold is_number in Ha. destruct (as_float a) as [e | x]; [discriminate |].
    eexists. reflexivity.
Qed.

Lemma format_from_numbers (fuel : nat) (fmt : text) (args : list pyval) :
  takes_numbers fuel fmt (List.length args) = true ->
  forallb is_number args = true ->
  exists line, format_from fuel fmt args = ret line.
Proof.
  revert fmt args. induction fuel as [| f IH]; intros fmt args H Hn; [discriminate |].
  cbn [takes_numbers] in H. cbn [format_from].
  destruct fmt as [| c r].
  - destruct args; [eexists; reflexivity | discriminate].
  - destruct (Ascii.eqb c "%"%char).
    + destruct (span_digits r) as [w r1].
      destruct (match r1 with
                | String "."%char r' =>
                    let '(ds, r'') := span_digits r' in (Some (number_of ds), r'')
                | _ => (None, r1)
                end) as [p r2].
      destruct r2 as [| k r3]; [discriminate |].
      destruct (Ascii.eqb k "%"%char).
      * destruct (IH _ _ H Hn) as (rest & ->). eexists. reflexivity.
      * destruct (Ascii.eqb k "f"%char || Ascii.eqb k "s"%char) eqn:Ek; [| discriminate].
        destruct args as [| a args]; [discriminate |].
        cbn in Hn. apply andb_prop in Hn as (Ha & Hn).
        destruct (convert_number k p a Ek Ha) as (t & ->).
        destruct (IH _ _ H Hn) as (rest & ->). eexists. reflexivity.
    + destruct (IH _ _ H Hn) as (rest & ->). eexists. reflexivity.
Qed.

End FormatFacts.

Module SweepRuns.

Import F64 Py Np Emu EmuSweep ResultFacts PoolFacts NpFacts EmuFacts SweepFacts
  CdFacts FormatFacts.

Lemma row_format_takes_numbers :
  takes_numbers (S (String.length row_format)) row_format 18 = true.
Proof. vm_compute. reflexivity. Qed.

Lemma nth_error_ok {A : Type} (xs : list A) (i : nat) :
  (i < List.length xs)%nat -> exists x, index xs i = ret x.
Proof.
  intros H. unfold index. destruct (nth_error xs i) eqn:E; [eauto |].
  apply nth_error_None in E. lia.
Qed.

Section Runs.

Variables light struct emu : dict.
Variable Simmo : Type.
Variable calc_modes : layer -> Light -> result Simmo.
Variable calc_scat : Stack Simmo -> text -> result Scat.
Variables substrate superstrate NDs : layer.

Lemma row_ok (c : columns) (th : float) (n i : nat) (wl : float) (ph : pyval) :
  getitem light "phi" = ret ph -> is_number ph = true ->
  columns_of_length c n -> (i < n)%nat ->
  exists line, row light c th i wl = ret line.
Proof.
  intros Hph Hnum (H1 & H2 & H3 & H4 & H5 & H6 & H7 & H8 & H9 & H10 & H11 & H12
                   & H13 & H14 & H15) Hi.
  unfold row. rewrite Hph. cbn [bind ret].
  destruct (nth_error_ok (R_te c) i) as (x1 & ->); [lia |].
  destruct (nth_error_ok (T_te c) i) as (x2 & ->); [lia |].
  destruct (nth_error_ok (A_te c) i) as (x3 & ->); [lia |].
  destruct (nth_error_ok (R_tm c) i) as (x4 & ->); [lia |].
  destruct (nth_error_ok (T_tm c) i) as (x5 & ->); [lia |].
  destruct (nth_error_ok (A_tm c) i) as (x6 & ->); [lia |].
  destruct (nth_error_ok (R_cd c) i) as (x7 & ->); [lia |].
  destruct (nth_error_ok (T_cd c) i) as (x8 & ->); [lia |].
  destruct (nth_error_ok (A_cd c) i) as (x9 & ->); [lia |].
  destruct (nth_error_ok (R_r c) i) as (x10 & ->); [lia |].
  destruct (nth_error_ok (T_r c) i) as (x11 & ->); [lia |].
  destruct (nth_error_ok (A_r c) i) as (x12 & ->); [lia |].
  destruct (nth_error_ok (R_l c) i) as (x13 & ->); [lia |].
  destruct (nth_error_ok (T_l c) i) as (x14 & ->); [lia |].
  destruct (nth_error_ok (A_l c) i) as (x15 & ->); [lia |].
  cbn [bind ret]. unfold format. apply format_from_numbers.
  - exact row_format_takes_numbers.
  - cbn. now rewrite Hnum.
Qed.

(** With columns of the right length the loop over the wavelengths
    writes all its rows. *)
Lemma rows_loop_ok (c : columns) (th : float) (wls : array) (f : file) (ph : pyval) :
  getitem light "phi" = ret ph -> is_number ph = true ->
  columns_of_length c (List.length wls) ->
  exists f',
    for_each (fun f iw =>
                match row light c th (fst iw) (snd iw) with
                | inl e => (f, inl e)
                | inr line => (write f line, ret tt)
                end) f (enumerate wls) = (f', ret tt).
Proof.
  intros Hph Hnum Hc.
  assert (G : forall iws f,
             (forall iw, In iw iws -> (fst iw < List.length wls)%nat) ->
             exists f',
               for_each (fun f iw =>
                           match row light c th (fst iw) (snd iw) with
                           | inl e => (f, inl e)
                           | inr line => (write f line, ret tt)
                           end) f iws = (f', ret tt)).
  { induction iws as [| iw iws IH]; cbn; intros g Hin; [eauto |].
    destruct (row_ok c th _ (fst iw) (snd iw) ph Hph Hnum Hc) as (line & ->).
    - apply Hin. now left.
    - apply IH. intros; apply Hin. now right. }
  apply G. intros [i wl] Hin. unfold enumerate in Hin.
  apply in_combine_l in Hin. apply in_seq in Hin. cbn. lia.
Qed.

End Runs.

End SweepRuns.

Module SweepTotal.

Import F64 Py Np Emu EmuSweep ResultFacts PoolFacts NpFacts EmuFacts SweepFacts
  CdFacts FormatFacts SweepRuns.

Section Total.

Variables light struct emu : dict.
Variable Simmo : Type.
Variable calc_modes : layer -> Light -> result Simmo.
Variable calc_scat : Stack Simmo -> text -> result Scat.
Variables substrate superstrate NDs : layer.

Local Abbreviation simulate := (simulate_stack calc_modes substrate superstrate NDs).
Local Abbreviation columns_at :=
  (angle_columns light Simmo calc_modes calc_scat substrate superstrate NDs).

Lemma light_list_ok (th : float) (wls : array) (m ph : pyval) :
  getitem light "max_order_PWs" = ret m -> getitem light "phi" = ret ph ->
  light_list light th wls
  = ret (map (fun wl => {| wl_nm := wl; max_order_PWs := m; theta := VFloat th;
                           phi := ph |}) wls).
Proof.
  intros Hm Hph. unfold light_list. rewrite Hm, Hph.
  induction wls as [| wl wls IH]; cbn [mapM map bind ret]; [reflexivity |].
  cbn [bind ret] in IH. now rewrite IH.
Qed.

Lemma solved_stacks (sched : list nat) (lights : list Light) (stacks : list (Stack Simmo)) :
  solve_all calc_modes substrate superstrate NDs sched lights = ret stacks ->
  List.length stacks = List.length lights /\
  (forall st, In st stacks -> List.length (layers st) = 3%nat) /\
  (forall i l, nth_error lights i = Some l ->
               exists st, nth_error stacks i = Some st /\ simulate l = ret st).
Proof.
  unfold solve_all. rewrite executor_map_stateless. intros H.
  split; [eapply mapM_length; eauto |]. split.
  - intros st Hin. apply In_nth_error in Hin as (i & Hi).
    destruct (nth_error lights i) as [l |] eqn:El.
    + destruct (mapM_nth _ _ _ H i l El) as (st' & Hst' & Hs).
      rewrite Hi in Hst'. injection Hst' as <-.
      eapply simulate_stack_layers; eauto.
    + apply nth_error_None in El. apply mapM_length in H.
      assert (i < List.length stacks)%nat by (apply nth_error_Some; congruence). lia.
  - intros i l Hl. eapply mapM_nth; eauto.
Qed.

(** What a pass of the angle loop computed, read off its result. *)
Lemma angle_columns_inv (sched : list nat) (wls : array) (th : float) (c : columns) :
  columns_at sched wls th = ret c ->
  exists lights stacks,
    light_list light th wls = ret lights /\
    solve_all calc_modes substrate superstrate NDs sched lights = ret stacks /\
    rta_spectra calc_scat stacks "TE" = ret (R_te c, T_te c, A_te c) /\
    rta_spectra calc_scat stacks "TM" = ret (R_tm c, T_tm c, A_tm c) /\
    rta_spectra calc_scat stacks "R Circ" = ret (R_r c, T_r c, A_r c) /\
    rta_spectra calc_scat stacks "L Circ" = ret (R_l c, T_l c, A_l c) /\
    (exists w, cd (R_l c) (R_r c) = ret (R_cd c, w)) /\
    (exists w, cd (T_l c) (T_r c) = ret (T_cd c, w)) /\
    (exists w, cd (A_l c) (A_r c) = ret (A_cd c, w)).
Proof.
  unfold angle_columns. intros H.
  apply bind_inr in H as (lights & Hl & H).
  apply bind_inr in H as (stacks & Hs & H).
  apply bind_inr in H as ([[r1 t1] a1] & H1 & H).
  apply bind_inr in H as ([[r2 t2] a2] & H2 & H).
  apply bind_inr in H as ([[r3 t3] a3] & H3 & H).
  apply bind_inr in H as ([[r4 t4] a4] & H4 & H).
  apply bind_inr in H as ([q1 w1] & Q1 & H).
  apply bind_inr in H as ([q2 w2] & Q2 & H).
  apply bind_inr in H as ([q3 w3] & Q3 & H).
  injection H as <-. cbn.
  exists lights, stacks. repeat split; eauto.
Qed.

Lemma cd_length (l r q : array) (w : list warning) :
  List.length l = List.length r -> cd l r = ret (q, w) ->
  List.length q = List.length l.
Proof.
  intros H Hq. destruct (cd_returns l r H) as (q' & w' & Hq' & Hlen & _).
  rewrite Hq in Hq'. now injection Hq' as -> ->.
Qed.

Lemma angle_columns_lengths (sched : list nat) (wls : array) (th : float) (c : columns) :
  columns_at sched wls th = ret c -> columns_of_length c (List.length wls).
Proof.
  intros H.
  apply angle_columns_inv in H
    as (lights & stacks & Hl & Hs & H1 & H2 & H3 & H4 & (w1 & Q1) & (w2 & Q2) & (w3 & Q3)).
  apply mapM_length in Hl. apply solved_stacks in Hs as (Hs & _).
  apply rta_spectra_lengths in H1 as (? & ? & ?).
  apply rta_spectra_lengths in H2 as (? & ? & ?).
  apply rta_spectra_lengths in H3 as (? & ? & ?).
  apply rta_spectra_lengths in H4 as (? & ? & ?).
  apply cd_length in Q1; [| congruence].
  apply cd_length in Q2; [| congruence].
  apply cd_length in Q3; [| congruence].
  unfold columns_of_length. repeat split; congruence.
Qed.

Hypothesis solver_ok : forall l, exists st, simulate l = ret st.
Hypothesis scat_ok :
  forall st pol, exists sc, calc_scat st pol = ret sc /\ well_shaped sc.

Lemma angle_columns_ok (sched : list nat) (wls : array) (th : float) (m ph : pyval) :
  getitem light "max_order_PWs" = ret m -> getitem light "phi" = ret ph ->
  wls <> [] ->
  exists c, columns_at sched wls th = ret c.
Proof.
  intros Hm Hph Hne. unfold angle_columns.
  rewrite (light_list_ok th wls m ph Hm Hph). cbn [bind ret].
  set (lights := map _ wls).
  destruct (mapM_ok simulate lights) as (stacks & Hst); [intros; apply solver_ok |].
  assert (Hs : solve_all calc_modes substrate superstrate NDs sched lights = ret stacks)
    by (unfold solve_all; now rewrite executor_map_stateless).
  rewrite Hs. cbn [bind ret].
  destruct (solved_stacks _ _ _ Hs) as (Hlen & H3 & _).
  assert (Hne' : stacks <> []).
  { intros ->. cbn in Hlen. unfold lights in Hlen. rewrite length_map in Hlen.
    destruct wls; [congruence | discriminate]. }
  destruct (rta_spectra_returns _ calc_scat stacks "TE" Hne' H3) as (r1 & t1 & a1 & E1 & _);
    [intros; apply scat_ok |].
  destruct (rta_spectra_returns _ calc_scat stacks "TM" Hne' H3) as (r2 & t2 & a2 & E2 & _);
    [intros; apply scat_ok |].
  destruct (rta_spectra_returns _ calc_scat stacks "R Circ" Hne' H3) as (r3 & t3 & a3 & E3 & _);
    [intros; apply scat_ok |].
  destruct (rta_spectra_returns _ calc_scat stacks "L Circ" Hne' H3) as (r4 & t4 & a4 & E4 & _);
    [intros; apply scat_ok |].
  rewrite E1, E2, E3, E4. cbn [bind ret].
  apply rta_spectra_lengths in E3 as (? & ? & ?).
  apply rta_spectra_lengths in E4 as (? & ? & ?).
  destruct (cd_returns r4 r3) as (q1 & w1 & -> & _); [congruence |].
  destruct (cd_returns t4 t3) as (q2 & w2 & -> & _); [congruence |].
  destruct (cd_returns a4 a3) as (q3 & w3 & -> & _); [congruence |].
  cbn [bind ret]. eexists. reflexivity.
Qed.

Lemma one_angle_ok (sched : float -> list nat) (wls : array) (f : file) (th : float)
  (m ph : pyval) :
  getitem light "max_order_PWs" = ret m -> getitem light "phi" = ret ph ->
  is_number ph = true -> wls <> [] ->
  exists f',
    one_angle light Simmo calc_modes calc_scat substrate superstrate NDs sched wls f th
    = (f', ret tt).
Proof.
  intros Hm Hph Hnum Hne. unfold one_angle.
  destruct (angle_columns_ok (sched th) wls th m ph Hm Hph Hne) as (c & Hc).
  rewrite Hc. eapply rows_loop_ok; eauto.
  eapply angle_columns_lengths; eauto.
Qed.

Lemma angle_loop_ok (sched : float -> list nat) (wls : array) (thetas : list float)
  (f : file) (m ph : pyval) :
  getitem light "max_order_PWs" = ret m -> getitem light "phi" = ret ph ->
  is_number ph = true -> wls <> [] ->
  exists f',
    for_each (one_angle light Simmo calc_modes calc_scat substrate superstrate NDs sched wls)
      f thetas = (f', ret tt).
Proof.
  intros Hm Hph Hnum Hne. revert f.
  induction thetas as [| th thetas IH]; cbn; intros f; [eauto |].
  destruct (one_angle_ok sched wls f th m ph Hm Hph Hnum Hne) as (f1 & ->).
  apply IH.
Qed.

End Total.

End SweepTotal.

Module AxisFacts.

Import F64 Py Np ResultFacts NpFacts.

(** The wavelength axis has [n_wl] points. *)
Lemma v_wl_length (light : dict) (wls : array) (n_wl : Z) :
  S4Spectra.v_wl light = ret wls -> getitem light "n_wl" = ret (VInt n_wl) ->
  0 <= n_wl /\ List.length wls = Z.to_nat n_wl.
Proof.
  unfold S4Spectra.v_wl. intros H Hn.
  apply bind_inr in H as (a & _ & H). apply bind_inr in H as (b & _ & H).
  rewrite Hn in H. cbn [bind ret as_index] in H.
  apply bind_inr in H as (x & _ & H). apply bind_inr in H as (y & _ & H).
  split; [| eapply linspace_length; eauto].
  unfold linspace in H. destruct (Z.ltb_spec n_wl 0); [discriminate | lia].
Qed.

Lemma v_theta_length (light : dict) (thetas : array) (n_theta : Z) :
  EmuSweep.v_theta light = ret thetas -> getitem light "n_theta" = ret (VInt n_theta) ->
  0 <= n_theta /\ List.length thetas = Z.to_nat n_theta.
Proof.
  unfold EmuSweep.v_theta. intros H Hn.
  apply bind_inr in H as (a & _ & H). apply bind_inr in H as (b & _ & H).
  rewrite Hn in H. cbn [bind ret as_index] in H.
  apply bind_inr in H as (x & _ & H). apply bind_inr in H as (y & _ & H).
  split; [| eapply linspace_length; eauto].
  unfold linspace in H. destruct (Z.ltb_spec n_theta 0); [discriminate | lia].
Qed.

End AxisFacts.

Module S4Runs.

Import F64 Py Np S4 S4Spectra ResultFacts PoolFacts NpFacts S4Facts.

Section Runs.

Variables light struct : dict.
Variable db_to_eps : float -> pyval -> result (list complex).
Variable GetPowerFlux : Simulation -> text -> float -> result (complex * complex).
Variable hypot : float -> float -> float.

Local Abbreviation rta := (S4Spectra.rta light struct db_to_eps GetPowerFlux hypot).
Local Abbreviation spectra := (S4Spectra.spectra light struct db_to_eps GetPowerFlux hypot).

(** When [rta] succeeds at every wavelength, whatever the state of
    the worker, the driver returns one triple per wavelength, in the
    order of the wavelengths, each the outcome of [rta] there. *)
Lemma s4_spectra_returns (S : Simulation) (sched : list nat) (wls : array) :
  wls <> [] ->
  (forall S wl, In wl wls -> exists t, snd (rta wl S) = ret t) ->
  exists v_R v_T v_A,
    spectra S sched wls = ret (v_R, v_T, v_A) /\
    List.length v_R = List.length wls /\ List.length v_T = List.length wls /\
    List.length v_A = List.length wls /\
    forall i wl, nth_error wls i = Some wl ->
      exists S0 S1 R T A,
        rta wl S0 = (S1, ret (R, T, A)) /\
        nth_error v_R i = Some R /\ nth_error v_T i = Some T /\
        nth_error v_A i = Some A.
Proof.
  intros Hne Hok. unfold S4Spectra.spectra.
  destruct (executor_map_ok _ _ _ (fun S wl => rta wl S) S sched wls Hok) as (rows & Hrows).
  rewrite Hrows. cbn [bind ret].
  pose proof (executor_map_length _ _ _ _ _ _ _ _ Hrows) as Hlen.
  destruct (unpack3_ok rows) as (a & b & c & Hu).
  { intros ->. destruct wls; [congruence | discriminate]. }
  exists a, b, c. split; [assumption |].
  destruct (unpack3_lengths _ _ _ _ Hu) as (La & Lb & Lc).
  repeat split; try congruence.
  intros i wl Hi.
  destruct (executor_map_nth _ _ _ _ _ _ _ _ Hrows i wl Hi) as (S0 & [[R T] A] & Hy & Hs).
  destruct (unpack3_nth _ _ _ _ Hu i _ Hy) as (Ha & Hb & Hc).
  destruct (rta wl S0) as [S1 r] eqn:E. cbn in Hs. subst r.
  exists S0, S1, R, T, A. auto.
Qed.

End Runs.

End S4Runs.

Module EmuRuns.

Import F64 Py Np Emu ResultFacts PoolFacts NpFacts EmuFacts SweepTotal.

Section Runs.

Variables light : dict.
Variable Simmo : Type.
Variable calc_modes : layer -> Light -> result Simmo.
Variable calc_scat : Stack Simmo -> text -> result Scat.
Variables substrate superstrate NDs : layer.

Local Abbreviation simulate := (simulate_stack calc_modes substrate superstrate NDs).
Local Abbreviation spectra :=
  (EmuSpectra.spectra light Simmo calc_modes calc_scat substrate superstrate NDs).

(** The lights are the wavelengths, one by one. *)
Lemma light_list_nth (wls : array) (lights : list Light) :
  EmuSpectra.light_list light wls = ret lights ->
  List.length lights = List.length wls /\
  forall i wl, nth_error wls i = Some wl ->
    exists l, nth_error lights i = Some l /\ wl_nm l = wl.
Proof.
  intros H. split; [eapply mapM_length; eauto |].
  intros i wl Hi. destruct (mapM_nth _ _ _ H i wl Hi) as (l & Hl & Hf).
  exists l. split; [assumption |].
  apply bind_inr in Hf as (m & _ & Hf). apply bind_inr in Hf as (th & _ & Hf).
  apply bind_inr in Hf as (ph & _ & Hf). now injection Hf as <-.
Qed.

(** The spectra driver: the [i]-th entries of the three arrays are
    the totals of the stack solved for the [i]-th light. *)
Lemma emu_spectra_returns (sched : list nat) (lights : list Light) (pol : text) :
  getitem light "pol" = ret (VStr pol) ->
  lights <> [] ->
  (forall l, In l lights -> exists st, simulate l = ret st) ->
  (forall st, exists sc, calc_scat st pol = ret sc /\ well_shaped sc) ->
  exists v_R v_T v_A,
    spectra sched lights = ret (v_R, v_T, v_A) /\
    List.length v_R = List.length lights /\ List.length v_T = List.length lights /\
    List.length v_A = List.length lights /\
    forall i l, nth_error lights i = Some l ->
      exists st sc r t a,
        simulate l = ret st /\ calc_scat st pol = ret sc /\
        nth_error (r_list sc) 0 = Some r /\ nth_error (t_list sc) 1 = Some t /\
        nth_error (a_list sc) 1 = Some a /\
        nth_error v_R i = Some r /\ nth_error v_T i = Some t /\
        nth_error v_A i = Some a.
Proof.
  intros Hpol Hne Hsim Hscat. unfold EmuSpectra.spectra.
  destruct (mapM_ok simulate lights Hsim) as (stacks & Hst).
  assert (Hs : solve_all calc_modes substrate superstrate NDs sched lights = ret stacks)
    by (unfold solve_all; now rewrite executor_map_stateless).
  rewrite Hs, Hpol. cbn [bind ret as_text].
  destruct (solved_stacks _ _ _ _ _ _ _ _ Hs) as (Hlen & H3 & Hnth).
  assert (Hne' : stacks <> []).
  { intros ->. destruct lights; [congruence | discriminate]. }
  destruct (rta_spectra_returns _ calc_scat stacks pol Hne' H3)
    as (R & T & A & E & Hall); [intros; apply Hscat |].
  exists R, T, A. split; [assumption |].
  destruct (rta_spectra_lengths _ _ _ _ _ _ _ E) as (? & ? & ?).
  repeat split; try congruence.
  intros i l Hl. destruct (Hnth i l Hl) as (st & Hsti & Hsl).
  destruct (Hall i st Hsti) as (sc & r & t & a & Hc & Hr & Ht & Ha & HR & HT & HA).
  exists st, sc, r, t, a. repeat split; assumption.
Qed.

End Runs.

End EmuRuns.

Module SweepNotebook.

Import F64 Py Np Emu EmuSweep Datetime ResultFacts PoolFacts NpFacts EmuFacts
  SweepFacts CdFacts FormatFacts SweepRuns SweepTotal AxisFacts TextFacts.

Section Notebook.

Variables light struct emu : dict.
Variable Simmo : Type.
Variable calc_modes : layer -> Light -> result Simmo.
Variable calc_scat : Stack Simmo -> text -> result Scat.

Local Abbreviation notebook :=
  (EmuSweep.notebook light struct emu Simmo calc_modes calc_scat).

(** The file right after the header was written has no row yet. *)
Lemma start_no_rows (now : datetime) (f : file) :
  start light struct emu now = ret f -> data_rows f = [] /\ closed f = false.
Proof.
  unfold start. intros H.
  apply bind_inr in H as (name & _ & H). apply bind_inr in H as (h & Hh & H).
  injection H as <-. split; [| reflexivity].
  unfold header in Hh.
  apply bind_inr in Hh as (v1 & _ & Hh). apply bind_inr in Hh as (v2 & _ & Hh).
  apply bind_inr in Hh as (line0 & H0 & Hh).
  apply format_head in H0 as (rest & ->); [| reflexivity].
  do 19 (apply bind_inr in Hh as (? & _ & Hh)).
  injection Hh as <-. reflexivity.
Qed.

(** A run that ends without an exception has written one row per
    wavelength and angle, and closed the file. *)
Lemma finished_run_rows (now : datetime) (sched : float -> list nat) (f : file)
  (n_wl n_theta : Z) :
  getitem light "n_wl" = ret (VInt n_wl) ->
  getitem light "n_theta" = ret (VInt n_theta) ->
  notebook now sched = (Some f, ret tt) ->
  List.length (data_rows f) = (Z.to_nat n_theta * Z.to_nat n_wl)%nat /\ closed f = true.
Proof.
  intros Hwl Hth. unfold EmuSweep.notebook.
  destruct (v_wl light) as [| wls] eqn:Ewl; [discriminate |]. cbn [bind ret].
  destruct (init_layers struct emu mats) as [| [[sub sup] nds]]; [discriminate |].
  cbn [bind ret].
  destruct (start light struct emu now) as [| f0] eqn:Ef0; [discriminate |].
  cbn [bind ret]. unfold sweep.
  destruct (v_theta light) as [| thetas] eqn:Eth; [discriminate |].
  destruct (for_each _ f0 thetas) as [f1 [e | u]] eqn:Eloop; [discriminate |].
  intros [= <-].
  apply angle_loop_rows in Eloop. apply data_rows_grown in Eloop.
  destruct (start_no_rows now f0 Ef0) as (R0 & _).
  destruct (v_wl_length light wls n_wl Ewl Hwl) as (_ & Lw).
  destruct (v_theta_length light thetas n_theta Eth Hth) as (_ & Lt).
  split; [| reflexivity].
  unfold data_rows in *. cbn [written close write].
  rewrite filter_app, length_app. cbn. rewrite Eloop, R0, Lw, Lt. cbn. lia.
Qed.

(** With a solver that answers, the run gets to its end. *)
Lemma run_finishes (now : datetime) (sched : float -> list nat)
  (wls : array) (ls : layer * layer * layer) (f0 : file) (n_theta : Z) (m ph : pyval) :
  v_wl light = ret wls -> wls <> [] ->
  init_layers struct emu mats = ret ls ->
  start light struct emu now = ret f0 ->
  (exists thetas, v_theta light = ret thetas) ->
  getitem light "max_order_PWs" = ret m ->
  getitem light "phi" = ret ph -> is_number ph = true ->
  (forall l, exists st,
       simulate_stack calc_modes (fst (fst ls)) (snd (fst ls)) (snd ls) l = ret st) ->
  (forall st pol, exists sc, calc_scat st pol = ret sc /\ well_shaped sc) ->
  exists f, notebook now sched = (Some f, ret tt).
Proof.
  intros Hwl Hne Hls Hf0 (thetas & Hth) Hm Hph Hnum Hsim Hscat.
  destruct ls as [[sub sup] nds]. cbn [fst snd] in Hsim.
  unfold EmuSweep.notebook. rewrite Hwl, Hls, Hf0. cbn [bind ret].
  unfold sweep. rewrite Hth. unfold ret at 1. cbv iota beta.
  destruct (angle_loop_ok light Simmo calc_modes calc_scat sub sup nds Hsim Hscat
              sched wls thetas f0 m ph Hm Hph Hnum Hne) as (f1 & ->).
  eexists. reflexivity.
Qed.

End Notebook.

End SweepNotebook.

Module Counts.

Import F64 Py Np Emu Datetime ResultFacts PoolFacts NpFacts EmuFacts AxisFacts
  FormatFacts.

(** C3.  The number of output samples is the product of the lengths of
    the sweep axes.  With at least one wavelength and solvers that
    answer: the S4 driver returns R, T and A arrays of [n_wl] entries
    each; so does the EMUstack spectra driver; and the wavelength-angle
    notebook, when [light['phi']] is a number that [%f] formats (a
    float, a bool, or an int that is not beyond the largest float),
    runs to its end and has then written exactly [n_wl * n_theta]
    data rows to the text table, which it has closed, so that they
    are all on disk however the io library buffers. *)
Theorem sweep_sample_counts :
  (forall (light struct : dict) db_to_eps GetPowerFlux hypot
          (S : S4.Simulation) (sched : list nat) (wls : array) (n_wl : Z),
      getitem light "n_wl" = ret (VInt n_wl) -> 1 <= n_wl ->
      S4Spectra.v_wl light = ret wls ->
      (forall S wl, In wl wls ->
         exists t, snd (S4Spectra.rta light struct db_to_eps GetPowerFlux hypot wl S)
                   = ret t) ->
      exists v_R v_T v_A,
        S4Spectra.spectra light struct db_to_eps GetPowerFlux hypot S sched wls
        = ret (v_R, v_T, v_A) /\
        List.length v_R = Z.to_nat n_wl /\ List.length v_T = Z.to_nat n_wl /\
        List.length v_A = Z.to_nat n_wl)
  /\
  (forall (light : dict) (Simmo : Type) calc_modes calc_scat
          (substrate superstrate NDs : layer) (sched : list nat)
          (wls : array) (lights : list Light) (n_wl : Z) (pol : text),
      getitem light "n_wl" = ret (VInt n_wl) -> 1 <= n_wl ->
      EmuSpectra.v_wl light = ret wls ->
      EmuSpectra.light_list light wls = ret lights ->
      getitem light "pol" = ret (VStr pol) ->
      (forall l, In l lights ->
         exists st, simulate_stack calc_modes substrate superstrate NDs l = ret st) ->
      (forall st, exists sc, calc_scat st pol = ret sc /\ well_shaped sc) ->
      exists v_R v_T v_A,
        EmuSpectra.spectra light Simmo calc_modes calc_scat substrate superstrate NDs
          sched lights = ret (v_R, v_T, v_A) /\
        List.length v_R = Z.to_nat n_wl /\ List.length v_T = Z.to_nat n_wl /\
        List.length v_A = Z.to_nat n_wl)
  /\
  (forall (light struct emu : dict) (Simmo : Type) calc_modes calc_scat
          (now : datetime) (sched : float -> list nat) (wls : array)
          (ls : layer * layer * layer) (f0 : EmuSweep.file)
          (n_wl n_theta : Z) (m ph : pyval),
      getitem light "n_wl" = ret (VInt n_wl) -> 1 <= n_wl ->
      getitem light "n_theta" = ret (VInt n_theta) ->
      EmuSweep.v_wl light = ret wls ->
      (exists thetas, EmuSweep.v_theta light = ret thetas) ->
      init_layers struct emu mats = ret ls ->
      EmuSweep.start light struct emu now = ret f0 ->
      getitem light "max_order_PWs" = ret m ->
      getitem light "phi" = ret ph -> is_number ph = true ->
      (forall l, exists st,
           simulate_stack calc_modes (fst (fst ls)) (snd (fst ls)) (snd ls) l = ret st) ->
      (forall st pol, exists sc, calc_scat st pol = ret sc /\ well_shaped sc) ->
      exists f,
        EmuSweep.notebook light struct emu Simmo calc_modes calc_scat now sched
        = (Some f, ret tt) /\
        List.length (EmuSweep.data_rows f) = (Z.to_nat n_wl * Z.to_nat n_theta)%nat /\
        forall flushed, EmuSweep.on_disk flushed f = EmuSweep.written f).
Proof.
  split; [| split].
  - intros light struct db_to_eps GetPowerFlux hypot S sched wls n_wl Hn H1 Hwl Hok.
    destruct (v_wl_length light wls n_wl Hwl Hn) as (_ & Hlen).
    assert (Hne : wls <> []) by (intros ->; cbn in Hlen; lia).
    destruct (S4Runs.s4_spectra_returns light struct db_to_eps GetPowerFlux hypot
                S sched wls Hne Hok) as (a & b & c & E & La & Lb & Lc & _).
    exists a, b, c. repeat split; congruence.
  - intros light Simmo calc_modes calc_scat sub sup NDs sched wls lights n_wl pol
           Hn H1 Hwl Hll Hpol Hsim Hscat.
    destruct (v_wl_length light wls n_wl Hwl Hn) as (_ & Hlen).
    destruct (EmuRuns.light_list_nth light wls lights Hll) as (Hl & _).
    assert (Hne : lights <> []) by (intros ->; cbn in Hl; lia).
    destruct (EmuRuns.emu_spectra_returns light Simmo calc_modes calc_scat sub sup NDs
                sched lights pol Hpol Hne Hsim Hscat)
      as (a & b & c & E & La & Lb & Lc & _).
    exists a, b, c. repeat split; congruence.
  - intros light struct emu Simmo calc_modes calc_scat now sched wls ls f0 n_wl n_theta
           m ph Hn H1 Ht Hwl Hth Hls Hf0 Hm Hph Hnum Hsim Hscat.
    destruct (v_wl_length light wls n_wl Hwl Hn) as (_ & Hlen).
    assert (Hne : wls <> []) by (intros ->; cbn in Hlen; lia).
    destruct (SweepNotebook.run_finishes light struct emu Simmo calc_modes calc_scat
                now sched wls ls f0 n_theta m ph Hwl Hne Hls Hf0 Hth Hm Hph Hnum
                Hsim Hscat) as (f & Hf).
    exists f. split; [assumption |].
    destruct (SweepNotebook.finished_run_rows light struct emu Simmo calc_modes
                calc_scat now sched f n_wl n_theta Hn Ht Hf) as (Hrows & Hc).
    split; [lia |].
    intros flushed. unfold EmuSweep.on_disk. now rewrite Hc.
Qed.

(** The sweep with two wavelengths and two angles writes four rows. *)
Lemma sweep_sample_counts_witness :
  exists f,
    EmuSweep.notebook Example.sweep_light EmuSweep.Inputs.struct EmuSweep.Inputs.emu
      float Example.calc_modes Example.calc_scat Example.now (fun _ => Example.sched)
    = (Some f, ret tt) /\
    List.length (EmuSweep.data_rows f) = (Z.to_nat 2 * Z.to_nat 2)%nat /\
    forall flushed, EmuSweep.on_disk flushed f = EmuSweep.written f.
Proof.
  destruct (init_layers EmuSweep.Inputs.struct EmuSweep.Inputs.emu mats)
    as [e | ls] eqn:Els; [discriminate |].
  destruct (EmuSweep.start Example.sweep_light EmuSweep.Inputs.struct
              EmuSweep.Inputs.emu Example.now) as [e | f0] eqn:Ef0; [discriminate |].
  destruct (EmuSweep.v_wl Example.sweep_light) as [e | wls] eqn:Ewl; [discriminate |].
  refine (proj2 (proj2 sweep_sample_counts)
            Example.sweep_light EmuSweep.Inputs.struct EmuSweep.Inputs.emu
            float Example.calc_modes Example.calc_scat Example.now
            (fun _ => Example.sched) wls ls f0 2 2 (VInt 2) (VFloat (dec 0 (-1)))
            eq_refl _ eq_refl Ewl _ Els Ef0 eq_refl eq_refl eq_refl _ _).
  - lia.
  - destruct (EmuSweep.v_theta Example.sweep_light) as [e | thetas] eqn:Eth;
      [discriminate | eauto].
  - intros l. eexists. reflexivity.
  - intros st pol. eexists. split; [reflexivity |]. repeat split.
Defined.

End Counts.

Module Order.

Import F64 Py Np Emu Datetime ResultFacts PoolFacts NpFacts EmuFacts AxisFacts.

(** C8.  The results are collected in input order.  For the lights
    built from the wavelengths [wls] and a solver that answers, the
    EMUstack spectra driver returns three arrays whose [i]-th entries
    are the totals of the stack solved for the [i]-th wavelength: the
    one entry of its [r_list] and the last entries of its [t_list] and
    [a_list]. *)
Theorem results_in_input_order
  (light : dict) (Simmo : Type) (calc_modes : layer -> Light -> result Simmo)
  (calc_scat : Stack Simmo -> text -> result Scat)
  (substrate superstrate NDs : layer) (sched : list nat)
  (wls : array) (lights : list Light) (pol : text) :
  EmuSpectra.light_list light wls = ret lights ->
  wls <> [] ->
  getitem light "pol" = ret (VStr pol) ->
  (forall l, In l lights ->
     exists st, simulate_stack calc_modes substrate superstrate NDs l = ret st) ->
  (forall st, exists sc, calc_scat st pol = ret sc /\ well_shaped sc) ->
  exists v_R v_T v_A,
    EmuSpectra.spectra light Simmo calc_modes calc_scat substrate superstrate NDs
      sched lights = ret (v_R, v_T, v_A) /\
    forall i wl, nth_error wls i = Some wl ->
      exists l st sc r t a,
        nth_error lights i = Some l /\ wl_nm l = wl /\
        simulate_stack calc_modes substrate superstrate NDs l = ret st /\
        calc_scat st pol = ret sc /\
        nth_error (r_list sc) 0 = Some r /\ nth_error (t_list sc) 1 = Some t /\
        nth_error (a_list sc) 1 = Some a /\
        nth_error v_R i = Some r /\ nth_error v_T i = Some t /\
        nth_error v_A i = Some a.
Proof.
  intros Hll Hne Hpol Hsim Hscat.
  destruct (EmuRuns.light_list_nth light wls lights Hll) as (Hlen & Hnth).
  assert (Hne' : lights <> []).
  { intros ->. destruct wls; [congruence | discriminate]. }
  destruct (EmuRuns.emu_spectra_returns light Simmo calc_modes calc_scat substrate
              superstrate NDs sched lights pol Hpol Hne' Hsim Hscat)
    as (a & b & c & E & _ & _ & _ & Hall).
  exists a, b, c. split; [assumption |].
  intros i wl Hi. destruct (Hnth i wl Hi) as (l & Hl & Hw).
  destruct (Hall i l Hl) as (st & sc & r & t & a' & H).
  exists l, st, sc, r, t, a'. tauto.
Qed.

(** Three wavelengths and a solver whose totals are the wavelength:
    the arrays come back as the wavelengths, in their order. *)
Lemma results_in_input_order_witness :
  exists v_R v_T v_A,
    EmuSpectra.spectra Example.emu_light float Example.calc_modes Example.calc_scat
      (Film {| tf_period := VNone; tf_period_y := VNone; tf_height_nm := VNone;
               tf_material := "Air"; tf_loss := VNone |})
      (Film {| tf_period := VNone; tf_period_y := VNone; tf_height_nm := VNone;
               tf_material := "Air"; tf_loss := VNone |})
      (Film {| tf_period := VNone; tf_period_y := VNone; tf_height_nm := VNone;
               tf_material := "Au"; tf_loss := VNone |})
      Example.sched
      (map (fun wl => {| wl_nm := wl; max_order_PWs := VInt 2;
                         theta := VFloat (dec 0 (-1)); phi := VFloat (dec 0 (-1)) |})
           [dec 400 0; dec 600 0; dec 800 0])
    = ret (v_R, v_T, v_A) /\
    forall i wl, nth_error [dec 400 0; dec 600 0; dec 800 0] i = Some wl ->
      exists l st sc r t a,
        nth_error
          (map (fun wl => {| wl_nm := wl; max_order_PWs := VInt 2;
                             theta := VFloat (dec 0 (-1)); phi := VFloat (dec 0 (-1)) |})
             [dec 400 0; dec 600 0; dec 800 0]) i = Some l /\
        wl_nm l = wl /\
        simulate_stack Example.calc_modes
          (Film {| tf_period := VNone; tf_period_y := VNone; tf_height_nm := VNone;
                   tf_material := "Air"; tf_loss := VNone |})
          (Film {| tf_period := VNone; tf_period_y := VNone; tf_height_nm := VNone;
                   tf_material := "Air"; tf_loss := VNone |})
          (Film {| tf_period := VNone; tf_period_y := VNone; tf_height_nm := VNone;
                   tf_material := "Au"; tf_loss := VNone |}) l = ret st /\
        Example.calc_scat st "TM" = ret sc /\
        nth_error (r_list sc) 0 = Some r /\ nth_error (t_list sc) 1 = Some t /\
        nth_error (a_list sc) 1 = Some a /\
        nth_error v_R i = Some r /\ nth_error v_T i = Some t /\
        nth_error v_A i = Some a.
Proof.
  apply (results_in_input_order Example.emu_light float Example.calc_modes
           Example.calc_scat _ _ _ Example.sched [dec 400 0; dec 600 0; dec 800 0]).
  - reflexivity.
  - discriminate.
  - reflexivity.
  - intros l _. eexists. reflexivity.
  - intros st. eexists. split; [reflexivity |]. repeat split.
Defined.

End Order.

Module ThreePoints.

Import F64 Py Np S4 Datetime ResultFacts PoolFacts NpFacts AxisFacts S4Facts.

(** C4.  A sweep of three wavelengths on the S4 driver, whatever the
    layers and materials: when the solver answers at the three
    wavelengths, the driver returns exactly three reflectance,
    transmittance and absorption triples, and in each of them the
    absorption is what [R + T] leaves of one, [A = 1 - R - T] as
    [rta] computes it. *)
Theorem three_point_sweep
  (light struct : dict) (db_to_eps : float -> pyval -> result (list complex))
  (GetPowerFlux : Simulation -> text -> float -> result (complex * complex))
  (hypot : float -> float -> float) (S : Simulation) (sched : list nat) (wls : array) :
  getitem light "n_wl" = ret (VInt 3) ->
  S4Spectra.v_wl light = ret wls ->
  (forall S wl, In wl wls ->
     exists t, snd (S4Spectra.rta light struct db_to_eps GetPowerFlux hypot wl S) = ret t) ->
  exists v_R v_T v_A,
    S4Spectra.spectra light struct db_to_eps GetPowerFlux hypot S sched wls
    = ret (v_R, v_T, v_A) /\
    List.length v_R = 3%nat /\ List.length v_T = 3%nat /\ List.length v_A = 3%nat /\
    forall i, (i < 3)%nat ->
      exists R T A,
        nth_error v_R i = Some R /\ nth_error v_T i = Some T /\
        nth_error v_A i = Some A /\ A = sub (sub one R) T.
Proof.
  intros Hn Hwl Hok.
  destruct (v_wl_length light wls 3 Hwl Hn) as (_ & Hlen).
  assert (Hne : wls <> []) by (intros ->; discriminate).
  destruct (S4Runs.s4_spectra_returns light struct db_to_eps GetPowerFlux hypot
              S sched wls Hne Hok) as (a & b & c & E & La & Lb & Lc & Hall).
  exists a, b, c. split; [assumption |].
  change (Z.to_nat 3) with 3%nat in Hlen.
  repeat split; try congruence.
  intros i Hi.
  destruct (nth_error wls i) as [wl |] eqn:Ewl;
    [| apply nth_error_None in Ewl; lia].
  destruct (Hall i wl Ewl) as (S0 & S1 & R & T & A & Hr & HR & HT & HA).
  exists R, T, A. repeat split; try assumption.
  apply rta_returns in Hr as (? & ? & ? & ? & ? & ? & ? & ? & ? & ? & H).
  tauto.
Qed.

Lemma three_point_sweep_witness :
  exists v_R v_T v_A,
    S4Spectra.spectra Example.s4_light S4Spectra.Inputs.struct Example.db_to_eps
      Example.GetPowerFlux Example.hypot
      (New ((dec 600 0, zero), (zero, dec 600 0)) 100) Example.sched
      [dec 400 0; dec 600 0; dec 800 0]
    = ret (v_R, v_T, v_A) /\
    List.length v_R = 3%nat /\ List.length v_T = 3%nat /\ List.length v_A = 3%nat /\
    forall i, (i < 3)%nat ->
      exists R T A,
        nth_error v_R i = Some R /\ nth_error v_T i = Some T /\
        nth_error v_A i = Some A /\ A = sub (sub one R) T.
Proof.
  apply three_point_sweep.
  - reflexivity.
  - reflexivity.
  - intros S wl _. eexists. reflexivity.
Defined.

End ThreePoints.

Module Dichroism.

Import F64 Py Np Emu EmuSweep Datetime ResultFacts PoolFacts NpFacts EmuFacts
  SweepFacts SweepTotal AxisFacts FloatFacts CdFacts.

(** C1, as the code has it.  In a pass of the angle loop, once the
    stacks are solved and the four calls of [rta_spectra] have
    returned, the three circular-dichroism arrays are computed and no
    exception is raised, whatever the values: the pass has its
    fifteen columns.  The three arrays come from the arrays of
    [pol='L Circ'] and [pol='R Circ'], entry by entry as
    [(L - R) / (L + R)] in binary64 arithmetic.  For equal finite
    inputs whose sum is not zero the entry is zero.  Where the sum is
    zero the entry is a NaN or an infinity and numpy reports a
    warning. *)
Theorem cd_quantities
  (light : dict) (Simmo : Type) (calc_modes : layer -> Light -> result Simmo)
  (calc_scat : Stack Simmo -> text -> result Scat)
  (substrate superstrate NDs : layer) (sched : list nat) (wls : array)
  (th : float) (lights : list Light) (stacks : list (Stack Simmo))
  (te tm rc lc : array * array * array) :
  light_list light th wls = ret lights ->
  solve_all calc_modes substrate superstrate NDs sched lights = ret stacks ->
  rta_spectra calc_scat stacks "TE" = ret te ->
  rta_spectra calc_scat stacks "TM" = ret tm ->
  rta_spectra calc_scat stacks "R Circ" = ret rc ->
  rta_spectra calc_scat stacks "L Circ" = ret lc ->
  exists c,
    angle_columns light Simmo calc_modes calc_scat substrate superstrate NDs sched wls th
    = ret c /\
    (R_l c, T_l c, A_l c) = lc /\ (R_r c, T_r c, A_r c) = rc /\
    forall l r q,
      In (l, r, q) [(R_l c, R_r c, R_cd c); (T_l c, T_r c, T_cd c);
                    (A_l c, A_r c, A_cd c)] ->
      exists w,
        cd l r = ret (q, w) /\
        forall i L R, nth_error l i = Some L -> nth_error r i = Some R ->
          nth_error q i = Some (div (sub L R) (add L R)) /\
          (L = R -> is_finite L = true -> is_zero (add L R) = false ->
           is_zero (div (sub L R) (add L R)) = true) /\
          (is_zero (add L R) = true ->
           is_nan (div (sub L R) (add L R)) || is_inf (div (sub L R) (add L R)) = true
           /\ exists warning, In warning w).
Proof.
  intros Hl Hs Hte Htm Hrc Hlc.
  destruct te as [[R1 T1] A1], tm as [[R2 T2] A2], rc as [[Rr Tr] Ar],
    lc as [[Rl Tl] Al].
  destruct (rta_spectra_lengths _ _ _ _ _ _ _ Hrc) as (Lr1 & Lr2 & Lr3).
  destruct (rta_spectra_lengths _ _ _ _ _ _ _ Hlc) as (Ll1 & Ll2 & Ll3).
  assert (G : forall l r, List.length l = List.length r ->
            exists q w, cd l r = ret (q, w) /\
              forall i L R, nth_error l i = Some L -> nth_error r i = Some R ->
                nth_error q i = Some (div (sub L R) (add L R)) /\
                (L = R -> is_finite L = true -> is_zero (add L R) = false ->
                 is_zero (div (sub L R) (add L R)) = true) /\
                (is_zero (add L R) = true ->
                 is_nan (div (sub L R) (add L R)) || is_inf (div (sub L R) (add L R))
                 = true
                 /\ exists warning, In warning w)).
  { intros l r Hlen.
    destruct (cd_returns l r Hlen) as (q & w & Hq & _ & Hall).
    exists q, w. split; [exact Hq |]. intros i L R HL HR.
    destruct (Hall i L R HL HR) as (Hn & Hw1 & Hw2).
    split; [exact Hn |]. split.
    - intros <- Hf Hz. now apply ratio_self.
    - intros Hz. split; [now apply div_zero_r |].
      destruct (zero_sum_warns L R Hz) as (wn & Hin).
      exists wn. apply in_app_or in Hin as [Hin | Hin]; [now apply Hw1 | now apply Hw2]. }
  destruct (G Rl Rr ltac:(congruence)) as (qR & wR & HqR & ER).
  destruct (G Tl Tr ltac:(congruence)) as (qT & wT & HqT & ET).
  destruct (G Al Ar ltac:(congruence)) as (qA & wA & HqA & EA).
  eexists. split; [| split; [| split]].
  - unfold angle_columns. rewrite Hl. cbn [bind ret]. rewrite Hs. cbn [bind ret].
    rewrite Hte. cbn [bind ret]. rewrite Htm. cbn [bind ret].
    rewrite Hrc. cbn [bind ret]. rewrite Hlc. cbn [bind ret].
    rewrite HqR. cbn [bind ret]. rewrite HqT. cbn [bind ret].
    rewrite HqA. cbn [bind ret]. reflexivity.
  - reflexivity.
  - reflexivity.
  - cbn [R_l R_r R_cd T_l T_r T_cd A_l A_r A_cd].
    intros l r q [E | [E | [E | []]]]; injection E as <- <- <-.
    + exists wR. split; assumption.
    + exists wT. split; assumption.
    + exists wA. split; assumption.
Qed.

Lemma cd_quantities_witness :
  exists c,
    angle_columns Example.sweep_light float Example.calc_modes Example.calc_scat
      (Film {| tf_period := VNone; tf_period_y := VNone; tf_height_nm := VNone;
               tf_material := "Air"; tf_loss := VNone |})
      (Film {| tf_period := VNone; tf_period_y := VNone; tf_height_nm := VNone;
               tf_material := "Air"; tf_loss := VNone |})
      (Film {| tf_period := VNone; tf_period_y := VNone; tf_height_nm := VNone;
               tf_material := "Au"; tf_loss := VNone |})
      Example.sched [dec 400 0; dec 800 0] (dec 0 (-1)) = ret c /\
    (R_l c, T_l c, A_l c)
    = ([dec 400 0; dec 800 0], [dec 400 0; dec 800 0], [dec 400 0; dec 800 0]) /\
    (R_r c, T_r c, A_r c)
    = ([dec 400 0; dec 800 0], [dec 400 0; dec 800 0], [dec 400 0; dec 800 0]) /\
    forall l r q,
      In (l, r, q) [(R_l c, R_r c, R_cd c); (T_l c, T_r c, T_cd c);
                    (A_l c, A_r c, A_cd c)] ->
      exists w,
        cd l r = ret (q, w) /\
        forall i L R, nth_error l i = Some L -> nth_error r i = Some R ->
          nth_error q i = Some (div (sub L R) (add L R)) /\
          (L = R -> is_finite L = true -> is_zero (add L R) = false ->
           is_zero (div (sub L R) (add L R)) = true) /\
          (is_zero (add L R) = true ->
           is_nan (div (sub L R) (add L R)) || is_inf (div (sub L R) (add L R)) = true
           /\ exists warning, In warning w).
Proof.
  apply (cd_quantities Example.sweep_light float Example.calc_modes Example.calc_scat
           _ _ _ Example.sched [dec 400 0; dec 800 0] (dec 0 (-1))
           [{| wl_nm := dec 400 0; max_order_PWs := VInt 2; theta := VFloat (dec 0 (-1));
               phi := VFloat (dec 0 (-1)) |};
            {| wl_nm := dec 800 0; max_order_PWs := VInt 2; theta := VFloat (dec 0 (-1));
               phi := VFloat (dec 0 (-1)) |}]
           [{| layers := [dec 400 0; dec 400 0; dec 400 0] |};
            {| layers := [dec 800 0; dec 800 0; dec 800 0] |}]
           ([dec 400 0; dec 800 0], [dec 400 0; dec 800 0], [dec 400 0; dec 800 0])
           ([dec 400 0; dec 800 0], [dec 400 0; dec 800 0], [dec 400 0; dec 800 0]));
    vm_compute; reflexivity.
Defined.

(** The claim as the specification words it fails where the sum is
    zero: no error is raised.  [cd] returns a NaN with a warning, and
    a sweep in which the solver finds no power at all runs to its end
    with all its rows written. *)
Lemma zero_sum_is_no_error :
  cd [zero] [zero] = ret ([nan], [InvalidValue]) /\
  exists f,
    EmuSweep.notebook Example.sweep_light EmuSweep.Inputs.struct EmuSweep.Inputs.emu
      float Example.calc_modes Example.calc_scat_dark Example.now
      (fun _ => Example.sched) = (Some f, ret tt) /\
    List.length (data_rows f) = 4%nat.
Proof. split; [reflexivity |]. eexists. vm_compute. split; reflexivity. Qed.

End Dichroism.

Module Collisions.

Import F64 Py Datetime Naming Writers.

Lemma timestamp_same_second (t u : datetime) :
  same_second t u -> timestamp t = timestamp u.
Proof.
  intros (Hy & Hm & Hd & Hh & Hmi & Hs).
  unfold timestamp. cbn [strftime]. unfold directive. cbn [Ascii.eqb Bool.eqb].
  now rewrite Hy, Hm, Hd, Hh, Hmi, Hs.
Qed.

(** C6.  The name of the output file is a function of the five geometry
    entries of [struct] and of the instant read to the second: two runs
    of a writer whose [struct] agree on these entries and whose
    [datetime.now()] fall in the same second build the same file name,
    and so the same path. *)
Theorem same_second_same_name
  (w : writer) (struct1 struct2 : dict) (t u : datetime) :
  (forall k, In k geometry_keys -> getitem struct1 k = getitem struct2 k) ->
  same_second t u ->
  out_filename w struct1 t = out_filename w struct2 u.
Proof.
  intros Hk Hs.
  assert (E : Naming.out_filename (prefix w) struct1 t
              = Naming.out_filename (prefix w) struct2 u).
  { unfold Naming.out_filename.
    rewrite (timestamp_same_second t u Hs).
    rewrite !(Hk _) by (unfold geometry_keys; cbn [In]; tauto).
    reflexivity. }
  destruct w; exact E.
Qed.

Lemma same_second_same_name_witness :
  Example.now <> Example.later /\
  out_filename EMU_Spectra EmuSpectra.Inputs.struct Example.now
  = ret "EMU_AuNdArraySpectra_circle_px600.0_py600.0_r100.0_h100.0_180222_175845" /\
  out_filename EMU_Spectra EmuSpectra.Inputs.struct Example.now
  = out_filename EMU_Spectra EmuSpectra.Inputs.struct Example.later.
Proof.
  split; [discriminate |]. split; [reflexivity |].
  apply (same_second_same_name EMU_Spectra EmuSpectra.Inputs.struct
           EmuSpectra.Inputs.struct Example.now Example.later).
  - reflexivity.
  - unfold same_second. cbn. repeat split.
Defined.

End Collisions.

Module NamingRuns.

Import F64 Py Datetime Naming Writers.

Lemma out_filename_convention_witness :
  exists name : text,
    out_filename EMU_LF EmuLF.Inputs.struct Example.now = ret name /\
    name = (engine EMU_LF ++ "_" ++ sweep_kind EMU_LF ++ "_" ++ "circle"
            ++ "_px" ++ str (VFloat (dec 6000 (-1)))
            ++ "_py" ++ str (VFloat (dec 6000 (-1)))
            ++ "_r" ++ str (VFloat (dec 1000 (-1)))
            ++ "_h" ++ str (VFloat (dec 1000 (-1)))
            ++ "_" ++ DDMMYY_HHMMSS Example.now)%string /\
    out_path EMU_LF name = (directory EMU_LF ++ name ++ extension EMU_LF)%string.
Proof.
  apply (NamingThms.out_filename_convention EMU_LF EmuLF.Inputs.struct Example.now
           "circle" (VFloat (dec 6000 (-1))) (VFloat (dec 6000 (-1)))
           (VFloat (dec 1000 (-1))) (VFloat (dec 1000 (-1))));
    try reflexivity.
  unfold valid. cbn. lia.
Defined.

End NamingRuns.

Module GridFacts.

Import F64 Py Np EmuLF EmuFacts.

Lemma chunks_length (rows cols : nat) (a : array) :
  List.length (chunks rows cols a) = rows.
Proof.
  revert a. induction rows as [| r IH]; intros a; cbn; [reflexivity | now rewrite IH].
Qed.

Lemma chunks_nth (rows cols : nat) (a : array) (i : nat) :
  (i < rows)%nat ->
  nth_error (chunks rows cols a) i = Some (firstn cols (skipn (i * cols) a)).
Proof.
  revert a i. induction rows as [| r IH]; intros a i Hi; [lia |].
  destruct i as [| i]; cbn [chunks nth_error].
  - reflexivity.
  - rewrite IH by lia. rewrite skipn_skipn. do 3 f_equal. cbn. lia.
Qed.

Lemma chunk_entry (cols : nat) (a : array) (k j : nat) :
  (j < cols)%nat ->
  nth_error (firstn cols (skipn k a)) j = nth_error a (k + j).
Proof.
  intros Hj. rewrite nth_error_firstn.
  destruct (Nat.ltb_spec j cols); [| lia].
  apply nth_error_skipn.
Qed.

Lemma seq_nth_error (n j : nat) : (j < n)%nat -> nth_error (seq 0 n) j = Some j.
Proof.
  intros H. rewrite (nth_error_nth' _ 0%nat) by now rewrite length_seq.
  now rewrite seq_nth.
Qed.

Lemma transpose_length (cols : nat) (m : list (list float)) :
  List.length (transpose cols m) = cols.
Proof. unfold transpose. now rewrite length_map, length_seq. Qed.

Lemma transpose_rows (cols : nat) (m : list (list float)) (row : list float) :
  In row (transpose cols m) -> List.length row = List.length m.
Proof.
  unfold transpose. intros H. apply in_map_iff in H as (j & <- & _).
  apply length_map.
Qed.

(** Entry [i] of row [j] of the transpose is entry [j] of row [i]. *)
Lemma transpose_entry (cols : nat) (m : list (list float)) (i j : nat)
  (row : list float) (v : float) :
  (j < cols)%nat -> nth_error m i = Some row -> nth_error row j = Some v ->
  exists col, nth_error (transpose cols m) j = Some col /\ nth_error col i = Some v.
Proof.
  intros Hj Hrow Hv. unfold transpose.
  exists (map (fun row => nth j row zero) m). split.
  - rewrite nth_error_map, seq_nth_error by assumption. reflexivity.
  - rewrite nth_error_map, Hrow. cbn. f_equal. now apply nth_error_nth.
Qed.

Lemma grid_lengths (xs ys : array) :
  List.length (fst (grid xs ys)) = (List.length xs * List.length ys)%nat /\
  List.length (snd (grid xs ys)) = (List.length xs * List.length ys)%nat.
Proof.
  unfold grid. cbn [fst snd].
  induction xs as [| x xs [IH1 IH2]]; cbn; [split; reflexivity |].
  rewrite !length_app, length_map, IH1, IH2. split; reflexivity.
Qed.

(** The grid point at index [i * len(ys) + j] is [(xs[i], ys[j])]. *)
Lemma grid_entry (xs ys : array) (i j : nat) (x y : float) :
  nth_error xs i = Some x -> nth_error ys j = Some y ->
  nth_error (fst (grid xs ys)) (i * List.length ys + j) = Some x /\
  nth_error (snd (grid xs ys)) (i * List.length ys + j) = Some y.
Proof.
  intros Hx Hy. unfold grid. cbn [fst snd].
  assert (Hj : (j < List.length ys)%nat) by (apply nth_error_Some; congruence).
  split.
  - rewrite (concat_nth_uniform (List.length ys) _) with (l := map (fun _ => x) ys).
    + rewrite nth_error_map, Hy. reflexivity.
    + apply Forall_forall. intros l Hl. apply in_map_iff in Hl as (x0 & <- & _).
      apply length_map.
    + rewrite nth_error_map, Hx. reflexivity.
    + assumption.
  - rewrite (concat_nth_uniform (List.length ys) _) with (l := ys).
    + assumption.
    + apply Forall_forall. intros l Hl. apply in_map_iff in Hl as (x0 & <- & _).
      reflexivity.
    + rewrite nth_error_map, Hx. reflexivity.
    + assumption.
Qed.

End GridFacts.

Module LocalField.

Import F64 Py Np Emu EmuLF NpFacts GridFacts.

(** C10.  [lf] does not look at [n_points] nor at [lay_interest]:
    whatever they are, the call is the call with 500 and 1.  When the
    scattering computation succeeds, [fields_interpolator_in_plane]
    gives the interpolators of layer 1, the quotient [q] of the two
    periods is computed (as Python divides them: two floats, two
    ints, or one of each) and [AbsE] returns one value per point,
    [lf] returns a map of 500 rows of 500 entries, and entry [i] of
    row [j] is the value of [AbsE] of layer 1 at the [i]-th abscissa
    and the [j]-th ordinate of the two 500-point axes. *)
Theorem lf_ignores_n_points_and_layer
  (struct : dict) (Simmo Solved : Type)
  (calc_scat : Stack Simmo -> text -> result Solved)
  (fields_interpolator_in_plane : Solved -> Z -> float -> result Fields)
  (stack : Stack Simmo) (pol : text) (z : float)
  (solved : Solved) (fields : Fields) (vx vy : pyval) (q : float) :
  calc_scat stack pol = ret solved ->
  fields_interpolator_in_plane solved 1 z = ret fields ->
  getitem struct "nd_period_x" = ret vx ->
  getitem struct "nd_period_y" = ret vy ->
  true_div vy vx = ret q ->
  (forall v_x v_y, List.length v_x = List.length v_y ->
     exists vals, AbsE fields v_x v_y = ret vals /\
                  List.length vals = List.length v_x) ->
  (forall n_points lay_interest,
     lf struct Simmo Solved calc_scat fields_interpolator_in_plane
        stack pol z n_points lay_interest
     = lf struct Simmo Solved calc_scat fields_interpolator_in_plane
        stack pol z 500 1) /\
  exists xs ys vals m,
    linspace (dec 0 (-1)) (dec 10 (-1)) 500 = ret xs /\
    linspace (opp q) (dec 0 (-1)) 500 = ret ys /\
    AbsE fields (fst (grid xs ys)) (snd (grid xs ys)) = ret vals /\
    (forall n_points lay_interest,
       lf struct Simmo Solved calc_scat fields_interpolator_in_plane
          stack pol z n_points lay_interest = ret m) /\
    List.length m = 500%nat /\
    (forall row, In row m -> List.length row = 500%nat) /\
    forall i j x y, nth_error xs i = Some x -> nth_error ys j = Some y ->
      exists row v,
        nth_error m j = Some row /\ nth_error row i = Some v /\
        nth_error vals (i * 500 + j) = Some v /\
        nth_error (fst (grid xs ys)) (i * 500 + j) = Some x /\
        nth_error (snd (grid xs ys)) (i * 500 + j) = Some y.
Proof.
  intros Hscat Hfields Hvx Hvy Hq Habs.
  split; [reflexivity |].
  destruct (linspace_ok (dec 0 (-1)) (dec 10 (-1)) 500) as (xs & Hxs); [lia |].
  destruct (linspace_ok (opp q) (dec 0 (-1)) 500) as (ys & Hys); [lia |].
  pose proof (linspace_length _ _ _ _ Hxs) as Lx.
  pose proof (linspace_length _ _ _ _ Hys) as Ly.
  destruct (grid_lengths xs ys) as (G1 & G2).
  destruct (Habs (fst (grid xs ys)) (snd (grid xs ys))) as (vals & Hvals & Lv);
    [congruence |].
  set (n := Z.to_nat 500) in *.
  assert (Hn : n = 500%nat) by reflexivity.
  assert (Hlen : List.length vals = (n * n)%nat) by congruence.
  exists xs, ys, vals, (transpose n (chunks n n vals)).
  split; [assumption |]. split; [assumption |]. split; [assumption |].
  split; [| split; [| split]].
  - intros n_points lay_interest. unfold lf.
    rewrite Hscat. cbn [bind ret]. rewrite Hfields. cbn [bind ret]. cbv zeta.
    rewrite Hvy, Hvx. cbn [bind ret]. rewrite Hq. cbn [bind ret].
    rewrite Hxs. cbn [bind ret]. rewrite Hys. cbn [bind ret].
    destruct (grid xs ys) as [v_x v_y] eqn:E. cbn [fst snd] in Hvals.
    rewrite Hvals. cbn [bind ret]. fold n.
    unfold reshape. rewrite Hlen, Nat.eqb_refl. reflexivity.
  - rewrite transpose_length. exact Hn.
  - intros row Hrow. apply transpose_rows in Hrow.
    rewrite Hrow, chunks_length. exact Hn.
  - intros i j x y Hx Hy.
    assert (Hi : (i < n)%nat) by (rewrite <- Lx; apply nth_error_Some; congruence).
    assert (Hj : (j < n)%nat) by (rewrite <- Ly; apply nth_error_Some; congruence).
    destruct (grid_entry xs ys i j x y Hx Hy) as (E1 & E2).
    rewrite Ly in E1, E2. rewrite Hn in E1, E2.
    assert (Hk : (i * n + j < List.length vals)%nat) by (rewrite Hlen; nia).
    destruct (nth_error vals (i * n + j)) as [v |] eqn:Ev;
      [| apply nth_error_None in Ev; lia].
    destruct (transpose_entry n (chunks n n vals) i j
                (firstn n (skipn (i * n) vals)) v Hj) as (row & Hrow & Hv).
    { now apply chunks_nth. }
    { now rewrite chunk_entry. }
    exists row, v. rewrite Hn in Ev. auto.
Qed.

Lemma lf_ignores_n_points_and_layer_witness :
  (forall n_points lay_interest,
     lf EmuLF.Inputs.struct float float Example.calc_scat_lf
        Example.fields_interpolator_in_plane
        {| layers := [] |} "TM" zero n_points lay_interest
     = lf EmuLF.Inputs.struct float float Example.calc_scat_lf
        Example.fields_interpolator_in_plane
        {| layers := [] |} "TM" zero 500 1) /\
  exists xs ys vals m,
    linspace (dec 0 (-1)) (dec 10 (-1)) 500 = ret xs /\
    linspace (opp (div (dec 6000 (-1)) (dec 6000 (-1)))) (dec 0 (-1)) 500 = ret ys /\
    AbsE Example.radial (fst (grid xs ys)) (snd (grid xs ys)) = ret vals /\
    (forall n_points lay_interest,
       lf EmuLF.Inputs.struct float float Example.calc_scat_lf
          Example.fields_interpolator_in_plane
          {| layers := [] |} "TM" zero n_points lay_interest = ret m) /\
    List.length m = 500%nat /\
    (forall row, In row m -> List.length row = 500%nat) /\
    forall i j x y, nth_error xs i = Some x -> nth_error ys j = Some y ->
      exists row v,
        nth_error m j = Some row /\ nth_error row i = Some v /\
        nth_error vals (i * 500 + j) = Some v /\
        nth_error (fst (grid xs ys)) (i * 500 + j) = Some x /\
        nth_error (snd (grid xs ys)) (i * 500 + j) = Some y.
Proof.
  apply (lf_ignores_n_points_and_layer EmuLF.Inputs.struct float float
           Example.calc_scat_lf Example.fields_interpolator_in_plane
           {| layers := [] |} "TM" zero zero Example.radial
           (VFloat (dec 6000 (-1))) (VFloat (dec 6000 (-1)))
           (div (dec 6000 (-1)) (dec 6000 (-1))));
    try reflexivity.
  intros v_x v_y H. eexists. split; [reflexivity |].
  now rewrite length_map, length_combine, H, Nat.min_id.
Defined.

End LocalField.

Module CharFacts.

Import F64 Py Ast TextFacts.

Ltac each_char c := destruct c as [[] [] [] [] [] [] [] []].

Lemma ord_chr (n : Z) : 0 <= n < 256 -> ord (chr n) = n.
Proof.
  intros H. unfold ord, chr. rewrite N_ascii_embedding by lia. lia.
Qed.

Lemma ord_digit_char (d : Z) : 0 <= d < 10 -> ord (digit_char d) = 48 + d.
Proof. intros H. unfold digit_char. apply ord_chr. lia. Qed.

Lemma is_digit_digit_char (d : Z) : 0 <= d < 10 -> is_digit (digit_char d) = true.
Proof.
  intros H. unfold is_digit. rewrite ord_digit_char by assumption.
  apply andb_true_intro. split; apply Z.leb_le; lia.
Qed.

(** A digit opens a number. *)
Lemma lex1_digit (c : ascii) (r : text) :
  is_digit c = true ->
  lex1 (String c r) = (tr <- lex_number (String c r) ;; ret (Some tr)).
Proof. each_char c; intros H; try discriminate H; reflexivity. Qed.

Lemma digit_not_space (c : ascii) : is_digit c = true -> is_space c = false.
Proof. each_char c; intros H; try discriminate H; reflexivity. Qed.

Lemma digit_is_name_char (c : ascii) : is_digit c = true -> is_name_char c = true.
Proof. unfold is_name_char. intros ->. apply orb_true_r. Qed.

End CharFacts.

Module StringFacts.

Import F64 Py Ast TextFacts CharFacts.

(** One character of the body of a [repr] is read back as itself. *)
Lemma lex_string_escape_char (q c : ascii) (t : text) :
  q = squote \/ q = dquote ->
  lex_string q (escape_char q c ++ t)%string
  = ('(body, rest) <- lex_string q t ;; ret (String c body, rest)).
Proof. intros [-> | ->]; each_char c; reflexivity. Qed.

Lemma lex_string_escape (q : ascii) (s rest : text) :
  q = squote \/ q = dquote ->
  lex_string q (escape q s ++ String q rest)%string = ret (s, rest).
Proof.
  intros Hq. induction s as [| c s IH]; cbn [escape].
  - cbn [append lex_string]. rewrite Ascii.eqb_refl. reflexivity.
  - rewrite append_assoc, lex_string_escape_char, IH by assumption. reflexivity.
Qed.

Lemma quote_for_cases (s : text) : quote_for s = squote \/ quote_for s = dquote.
Proof. unfold quote_for. destruct (_ && _); auto. Qed.

(** The [repr] of a string is one string literal, whatever follows. *)
Lemma lex1_str_repr (s rest : text) :
  lex1 (str_repr s ++ rest)%string = ret (Some (StrLit s, rest)).
Proof.
  unfold str_repr.
  destruct (quote_for_cases s) as [-> | ->]; cbn [append lex1];
    rewrite append_assoc; cbn [str1 append];
    cbn [Ascii.eqb Bool.eqb squote dquote orb andb];
    rewrite lex_string_escape by auto; reflexivity.
Qed.

Lemma str_repr_length (s : text) : (2 <= String.length (str_repr s))%nat.
Proof.
  unfold str_repr. cbn [String.length]. rewrite length_append. cbn. lia.
Qed.

End StringFacts.

Module NumberFacts.

Import F64 Py Ast TextFacts CharFacts.

Ltac delimiter rest :=
  let c := fresh "c" in
  let H := fresh "H" in
  destruct rest as [| c ?];
    [| match goal with D : delimited (String c _) |- _ =>
         destruct D as [H | [H | H]]; rewrite H in * end ].

Lemma all_digits_app (a b : text) :
  all_digits (a ++ b)%string = all_digits a && all_digits b.
Proof.
  induction a as [| c a IH]; cbn; [reflexivity |]. now rewrite IH, andb_assoc.
Qed.

Lemma number_from_app (a b : text) (acc : Z) :
  number_from acc (a ++ b)%string = number_from (number_from acc a) b.
Proof. revert acc. induction a as [| c a IH]; intros acc; cbn; [reflexivity | apply IH]. Qed.

Lemma digits_from_S (f : nat) (n : Z) (acc : text) :
  digits_from (S f) n acc
  = if n <? 10 then String (digit_char n) acc
    else digits_from f (n / 10) (String (digit_char (n mod 10)) acc).
Proof. reflexivity. Qed.

(** The digits of a number: all of them digits, none for nothing, no
    leading zero, and they denote the number. *)
Lemma digits_from_spec (fuel : nat) (n : Z) (acc : text) :
  0 <= n < 2 ^ Z.of_nat (S fuel) ->
  exists c ds,
    digits_from (S fuel) n acc = (String c ds ++ acc)%string /\
    all_digits (String c ds) = true /\
    number_of (String c ds) = n /\
    (c = "0"%char -> n = 0 /\ ds = EmptyString).
Proof.
  revert n acc. induction fuel as [| f IH]; intros n acc Hn.
  - assert (n < 10) by (cbn in Hn; lia).
    cbn [digits_from]. destruct (Z.ltb_spec n 10); [| lia].
    exists (digit_char n), EmptyString. split; [reflexivity |].
    split; [cbn; now rewrite is_digit_digit_char by lia |].
    split; [unfold number_of; cbn [number_from]; rewrite ord_digit_char by lia; lia |].
    intros E. split; [| reflexivity].
    apply (f_equal ord) in E. rewrite ord_digit_char in E by lia.
    change (ord "0") with 48 in E. lia.
  - rewrite digits_from_S. destruct (Z.ltb_spec n 10) as [L | L].
    + exists (digit_char n), EmptyString. split; [reflexivity |].
      split; [cbn; now rewrite is_digit_digit_char by lia |].
      split; [unfold number_of; cbn [number_from]; rewrite ord_digit_char by lia; lia |].
      intros E. split; [| reflexivity].
      apply (f_equal ord) in E. rewrite ord_digit_char in E by lia.
      change (ord "0") with 48 in E. lia.
    + assert (Hq : 0 <= n / 10 < 2 ^ Z.of_nat (S f)).
      { split; [apply Z.div_pos; lia |].
        apply Z.div_lt_upper_bound; [lia |].
        replace (Z.of_nat (S (S f))) with (Z.of_nat (S f) + 1) in Hn by lia.
        rewrite Z.pow_add_r in Hn by lia. lia. }
      destruct (IH (n / 10) (String (digit_char (n mod 10)) acc) Hq)
        as (c & ds & E & D & N & Z0).
      assert (Hm : 0 <= n mod 10 < 10) by (apply Z.mod_pos_bound; lia).
      exists c, (ds ++ str1 (digit_char (n mod 10)))%string.
      split; [| split; [| split]].
      * rewrite E. cbn [append]. f_equal.
        rewrite append_assoc. reflexivity.
      * change (String c (ds ++ str1 (digit_char (n mod 10))))
          with (String c ds ++ str1 (digit_char (n mod 10)))%string.
        rewrite all_digits_app, D. cbn. now rewrite is_digit_digit_char by lia.
      * change (String c (ds ++ str1 (digit_char (n mod 10))))
          with (String c ds ++ str1 (digit_char (n mod 10)))%string.
        unfold number_of in *. rewrite number_from_app, N. cbn [number_from str1].
        rewrite ord_digit_char by lia.
        pose proof (Z.div_mod n 10 ltac:(lia)). lia.
      * intros E0. destruct (Z0 E0) as (Q & _).
        assert (n < 10) by (apply Z.div_small_iff in Q; lia). lia.
Qed.

Lemma digits_of_spec (n : Z) :
  0 <= n ->
  exists c ds,
    digits_of n = String c ds /\
    all_digits (String c ds) = true /\
    number_of (String c ds) = n /\
    (c = "0"%char -> n = 0 /\ ds = EmptyString).
Proof.
  intros H. unfold digits_of.
  destruct (digits_from_spec (Z.to_nat (Z.log2 n)) n EmptyString)
    as (c & ds & E & D & N & Z0).
  - split; [assumption |].
    rewrite Nat2Z.inj_succ, Z2Nat.id by apply Z.log2_nonneg.
    destruct (Z.eq_dec n 0) as [-> | Hz]; [reflexivity |].
    apply Z.log2_spec. lia.
  - exists c, ds. rewrite E, append_nil_r. auto.
Qed.

(** The digits in front of something that is not a digit. *)
Lemma span_digits_app (ds rest : text) :
  all_digits ds = true -> delimited rest ->
  span_digits (ds ++ rest)%string = (ds, rest).
Proof.
  intros D Hr. induction ds as [| c ds IH]; cbn [append].
  - delimiter rest; reflexivity.
  - cbn in D. apply andb_prop in D as (Dc & Dr).
    cbn [span_digits]. rewrite Dc, (IH Dr). reflexivity.
Qed.

(** Text after the digits of a span stays after them. *)
Lemma span_digits_more (s rest : text) :
  delimited rest ->
  span_digits (s ++ rest)%string
  = (fst (span_digits s), (snd (span_digits s) ++ rest)%string).
Proof.
  intros Hr. induction s as [| c s IH]; cbn [append].
  - delimiter rest; reflexivity.
  - cbn [span_digits]. destruct (is_digit c); [| reflexivity].
    rewrite IH. destruct (span_digits s). reflexivity.
Qed.

End NumberFacts.

Module LexNumberFacts.

Import F64 Py Ast TextFacts CharFacts NumberFacts.

Lemma lex_number_eq (s : text) :
  lex_number s
  = let '(ip, r1) := span_digits s in
    let '(fp, r2) := frac_part r1 in
    '(ex, r3) <- lex_exponent r2 ;;
    _ <- end_check r3 ;;
    number_token ip fp ex r3.
Proof. reflexivity. Qed.

Lemma lex_exponent_eq (c : ascii) (r : text) :
  lex_exponent (String c r)
  = if Ascii.eqb c "e"%char || Ascii.eqb c "E"%char then
      let '(neg, r1) := exponent_sign r in
      let '(ds, r2) := span_digits r1 in
      match ds with
      | EmptyString => raise SyntaxError
      | _ => ret (Some (if neg then - number_of ds else number_of ds), r2)
      end
    else ret (None, String c r).
Proof. reflexivity. Qed.

Lemma number_token_rest (ip : text) (fp : option text) (ex : option Z)
  (r3 r : text) (tok : token) :
  number_token ip fp ex r3 = ret (tok, r) ->
  r = r3 /\ forall r', number_token ip fp ex r' = ret (tok, r').
Proof.
  unfold number_token, ret, raise. intros H.
  destruct fp, ex; try (injection H as <- <-; split; reflexivity).
  destruct ip as [| c [| c' ip]]; try (injection H as <- <-; split; reflexivity);
    each_char c; try (injection H as <- <-; split; reflexivity).
  destruct (number_of _ =? 0); [| discriminate].
  injection H as <- <-. split; reflexivity.
Qed.

Lemma frac_part_app (r1 rest : text) :
  delimited rest ->
  frac_part (r1 ++ rest)%string
  = (fst (frac_part r1), (snd (frac_part r1) ++ rest)%string).
Proof.
  intros Hr. destruct r1 as [| c r]; cbn [append].
  - delimiter rest; reflexivity.
  - each_char c; try reflexivity.
    cbn [frac_part]. rewrite span_digits_more by assumption.
    destruct (span_digits r). reflexivity.
Qed.

Lemma exponent_sign_app (c : ascii) (r rest : text) :
  exponent_sign (String c r ++ rest)%string
  = (fst (exponent_sign (String c r)),
     (snd (exponent_sign (String c r)) ++ rest)%string).
Proof. each_char c; reflexivity. Qed.

Lemma lex_exponent_app (s rest : text) :
  delimited rest ->
  lex_exponent (s ++ rest)%string
  = match lex_exponent s with
    | inl e => inl e
    | inr (ex, r) => inr (ex, (r ++ rest)%string)
    end.
Proof.
  intros Hr. destruct s as [| c r].
  - cbn [append]. delimiter rest; reflexivity.
  - change (String c r ++ rest)%string with (String c (r ++ rest)%string).
    rewrite !lex_exponent_eq.
    destruct (Ascii.eqb c "e" || Ascii.eqb c "E"); [| reflexivity].
    destruct r as [| c1 r1].
    + cbn [append]. delimiter rest; reflexivity.
    + rewrite exponent_sign_app.
      destruct (exponent_sign (String c1 r1)) as [neg r2]. cbn [fst snd].
      rewrite span_digits_more by assumption.
      destruct (span_digits r2) as [ds r3]. cbn [fst snd].
      destruct ds; reflexivity.
Qed.

Lemma end_check_delimited (rest : text) : delimited rest -> end_check rest = ret tt.
Proof. intros Hr. delimiter rest; reflexivity. Qed.

(** A number literal that is a whole text is the same literal in front
    of a delimiter. *)
Lemma lex_number_app (t rest : text) (tok : token) :
  delimited rest ->
  lex_number t = ret (tok, EmptyString) ->
  lex_number (t ++ rest)%string = ret (tok, rest).
Proof.
  intros Hr. rewrite !lex_number_eq.
  rewrite span_digits_more by assumption.
  destruct (span_digits t) as [ip r1]. cbn [fst snd].
  rewrite frac_part_app by assumption.
  destruct (frac_part r1) as [fp r2]. cbn [fst snd].
  rewrite lex_exponent_app by assumption.
  destruct (lex_exponent r2) as [e | [ex r3]]; [discriminate |].
  cbn [bind].
  destruct (end_check r3) as [e | []] eqn:E; [discriminate |].
  intros H. apply number_token_rest in H as (<- & H).
  cbn [append]. rewrite end_check_delimited by assumption. apply H.
Qed.

(** The digits of a non-negative integer are read as that integer. *)
Lemma lex_number_int (n : Z) (rest : text) :
  0 <= n -> delimited rest ->
  lex_number (digits_of n ++ rest)%string = ret (IntLit n, rest).
Proof.
  intros Hn Hr. rewrite lex_number_eq.
  destruct (digits_of_spec n Hn) as (c & ds & E & D & N & Z0).
  rewrite E, span_digits_app by assumption.
  assert (F : frac_part rest = (None, rest)) by (delimiter rest; reflexivity).
  assert (X : lex_exponent rest = ret (None, rest)) by (delimiter rest; reflexivity).
  rewrite F, X. cbn [bind ret]. rewrite end_check_delimited by assumption.
  unfold number_token. rewrite N.
  destruct ds as [| c' ds]; [each_char c; reflexivity |].
  each_char c; try reflexivity.
  destruct Z0 as (_ & Z0); [reflexivity | discriminate].
Qed.

Lemma digits_of_first (n : Z) :
  0 <= n -> exists c ds, digits_of n = String c ds /\ is_digit c = true.
Proof.
  intros Hn. destruct (digits_of_spec n Hn) as (c & ds & E & D & _).
  exists c, ds. split; [assumption |].
  cbn in D. now apply andb_prop in D as (D & _).
Qed.

(** Only a digit opens a float literal. *)
Lemma lex1_float_digit (c : ascii) (r rest : text) (y : float) :
  lex1 (String c r) = ret (Some (FloatLit y, rest)) -> is_digit c = true.
Proof.
  intros H. each_char c; try reflexivity; exfalso; cbn in H;
    try discriminate H;
    try (destruct (lex_string _ _) as [? | [? ?]]; discriminate H);
    try (destruct (span_name _) as [? ?]; discriminate H).
Qed.

(** A float literal that is a whole text is the same literal in front
    of a delimiter. *)
Lemma lex1_float_app (t rest : text) (y : float) :
  delimited rest ->
  lex1 t = ret (Some (FloatLit y, EmptyString)) ->
  lex1 (t ++ rest)%string = ret (Some (FloatLit y, rest))
  /\ exists c r, t = String c r /\ is_digit c = true.
Proof.
  intros Hr H. destruct t as [| c r]; [discriminate |].
  pose proof (lex1_float_digit _ _ _ _ H) as D.
  split; [| eauto].
  rewrite lex1_digit in H by assumption.
  change (String c r ++ rest)%string with (String c (r ++ rest)%string).
  rewrite lex1_digit by assumption.
  change (String c (r ++ rest)%string) with (String c r ++ rest)%string.
  destruct (lex_number (String c r)) as [e | [tok r']] eqn:E; [discriminate |].
  injection H as -> ->.
  rewrite (lex_number_app _ _ _ Hr E). reflexivity.
Qed.

End LexNumberFacts.

(** ** The reader of decimals rounds to the nearest float *)

Module RoundFacts.

Import F64.

Lemma lt_cancel (x y b : Z) : 0 < b -> x * b < y * b -> x < y.
Proof. intros Hb H. now apply (Z.mul_lt_mono_pos_r b). Qed.

Lemma le_cancel (x y b : Z) : 0 < b -> x * b <= y * b -> x <= y.
Proof. intros Hb H. now apply (Z.mul_le_mono_pos_r _ _ b). Qed.

Lemma half_even_unique (a b m : Z) :
  0 < b -> (2 * m - 1) * b < 2 * a < (2 * m + 1) * b -> half_even a b = m.
Proof.
  intros Hb H. unfold half_even.
  pose proof (Z.div_mod a b ltac:(lia)) as E.
  pose proof (Z.mod_pos_bound a b Hb) as B.
  set (q := a / b) in *. set (r := a mod b) in *.
  destruct (Z.ltb_spec (2 * r) b).
  - assert (K1 : (2 * m - 1) * b < (2 * q + 1) * b) by lia.
    assert (K2 : (2 * q) * b < (2 * m + 1) * b) by lia.
    apply (lt_cancel _ _ _ Hb) in K1. apply (lt_cancel _ _ _ Hb) in K2. lia.
  - destruct (Z.ltb_spec b (2 * r)).
    + assert (K1 : (2 * m - 1) * b < (2 * q + 2) * b) by lia.
      assert (K2 : (2 * q + 1) * b < (2 * m + 1) * b) by lia.
      apply (lt_cancel _ _ _ Hb) in K1. apply (lt_cancel _ _ _ Hb) in K2. lia.
    + exfalso.
      assert (K1 : (2 * m - 1) * b < (2 * q + 1) * b) by lia.
      assert (K2 : (2 * q + 1) * b < (2 * m + 1) * b) by lia.
      apply (lt_cancel _ _ _ Hb) in K1. apply (lt_cancel _ _ _ Hb) in K2. lia.
Qed.

(** The rounded quotient is a function of the quotient. *)
Lemma half_even_ratio (a b a' b' : Z) :
  0 < b -> 0 < b' -> a * b' = a' * b -> half_even a b = half_even a' b'.
Proof.
  intros Hb Hb' E. unfold half_even.
  pose proof (Z.div_mod a b ltac:(lia)) as Ea.
  pose proof (Z.mod_pos_bound a b Hb) as Ba.
  set (q := a / b) in *. set (r := a mod b) in *.
  assert (Er : b * (a' - q * b') = r * b') by nia.
  assert (Br : 0 <= a' - q * b' < b') by nia.
  assert (Eq : a' / b' = q).
  { symmetry. apply (Z.div_unique a' b' q (a' - q * b')); [lia | lia]. }
  assert (Em : a' mod b' = a' - q * b').
  { symmetry. apply (Z.mod_unique a' b' q (a' - q * b')); [lia | lia]. }
  rewrite Eq, Em.
  destruct (Z.ltb_spec (2 * r) b), (Z.ltb_spec (2 * (a' - q * b')) b'); try nia;
    destruct (Z.ltb_spec b (2 * r)), (Z.ltb_spec b' (2 * (a' - q * b'))); try nia;
    reflexivity.
Qed.

Lemma pow2_pos (e : Z) : 0 <= e -> 0 < 2 ^ e.
Proof. intros H. apply Z.pow_pos_nonneg; lia. Qed.

Lemma pow2_succ (e : Z) : 0 <= e -> 2 ^ (e + 1) = 2 * 2 ^ e.
Proof. intros H. rewrite Z.pow_add_r by lia. change (2 ^ 1) with 2. ring. Qed.

Lemma scaled_wide (n d : positive) (e : Z) :
  -1074 <= e ->
  0 < fst (scaled n d e) /\ 0 < snd (scaled n d e) /\
  fst (scaled n d e) * (Zpos d * 2 ^ (e + 1074)) = Zpos n * 2 ^ 1074 * snd (scaled n d e).
Proof.
  intros He. unfold scaled. destruct (Z.leb_spec 0 e) as [H | H]; cbn [fst snd].
  - pose proof (pow2_pos e H). split; [lia |]. split; [apply Z.mul_pos_pos; lia |].
    rewrite Z.pow_add_r by lia. ring.
  - pose proof (pow2_pos (- e) ltac:(lia)). split; [apply Z.mul_pos_pos; lia |].
    split; [lia |].
    replace 1074 with (- e + (e + 1074)) at 2 by lia.
    rewrite (Z.pow_add_r 2 (- e) (e + 1074)) by lia. ring.
Qed.

Lemma binade_eq (n d : positive) :
  binade n d
  = if snd (scaled n d (Z.log2 (Zpos n) - Z.log2 (Zpos d)))
       <=? fst (scaled n d (Z.log2 (Zpos n) - Z.log2 (Zpos d)))
    then Z.log2 (Zpos n) - Z.log2 (Zpos d)
    else Z.log2 (Zpos n) - Z.log2 (Zpos d) - 1.
Proof.
  unfold binade. now destruct (scaled n d (Z.log2 (Zpos n) - Z.log2 (Zpos d))).
Qed.

Lemma scaled_eq (n d : positive) (e : Z) :
  scaled n d e
  = if 0 <=? e then (Zpos n, Zpos d * 2 ^ e) else (Zpos n * 2 ^ (- e), Zpos d).
Proof. reflexivity. Qed.

Lemma binade_spec (n d : positive) :
  snd (scaled n d (binade n d)) <= fst (scaled n d (binade n d))
  < 2 * snd (scaled n d (binade n d)).
Proof.
  rewrite binade_eq.
  pose proof (Z.log2_spec (Zpos n) ltac:(lia)) as Ln.
  pose proof (Z.log2_spec (Zpos d) ltac:(lia)) as Ld.
  pose proof (Z.log2_nonneg (Zpos n)) as Pn.
  pose proof (Z.log2_nonneg (Zpos d)) as Pd.
  set (la := Z.log2 (Zpos n)) in *. set (lb := Z.log2 (Zpos d)) in *.
  rewrite Z.pow_succ_r in Ln, Ld by assumption.
  set (A := 2 ^ la) in *. set (B := 2 ^ lb) in *.
  rewrite !scaled_eq.
  set (N := Zpos n) in *. set (D := Zpos d) in *.
  destruct (Z.leb_spec 0 (la - lb)) as [H | H]; cbn [fst snd].
  - assert (E : A = B * 2 ^ (la - lb)).
    { unfold A, B. rewrite <- Z.pow_add_r by lia. f_equal. lia. }
    pose proof (pow2_pos (la - lb) H) as P.
    destruct (Z.leb_spec (D * 2 ^ (la - lb)) N) as [T | T].
    + destruct (Z.leb_spec 0 (la - lb)); [| lia].
      cbn [fst snd].
      assert (B * 2 ^ (la - lb) <= D * 2 ^ (la - lb))
        by (apply Z.mul_le_mono_nonneg_r; lia).
      lia.
    + destruct (Z.leb_spec 0 (la - lb - 1)) as [H1 | H1]; cbn [fst snd].
      * assert (E1 : 2 ^ (la - lb) = 2 * 2 ^ (la - lb - 1)).
        { rewrite <- Z.pow_succ_r by lia. f_equal. lia. }
        pose proof (pow2_pos (la - lb - 1) H1).
        rewrite E1 in *.
        assert (D * 2 ^ (la - lb - 1) < (2 * B) * 2 ^ (la - lb - 1))
          by (apply Z.mul_lt_mono_pos_r; lia).
        lia.
      * assert (Z0 : la - lb = 0) by lia. rewrite Z0 in *.
        change (- (0 - 1)) with 1. change (2 ^ 1) with 2. change (2 ^ 0) with 1 in *.
        lia.
  - assert (E : B = A * 2 ^ (- (la - lb))).
    { unfold A, B. rewrite <- Z.pow_add_r by lia. f_equal. lia. }
    pose proof (pow2_pos (- (la - lb)) ltac:(lia)) as P.
    destruct (Z.leb_spec D (N * 2 ^ (- (la - lb)))) as [T | T].
    + destruct (Z.leb_spec 0 (la - lb)); [lia |].
      cbn [fst snd].
      assert (N * 2 ^ (- (la - lb)) < (2 * A) * 2 ^ (- (la - lb)))
        by (apply Z.mul_lt_mono_pos_r; lia).
      lia.
    + destruct (Z.leb_spec 0 (la - lb - 1)); [lia |].
      cbn [fst snd].
      assert (E1 : 2 ^ (- (la - lb - 1)) = 2 * 2 ^ (- (la - lb))).
      { rewrite <- Z.pow_succ_r by lia. f_equal. lia. }
      rewrite E1.
      assert (A * 2 ^ (- (la - lb)) <= N * 2 ^ (- (la - lb)))
        by (apply Z.mul_le_mono_nonneg_r; lia).
      lia.
Qed.

(** The exponent [of_ratio] rounds at. *)
Lemma exponent_char (n d : positive) :
  0 <= Z.max (binade n d - 52) (-1074) + 1074 /\
  exponent_of (Zpos n * 2 ^ 1074) (Zpos d) (Z.max (binade n d - 52) (-1074) + 1074).
Proof.
  split; [lia |].
  pose proof (binade_spec n d) as S.
  set (k := binade n d) in *.
  set (N := Zpos n * 2 ^ 1074). set (D := Zpos d).
  assert (HD : 0 < D) by (unfold D; lia).
  destruct (Z.le_gt_cases (-1074) k) as [Hk | Hk].
  - destruct (scaled_wide n d k Hk) as (Pa & Pb & E).
    fold N D in E.
    set (a := fst (scaled n d k)) in *. set (b := snd (scaled n d k)) in *.
    pose proof (pow2_pos (k + 1074) ltac:(lia)) as PK.
    assert (L1 : D * 2 ^ (k + 1074) <= N).
    { apply (le_cancel _ _ b Pb).
      assert (b * (D * 2 ^ (k + 1074)) <= a * (D * 2 ^ (k + 1074)))
        by (apply Z.mul_le_mono_nonneg_r; [apply Z.mul_nonneg_nonneg |]; lia).
      lia. }
    assert (L2 : N < D * 2 ^ (k + 1074 + 1)).
    { rewrite pow2_succ by lia. apply (lt_cancel _ _ b Pb).
      assert (a * (D * 2 ^ (k + 1074)) < (2 * b) * (D * 2 ^ (k + 1074)))
        by (apply Z.mul_lt_mono_pos_r; [apply Z.mul_pos_pos |]; lia).
      lia. }
    destruct (Z.max_spec (k - 52) (-1074)) as [(C & ->) | (C & ->)].
    + left. split; [lia |].
      assert (2 ^ (k + 1074 + 1) <= 2 ^ 53) by (apply Z.pow_le_mono_r; lia).
      assert (D * 2 ^ (k + 1074 + 1) <= D * 2 ^ 53)
        by (apply Z.mul_le_mono_nonneg_l; lia).
      lia.
    + destruct (Z.eq_dec (k - 52) (-1074)) as [Z0 | Z0].
      * left. split; [lia |]. replace (k + 1074 + 1) with 53 in L2 by lia. exact L2.
      * right. split; [lia |].
        replace (k - 52 + 1074 + 52) with (k + 1074) by lia.
        replace (k - 52 + 1074 + 53) with (k + 1074 + 1) by lia. lia.
  - left. destruct (Z.max_spec (k - 52) (-1074)) as [(C & ->) | (C & ->)]; [| lia].
    split; [lia |].
    rewrite scaled_eq in S. destruct (Z.leb_spec 0 k); [lia |]. cbn [fst snd] in S.
    fold D in S.
    assert (P1 : 2 ^ 1075 <= 2 ^ (- k)) by (apply Z.pow_le_mono_r; lia).
    assert (P2 : Zpos n * 2 ^ 1075 <= Zpos n * 2 ^ (- k))
      by (apply Z.mul_le_mono_nonneg_l; lia).
    change (2 ^ 1075) with (2 ^ 1074 * 2) in P2.
    assert (N * 2 < 2 * D) by (unfold N; lia).
    assert (D * 1 <= D * 2 ^ 53) by (apply Z.mul_le_mono_nonneg_l; [lia | easy]).
    lia.
Qed.

Lemma exponent_unique (N D e1 e2 : Z) :
  0 < D -> 0 <= e1 -> 0 <= e2 ->
  exponent_of N D e1 -> exponent_of N D e2 -> e1 = e2.
Proof.
  assert (G : forall a b, 0 <= a -> a < b -> 0 < D ->
            exponent_of N D a -> exponent_of N D b -> False).
  { intros a b Ha Hab HD [(-> & Ua) | (Pa & La & Ua)] [(Zb & Ub) | (Pb & Lb & Ub)];
      try lia.
    - assert (2 ^ 53 <= 2 ^ (b + 52)) by (apply Z.pow_le_mono_r; lia).
      assert (D * 2 ^ 53 <= D * 2 ^ (b + 52)) by (apply Z.mul_le_mono_nonneg_l; lia).
      lia.
    - assert (2 ^ (a + 53) <= 2 ^ (b + 52)) by (apply Z.pow_le_mono_r; lia).
      assert (D * 2 ^ (a + 53) <= D * 2 ^ (b + 52))
        by (apply Z.mul_le_mono_nonneg_l; lia).
      lia. }
  intros HD H1 H2 C1 C2.
  destruct (Z.lt_trichotomy e1 e2) as [L | [L | L]]; [| exact L |].
  - exfalso. exact (G e1 e2 H1 L HD C1 C2).
  - exfalso. exact (G e2 e1 H2 L HD C2 C1).
Qed.

(** [of_ratio] in one scale: the mantissa is the rounded quotient of
    [n * 2^1074] by [d * 2^e], where [e] is the exponent of the
    quotient. *)
Lemma of_ratio_wide (s : bool) (n d : positive) :
  exists e,
    0 <= e /\ exponent_of (Zpos n * 2 ^ 1074) (Zpos d) e /\
    of_ratio s n d = pack s (half_even (Zpos n * 2 ^ 1074) (Zpos d * 2 ^ e)) e.
Proof.
  destruct (exponent_char n d) as (He & Hc).
  exists (Z.max (binade n d - 52) (-1074) + 1074).
  split; [exact He |]. split; [exact Hc |].
  unfold of_ratio. set (e := Z.max (binade n d - 52) (-1074)) in *.
  destruct (scaled_wide n d e ltac:(lia)) as (Pa & Pb & E).
  destruct (scaled n d e) as [a b]. cbn [fst snd] in *.
  assert (PD : 0 < Zpos d * 2 ^ (e + 1074))
    by (apply Z.mul_pos_pos; [lia | apply pow2_pos; lia]).
  rewrite (half_even_ratio a b (Zpos n * 2 ^ 1074) (Zpos d * 2 ^ (e + 1074)) Pb PD E).
  unfold pack.
  destruct (half_even _ _ =? 0); [reflexivity |].
  destruct (half_even _ _ =? 2 ^ 53).
  - replace (e + 1074 + 1 <=? 2045) with (e + 1 <=? 971) by
      (destruct (Z.leb_spec (e + 1) 971), (Z.leb_spec (e + 1074 + 1) 2045); lia).
    replace (e + 1074 + 1 - 1074) with (e + 1) by lia. reflexivity.
  - replace (e + 1074 <=? 2045) with (e <=? 971) by
      (destruct (Z.leb_spec e 971), (Z.leb_spec (e + 1074) 2045); lia).
    replace (e + 1074 - 1074) with e by lia. reflexivity.
Qed.

Lemma exponent_of_ratio (N D N' D' e : Z) :
  0 < D -> 0 < D' -> N * D' = N' * D -> exponent_of N D e -> exponent_of N' D' e.
Proof.
  intros HD HD' E.
  assert (Lt : forall c, N < D * c -> N' < D' * c).
  { intros c H. apply (lt_cancel _ _ D HD).
    assert (N * D' < (D * c) * D') by (apply Z.mul_lt_mono_pos_r; lia). lia. }
  assert (Le : forall c, D * c <= N -> D' * c <= N').
  { intros c H. apply (le_cancel _ _ D HD).
    assert ((D * c) * D' <= N * D') by (apply Z.mul_le_mono_nonneg_r; lia). lia. }
  intros [(-> & U) | (P & L & U)]; [left | right]; auto.
Qed.

(** What [of_ratio] returns depends on the quotient only. *)
Lemma of_ratio_ratio (s : bool) (n d n' d' : positive) :
  Zpos n * Zpos d' = Zpos n' * Zpos d -> of_ratio s n d = of_ratio s n' d'.
Proof.
  intros E.
  destruct (of_ratio_wide s n d) as (e1 & P1 & C1 & ->).
  destruct (of_ratio_wide s n' d') as (e2 & P2 & C2 & ->).
  assert (E' : Zpos n * 2 ^ 1074 * Zpos d' = Zpos n' * 2 ^ 1074 * Zpos d).
  { replace (Zpos n * 2 ^ 1074 * Zpos d') with (Zpos n * Zpos d' * 2 ^ 1074) by ring.
    rewrite E. ring. }
  pose proof (exponent_of_ratio _ _ _ _ _ (Pos2Z.is_pos d) (Pos2Z.is_pos d') E' C1) as C1'.
  assert (e1 = e2)
    by (apply (exponent_unique (Zpos n' * 2 ^ 1074) (Zpos d')); (lia || assumption)).
  subst e2. f_equal.
  apply half_even_ratio.
  - apply Z.mul_pos_pos; [lia | now apply pow2_pos].
  - apply Z.mul_pos_pos; [lia | now apply pow2_pos].
  - replace (Zpos n * 2 ^ 1074 * (Zpos d' * 2 ^ e1))
      with (Zpos n * 2 ^ 1074 * Zpos d' * 2 ^ e1) by ring.
    rewrite E'. ring.
Qed.

Lemma digits2_spec (m : positive) :
  2 ^ (Zpos (digits2_pos m) - 1) <= Zpos m < 2 ^ Zpos (digits2_pos m).
Proof.
  induction m as [p IH | p IH |]; cbn [digits2_pos].
  - rewrite Pos2Z.inj_succ.
    replace (Z.succ (Zpos (digits2_pos p)) - 1)
      with (Zpos (digits2_pos p) - 1 + 1) by lia.
    rewrite pow2_succ by lia. rewrite Z.pow_succ_r by lia. lia.
  - rewrite Pos2Z.inj_succ.
    replace (Z.succ (Zpos (digits2_pos p)) - 1)
      with (Zpos (digits2_pos p) - 1 + 1) by lia.
    rewrite pow2_succ by lia. rewrite Z.pow_succ_r by lia. lia.
  - cbn. lia.
Qed.

(** The mantissa and the exponent of a finite binary64 float. *)
Lemma valid_bounds (s : bool) (m : positive) (e : Z) :
  valid (S754_finite s m e) = true ->
  (2 ^ 52 <= Zpos m < 2 ^ 53 /\ -1074 <= e <= 971) \/
  (Zpos m < 2 ^ 52 /\ e = -1074).
Proof.
  unfold valid, valid_binary, bounded, canonical_mantissa, fexp, SpecFloat.emin.
  intros H. apply andb_prop in H as (H1 & H2).
  apply Z.eqb_eq in H1. apply Z.leb_le in H2.
  change (3 - emax - prec) with (-1074) in H1. change (emax - prec) with 971 in H2.
  change prec with 53 in H1.
  pose proof (digits2_spec m) as D.
  set (g := Zpos (digits2_pos m)) in *.
  assert (Hg : 1 <= g) by (unfold g; lia).
  destruct (Z.max_spec (g + e - 53) (-1074)) as [(C & E) | (C & E)]; rewrite E in H1.
  - right. split; [| lia].
    assert (2 ^ g <= 2 ^ 52) by (apply Z.pow_le_mono_r; lia). lia.
  - left. assert (G : g = 53) by lia. rewrite G in D.
    change (53 - 1) with 52 in D. lia.
Qed.

(** A quotient inside the rounding interval of a float is read as that
    float.  The interval reaches half a unit of the last place on
    each side, and a quarter below a power of two. *)
Lemma of_ratio_interval (s : bool) (n d m : positive) (e : Z) :
  valid (S754_finite s m e) = true ->
  (2 * Zpos m - 1) * (Zpos d * 2 ^ (e + 1074)) < 2 * (Zpos n * 2 ^ 1074) ->
  2 * (Zpos n * 2 ^ 1074) < (2 * Zpos m + 1) * (Zpos d * 2 ^ (e + 1074)) ->
  (Zpos m = 2 ^ 52 -> -1074 < e ->
   (4 * Zpos m - 1) * (Zpos d * 2 ^ (e + 1074)) < 4 * (Zpos n * 2 ^ 1074)) ->
  of_ratio s n d = S754_finite s m e.
Proof.
  intros Hv Lo Hi Lo4.
  destruct (of_ratio_wide s n d) as (e1 & P1 & C1 & ->).
  set (N := Zpos n * 2 ^ 1074) in *. set (D := Zpos d) in *.
  set (M := Zpos m) in *.
  assert (HD : 0 < D) by (unfold D; lia).
  assert (HM : 0 < M) by (unfold M; lia).
  assert (Fin : forall e', 0 <= e' <= 2045 -> M < 2 ^ 53 ->
            pack s M e' = S754_finite s m (e' - 1074)).
  { intros e' He' Hm. unfold pack.
    destruct (Z.eqb_spec M 0); [lia |].
    destruct (Z.eqb_spec M (2 ^ 53)); [lia |].
    destruct (Z.leb_spec e' 2045); [| lia]. reflexivity. }
  pose proof (valid_bounds s m e Hv) as B. fold M in B.
  destruct B as [((Lm & Um) & Le & Ue) | (Um & ->)].
  - set (e' := e + 1074) in *.
    pose proof (pow2_pos e' ltac:(lia)) as PE.
    set (P := D * 2 ^ e') in *.
    assert (HP : 0 < P) by (apply Z.mul_pos_pos; lia).
    assert (Up : 2 * N < 2 ^ 54 * P).
    { assert ((2 * M + 1) * P <= 2 ^ 54 * P)
        by (apply Z.mul_le_mono_nonneg_r; lia). lia. }
    destruct (Z.le_gt_cases (2 ^ 52 * P) N) as [In | Out].
    + (* the quotient is in the binade of the float *)
      assert (C : exponent_of N D e').
      { destruct (Z.eq_dec e' 0) as [Z0 | Z0].
        - left. split; [exact Z0 |]. unfold P in Up. rewrite Z0 in Up.
          change (2 ^ 0) with 1 in Up. lia.
        - right. split; [lia |].
          rewrite !Z.pow_add_r by lia. fold P.
          replace (D * (2 ^ e' * 2 ^ 52)) with (2 ^ 52 * P) by (unfold P; ring).
          replace (D * (2 ^ e' * 2 ^ 53)) with (2 ^ 53 * P) by (unfold P; ring).
          lia. }
      assert (e1 = e') by (apply (exponent_unique N D); (lia || assumption)).
      subst e1. fold P.
      rewrite (half_even_unique N P M HP ltac:(lia)).
      rewrite Fin by lia. f_equal. unfold e'. lia.
    + (* the quotient is just below the binade *)
      assert (Em : M = 2 ^ 52).
      { assert ((2 * M - 1) * P < 2 ^ 53 * P) by lia.
        apply (lt_cancel _ _ P HP) in H. lia. }
      destruct (Z.eq_dec e' 0) as [Z0 | Z0].
      * assert (C : exponent_of N D e').
        { left. split; [exact Z0 |]. unfold P in Up. rewrite Z0 in Up.
          change (2 ^ 0) with 1 in Up. lia. }
        assert (e1 = e') by (apply (exponent_unique N D); (lia || assumption)).
        subst e1. fold P.
        rewrite (half_even_unique N P M HP ltac:(lia)).
        rewrite Fin by lia. f_equal. unfold e'. lia.
      * specialize (Lo4 Em ltac:(lia)). fold P in Lo4. rewrite Em in *.
        assert (EP : P = 2 * (D * 2 ^ (e' - 1))).
        { unfold P. replace e' with (e' - 1 + 1) at 1 by lia.
          rewrite pow2_succ by lia. ring. }
        set (Q := D * 2 ^ (e' - 1)) in *.
        assert (HQ : 0 < Q) by lia.
        assert (C : exponent_of N D (e' - 1)).
        { destruct (Z.eq_dec (e' - 1) 0) as [Z1 | Z1].
          - left. split; [exact Z1 |]. unfold Q in EP. rewrite Z1 in EP.
            change (2 ^ 0) with 1 in EP. lia.
          - right. split; [lia |].
            rewrite !Z.pow_add_r by lia.
            replace (D * (2 ^ (e' - 1) * 2 ^ 52)) with (2 ^ 52 * Q) by (unfold Q; ring).
            replace (D * (2 ^ (e' - 1) * 2 ^ 53)) with (2 ^ 53 * Q) by (unfold Q; ring).
            lia. }
        assert (e1 = e' - 1) by (apply (exponent_unique N D); (lia || assumption)).
        subst e1. fold Q.
        rewrite (half_even_unique N Q (2 ^ 53) HQ ltac:(lia)).
        unfold pack. change (2 ^ 53 =? 0) with false. rewrite Z.eqb_refl.
        replace (e' - 1 + 1) with e' by lia.
        destruct (Z.leb_spec e' 2045); [| lia].
        f_equal; [| unfold e'; lia].
        change (2 ^ 52) with (Zpos (2 ^ 52)). cbn [Z.to_pos].
        apply Pos2Z.inj. fold M. rewrite Em. reflexivity.
  - change (-1074 + 1074) with 0 in *. change (2 ^ 0) with 1 in *.
    rewrite Z.mul_1_r in *.
    assert (C : exponent_of N D 0).
    { left. split; [reflexivity |].
      assert ((2 * M + 1) * D <= 2 ^ 53 * D) by (apply Z.mul_le_mono_nonneg_r; lia).
      lia. }
    assert (e1 = 0) by (apply (exponent_unique N D); (lia || assumption)).
    subst e1. change (2 ^ 0) with 1. rewrite Z.mul_1_r.
    rewrite (half_even_unique N D M HD ltac:(lia)).
    rewrite Fin by lia. reflexivity.
Qed.

End RoundFacts.

(** ** The digits of a float are read back *)

Module DigitFacts.

Import F64 Py RoundFacts.

Lemma pow10_pos (e : Z) : 0 <= e -> 0 < 10 ^ e.
Proof. intros H. apply Z.pow_pos_nonneg; lia. Qed.

Lemma frac_of_eq (m : positive) (e : Z) :
  frac_of m e = if 0 <=? e then (Zpos m * 2 ^ e, 1) else (Zpos m, 2 ^ (- e)).
Proof. reflexivity. Qed.

Lemma scale10_eq (n d p : Z) :
  scale10 (n, d) p = if 0 <=? p then (n * 10 ^ p, d) else (n, d * 10 ^ (- p)).
Proof. reflexivity. Qed.

(** The value of a float as a fraction. *)
Lemma frac_of_wide (m : positive) (e : Z) :
  -1074 <= e ->
  0 < fst (frac_of m e) /\ 0 < snd (frac_of m e) /\
  fst (frac_of m e) * 2 ^ 1074 = Zpos m * 2 ^ (e + 1074) * snd (frac_of m e).
Proof.
  intros He. rewrite frac_of_eq. destruct (Z.leb_spec 0 e) as [H | H]; cbn [fst snd].
  - pose proof (pow2_pos e H). split; [apply Z.mul_pos_pos; lia |]. split; [lia |].
    rewrite Z.pow_add_r by lia. ring.
  - pose proof (pow2_pos (- e) ltac:(lia)). split; [lia |]. split; [lia |].
    replace 1074 with (e + 1074 + - e) at 1 by lia.
    rewrite (Z.pow_add_r 2 (e + 1074) (- e)) by lia. ring.
Qed.

(** Scaling by a power of ten: the two fractions differ by that
    power. *)
Lemma scale10_shift (n d p j : Z) :
  0 < n -> 0 < d -> 0 <= j ->
  0 < fst (scale10 (n, d) p) /\ 0 < snd (scale10 (n, d) p) /\
  fst (scale10 (n, d) (p + j)) * snd (scale10 (n, d) p)
  = 10 ^ j * fst (scale10 (n, d) p) * snd (scale10 (n, d) (p + j)).
Proof.
  intros Hn Hd Hj. rewrite !scale10_eq.
  destruct (Z.leb_spec 0 p) as [Hp | Hp]; cbn [fst snd].
  - destruct (Z.leb_spec 0 (p + j)); [| lia]. cbn [fst snd].
    pose proof (pow10_pos p Hp). split; [apply Z.mul_pos_pos; lia |]. split; [lia |].
    rewrite Z.pow_add_r by lia. ring.
  - pose proof (pow10_pos (- p) ltac:(lia)).
    split; [lia |]. split; [apply Z.mul_pos_pos; lia |].
    destruct (Z.leb_spec 0 (p + j)) as [Hq | Hq]; cbn [fst snd].
    + replace j with (p + j + - p) at 2 by lia.
      rewrite (Z.pow_add_r 10 (p + j) (- p)) by lia. ring.
    + replace (- p) with (- (p + j) + j) by lia.
      rewrite (Z.pow_add_r 10 (- (p + j)) j) by lia. ring.
Qed.

Lemma scale10_0 (n d : Z) : scale10 (n, d) 0 = (n, d).
Proof. rewrite scale10_eq. cbn. f_equal. lia. Qed.

(** The nearer of the two integers around a quotient is within a
    half of it. *)
Lemma neighbours_spec (nd : Z * Z) (k ndig : Z) :
  0 < snd (scale10 nd (ndig - 1 - k)) ->
  let np := scale10 nd (ndig - 1 - k) in
  let c1 := fst (fst (neighbours nd k ndig)) in
  snd (neighbours nd k ndig) = - (ndig - 1 - k) /\
  2 * fst np - snd np <= 2 * c1 * snd np <= 2 * fst np + snd np /\
  fst np / snd np <= c1.
Proof.
  unfold neighbours. destruct (scale10 nd (ndig - 1 - k)) as [n d]. cbn [fst snd].
  intros Hd.
  pose proof (Z.div_mod n d ltac:(lia)) as E.
  pose proof (Z.mod_pos_bound n d Hd) as B.
  set (q := n / d) in *. set (r := n mod d) in *.
  destruct (Z.ltb_spec (2 * r) d); cbn [orb fst snd].
  - split; [reflexivity |]. split; [nia | lia].
  - destruct (Z.eqb_spec (2 * r) d); cbn [andb].
    + destruct (Z.even q); cbn [fst snd]; (split; [reflexivity |]); split; (nia || lia).
    + cbn [fst snd]. split; [reflexivity |]. split; [nia | lia].
Qed.

(** Seventeen digits are enough.  With [X / Y] the value of a float of
    mantissa [M] in units of the last decimal digit, at least [10^16]
    of them, an integer [c] within a half of [X / Y] is inside the
    rounding interval of the float: [W / T] is [c] in units of the last
    place of the float. *)
Lemma digits_in_interval (M X Y c T W : Z) :
  0 < M < 2 ^ 53 -> 0 < Y -> 10 ^ 16 * Y <= X ->
  2 * X - Y <= 2 * c * Y <= 2 * X + Y ->
  0 < T -> W * X = c * M * Y * T ->
  (2 * M - 1) * T < 2 * W /\ 2 * W < (2 * M + 1) * T /\
  (M = 2 ^ 52 -> (4 * M - 1) * T < 4 * W).
Proof.
  intros HM HY HX Hc HT E.
  assert (PX : 0 < X) by lia.
  assert (MY : M * Y < X).
  { assert (M * Y <= (2 ^ 53 - 1) * Y) by (apply Z.mul_le_mono_nonneg_r; lia). lia. }
  assert (L : M * (2 * X - Y) <= M * (2 * c * Y)) by (apply Z.mul_le_mono_nonneg_l; lia).
  assert (U : M * (2 * c * Y) <= M * (2 * X + Y)) by (apply Z.mul_le_mono_nonneg_l; lia).
  assert (G : forall a b, a * X < b * (c * M * Y) -> a * T < b * W).
  { intros a b H. apply (lt_cancel _ _ X PX).
    assert (a * X * T < b * (c * M * Y) * T) by (apply Z.mul_lt_mono_pos_r; lia).
    replace (b * W * X) with (b * (W * X)) by ring. rewrite E. lia. }
  split; [| split].
  - apply (G (2 * M - 1) 2). lia.
  - replace (2 * W) with (2 * W * 1) by ring.
    apply (lt_cancel _ _ X PX).
    assert ((2 * (c * M * Y)) * T < ((2 * M + 1) * X) * T)
      by (apply Z.mul_lt_mono_pos_r; lia).
    replace (2 * W * 1 * X) with (2 * (W * X)) by ring. rewrite E. lia.
  - intros EM. apply (G (4 * M - 1) 4).
    assert (2 * (M * Y) < X) by (rewrite EM; lia). lia.
Qed.

Lemma same_refl (x : float) : same x x = true.
Proof.
  destruct x as [s | s | | s m e]; cbn; try apply eqb_reflx; try reflexivity.
  now rewrite eqb_reflx, Pos.eqb_refl, Z.eqb_refl.
Qed.

Lemma same_eq (x y : float) : same x y = true -> x = y.
Proof.
  destruct x as [s | s | | s m e], y as [t | t | | t n f]; cbn; try discriminate.
  - intros H. apply Bool.eqb_prop in H. now subst.
  - intros H. apply Bool.eqb_prop in H. now subst.
  - reflexivity.
  - intros H. apply andb_prop in H as (H & He). apply andb_prop in H as (Hs & Hm).
    apply Bool.eqb_prop in Hs. apply Pos.eqb_eq in Hm. apply Z.eqb_eq in He.
    now subst.
Qed.

Lemma ge_pow10_eq (nd : Z * Z) (k : Z) :
  ge_pow10 nd k = (snd (scale10 nd (- k)) <=? fst (scale10 nd (- k))).
Proof. unfold ge_pow10. now destruct (scale10 nd (- k)). Qed.

(** The decimal of seventeen digits nearest to a float is read back as
    that float. *)
Lemma seventeen (m : positive) (e k : Z) :
  valid (S754_finite false m e) = true ->
  ge_pow10 (frac_of m e) k = true ->
  reads_back m e (fst (fst (neighbours (frac_of m e) k 17)))
    (snd (neighbours (frac_of m e) k 17)) = true.
Proof.
  intros Hv Hk.
  assert (He : -1074 <= e) by (destruct (valid_bounds _ _ _ Hv) as [(_ & ?) | (_ & ?)]; lia).
  assert (HM : 0 < Zpos m < 2 ^ 53)
    by (destruct (valid_bounds _ _ _ Hv) as [(? & _) | (? & _)]; lia).
  destruct (frac_of_wide m e He) as (Pn & Pd & Ef).
  destruct (frac_of m e) as [nx dx] eqn:Efr. cbn [fst snd] in Pn, Pd, Ef.
  change (17 - 1 - k) with (16 - k) in *.
  destruct (scale10_shift nx dx (- k) 16 Pn Pd ltac:(lia)) as (P0n & P0d & Es).
  replace (- k + 16) with (16 - k) in Es by lia.
  rewrite ge_pow10_eq in Hk. apply Z.leb_le in Hk.
  destruct (scale10_shift nx dx (16 - k) 0 Pn Pd ltac:(lia)) as (P1n & P1d & _).
  destruct (neighbours_spec (nx, dx) k 17) as (Eq & Hc & Hlo).
  { change (17 - 1 - k) with (16 - k). exact P1d. }
  change (17 - 1 - k) with (16 - k) in *.
  cbv zeta in Hc, Hlo.
  set (c1 := fst (fst (neighbours (nx, dx) k 17))) in *.
  rewrite Eq. clear Eq.
  set (X := fst (scale10 (nx, dx) (16 - k))) in *.
  set (Y := snd (scale10 (nx, dx) (16 - k))) in *.
  set (n0 := fst (scale10 (nx, dx) (- k))) in *.
  set (d0 := snd (scale10 (nx, dx) (- k))) in *.
  assert (HX : 10 ^ 16 * Y <= X).
  { apply (le_cancel _ _ d0 P0d).
    assert (10 ^ 16 * Y * d0 <= 10 ^ 16 * Y * n0)
      by (apply Z.mul_le_mono_nonneg_l; [lia | lia]).
    lia. }
  assert (Hc1 : 10 ^ 16 <= c1).
  { apply Z.le_trans with (X / Y); [| exact Hlo].
    apply Z.div_le_lower_bound; lia. }
  (* the value of the float in units of the last decimal digit *)
  assert (EX : X * 2 ^ 1074 * (if 0 <=? 16 - k then 1 else 10 ^ (- (16 - k)))
               = Zpos m * 2 ^ (e + 1074) * Y
                 * (if 0 <=? 16 - k then 10 ^ (16 - k) else 1)).
  { unfold X, Y. rewrite scale10_eq.
    destruct (Z.leb_spec 0 (16 - k)); cbn [fst snd].
    - replace (nx * 10 ^ (16 - k) * 2 ^ 1074 * 1)
        with (nx * 2 ^ 1074 * 10 ^ (16 - k)) by ring.
      rewrite Ef. ring.
    - replace (nx * 2 ^ 1074 * 10 ^ (- (16 - k)))
        with (nx * 2 ^ 1074 * 10 ^ (- (16 - k))) by ring.
      rewrite Ef. ring. }
  unfold reads_back.
  destruct c1 as [| c | c] eqn:Ec; try (exfalso; lia).
  assert (R : dec (Zpos c) (- (16 - k)) = S754_finite false m e).
  { unfold dec.
    destruct (Z.leb_spec 0 (- (16 - k))) as [Hq | Hq].
    - (* the digits times a power of ten *)
      pose proof (pow10_pos (- (16 - k)) Hq) as Pq.
      destruct (Z.leb_spec 0 (16 - k)) as [Hp | Hp].
      + assert (Z0 : 16 - k = 0) by lia. rewrite Z0 in *.
        change (- 0) with 0 in *. change (10 ^ 0) with 1 in *.
        destruct (digits_in_interval (Zpos m) X Y (Zpos c)
                    (1 * 2 ^ (e + 1074)) (Zpos c * 2 ^ 1074))
          as (I1 & I2 & I3); try lia.
        try solve [pose proof (pow2_pos (e + 1074) ltac:(lia)); lia].
        try solve [replace (Zpos c * 2 ^ 1074 * X) with (Zpos c * (X * 2 ^ 1074 * 1)) by ring; rewrite EX; ring].
        apply of_ratio_interval; try assumption.
        * rewrite Pos2Z.inj_mul. cbn [Z.to_pos]. lia.
        * rewrite Pos2Z.inj_mul. cbn [Z.to_pos]. lia.
        * intros A B. rewrite Pos2Z.inj_mul. cbn [Z.to_pos]. specialize (I3 A). lia.
      + set (t := 10 ^ (- (16 - k))) in *.
        destruct (digits_in_interval (Zpos m) X Y (Zpos c)
                    (1 * 2 ^ (e + 1074)) (Zpos c * t * 2 ^ 1074))
          as (I1 & I2 & I3); try lia.
        try solve [pose proof (pow2_pos (e + 1074) ltac:(lia)); lia].
        try solve [replace (Zpos c * t * 2 ^ 1074 * X) with (Zpos c * (X * 2 ^ 1074 * t)) by ring; rewrite EX; ring].
        apply of_ratio_interval; try assumption.
        * rewrite Pos2Z.inj_mul, Z2Pos.id by exact Pq. exact I1.
        * rewrite Pos2Z.inj_mul, Z2Pos.id by exact Pq. exact I2.
        * intros A B. rewrite Pos2Z.inj_mul, Z2Pos.id by exact Pq. exact (I3 A).
    - (* the digits over a power of ten *)
      replace (- - (16 - k)) with (16 - k) by lia.
      destruct (Z.leb_spec 0 (16 - k)) as [Hp | Hp]; [| lia].
      pose proof (pow10_pos (16 - k) Hp) as Pq.
      set (t := 10 ^ (16 - k)) in *.
      destruct (digits_in_interval (Zpos m) X Y (Zpos c)
                  (t * 2 ^ (e + 1074)) (Zpos c * 2 ^ 1074))
        as (I1 & I2 & I3); try lia.
      try solve [pose proof (pow2_pos (e + 1074) ltac:(lia)); apply Z.mul_pos_pos; lia].
      try solve [replace (Zpos c * 2 ^ 1074 * X) with (Zpos c * (X * 2 ^ 1074 * 1)) by ring; rewrite EX; ring].
      apply of_ratio_interval; try assumption.
      + rewrite Z2Pos.id by exact Pq. exact I1.
      + rewrite Z2Pos.id by exact Pq. exact I2.
      + intros A B. rewrite Z2Pos.id by exact Pq. exact (I3 A). }
  rewrite R. apply same_refl.
Qed.

(** [adjust_up] keeps a power of ten that is below the fraction. *)
Lemma adjust_up_below (fuel : nat) (nd : Z * Z) (k : Z) :
  ge_pow10 nd k = true -> ge_pow10 nd (adjust_up fuel nd k) = true.
Proof.
  revert k. induction fuel as [| f IH]; intros k H; cbn [adjust_up]; [assumption |].
  destruct (ge_pow10 nd (k + 1)) eqn:E; [now apply IH | assumption].
Qed.

(** [adjust_down] finds one when the first or the second try is one. *)
Lemma adjust_down_below (fuel : nat) (nd : Z * Z) (k : Z) :
  ge_pow10 nd (k - 1) = true ->
  ge_pow10 nd (adjust_down (S (S fuel)) nd k) = true.
Proof.
  intros H. cbn [adjust_down].
  destruct (ge_pow10 nd k) eqn:E; [assumption |]. now rewrite H.
Qed.

Lemma estimates_from_below (n : nat) (j k a b : Z) :
  estimates_from n j k a b = true ->
  k = j * 30103 / 100000 - 1 -> -400 <= k -> -1074 <= j ->
  a = 10 ^ (k + 400) * 2 ^ 1074 -> b = 2 ^ (j + 1074) * 10 ^ 400 ->
  forall i, j <= i < j + Z.of_nat n -> estimate_below i = true.
Proof.
  revert j k a b. induction n as [| n IH]; intros j k a b H Ek Hk Hj Ea Eb i Hi; [lia |].
  cbn [estimates_from] in H. apply andb_prop in H as (H0 & H).
  destruct (Z.eq_dec i j) as [-> | Ne].
  - unfold estimate_below. rewrite <- Ek.
    replace (k + 400) with (k + 400) by lia. now rewrite <- Ea, <- Eb.
  - assert (Eb' : 2 * b = 2 ^ (j + 1 + 1074) * 10 ^ 400).
    { replace (j + 1 + 1074) with (j + 1074 + 1) by lia.
      rewrite pow2_succ by lia. rewrite Eb. ring. }
    destruct (Z.eqb_spec ((j + 1) * 30103 / 100000 - 1) k) as [E | E].
    + apply (IH (j + 1) k a (2 * b) H); try assumption; try lia.
    + destruct (Z.eqb_spec ((j + 1) * 30103 / 100000 - 1) (k + 1)) as [E1 | E1];
        [| discriminate].
      rewrite E1 in H.
      apply (IH (j + 1) (k + 1) (10 * a) (2 * b) H); try assumption; try lia.
      replace (k + 1 + 400) with (k + 400 + 1) by lia.
      rewrite Z.pow_add_r by lia. rewrite Ea. change (10 ^ 1) with 10. ring.
Qed.

(** The estimate is at most one above, for every binade of a float. *)
Lemma estimates_checked :
  estimates_from (Z.to_nat 2098) (-1074) (-325) (10 ^ 75 * 2 ^ 1074) (10 ^ 400) = true.
Proof. vm_compute. reflexivity. Qed.

Lemma estimate_below_float (j : Z) : -1074 <= j <= 1023 -> estimate_below j = true.
Proof.
  intros H.
  apply (estimates_from_below _ _ _ _ _ estimates_checked); try lia;
    vm_compute; reflexivity.
Qed.

(** The binade of a float. *)
Lemma frac_of_log2 (m : positive) (e : Z) :
  Z.log2 (fst (frac_of m e)) - Z.log2 (snd (frac_of m e)) = Z.log2 (Zpos m) + e.
Proof.
  rewrite frac_of_eq. destruct (Z.leb_spec 0 e) as [H | H]; cbn [fst snd].
  - rewrite Z.log2_mul_pow2 by lia. change (Z.log2 1) with 0. lia.
  - rewrite Z.log2_pow2 by lia. lia.
Qed.

Lemma valid_binade (s : bool) (m : positive) (e : Z) :
  valid (S754_finite s m e) = true -> -1074 <= Z.log2 (Zpos m) + e <= 1023.
Proof.
  intros Hv. pose proof (Z.log2_nonneg (Zpos m)).
  assert (Z.log2 (Zpos m) < 53).
  { apply Z.log2_lt_pow2; [lia |].
    destruct (valid_bounds _ _ _ Hv) as [(? & _) | (? & _)]; lia. }
  destruct (valid_bounds _ _ _ Hv) as [(_ & ?) | (_ & ?)]; lia.
Qed.

(** [exp10] of a float is a power of ten below it. *)
Lemma exp10_below (m : positive) (e : Z) :
  valid (S754_finite false m e) = true ->
  ge_pow10 (frac_of m e) (exp10 (frac_of m e)) = true.
Proof.
  intros Hv.
  assert (He : -1074 <= e) by (destruct (valid_bounds _ _ _ Hv) as [(_ & ?) | (_ & ?)]; lia).
  pose proof (valid_binade _ _ _ Hv) as Hj.
  pose proof (frac_of_log2 m e) as Hl.
  destruct (frac_of_wide m e He) as (Pn & Pd & Ef).
  destruct (frac_of m e) as [n d] eqn:Efr. cbn [fst snd] in *.
  unfold exp10. apply adjust_up_below.
  change 4%nat with (S (S 2)). apply adjust_down_below.
  rewrite Hl. set (j := Z.log2 (Zpos m) + e) in *.
  pose proof (estimate_below_float j Hj) as B.
  unfold estimate_below in B. apply Z.leb_le in B.
  set (k := j * 30103 / 100000 - 1) in *.
  assert (Hk : -400 <= k).
  { unfold k. assert (-399 <= j * 30103 / 100000); [| lia].
    apply Z.div_le_lower_bound; lia. }
  (* the mantissa is at least its binade *)
  assert (Hm : 2 ^ (j + 1074) <= Zpos m * 2 ^ (e + 1074)).
  { replace (j + 1074) with (Z.log2 (Zpos m) + (e + 1074)) by (unfold j; lia).
    rewrite Z.pow_add_r by (try apply Z.log2_nonneg; lia).
    apply Z.mul_le_mono_nonneg_r; [pose proof (pow2_pos (e + 1074) ltac:(lia)); lia |].
    apply Z.log2_spec. lia. }
  pose proof (pow10_pos 400 ltac:(lia)) as P400.
  pose proof (pow2_pos 1074 ltac:(lia)) as P1074.
  assert (Hn : d * (10 ^ (k + 400) * 2 ^ 1074) <= n * 2 ^ 1074 * 10 ^ 400).
  { rewrite Ef.
    apply Z.le_trans with (d * (2 ^ (j + 1074) * 10 ^ 400)).
    - apply Z.mul_le_mono_nonneg_l; lia.
    - replace (Zpos m * 2 ^ (e + 1074) * d * 10 ^ 400)
        with (d * (Zpos m * 2 ^ (e + 1074) * 10 ^ 400)) by ring.
      apply Z.mul_le_mono_nonneg_l; [lia |].
      apply Z.mul_le_mono_nonneg_r; lia. }
  rewrite ge_pow10_eq, scale10_eq.
  destruct (Z.leb_spec 0 (- k)) as [Hs | Hs]; cbn [fst snd]; apply Z.leb_le.
  - apply (le_cancel _ _ (10 ^ (k + 400) * 2 ^ 1074)).
    { pose proof (pow10_pos (k + 400) ltac:(lia)). apply Z.mul_pos_pos; lia. }
    replace (n * 10 ^ (- k) * (10 ^ (k + 400) * 2 ^ 1074))
      with (n * 2 ^ 1074 * (10 ^ (- k) * 10 ^ (k + 400))) by ring.
    rewrite <- Z.pow_add_r by lia. replace (- k + (k + 400)) with 400 by lia.
    exact Hn.
  - rewrite Z.opp_involutive.
    apply (le_cancel _ _ (2 ^ 1074 * 10 ^ 400)).
    { apply Z.mul_pos_pos; lia. }
    replace (d * 10 ^ k * (2 ^ 1074 * 10 ^ 400))
      with (d * (10 ^ k * 10 ^ 400 * 2 ^ 1074)) by ring.
    rewrite <- Z.pow_add_r by lia.
    replace (n * (2 ^ 1074 * 10 ^ 400)) with (n * 2 ^ 1074 * 10 ^ 400) by ring.
    exact Hn.
Qed.

(** The digits [repr] chooses are read back as the float. *)
Lemma shortest_from_reads_back (fuel : nat) (ndig : Z) (m : positive) (e k : Z) :
  valid (S754_finite false m e) = true ->
  ge_pow10 (frac_of m e) k = true ->
  ndig + Z.of_nat fuel = 18 -> (0 < fuel)%nat ->
  reads_back m e (fst (shortest_from fuel ndig m e (frac_of m e) k))
    (snd (shortest_from fuel ndig m e (frac_of m e) k)) = true.
Proof.
  intros Hv Hk. revert ndig. induction fuel as [| f IH]; intros ndig Hn Hf; [lia |].
  cbn [shortest_from].
  destruct (candidate m e (frac_of m e) k ndig) as [[c q] |] eqn:Ec.
  - cbn [fst snd]. unfold candidate in Ec.
    destruct (neighbours (frac_of m e) k ndig) as [[c1 c2] q'].
    destruct (reads_back m e c1 q') eqn:R1; [now injection Ec as <- <- |].
    destruct (reads_back m e c2 q') eqn:R2; [now injection Ec as <- <- | discriminate].
  - destruct f as [| f'].
    + exfalso. assert (ndig = 17) by lia. subst ndig.
      pose proof (seventeen m e k Hv Hk) as S17.
      unfold candidate in Ec.
      destruct (neighbours (frac_of m e) k 17) as [[c1 c2] q']. cbn [fst snd] in S17.
      rewrite S17 in Ec. discriminate.
    + apply IH; lia.
Qed.

Lemma shortest_reads_back (m : positive) (e : Z) :
  valid (S754_finite false m e) = true ->
  reads_back m e (fst (shortest m e)) (snd (shortest m e)) = true.
Proof.
  intros Hv. unfold shortest.
  apply shortest_from_reads_back; [assumption | now apply exp10_below | lia | lia].
Qed.

End DigitFacts.

(** ** The text of a float is read back *)

Module ReprFacts.

Import F64 Py Ast TextFacts CharFacts NumberFacts LexNumberFacts RoundFacts DigitFacts.

(** *** Runs of digits *)

Lemma span_digits_stop (ds rest : text) :
  all_digits ds = true -> stops rest -> span_digits (ds ++ rest)%string = (ds, rest).
Proof.
  intros D Hr. induction ds as [| c ds IH]; cbn [append].
  - destruct rest as [| c r]; [reflexivity |]. cbn in Hr. cbn [span_digits].
    now rewrite Hr.
  - cbn in D. apply andb_prop in D as (Dc & Dr).
    cbn [span_digits]. rewrite Dc, (IH Dr). reflexivity.
Qed.

Lemma span_digits_all (ds : text) :
  all_digits ds = true -> span_digits ds = (ds, EmptyString).
Proof.
  intros D. rewrite <- (append_nil_r ds) at 1. now apply span_digits_stop.
Qed.

Lemma zeros_digits (z : nat) : all_digits (repeat_char "0"%char z) = true.
Proof. induction z as [| z IH]; [reflexivity | exact IH]. Qed.

Lemma zeros_length (c : ascii) (z : nat) : String.length (repeat_char c z) = z.
Proof. induction z as [| z IH]; cbn; [reflexivity | now rewrite IH]. Qed.

Lemma number_from_zeros (z : nat) (acc : Z) :
  number_from acc (repeat_char "0"%char z) = acc * 10 ^ Z.of_nat z.
Proof.
  revert acc. induction z as [| z IH]; intros acc.
  - cbn. lia.
  - cbn [repeat_char number_from]. rewrite IH.
    change (ord "0" - 48) with 0.
    rewrite Nat2Z.inj_succ, Z.pow_succ_r by lia. ring.
Qed.

Lemma number_of_zeros_app (ds : text) (z : nat) :
  number_of (ds ++ repeat_char "0"%char z)%string = number_of ds * 10 ^ Z.of_nat z.
Proof. unfold number_of. now rewrite number_from_app, number_from_zeros. Qed.

Lemma number_of_app_zeros (ds : text) (z : nat) :
  number_of (repeat_char "0"%char z ++ ds)%string = number_of ds.
Proof.
  unfold number_of. rewrite number_from_app, number_from_zeros. reflexivity.
Qed.

Lemma number_from_nonneg (ds : text) (acc : Z) :
  all_digits ds = true -> 0 <= acc -> acc <= number_from acc ds.
Proof.
  revert acc. induction ds as [| c ds IH]; intros acc D Ha; cbn [number_from]; [lia |].
  cbn in D. apply andb_prop in D as (Dc & Dr).
  unfold is_digit in Dc. apply andb_prop in Dc as (D1 & D2).
  apply Z.leb_le in D1, D2.
  apply Z.le_trans with (10 * acc + (ord c - 48)); [lia |]. apply IH; [assumption | lia].
Qed.

(** *** Decimals of the same value *)

Lemma dec_frac (p n d : positive) (e a b : Z) :
  0 <= a -> 0 <= b -> e = a - b ->
  Zpos n * 10 ^ b = Zpos p * 10 ^ a * Zpos d ->
  dec (Zpos p) e = of_ratio false n d.
Proof.
  intros Ha Hb -> E. unfold dec.
  pose proof (pow10_pos a Ha) as Pa. pose proof (pow10_pos b Hb) as Pb.
  destruct (Z.leb_spec 0 (a - b)) as [H | H]; apply of_ratio_ratio.
  - pose proof (pow10_pos (a - b) H) as Pe.
    rewrite Pos2Z.inj_mul, Z2Pos.id by exact Pe.
    apply (Z.mul_cancel_r _ _ (10 ^ b)); [lia |].
    replace (Zpos p * 10 ^ (a - b) * Zpos d * 10 ^ b)
      with (Zpos p * (10 ^ (a - b) * 10 ^ b) * Zpos d) by ring.
    rewrite <- Z.pow_add_r by lia. replace (a - b + b) with a by lia.
    rewrite <- E. ring.
  - pose proof (pow10_pos (- (a - b)) ltac:(lia)) as Pe.
    rewrite Z2Pos.id by exact Pe.
    apply (Z.mul_cancel_r _ _ (10 ^ a)); [lia |].
    replace (Zpos n * 10 ^ (- (a - b)) * 10 ^ a)
      with (Zpos n * (10 ^ (- (a - b)) * 10 ^ a)) by ring.
    rewrite <- Z.pow_add_r by lia. replace (- (a - b) + a) with b by lia.
    rewrite E. ring.
Qed.

(** Zeros moved from the digits to the exponent leave the float. *)
Lemma dec_scale (c q j : Z) :
  0 < c -> 0 <= j -> dec (c * 10 ^ j) (q - j) = dec c q.
Proof.
  intros Hc Hj. pose proof (pow10_pos j Hj) as Pj.
  destruct c as [| p | p]; try lia.
  assert (E : Zpos p * 10 ^ j = Zpos (p * Z.to_pos (10 ^ j)))
    by (rewrite Pos2Z.inj_mul, Z2Pos.id by exact Pj; reflexivity).
  rewrite E. unfold dec at 2.
  destruct (Z.leb_spec 0 q) as [H | H].
  - pose proof (pow10_pos q H) as Pq.
    apply (dec_frac _ _ _ _ q j); try lia.
    rewrite !Pos2Z.inj_mul, !Z2Pos.id by assumption. ring.
  - pose proof (pow10_pos (- q) ltac:(lia)) as Pq.
    apply (dec_frac _ _ _ _ 0 (j - q)); try lia.
    rewrite Pos2Z.inj_mul, !Z2Pos.id by assumption.
    replace (j - q) with (j + - q) by lia. rewrite Z.pow_add_r by lia.
    change (10 ^ 0) with 1. ring.
Qed.

(** *** Trailing zeros *)

Lemma strip_zeros_rev_spec (l : list ascii) :
  exists z : nat,
    l = List.repeat "0"%char z ++ strip_zeros_rev l /\
    (In "0"%char (firstn 1 (strip_zeros_rev l)) -> False).
Proof.
  induction l as [| a l (z & E & F)].
  - exists 0%nat. split; [reflexivity | intros []].
  - destruct (Ascii.eqb_spec a "0"%char) as [-> | N].
    + exists (S z). cbn [strip_zeros_rev List.repeat app]. split; [now f_equal | exact F].
    + exists 0%nat.
      assert (S0 : strip_zeros_rev (a :: l) = a :: l)
        by (each_char a; try reflexivity; now contradiction N).
      rewrite S0. split; [reflexivity |].
      cbn. intros [H | []]. now apply N.
Qed.

Lemma string_of_list_app (a b : list ascii) :
  string_of_list_ascii (a ++ b) = (string_of_list_ascii a ++ string_of_list_ascii b)%string.
Proof. induction a as [| x a IH]; cbn; [reflexivity | now rewrite IH]. Qed.

Lemma string_of_repeat (c : ascii) (z : nat) :
  string_of_list_ascii (List.repeat c z) = repeat_char c z.
Proof. induction z as [| z IH]; cbn; [reflexivity | now rewrite IH]. Qed.

Lemma rev_repeat (c : ascii) (z : nat) : rev (List.repeat c z) = List.repeat c z.
Proof.
  induction z as [| z IH]; [reflexivity |].
  cbn [List.repeat rev]. rewrite IH.
  clear IH. induction z as [| z IH]; [reflexivity |].
  cbn [List.repeat app]. now rewrite IH.
Qed.

(** The digits without their trailing zeros: what was cut are zeros, and
    a first digit that is not zero stays. *)
Lemma strip_zeros_spec (c : ascii) (r : text) :
  c <> "0"%char ->
  exists (r' : text) (z : nat),
    strip_zeros (String c r) = String c r' /\
    String c r = (String c r' ++ repeat_char "0"%char z)%string.
Proof.
  intros Hc. unfold strip_zeros.
  set (l := list_ascii_of_string (String c r)).
  destruct (strip_zeros_rev_spec (rev l)) as (z & E & _).
  set (t := strip_zeros_rev (rev l)) in *.
  assert (El : l = rev t ++ List.repeat "0"%char z).
  { rewrite <- (rev_involutive l), E, rev_app_distr, rev_repeat. reflexivity. }
  assert (Es : String c r
               = (string_of_list_ascii (rev t) ++ repeat_char "0"%char z)%string).
  { rewrite <- (string_of_list_ascii_of_string (String c r)).
    fold l. rewrite El, string_of_list_app, string_of_repeat. reflexivity. }
  destruct (rev t) as [| a u] eqn:Et.
  - exfalso. cbn [string_of_list_ascii append] in Es.
    destruct z as [| z]; [discriminate Es |].
    cbn [repeat_char] in Es. injection Es as Ec _. now apply Hc.
  - cbn [string_of_list_ascii append] in Es. injection Es as Ec Er. subst a.
    exists (string_of_list_ascii u), z. split; [reflexivity |].
    cbn [append]. now f_equal.
Qed.

(** *** The two halves of the digits *)

Lemma substring_all (s : text) : substring 0 (String.length s) s = s.
Proof. induction s as [| c s IH]; cbn; [reflexivity | now rewrite IH]. Qed.

Lemma take_drop (n : nat) (s : text) :
  (n <= String.length s)%nat ->
  (take n s ++ drop n s)%string = s /\ String.length (take n s) = n.
Proof.
  unfold take, drop. revert s. induction n as [| n IH]; intros s H.
  - rewrite Nat.sub_0_r, substring_all.
    destruct s; cbn; split; reflexivity.
  - destruct s as [| c s]; [cbn in H; lia |].
    cbn [String.length] in *. destruct (IH s ltac:(lia)) as (E & L).
    cbn [substring]. replace (S (String.length s) - S n)%nat
      with (String.length s - n)%nat by lia.
    cbn [append String.length]. rewrite E, L. split; reflexivity.
Qed.

(** *** Number literals *)

Lemma lex_exponent_signed (neg : bool) (ex : text) :
  all_digits ex = true -> ex <> EmptyString ->
  lex_exponent ("e" ++ (if neg then "-" else "+") ++ ex)%string
  = ret (Some (if neg then - number_of ex else number_of ex), EmptyString).
Proof.
  intros D N.
  change ("e" ++ (if neg then "-" else "+") ++ ex)%string
    with (String "e"%char ((if neg then "-" else "+") ++ ex)%string).
  rewrite lex_exponent_eq. cbn [Ascii.eqb Bool.eqb orb andb].
  assert (S : exponent_sign ((if neg then "-" else "+") ++ ex)%string = (neg, ex))
    by (destruct neg; reflexivity).
  rewrite S, span_digits_all by assumption.
  destruct ex; [contradiction | reflexivity].
Qed.

(** Digits, a point and digits. *)
Lemma lex1_point (ip fp : text) :
  ip <> EmptyString -> all_digits ip = true -> all_digits fp = true ->
  lex1 (ip ++ "." ++ fp)%string
  = ret (Some (FloatLit (dec (number_of (ip ++ fp)%string)
                            (0 - Z.of_nat (String.length fp))), EmptyString)).
Proof.
  intros N Di Df. destruct ip as [| c ip]; [contradiction |].
  assert (Dc : is_digit c = true) by (cbn in Di; now apply andb_prop in Di as (? & _)).
  change (String c ip ++ "." ++ fp)%string with (String c (ip ++ "." ++ fp)%string).
  rewrite lex1_digit by assumption.
  change (String c (ip ++ "." ++ fp)%string) with (String c ip ++ "." ++ fp)%string.
  rewrite lex_number_eq, span_digits_stop by (try assumption; reflexivity).
  change ("." ++ fp)%string with (String "."%char fp).
  cbn [frac_part]. rewrite span_digits_all by assumption.
  reflexivity.
Qed.

(** A mantissa and an exponent. *)
Lemma lex1_exponent (c : ascii) (r : text) (neg : bool) (ex : text) :
  all_digits (String c r) = true -> all_digits ex = true -> ex <> EmptyString ->
  lex1 (mantissa c r ++ "e" ++ (if neg then "-" else "+") ++ ex)%string
  = ret (Some (FloatLit (dec (number_of (String c r))
                            ((if neg then - number_of ex else number_of ex)
                             - Z.of_nat (String.length r))), EmptyString)).
Proof.
  intros D Dx Nx.
  assert (Dc : is_digit c = true) by (cbn in D; now apply andb_prop in D as (? & _)).
  assert (Dr : all_digits r = true) by (cbn in D; now apply andb_prop in D as (_ & ?)).
  set (tail := ("e" ++ (if neg then "-" else "+") ++ ex)%string).
  assert (St : stops tail) by reflexivity.
  pose proof (lex_exponent_signed neg ex Dx Nx) as X. fold tail in X.
  destruct r as [| c' r'].
  - change (mantissa c "" ++ tail)%string with (String c tail).
    rewrite lex1_digit by assumption.
    change (String c tail) with (str1 c ++ tail)%string.
    rewrite lex_number_eq, span_digits_stop by (try assumption; cbn; now rewrite Dc).
    assert (F : frac_part tail = (None, tail)) by reflexivity.
    rewrite F, X. cbn [bind ret end_check number_token append str1 String.length].
    reflexivity.
  - cbn [mantissa].
    change (String c (String "."%char (String c' r')) ++ tail)%string
      with (String c (String "."%char (String c' r' ++ tail))%string).
    rewrite lex1_digit by assumption.
    change (String c (String "."%char (String c' r' ++ tail))%string)
      with (str1 c ++ String "."%char (String c' r' ++ tail))%string.
    rewrite lex_number_eq, span_digits_stop by (try reflexivity; cbn; now rewrite Dc).
    cbn [frac_part]. rewrite span_digits_stop by assumption.
    rewrite X. cbn [bind ret end_check number_token append str1].
    reflexivity.
Qed.

(** *** The layouts of [repr] *)

Lemma all_digits_first (c : ascii) (r : text) :
  all_digits (String c r) = true -> is_digit c = true /\ all_digits r = true.
Proof. cbn. intros H. now apply andb_prop in H. Qed.

Lemma number_of_snoc_zero (ds : text) : number_of (ds ++ "0")%string = number_of ds * 10.
Proof.
  unfold number_of. rewrite number_from_app. cbn [number_from].
  change (ord "0" - 48) with 0. lia.
Qed.

Lemma exponent_digits (e : Z) :
  let ex := digits_of (Z.abs e) in
  let ex2 := if Z.abs e <? 10 then String "0"%char ex else ex in
  all_digits ex2 = true /\ ex2 <> EmptyString /\ number_of ex2 = Z.abs e.
Proof.
  cbv zeta. destruct (digits_of_spec (Z.abs e) ltac:(lia)) as (c & ds & E & D & N & _).
  rewrite E. destruct (Z.abs e <? 10).
  - split; [exact D |]. split; [discriminate |]. exact N.
  - split; [exact D |]. split; [discriminate |]. exact N.
Qed.

Lemma float_literal_eq (x y : float) :
  x = y ->
  @ret (option (token * text)) (Some (FloatLit x, EmptyString))
  = ret (Some (FloatLit y, EmptyString)).
Proof. now intros ->. Qed.

Lemma dec_eq (a b a' b' : Z) : a = a' -> b = b' -> dec a b = dec a' b'.
Proof. now intros -> ->. Qed.

(** The digits [ds] laid out with the point after [decpt] of them are
    read as the decimal [ds * 10^(decpt - length ds)]. *)
Lemma lex1_layout (c : ascii) (r : text) (decpt : Z) :
  all_digits (String c r) = true -> 0 < number_of (String c r) ->
  lex1 (layout (String c r) decpt)
  = ret (Some (FloatLit (dec (number_of (String c r))
                            (decpt - Z.of_nat (String.length (String c r)))),
               EmptyString)).
Proof.
  intros D Hn. set (ds := String c r) in *.
  unfold layout. fold ds.
  destruct ((decpt <=? -4) || (16 <? decpt)) eqn:B1.
  - (* mantissa and exponent *)
    change (match ds with
            | String c0 EmptyString => str1 c0
            | String c0 r0 => String c0 (String "."%char r0)
            | EmptyString => EmptyString
            end) with (mantissa c r).
    destruct (exponent_digits (decpt - 1)) as (Dx & Nx & Ex).
    cbv zeta in Dx, Nx, Ex.
    set (ex2 := if Z.abs (decpt - 1) <? 10
                then String "0"%char (digits_of (Z.abs (decpt - 1)))
                else digits_of (Z.abs (decpt - 1))) in *.
    rewrite (lex1_exponent c r (decpt - 1 <? 0) ex2 D Dx Nx).
    apply float_literal_eq, dec_eq; [reflexivity |].
    rewrite Ex. unfold ds. cbn [String.length].
    destruct (Z.ltb_spec (decpt - 1) 0); lia.
  - apply orb_false_elim in B1 as (B1 & B2).
    apply Z.leb_gt in B1. apply Z.ltb_ge in B2.
    destruct (Z.leb_spec decpt 0) as [B3 | B3].
    + (* zeros after the point *)
      set (k := Z.to_nat (- decpt)).
      change ("0." ++ repeat_char "0"%char k ++ ds)%string
        with ("0" ++ "." ++ (repeat_char "0"%char k ++ ds))%string.
      rewrite lex1_point;
        [| discriminate | reflexivity
         | rewrite all_digits_app, zeros_digits; exact D].
      apply float_literal_eq, dec_eq.
      * change ("0" ++ repeat_char "0"%char k ++ ds)%string
          with (repeat_char "0"%char (S k) ++ ds)%string.
        apply number_of_app_zeros.
      * rewrite length_append, zeros_length. unfold k. lia.
    + destruct (Z.leb_spec (Z.of_nat (String.length ds)) decpt) as [B4 | B4].
      * (* zeros before the point *)
        set (k := Z.to_nat (decpt - Z.of_nat (String.length ds))).
        replace (ds ++ repeat_char "0"%char k ++ ".0")%string
          with ((ds ++ repeat_char "0"%char k) ++ "." ++ "0")%string
          by (now rewrite append_assoc).
        rewrite lex1_point;
          [| destruct ds; discriminate
           | rewrite all_digits_app, zeros_digits, D; reflexivity | reflexivity].
        apply float_literal_eq.
        rewrite number_of_snoc_zero, number_of_zeros_app.
        replace (number_of ds * 10 ^ Z.of_nat k * 10)
          with (number_of ds * 10 ^ (Z.of_nat k + 1))
          by (rewrite Z.pow_add_r by lia; change (10 ^ 1) with 10; ring).
        replace (0 - Z.of_nat (String.length "0"))
          with (decpt - Z.of_nat (String.length ds) - (Z.of_nat k + 1))
          by (cbn [String.length]; unfold k; lia).
        apply dec_scale; lia.
      * (* the point among the digits *)
        destruct (take_drop (Z.to_nat decpt) ds ltac:(lia)) as (E & L).
        assert (Dt : all_digits (take (Z.to_nat decpt) ds) = true
                     /\ all_digits (drop (Z.to_nat decpt) ds) = true).
        { rewrite <- E, all_digits_app in D. now apply andb_prop in D. }
        destruct Dt as (Dt & Dd).
        rewrite lex1_point; [| | assumption | assumption].
        -- rewrite E. apply float_literal_eq, dec_eq; [reflexivity |].
           apply (f_equal String.length) in E. rewrite length_append, L in E. lia.
        -- intros E0. rewrite E0 in L. cbn in L. lia.
Qed.

(** *** The digits of a float *)

Lemma of_ratio_sign (s : bool) (n d : positive) (m : positive) (e : Z) :
  of_ratio s n d = S754_finite false m e -> s = false.
Proof.
  unfold of_ratio.
  destruct (scaled n d _) as [a b].
  destruct (half_even a b =? 0); [discriminate |].
  destruct (half_even a b =? 2 ^ 53).
  - destruct (_ <=? 971); [| discriminate]. now intros [= -> _ _].
  - destruct (_ <=? 971); [| discriminate]. now intros [= -> _ _].
Qed.

Lemma reads_back_positive (m : positive) (e c q : Z) :
  reads_back m e c q = true -> 0 < c /\ dec c q = S754_finite false m e.
Proof.
  unfold reads_back. intros H. apply same_eq in H. split; [| assumption].
  destruct c as [| p | p]; [discriminate H | lia |].
  exfalso. unfold dec in H.
  destruct (0 <=? q); apply of_ratio_sign in H; discriminate H.
Qed.

(** The text [repr] prints for a positive float is one float literal,
    and the reader rounds it to that float. *)
Lemma positive_float_repr_reads_back (m : positive) (e : Z) :
  valid (S754_finite false m e) = true ->
  lex1 (positive_float_repr m e)
  = ret (Some (FloatLit (S754_finite false m e), EmptyString)).
Proof.
  intros Hv. pose proof (shortest_reads_back m e Hv) as R.
  unfold positive_float_repr. destruct (shortest m e) as [c q]. cbn [fst snd] in R.
  apply reads_back_positive in R as (Hc & R).
  destruct (digits_of_spec c ltac:(lia)) as (c0 & r0 & E & D & N & Z0).
  rewrite E.
  assert (Hc0 : c0 <> "0"%char) by (intros E0; destruct (Z0 E0); lia).
  destruct (strip_zeros_spec c0 r0 Hc0) as (r' & z & Es & Ez).
  rewrite Es.
  assert (D' : all_digits (String c0 r') = true).
  { rewrite Ez, all_digits_app in D. now apply andb_prop in D as (? & _). }
  assert (N' : c = number_of (String c0 r') * 10 ^ Z.of_nat z).
  { rewrite <- N, Ez. apply number_of_zeros_app. }
  assert (P : 0 < number_of (String c0 r')).
  { pose proof (pow10_pos (Z.of_nat z) ltac:(lia)).
    pose proof (number_from_nonneg (String c0 r') 0 D' ltac:(lia)) as G.
    fold (number_of (String c0 r')) in G.
    destruct (Z.eq_dec (number_of (String c0 r')) 0) as [E0 | ?]; [| lia].
    rewrite E0 in N'. lia. }
  rewrite lex1_layout by assumption.
  apply float_literal_eq. rewrite <- R, N'.
  assert (L : Z.of_nat (String.length (String c0 r0))
              = Z.of_nat (String.length (String c0 r')) + Z.of_nat z).
  { rewrite Ez at 1. rewrite length_append, zeros_length. lia. }
  rewrite L.
  replace (Z.of_nat (String.length (String c0 r')) + Z.of_nat z + q
           - Z.of_nat (String.length (String c0 r')))
    with (q + Z.of_nat z) by lia.
  rewrite <- (dec_scale (number_of (String c0 r')) (q + Z.of_nat z) (Z.of_nat z))
    by lia.
  f_equal. lia.
Qed.

End ReprFacts.

Module LexFacts.

Import F64 Py Ast TextFacts CharFacts StringFacts NumberFacts LexNumberFacts ReprFacts.

Lemma lexes_nil : lexes EmptyString [].
Proof. intros [| f] H; [cbn in H; lia | reflexivity]. Qed.

Lemma lexes_cons (s rest : text) (tok : token) (ts : list token) :
  lex1 s = ret (Some (tok, rest)) -> skip_spaces s = s ->
  (String.length rest < String.length s)%nat ->
  lexes rest ts -> lexes s (tok :: ts).
Proof.
  intros H1 Hs Hl Hr [| f] Hf; [lia |].
  cbn [lex_from]. rewrite Hs, H1. cbn [bind ret].
  rewrite (Hr f) by lia. reflexivity.
Qed.

Lemma lexes_space (s : text) (ts : list token) :
  lexes s ts -> lexes (String " " s) ts.
Proof.
  intros H [| f] Hf; [lia |].
  cbn [String.length] in Hf.
  specialize (H (S f) ltac:(lia)). cbn [lex_from] in *. exact H.
Qed.

(** The punctuation of a display. *)
Lemma lexes_punct (c : ascii) (tok : token) (rest : text) (ts : list token) :
  In (c, tok) [("{"%char, LBrace); ("}"%char, RBrace); ("["%char, LBracket);
               ("]"%char, RBracket); (","%char, Comma); (":"%char, Colon);
               ("-"%char, Minus)] ->
  lexes rest ts -> lexes (String c rest) (tok :: ts).
Proof.
  intros Hc Hr. cbn [In] in Hc.
  apply (lexes_cons _ rest); [| | cbn; lia | assumption];
    repeat (destruct Hc as [Hc | Hc]; [injection Hc as <- <-; reflexivity |]);
    destruct Hc.
Qed.

Lemma lexes_name (n rest : text) (ts : list token) :
  In n ["None"; "True"; "False"] -> delimited rest ->
  lexes rest ts -> lexes (n ++ rest)%string (Name n :: ts).
Proof.
  intros Hn Hd Hr. cbn [In] in Hn.
  apply (lexes_cons _ rest); [| | | assumption].
  - destruct Hn as [<- | [<- | [<- | []]]]; delimiter rest; reflexivity.
  - destruct Hn as [<- | [<- | [<- | []]]]; reflexivity.
  - rewrite length_append.
    destruct Hn as [<- | [<- | [<- | []]]]; cbn; lia.
Qed.

Lemma lexes_digits (n : Z) (rest : text) (ts : list token) :
  0 <= n -> delimited rest ->
  lexes rest ts -> lexes (digits_of n ++ rest)%string (IntLit n :: ts).
Proof.
  intros Hn Hd Hr.
  destruct (digits_of_first n Hn) as (c & ds & E & D).
  apply (lexes_cons _ rest); [| | | assumption].
  - pose proof (lex_number_int n rest Hn Hd) as L.
    rewrite E in *. cbn [append] in *.
    rewrite lex1_digit by assumption.
    change (String c (ds ++ rest)%string) with (String c ds ++ rest)%string.
    cbn [append]. rewrite L. reflexivity.
  - rewrite E. cbn [append skip_spaces]. now rewrite digit_not_space.
  - rewrite length_append, E. cbn. lia.
Qed.

Lemma lexes_positive_float (m : positive) (e : Z) (rest : text) (ts : list token) :
  valid (S754_finite false m e) = true -> delimited rest ->
  lexes rest ts ->
  lexes (positive_float_repr m e ++ rest)%string
    (FloatLit (S754_finite false m e) :: ts).
Proof.
  intros Hv Hd Hr.
  pose proof (positive_float_repr_reads_back m e Hv) as E.
  destruct (lex1_float_app _ rest _ Hd E) as (L & c & r & Et & D).
  apply (lexes_cons _ rest); [assumption | | | assumption].
  - rewrite Et. cbn [append skip_spaces]. now rewrite digit_not_space.
  - rewrite length_append, Et. cbn. lia.
Qed.

Lemma lexes_float (x : float) (rest : text) (ts : list token) :
  is_finite x && valid x = true -> delimited rest ->
  lexes rest ts -> lexes (float_repr x ++ rest)%string (float_tokens x ++ ts).
Proof.
  intros H Hd Hr. apply andb_prop in H as (Hf & Hv).
  destruct x as [[|] | | | [|] m e]; try discriminate Hf.
  - apply (lexes_punct "-" Minus); [cbn; tauto |].
    apply (lexes_cons _ rest); [| | | assumption].
    + delimiter rest; reflexivity.
    + reflexivity.
    + cbn. lia.
  - apply (lexes_cons _ rest); [| | | assumption].
    + delimiter rest; reflexivity.
    + reflexivity.
    + cbn. lia.
  - apply (lexes_punct "-" Minus); [cbn; tauto |].
    apply lexes_positive_float; [exact Hv | assumption | assumption].
  - apply lexes_positive_float; [exact Hv | assumption | assumption].
Qed.

Lemma lexes_str (s rest : text) (ts : list token) :
  lexes rest ts -> lexes (str_repr s ++ rest)%string (StrLit s :: ts).
Proof.
  intros Hr. apply (lexes_cons _ rest); [| | | assumption].
  - apply lex1_str_repr.
  - unfold str_repr. destruct (quote_for_cases s) as [-> | ->]; reflexivity.
  - rewrite length_append. pose proof (str_repr_length s). lia.
Qed.

Lemma lexes_comma (s : text) (ts : list token) :
  lexes s ts -> lexes (", " ++ s)%string (Comma :: ts).
Proof.
  intros H. apply (lexes_punct "," Comma); [cbn; tauto |]. now apply lexes_space.
Qed.

(** The entries of a display, up to the closing character [c]. *)
Lemma lexes_entries {A : Type} (item : A -> text) (toks : A -> list token)
  (c : ascii) (close : token) (xs : list A) (rest : text) (ts : list token) :
  In (c, close) [("]"%char, RBracket); ("}"%char, RBrace)] ->
  Forall (fun x => forall rest ts, delimited rest -> lexes rest ts ->
                     lexes (item x ++ rest)%string (toks x ++ ts)) xs ->
  lexes rest ts ->
  lexes (join ", " (map item xs) ++ String c rest)%string
    (sep_tokens (map toks xs) ++ close :: ts).
Proof.
  intros Hc Hxs Hr.
  assert (Hclose : lexes (String c rest) (close :: ts)).
  { apply lexes_punct; [cbn in *; tauto | assumption]. }
  assert (Hd : delimited (String c rest)).
  { cbn in *. destruct Hc as [[= <- _] | [[= <- _] | []]]; tauto. }
  induction Hxs as [| x xs Hx Hxs IH]; [exact Hclose |].
  destruct xs as [| x' xs'].
  - cbn [map join sep_tokens]. now apply Hx.
  - change (join ", " (map item (x :: x' :: xs')))
      with (item x ++ ", " ++ join ", " (map item (x' :: xs')))%string.
    change (sep_tokens (map toks (x :: x' :: xs')))
      with (toks x ++ Comma :: sep_tokens (map toks (x' :: xs'))).
    rewrite !append_assoc, <- app_assoc. cbn [app].
    apply Hx; [cbn; tauto |].
    apply lexes_comma. exact IH.
Qed.

(** The [repr] of a readable value in front of a delimiter is cut
    into the tokens of the value. *)
Lemma lexes_value (v : pyval) :
  readable v = true ->
  forall rest ts, delimited rest -> lexes rest ts ->
    lexes (repr v ++ rest)%string (tokens v ++ ts).
Proof.
  induction v as [| b | z | x | s | vs IH] using pyval_induction;
    intros Hv rest ts Hd Hr.
  - apply (lexes_name "None"); [cbn; tauto | assumption | assumption].
  - destruct b.
    + apply (lexes_name "True"); [cbn; tauto | assumption | assumption].
    + apply (lexes_name "False"); [cbn; tauto | assumption | assumption].
  - cbn [repr tokens]. unfold int_repr.
    destruct (Z.ltb_spec z 0).
    + apply (lexes_punct "-" Minus); [cbn; tauto |].
      apply lexes_digits; [lia | assumption | assumption].
    + apply lexes_digits; assumption.
  - now apply lexes_float.
  - now apply lexes_str.
  - cbn [repr tokens]. cbn [readable] in Hv.
    rewrite !append_assoc. cbn [append]. rewrite <- app_comm_cons, <- app_assoc.
    apply (lexes_punct "[" LBracket); [cbn; tauto |].
    apply (lexes_entries repr tokens "]" RBracket); [cbn; tauto | | assumption].
    rewrite forallb_forall in Hv. rewrite Forall_forall in *.
    intros x Hx. apply IH; auto.
Qed.

(** The text of a dictionary is cut into the tokens of its items. *)
Lemma lexes_dict (d : dict) :
  Forall (fun kv => readable (snd kv) = true) d ->
  lexes (str_dict d) (dict_tokens d).
Proof.
  intros Hd. unfold str_dict, dict_tokens.
  cbn [append]. apply (lexes_punct "{" LBrace); [cbn; tauto |].
  apply (lexes_entries item_repr item_tokens "}" RBrace);
    [cbn; tauto | | apply lexes_nil].
  rewrite Forall_forall in *. intros [k v] Hkv rest ts Hr Hl.
  unfold item_repr, item_tokens. cbn [fst snd].
  rewrite !append_assoc. cbn [app].
  apply lexes_str. cbn [append].
  apply (lexes_punct ":" Colon); [cbn; tauto |].
  apply lexes_space. apply lexes_value; auto.
  apply (Hd (k, v) Hkv).
Qed.

Lemma lex_dict (d : dict) :
  Forall (fun kv => readable (snd kv) = true) d ->
  lex (str_dict d) = ret (dict_tokens d).
Proof. intros Hd. apply (lexes_dict d Hd). lia. Qed.

End LexFacts.

Module ParseFacts.

Import F64 Py Ast TextFacts LexFacts.

Lemma tokens_head (v : pyval) :
  exists t ts, tokens v = t :: ts /\ t <> RBracket.
Proof.
  destruct v as [| [|] | z | x | s | vs]; cbn [tokens];
    try (eexists; eexists; split; [reflexivity | discriminate]).
  - destruct (z <? 0); eexists; eexists; (split; [reflexivity | discriminate]).
  - destruct x as [[|] | [|] | | [|] m e]; cbn;
      eexists; eexists; (split; [reflexivity | discriminate]).
Qed.

Lemma tokens_length_pos (v : pyval) : (1 <= List.length (tokens v))%nat.
Proof. destruct (tokens_head v) as (t & ts & E & _). rewrite E. cbn. lia. Qed.

Lemma sep_tokens_cons {A : Type} (toks : A -> list token) (x : A) (xs : list A) :
  sep_tokens (map toks (x :: xs))
  = toks x ++ match xs with
              | [] => []
              | _ :: _ => Comma :: sep_tokens (map toks xs)
              end.
Proof. destruct xs; cbn [map sep_tokens]; [now rewrite app_nil_r | reflexivity]. Qed.

Lemma sep_tokens_length {A : Type} (toks : A -> list token) (x : A) (xs : list A) :
  (List.length (toks x) <= List.length (sep_tokens (map toks (x :: xs))))%nat /\
  (xs <> [] ->
   List.length (toks x) + 1 + List.length (sep_tokens (map toks xs))
   = List.length (sep_tokens (map toks (x :: xs))))%nat.
Proof.
  rewrite sep_tokens_cons, length_app. destruct xs; cbn [List.length].
  - split; [lia | congruence].
  - split; lia.
Qed.

Lemma parse_value_list (f : nat) (t : token) (r : list token) :
  t <> RBracket ->
  parse_value (S f) (LBracket :: t :: r)
  = ('(vs, r') <- parse_items f (t :: r) ;; ret (VList vs, r')).
Proof. destruct t; try reflexivity. congruence. Qed.

Lemma parse_items_eq (f : nat) (ts : list token) :
  parse_items (S f) ts
  = ('(v, r) <- parse_value f ts ;;
     match r with
     | Comma :: RBracket :: r' => ret ([v], r')
     | Comma :: r' => '(vs, r'') <- parse_items f r' ;; ret (v :: vs, r'')
     | RBracket :: r' => ret ([v], r')
     | _ => raise SyntaxError
     end).
Proof. reflexivity. Qed.

(** The tokens of a leaf are parsed as the leaf. *)
Lemma parse_value_leaf (v : pyval) (f : nat) (r : list token) :
  (forall vs, v <> VList vs) ->
  parse_value (S f) (tokens v ++ r) = ret (v, r).
Proof.
  intros Hv. destruct v as [| [|] | z | x | s | vs]; try reflexivity.
  - cbn [tokens]. destruct (Z.ltb_spec z 0); cbn [app parse_value]; [| reflexivity].
    now rewrite Z.opp_involutive.
  - destruct x as [[|] | [|] | | [|] m e]; reflexivity.
  - now destruct (Hv vs).
Qed.

(** The entries of a list display after the opening bracket. *)
Lemma parse_items_tokens (vs : list pyval) :
  Forall (fun v => forall f r, (List.length (tokens v) <= f)%nat ->
                     parse_value f (tokens v ++ r) = ret (v, r)) vs ->
  vs <> [] ->
  forall f r,
    (List.length (sep_tokens (map tokens vs)) + 1 <= f)%nat ->
    parse_items f (sep_tokens (map tokens vs) ++ RBracket :: r) = ret (vs, r).
Proof.
  induction 1 as [| v vs Hv Hvs IH]; [congruence |].
  intros _ f r Hf.
  destruct (sep_tokens_length tokens v vs) as (L1 & L2).
  destruct f as [| f]; [lia |].
  rewrite parse_items_eq, sep_tokens_cons, <- app_assoc.
  rewrite Hv by lia. cbn [bind ret].
  destruct vs as [| v' vs'].
  - reflexivity.
  - specialize (L2 ltac:(discriminate)).
    specialize (IH ltac:(discriminate) f r ltac:(lia)).
    cbn [app]. rewrite sep_tokens_cons, <- app_assoc in *.
    destruct (tokens_head v') as (t & ts & E & Ht). rewrite E in *.
    cbn [app] in *. rewrite IH.
    destruct t; try reflexivity. congruence.
Qed.

(** The tokens of a value are parsed as the value, whatever follows,
    with fuel for every token. *)
Lemma parse_value_tokens (v : pyval) :
  forall f r, (List.length (tokens v) <= f)%nat ->
    parse_value f (tokens v ++ r) = ret (v, r).
Proof.
  induction v as [| b | z | x | s | vs IH] using pyval_induction; intros f r Hf;
    match goal with
    | |- parse_value _ (tokens ?v ++ _) = _ => pose proof (tokens_length_pos v) as Hp
    end;
    (destruct f as [| f]; [lia |]);
    try (apply parse_value_leaf; discriminate).
  cbn [tokens] in *. cbn [List.length] in Hf. rewrite length_app in Hf. cbn in Hf.
  destruct vs as [| v vs].
  - reflexivity.
  - rewrite <- app_comm_cons, <- app_assoc. cbn [app].
    pose proof (parse_items_tokens (v :: vs) IH ltac:(discriminate) f r ltac:(lia)) as H.
    rewrite sep_tokens_cons, <- app_assoc in *.
    destruct (tokens_head v) as (t & ts & E & Ht). rewrite E in *. cbn [app] in *.
    rewrite parse_value_list by assumption. rewrite H. reflexivity.
Qed.

(** Items put one by one into a dictionary that has none of their
    keys. *)
Lemma setitem_fresh (acc : dict) (k : text) (v : pyval) :
  ~ In k (map fst acc) -> setitem acc k v = acc ++ [(k, v)].
Proof.
  induction acc as [| [k' v'] acc IH]; cbn; intros H; [reflexivity |].
  destruct (String.eqb_spec k' k) as [-> | _]; [tauto |].
  rewrite IH by tauto. reflexivity.
Qed.

Lemma setitem_all (d acc : dict) :
  NoDup (map fst (acc ++ d)) ->
  fold_left (fun a kv => setitem a (fst kv) (snd kv)) d acc = acc ++ d.
Proof.
  revert acc. induction d as [| [k v] d IH]; intros acc H; cbn [fold_left fst snd].
  - now rewrite app_nil_r.
  - rewrite setitem_fresh.
    + rewrite IH; rewrite <- app_assoc; [reflexivity | exact H].
    + rewrite map_app in H. apply NoDup_remove_2 in H.
      intros Hin. apply H. apply in_or_app. now left.
Qed.

Lemma parse_pairs_eq (f : nat) (k : text) (r : list token) (acc : dict) :
  parse_pairs (S f) (StrLit k :: Colon :: r) acc
  = ('(v, r1) <- parse_value (S f) r ;;
     let acc' := setitem acc k v in
     match r1 with
     | Comma :: RBrace :: r2 => ret (acc', r2)
     | Comma :: r2 => parse_pairs f r2 acc'
     | RBrace :: r2 => ret (acc', r2)
     | _ => raise SyntaxError
     end).
Proof. reflexivity. Qed.

(** The items of a dictionary display after the opening brace. *)
Lemma parse_pairs_tokens (d : dict) :
  d <> [] ->
  forall acc f r,
    (List.length (sep_tokens (map item_tokens d)) <= f)%nat ->
    parse_pairs f (sep_tokens (map item_tokens d) ++ RBrace :: r) acc
    = ret (fold_left (fun a kv => setitem a (fst kv) (snd kv)) d acc, r).
Proof.
  induction d as [| [k v] d IH]; [congruence |].
  intros _ acc f r Hf.
  destruct (sep_tokens_length item_tokens (k, v) d) as (L1 & L2).
  change (item_tokens (k, v)) with (StrLit k :: Colon :: tokens v) in *.
  cbn [List.length] in L1, L2.
  destruct f as [| f]; [lia |].
  rewrite sep_tokens_cons, <- app_assoc.
  change (item_tokens (k, v)) with (StrLit k :: Colon :: tokens v).
  rewrite <- !app_comm_cons.
  rewrite parse_pairs_eq.
  rewrite parse_value_tokens by lia. cbn [bind ret fold_left fst snd].
  destruct d as [| [k' v'] d'].
  - reflexivity.
  - specialize (L2 ltac:(discriminate)).
    specialize (IH ltac:(discriminate) (setitem acc k v) f r ltac:(lia)).
    cbn [app]. rewrite sep_tokens_cons, <- app_assoc in *.
    change (item_tokens (k', v')) with (StrLit k' :: Colon :: tokens v') in *.
    cbn [app] in *. exact IH.
Qed.

(** The tokens of a dictionary with distinct keys are parsed as the
    dictionary. *)
Lemma parse_dict (d : dict) : wf_dict d -> parse (dict_tokens d) = ret (Dict d).
Proof.
  intros Hd. destruct d as [| [k v] d]; [reflexivity |].
  unfold dict_tokens, parse.
  set (ts := LBrace :: sep_tokens (map item_tokens ((k, v) :: d)) ++ [RBrace]).
  assert (L : (List.length (sep_tokens (map item_tokens ((k, v) :: d)))
               <= S (List.length ts))%nat).
  { unfold ts. cbn [List.length]. rewrite length_app. lia. }
  pose proof (parse_pairs_tokens ((k, v) :: d) ltac:(discriminate) []
                (S (List.length ts)) [] L) as H.
  rewrite setitem_all in H by exact Hd. cbn [app] in H.
  unfold ts at 2. clearbody ts.
  rewrite sep_tokens_cons in *.
  change (item_tokens (k, v)) with (StrLit k :: Colon :: tokens v) in *.
  cbn [app] in *.
  rewrite H. reflexivity.
Qed.

End ParseFacts.

Module NestingFacts.

Import F64 Py Ast ParseFacts.

Lemma nests_sep {A : Type} (toks : A -> list token) (dp : A -> nat) (xs : list A) :
  Forall (fun x => nests (toks x) (dp x)) xs ->
  nests (sep_tokens (map toks xs)) (list_max (map dp xs)).
Proof.
  intros H. induction H as [| x xs Hx Hxs IH]; intros k m r Hk.
  - cbn. f_equal. lia.
  - rewrite sep_tokens_cons, <- app_assoc, Hx by assumption.
    destruct xs as [| y ys].
    + cbn [app map list_max fold_right]. f_equal. lia.
    + rewrite <- app_comm_cons. cbn [nesting_from].
      rewrite IH by lia. f_equal.
      change (map dp (x :: y :: ys)) with (dp x :: map dp (y :: ys)).
      change (list_max (dp x :: map dp (y :: ys)))
        with (Nat.max (dp x) (list_max (map dp (y :: ys)))).
      lia.
Qed.

Lemma nests_tokens (v : pyval) : nests (tokens v) (depth v).
Proof.
  induction v as [| b | z | x | s | vs IH] using pyval_induction.
  - intros k m r Hk. cbn. f_equal. lia.
  - intros k m r Hk. destruct b; cbn; f_equal; lia.
  - intros k m r Hk. cbn [tokens depth]. destruct (z <? 0); cbn; f_equal; lia.
  - intros k m r Hk. destruct x as [[|] | [|] | | [|] p e]; cbn; f_equal; lia.
  - intros k m r Hk. cbn. f_equal. lia.
  - intros k m r Hk. cbn [tokens depth].
    rewrite <- app_comm_cons, <- app_assoc. cbn [nesting_from].
    rewrite (nests_sep tokens depth vs IH) by lia.
    cbn [app nesting_from Nat.pred]. f_equal. lia.
Qed.

(** The braces of a dictionary are one level around its values. *)
Lemma nesting_dict (d : dict) :
  nesting (dict_tokens d) = S (list_max (map (fun kv => depth (snd kv)) d)).
Proof.
  assert (F : Forall (fun kv => nests (item_tokens kv) (depth (snd kv))) d).
  { apply Forall_forall. intros [k v] _ j m r Hj.
    unfold item_tokens. cbn [fst snd]. rewrite <- !app_comm_cons.
    cbn [nesting_from]. now apply nests_tokens. }
  unfold nesting, dict_tokens. cbn [nesting_from].
  rewrite (nests_sep item_tokens (fun kv => depth (snd kv)) d F) by lia.
  cbn [nesting_from]. lia.
Qed.

End NestingFacts.

Module LiteralFacts.

Import F64 Py Ast LexFacts ParseFacts NestingFacts.

(** [ast.literal_eval(str(d))] is [d], for a dictionary with distinct
    keys and readable values that are not nested too deep. *)
Lemma literal_eval_str_dict (d : dict) :
  wf_dict d -> Forall (fun kv => readable (snd kv) = true) d ->
  Forall (fun kv => (depth (snd kv) < max_nesting)%nat) d ->
  literal_eval (str_dict d) = ret (Dict d).
Proof.
  intros Hk Hv Hn. unfold literal_eval.
  pose proof (lex_dict d Hv) as E. unfold ret in E. rewrite E. clear E.
  assert (L : (nesting (dict_tokens d) <= max_nesting)%nat).
  { rewrite nesting_dict.
    assert (F : Forall (fun n => (n <= Nat.pred max_nesting)%nat)
                  (map (fun kv => depth (snd kv)) d)).
    { apply Forall_map. eapply Forall_impl; [| exact Hn].
      cbn beta. intros kv H. unfold max_nesting in *. cbn [Nat.pred]. lia. }
    apply list_max_le in F. unfold max_nesting in *. cbn [Nat.pred] in F. lia. }
  apply Nat.leb_le in L. rewrite L. now apply parse_dict.
Qed.

End LiteralFacts.

Module XrFacts.

Import F64 Py Xr.

Lemma get_set_assoc (l : list (text * text)) (k v : text) :
  get_assoc (set_assoc l k v) k = ret v.
Proof.
  induction l as [| [k' v'] l IH]; cbn.
  - now rewrite String.eqb_refl.
  - destruct (String.eqb_spec k' k) as [-> | N]; cbn.
    + now rewrite String.eqb_refl.
    + destruct (String.eqb_spec k' k); [congruence | assumption].
Qed.

Lemma get_set_assoc_other (l : list (text * text)) (k k' v : text) :
  k <> k' -> get_assoc (set_assoc l k v) k' = get_assoc l k'.
Proof.
  intros N. induction l as [| [k0 v0] l IH]; cbn.
  - destruct (String.eqb_spec k k'); [congruence | reflexivity].
  - destruct (String.eqb_spec k0 k) as [-> | N0]; cbn.
    + destruct (String.eqb_spec k k'); [congruence | reflexivity].
    + destruct (String.eqb_spec k0 k'); [reflexivity | assumption].
Qed.

(** An attribute is read as it was last set. *)
Lemma attr_set_attr (da : DataArray) (k v : text) : attr (set_attr da k v) k = ret v.
Proof. apply get_set_assoc. Qed.

Lemma attr_set_attr_other (da : DataArray) (k k' v : text) :
  k <> k' -> attr (set_attr da k v) k' = attr da k'.
Proof. apply get_set_assoc_other. Qed.

(** A file is loaded as it was last written. *)
Lemma load_to_netcdf (fs : disk) (path : text) (da : DataArray) :
  load_dataarray (to_netcdf fs path da) path = ret da.
Proof. cbn. now rewrite String.eqb_refl. Qed.

End XrFacts.

Module DictFacts.

Import F64 Py Ast LexFacts.

Lemma distinct_NoDup (ks : list text) : distinct ks = true -> NoDup ks.
Proof.
  induction ks as [| k r IH]; cbn; intros H; constructor.
  - apply andb_prop in H as (H & _). apply negb_true_iff in H.
    intros Hin. assert (E : existsb (String.eqb k) r = true).
    { apply existsb_exists. exists k. split; [assumption | apply String.eqb_refl]. }
    congruence.
  - apply andb_prop in H as (_ & H). auto.
Qed.

Lemma readable_dict_spec (d : dict) :
  readable_dict d = true ->
  wf_dict d /\ Forall (fun kv => readable (snd kv) = true) d /\
  Forall (fun kv => (depth (snd kv) < max_nesting)%nat) d.
Proof.
  unfold readable_dict. intros H. apply andb_prop in H as (H & H3).
  apply andb_prop in H as (H1 & H2). split; [| split].
  - now apply distinct_NoDup.
  - apply Forall_forall. now apply forallb_forall.
  - apply Forall_forall. intros kv Hkv.
    rewrite forallb_forall in H3. now apply Nat.ltb_lt, H3.
Qed.

End DictFacts.

Module RoundTrip.

Import F64 Py Np Emu Ast Datetime LexFacts DictFacts LiteralFacts XrFacts.

(** C2, as the code has it.  A dictionary whose keys are distinct
    strings and whose values are [None], booleans, integers, strings,
    finite floats, and lists of these nested less than [max_nesting]
    deep, is what [ast.literal_eval] returns on its [str]; and when the
    spectra notebook saves its file with [str(light)] as the attribute
    [light], loading the file and evaluating the attribute gives the
    dictionary [light] back. *)
Theorem str_literal_eval_round_trip (d : dict) :
  readable_dict d = true ->
  literal_eval (str_dict d) = ret (Dict d) /\
  forall (struct emu : dict) (obj_repr : material -> text) (fs fs' : Xr.disk)
         (now : datetime) (wls v_R v_T v_A : array),
    EmuSpectra.save d struct emu obj_repr fs now wls v_R v_T v_A = ret fs' ->
    exists name,
      EmuSpectra.out_filename struct now = ret name /\
      DataExploration.light fs' ("data/" ++ name ++ ".nc")%string = ret (Dict d).
Proof.
  intros H. apply readable_dict_spec in H as (Hk & Hv & Hn).
  pose proof (literal_eval_str_dict d Hk Hv Hn) as E.
  split; [exact E |].
  intros struct emu obj_repr fs fs' now wls v_R v_T v_A.
  unfold EmuSpectra.save.
  destruct (EmuSpectra.out_filename struct now) as [| name]; [discriminate |].
  cbn [bind]. destruct (column_stack3 v_R v_T v_A) as [| m]; [discriminate |].
  cbn [bind]. destruct (Xr.new _ _ _ _ _) as [| da]; [discriminate |].
  cbn [bind]. intros [= <-]. exists name. split; [reflexivity |].
  unfold DataExploration.light. rewrite load_to_netcdf. cbn [bind ret].
  rewrite !attr_set_attr_other by discriminate.
  rewrite attr_set_attr. cbn [bind ret]. exact E.
Qed.

Lemma str_literal_eval_round_trip_witness :
  literal_eval (str_dict EmuSpectra.Inputs.light)
  = ret (Dict EmuSpectra.Inputs.light) /\
  forall (struct emu : dict) (obj_repr : material -> text) (fs fs' : Xr.disk)
         (now : datetime) (wls v_R v_T v_A : array),
    EmuSpectra.save EmuSpectra.Inputs.light struct emu obj_repr fs now
      wls v_R v_T v_A = ret fs' ->
    exists name,
      EmuSpectra.out_filename struct now = ret name /\
      DataExploration.light fs' ("data/" ++ name ++ ".nc")%string
      = ret (Dict EmuSpectra.Inputs.light).
Proof.
  apply (str_literal_eval_round_trip EmuSpectra.Inputs.light). vm_compute. reflexivity.
Defined.

(** The claim as the specification words it fails for a float that is
    not finite: [str] prints it as a name, which [ast.literal_eval]
    refuses. *)
Lemma infinity_is_not_read_back :
  wf_dict [("wl_max", VFloat inf)] /\
  str_dict [("wl_max", VFloat inf)] = "{'wl_max': inf}" /\
  literal_eval (str_dict [("wl_max", VFloat inf)]) = raise ValueError /\
  literal_eval (str_dict [("wl_max", VFloat nan)]) = raise ValueError.
Proof.
  split; [apply distinct_NoDup; reflexivity |].
  split; [reflexivity |]. split; reflexivity.
Qed.

(** Lists are no primitive values, and the round trip has an end for
    them: 89 lists inside one another around a number are read back,
    250 stop the parser. *)
Lemma deep_lists_stop_the_parser :
  literal_eval (str_dict [("wl", Example.nested 89 (VInt 1))])
  = ret (Dict [("wl", Example.nested 89 (VInt 1))]) /\
  literal_eval (str_dict [("wl", Example.nested 250 (VInt 1))]) = raise MemoryError.
Proof. split; vm_compute; reflexivity. Qed.

End RoundTrip.

Module Polarization.

Import F64 Py Np S4 S4Spectra Ast Datetime.
Import ResultFacts PoolFacts NpFacts S4Facts DictFacts LiteralFacts XrFacts.

Lemma getitem_setitem_other (d : dict) (k k' : text) (v : pyval) :
  k <> k' -> getitem (setitem d k v) k' = getitem d k'.
Proof.
  intros N. induction d as [| [k0 v0] d IH]; cbn.
  - destruct (String.eqb_spec k k'); [congruence | reflexivity].
  - destruct (String.eqb_spec k0 k) as [-> | N0]; cbn.
    + destruct (String.eqb_spec k k'); [congruence | reflexivity].
    + destruct (String.eqb_spec k0 k'); [reflexivity | assumption].
Qed.

Lemma new_values (m : list (list float)) (c0 c1 : Xr.coord) (d0 d1 : text)
  (da : Xr.DataArray) :
  Xr.new m c0 c1 d0 d1 = ret da -> Xr.values da = m.
Proof. unfold Xr.new. destruct (_ && _); [| discriminate]. now intros [= <-]. Qed.

Lemma column_stack3_nth (a b c : array) (m : list (list float)) :
  column_stack3 a b c = ret m ->
  forall i x y z, nth_error a i = Some x -> nth_error b i = Some y ->
    nth_error c i = Some z -> nth_error m i = Some [x; y; z].
Proof.
  revert b c m. induction a as [| x0 a IH]; intros [| y0 b] [| z0 c] m; cbn;
    try discriminate.
  - intros _ [| i]; discriminate.
  - destruct (column_stack3 a b c) as [| m'] eqn:E; [discriminate |].
    cbn. intros [= <-] [| i] x y z; cbn.
    + now intros [= <-] [= <-] [= <-].
    + now apply IH.
Qed.

Section Runs.

Variables light struct s4 : dict.
Variable db_to_eps : float -> pyval -> result (list complex).
Variable GetPowerFlux : Simulation -> text -> float -> result (complex * complex).
Variable hypot : float -> float -> float.

Local Abbreviation rta := (S4Spectra.rta light struct db_to_eps GetPowerFlux hypot).
Local Abbreviation spectra := (S4Spectra.spectra light struct db_to_eps GetPowerFlux hypot).

(** Every entry of the spectra is what [rta] returned at its
    wavelength, on a solver object lit by the circular wave. *)
Lemma spectra_entries (S : Simulation) (sched : list nat) (wls v_R v_T v_A : array) :
  spectra S sched wls = ret (v_R, v_T, v_A) ->
  forall i wl, nth_error wls i = Some wl ->
    exists S0 S1 R T A ang,
      rta wl S0 = (S1, ret (R, T, A)) /\
      nth_error v_R i = Some R /\ nth_error v_T i = Some T /\
      nth_error v_A i = Some A /\
      Planewave S1 = Some {| angles := ang; s_amplitude := s_circular;
                             p_amplitude := p_circular |}.
Proof.
  unfold S4Spectra.spectra. intros H i wl Hi.
  destruct (Pool.executor_map _ S sched wls) as [| rows] eqn:Hrows; [discriminate |].
  cbn [bind] in H.
  destruct (executor_map_nth _ _ _ _ _ _ _ _ Hrows i wl Hi) as (S0 & [[R T] A] & Hy & Hs).
  destruct (unpack3_nth _ _ _ _ H i _ Hy) as (Ha & Hb & Hc).
  destruct (rta wl S0) as [S1 r] eqn:E. cbn in Hs. subst r.
  destruct (rta_returns _ _ _ _ _ _ _ _ _ _ _ E)
    as (theta & phi & e0 & e1 & _ & _ & _ & _ & _ & _ & -> & _).
  exists S0, (flux_state S0 (theta, phi) wl e0 e1), R, T, A, (theta, phi).
  auto 6.
Qed.

End Runs.

(** The cell that builds [S] is where [light['pol']] is used: the
    object it returns has the two entries as amplitudes. *)
Lemma build_planewave (light struct s4 : dict)
  (db_to_eps : float -> pyval -> result (list complex)) (S : Simulation) (a b : float) :
  getitem light "pol" = ret (VList [VFloat a; VFloat b]) ->
  build light struct s4 db_to_eps = ret S ->
  exists ang,
    Planewave S = Some {| angles := ang; s_amplitude := of_real a;
                          p_amplitude := of_real b |}.
Proof.
  intros Hpol H. unfold build in H.
  repeat match type of H with
         | bind (getitem light "pol") _ = _ => rewrite Hpol in H; cbn [bind ret] in H
         | bind ?m _ = _ =>
             let v := fresh "v" in
             let E := fresh "E" in
             apply bind_inr in H as (v & E & H)
         end.
  repeat match goal with
         | E : subscript (VList _) _ = inr _ |- _ => cbn in E; injection E as <-
         | E : as_float (VFloat _) = inr _ |- _ => cbn in E; injection E as <-
         end.
  injection H as <-. cbn [Planewave SetOptions SetFrequency SetExcitationPlanewave].
  eexists. reflexivity.
Qed.

(** C5.  [rta] lights the structure with the amplitudes
    [1/sqrt(2)] and [-i/sqrt(2)] whatever [light['pol']] is: changing
    that entry changes nothing of what [rta] does, and whatever the
    solver object was before a call that returns, after it its plane
    wave has the two circular amplitudes, and the R and T returned
    are the flux ratios the solver gave for the object in that state.
    So in every run of the notebook that saves its file, with
    [light['pol'] = [0.0, 1.0]]: the object the notebook builds has
    the amplitudes [0.0] and [1.0]; every row of the saved spectra is
    what a call of [rta] returned, hence computed with the circular
    amplitudes, which are not [0.0] and [1.0]; and the attribute
    [light] of the file is the [str] of a dictionary whose [pol] is
    [[0.0, 1.0]]: evaluated, it gives that dictionary back. *)
Theorem rta_ignores_pol
  (light struct s4 : dict)
  (db_to_eps : float -> pyval -> result (list complex))
  (GetPowerFlux : Simulation -> text -> float -> result (complex * complex))
  (hypot : float -> float -> float)
  (fs fs' : Xr.disk) (now : datetime) (sched : list nat) :
  getitem light "pol" = ret (VList [VFloat (dec 0 (-1)); VFloat (dec 10 (-1))]) ->
  notebook light struct s4 db_to_eps GetPowerFlux hypot fs now sched = ret fs' ->
  (forall pol wl S,
     S4Spectra.rta (setitem light "pol" pol) struct db_to_eps GetPowerFlux hypot wl S
     = S4Spectra.rta light struct db_to_eps GetPowerFlux hypot wl S) /\
  s_circular <> of_real (dec 0 (-1)) /\ p_circular <> of_real (dec 10 (-1)) /\
  (forall wl S S' R T A,
     S4Spectra.rta light struct db_to_eps GetPowerFlux hypot wl S = (S', ret (R, T, A)) ->
     exists ang forw_1 back_1 forw_2 back_2 qr qt,
       Planewave S' = Some {| angles := ang; s_amplitude := s_circular;
                              p_amplitude := p_circular |} /\
       GetPowerFlux S' "Inc" zero = ret (forw_1, back_1) /\
       GetPowerFlux S' "Sub" zero = ret (forw_2, back_2) /\
       c_quot back_1 forw_1 = ret qr /\ R = hypot (fst qr) (snd qr) /\
       c_quot forw_2 forw_1 = ret qt /\ T = hypot (fst qt) (snd qt)) /\
  exists S ang name wls da,
    build light struct s4 db_to_eps = ret S /\
    Planewave S = Some {| angles := ang; s_amplitude := of_real (dec 0 (-1));
                          p_amplitude := of_real (dec 10 (-1)) |} /\
    out_filename struct now = ret name /\ v_wl light = ret wls /\
    Xr.load_dataarray fs' ("data/" ++ name ++ ".nc")%string = ret da /\
    Xr.attr da "light" = ret (str_dict light) /\
    (readable_dict light = true ->
     literal_eval (str_dict light) = ret (Dict light)) /\
    forall i wl, nth_error wls i = Some wl ->
      exists S0 S1 R T A,
        S4Spectra.rta light struct db_to_eps GetPowerFlux hypot wl S0
        = (S1, ret (R, T, A)) /\
        nth_error (Xr.values da) i = Some [R; T; A].
Proof.
  intros Hpol Hrun.
  split; [| split; [| split; [| split]]].
  - intros pol wl S. unfold S4Spectra.rta.
    rewrite !getitem_setitem_other by discriminate. reflexivity.
  - intros E. vm_compute in E. discriminate E.
  - intros E. vm_compute in E. discriminate E.
  - intros wl S S' R T A E.
    destruct (rta_returns _ _ _ _ _ _ _ _ _ _ _ E)
      as (theta & phi & e0 & e1 & f1 & b1 & f2 & b2 & qr & qt
          & -> & F1 & F2 & Q1 & HR & Q2 & HT & _).
    exists (theta, phi), f1, b1, f2, b2, qr, qt.
    split; [reflexivity |]. auto 8.
  - unfold notebook in Hrun.
    destruct (v_wl light) as [| wls]; [discriminate |]. cbn [bind] in Hrun.
    destruct (build light struct s4 db_to_eps) as [| S] eqn:Hb; [discriminate |].
    cbn [bind] in Hrun.
    destruct (S4Spectra.spectra _ _ _ _ _ S sched wls) as [| [[v_R v_T] v_A]] eqn:Hsp;
      [discriminate |].
    cbn [bind] in Hrun. unfold save in Hrun.
    destruct (out_filename struct now) as [| name]; [discriminate |].
    cbn [bind] in Hrun.
    destruct (column_stack3 v_R v_T v_A) as [| m] eqn:Hm; [discriminate |].
    cbn [bind] in Hrun.
    destruct (Xr.new _ _ _ _ _) as [| da] eqn:Hda; [discriminate |].
    cbn [bind] in Hrun. injection Hrun as <-.
    destruct (build_planewave _ _ _ _ _ _ _ Hpol Hb) as (ang & Hw).
    eexists S, ang, name, wls, _.
    split; [reflexivity |]. split; [exact Hw |].
    split; [reflexivity |]. split; [reflexivity |].
    split; [apply load_to_netcdf |].
    split; [| split].
    + rewrite !attr_set_attr_other by discriminate. apply attr_set_attr.
    + intros Hr. apply readable_dict_spec in Hr as (Hk & Hv & Hn).
      now apply literal_eval_str_dict.
    + intros i wl Hi.
      destruct (spectra_entries _ _ _ _ _ _ _ _ _ _ _ Hsp i wl Hi)
        as (S0 & S1 & R & T & A & ang' & E & HR & HT & HA & HP).
      exists S0, S1, R, T, A.
      split; [assumption |].
      cbn [Xr.set_attr Xr.values]. rewrite (new_values _ _ _ _ _ _ Hda).
      now apply (column_stack3_nth _ _ _ _ Hm).
Qed.

Lemma rta_ignores_pol_witness :
  exists fs',
    notebook Example.s4_light Inputs.struct Inputs.s4 Example.db_to_eps
      Example.GetPowerFlux Example.hypot [] Example.now Example.sched = ret fs' /\
    (forall pol wl S,
       S4Spectra.rta (setitem Example.s4_light "pol" pol) Inputs.struct
         Example.db_to_eps Example.GetPowerFlux Example.hypot wl S
       = S4Spectra.rta Example.s4_light Inputs.struct
           Example.db_to_eps Example.GetPowerFlux Example.hypot wl S) /\
    s_circular <> of_real (dec 0 (-1)) /\ p_circular <> of_real (dec 10 (-1)) /\
    (forall wl S S' R T A,
       S4Spectra.rta Example.s4_light Inputs.struct Example.db_to_eps
         Example.GetPowerFlux Example.hypot wl S = (S', ret (R, T, A)) ->
       exists ang forw_1 back_1 forw_2 back_2 qr qt,
         Planewave S' = Some {| angles := ang; s_amplitude := s_circular;
                                p_amplitude := p_circular |} /\
         Example.GetPowerFlux S' "Inc" zero = ret (forw_1, back_1) /\
         Example.GetPowerFlux S' "Sub" zero = ret (forw_2, back_2) /\
         c_quot back_1 forw_1 = ret qr /\ R = Example.hypot (fst qr) (snd qr) /\
         c_quot forw_2 forw_1 = ret qt /\ T = Example.hypot (fst qt) (snd qt)) /\
    exists S ang name wls da,
      build Example.s4_light Inputs.struct Inputs.s4 Example.db_to_eps = ret S /\
      Planewave S = Some {| angles := ang; s_amplitude := of_real (dec 0 (-1));
                            p_amplitude := of_real (dec 10 (-1)) |} /\
      out_filename Inputs.struct Example.now = ret name /\
      v_wl Example.s4_light = ret wls /\
      Xr.load_dataarray fs' ("data/" ++ name ++ ".nc")%string = ret da /\
      Xr.attr da "light" = ret (str_dict Example.s4_light) /\
      (readable_dict Example.s4_light = true ->
       literal_eval (str_dict Example.s4_light) = ret (Dict Example.s4_light)) /\
      forall i wl, nth_error wls i = Some wl ->
        exists S0 S1 R T A,
          S4Spectra.rta Example.s4_light Inputs.struct
            Example.db_to_eps Example.GetPowerFlux Example.hypot wl S0
          = (S1, ret (R, T, A)) /\
          nth_error (Xr.values da) i = Some [R; T; A].
Proof.
  destruct (notebook Example.s4_light Inputs.struct Inputs.s4 Example.db_to_eps
              Example.GetPowerFlux Example.hypot [] Example.now Example.sched)
    as [e | fs'] eqn:E; [vm_compute in E; discriminate E |].
  exists fs'. split; [reflexivity |].
  apply (rta_ignores_pol Example.s4_light Inputs.struct Inputs.s4 Example.db_to_eps
           Example.GetPowerFlux Example.hypot [] fs' Example.now Example.sched).
  - reflexivity.
  - exact E.
Defined.

End Polarization.

Module MaterialFacts.

Import F64 Py S4.

Lemma set_material_keys (ms : list (text * complex)) (n k : text) (e : complex) :
  In k (map fst (set_material ms n e)) <-> k = n \/ In k (map fst ms).
Proof.
  induction ms as [| [n0 e0] ms IH]; cbn.
  - intuition congruence.
  - destruct (String.eqb_spec n0 n) as [-> | N]; cbn.
    + intuition congruence.
    + rewrite IH. intuition congruence.
Qed.

Lemma set_material_twice (ms : list (text * complex)) (n : text) (x y : complex) :
  set_material (set_material ms n y) n x = set_material ms n x.
Proof.
  induction ms as [| [n0 e0] ms IH]; cbn.
  - now rewrite String.eqb_refl.
  - destruct (String.eqb_spec n0 n) as [-> | N]; cbn.
    + now rewrite String.eqb_refl.
    + destruct (String.eqb_spec n0 n); [congruence |]. now rewrite IH.
Qed.

(** Giving a new value to a material that is defined changes no
    place, so it can be done before or after another update. *)
Lemma set_material_swap (ms : list (text * complex)) (n k : text) (x y : complex) :
  n <> k -> In n (map fst ms) ->
  set_material (set_material ms k y) n x = set_material (set_material ms n x) k y.
Proof.
  intros N. induction ms as [| [n0 e0] ms IH]; cbn; intros Hin; [tauto |].
  destruct (String.eqb_spec n0 k) as [-> | Nk]; cbn.
  - destruct (String.eqb_spec k n); [congruence |]. cbn.
    now rewrite String.eqb_refl.
  - destruct (String.eqb_spec n0 n) as [-> | Nn]; cbn.
    + destruct (String.eqb_spec n k); [congruence | reflexivity].
    + destruct (String.eqb_spec n0 k); [congruence |].
      rewrite IH; [reflexivity | intuition congruence].
Qed.

(** Two rounds of the two updates of [rta] leave what the second
    round alone leaves. *)
Lemma set_material_rounds (ms : list (text * complex)) (a b a' b' : complex) :
  set_material (set_material (set_material (set_material ms "Air" a) "Au" b) "Air" a')
    "Au" b'
  = set_material (set_material ms "Air" a') "Au" b'.
Proof.
  rewrite (set_material_swap (set_material ms "Air" a) "Air" "Au") by
    (try discriminate; apply set_material_keys; now left).
  now rewrite set_material_twice, set_material_twice.
Qed.

End MaterialFacts.

Module PoolRuns.

Section Invariant.

Variables St A B : Type.
Variable step : St -> A -> St * result B.
Variable Inv : St -> Prop.
Variable g : A -> result B.

Hypothesis step_inv : forall s x, Inv s -> Inv (fst (step s x)) /\ snd (step s x) = g x.

(** When every state a worker can be in gives the same result, the
    pool returns what a plain loop returns. *)
Lemma run_invariant (states : nat -> St) (sched : list nat) (xs : list A) :
  (forall w, Inv (states w)) -> Pool.run step states sched xs = map g xs.
Proof.
  revert states sched. induction xs as [| x xs IH]; intros states sched H; cbn;
    [reflexivity |].
  destruct (step_inv (states (hd 0%nat sched)) x (H _)) as (Hi & Hr).
  destruct (step (states (hd 0%nat sched)) x) as [s' r]. cbn in *. subst r.
  f_equal. apply IH. intros w. unfold Pool.set_worker.
  destruct (Nat.eqb w (hd 0%nat sched)); auto.
Qed.

Lemma collect_map (xs : list A) : Pool.collect (map g xs) = mapM g xs.
Proof. induction xs as [| x xs IH]; cbn; [reflexivity | now rewrite IH]. Qed.

Lemma executor_map_invariant (s0 : St) (sched : list nat) (xs : list A) :
  Inv s0 -> Pool.executor_map step s0 sched xs = mapM g xs.
Proof.
  intros H. unfold Pool.executor_map. rewrite run_invariant by auto.
  apply collect_map.
Qed.

End Invariant.

End PoolRuns.

Module SolverObject.

Import F64 Py Np S4 S4Spectra MaterialFacts.

Lemma agree_refl (S : Simulation) : agree S S.
Proof. split; [repeat split | reflexivity]. Qed.

Section Facts.

Variables light struct : dict.
Variable db_to_eps : float -> pyval -> result (list complex).
Variable GetPowerFlux : Simulation -> text -> float -> result (complex * complex).
Variable hypot : float -> float -> float.

Local Abbreviation rta := (S4Spectra.rta light struct db_to_eps GetPowerFlux hypot).

(** What a call of [rta] may have done to the materials when it
    returns or raises. *)
Lemma rta_state (wl : float) (S : Simulation) :
  same_geometry S (fst (rta wl S)) /\
  (Materials (fst (rta wl S)) = Materials S \/
   (exists a, Materials (fst (rta wl S)) = set_material (Materials S) "Air" a) \/
   (exists a b, Materials (fst (rta wl S))
                = set_material (set_material (Materials S) "Air" a) "Au" b)).
Proof.
  unfold S4Spectra.rta, andthen, pure, update, query, same_geometry. cbn.
  destruct (getitem light "theta") as [| th]; [cbn; tauto |].
  destruct (getitem light "phi") as [| ph]; [cbn; tauto |].
  destruct (as_float th) as [| theta]; [cbn; tauto |].
  destruct (as_float ph) as [| phi]; [cbn; tauto |].
  destruct (getitem struct "materials_stack") as [| ms]; [cbn; tauto |].
  destruct (db_to_eps wl ms) as [| e_list]; [cbn; tauto |].
  destruct (index e_list 0) as [| e0]; [cbn; tauto |].
  destruct (index e_list 1) as [| e1];
    [cbn; split; [tauto | right; left; eexists; reflexivity] |].
  assert (G : forall r : Simulation * result (float * float * float),
             fst r = SetMaterial
                       (SetMaterial
                          (SetFrequency
                             (SetExcitationPlanewave S (theta, phi) s_circular p_circular)
                             (div one wl)) "Air" e0) "Au" e1 ->
             (Lattice (fst r) = Lattice S /\ NumBasis (fst r) = NumBasis S /\
              Layers (fst r) = Layers S /\ Regions (fst r) = Regions S /\
              Options (fst r) = Options S) /\
             (Materials (fst r) = Materials S \/
              (exists a, Materials (fst r) = set_material (Materials S) "Air" a) \/
              (exists a b, Materials (fst r)
                           = set_material (set_material (Materials S) "Air" a) "Au" b))).
  { intros r ->. cbn. split; [tauto | right; right; do 2 eexists; reflexivity]. }
  apply G.
  destruct (GetPowerFlux _ "Inc" zero) as [| [forw_1 back_1]]; [reflexivity |].
  destruct (GetPowerFlux _ "Sub" zero) as [| [forw_2 back_2]]; [reflexivity |].
  destruct (c_quot back_1 forw_1) as [| qr]; [reflexivity |].
  destruct (c_quot forw_2 forw_1) as [| qt]; reflexivity.
Qed.

Lemma rta_agree_result (wl : float) (S0 S : Simulation) :
  agree S0 S -> snd (rta wl S) = snd (rta wl S0).
Proof.
  intros ((HL & HN & HY & HR & HO) & HM).
  unfold S4Spectra.rta, andthen, pure, update, query. cbn.
  destruct (getitem light "theta") as [| th]; [reflexivity |].
  destruct (getitem light "phi") as [| ph]; [reflexivity |].
  destruct (as_float th) as [| theta]; [reflexivity |].
  destruct (as_float ph) as [| phi]; [reflexivity |].
  destruct (getitem struct "materials_stack") as [| ms]; [reflexivity |].
  destruct (db_to_eps wl ms) as [| e_list]; [reflexivity |].
  destruct (index e_list 0) as [| e0]; [reflexivity |].
  destruct (index e_list 1) as [| e1]; [reflexivity |].
  match goal with
  | |- snd (match GetPowerFlux ?X _ _ with _ => _ end)
       = snd (match GetPowerFlux ?Y _ _ with _ => _ end) =>
      assert (E : X = Y)
  end.
  { unfold SetMaterial, SetFrequency, SetExcitationPlanewave. cbn.
    rewrite HL, HN, HY, HR, HO, HM. reflexivity. }
  rewrite E.
  destruct (GetPowerFlux _ "Inc" zero) as [| [forw_1 back_1]]; [reflexivity |].
  destruct (GetPowerFlux _ "Sub" zero) as [| [forw_2 back_2]]; [reflexivity |].
  destruct (c_quot back_1 forw_1) as [| qr]; [reflexivity |].
  destruct (c_quot forw_2 forw_1) as [| qt]; reflexivity.
Qed.

Lemma rta_agree_state (wl : float) (S0 S : Simulation) :
  agree S0 S -> agree S0 (fst (rta wl S)).
Proof.
  intros ((HL & HN & HY & HR & HO) & HM).
  destruct (rta_state wl S) as ((GL & GN & GY & GR & GO) & HMat).
  split; [unfold same_geometry; repeat split; congruence |].
  intros a b. destruct HMat as [-> | [(x & ->) | (x & y & ->)]].
  - apply HM.
  - rewrite set_material_twice. apply HM.
  - rewrite set_material_rounds. apply HM.
Qed.

End Facts.

End SolverObject.

Module Failures.

Import F64 Py Np Emu EmuSweep Datetime ResultFacts PoolFacts NpFacts EmuFacts
  SweepFacts SweepTotal AxisFacts PoolRuns SolverObject.

Section Facts.

Variable Simmo : Type.
Variable calc_modes : layer -> Light -> result Simmo.
Variables substrate superstrate NDs : layer.

(** The pool hands over the exception of the first task that failed,
    in input order. *)
Lemma solve_all_fails (sched : list nat) (pre post : list Light) (l : Light) (e : exn) :
  (forall p, In p pre ->
     exists st, simulate_stack calc_modes substrate superstrate NDs p = ret st) ->
  simulate_stack calc_modes substrate superstrate NDs l = inl e ->
  solve_all calc_modes substrate superstrate NDs sched (pre ++ l :: post) = inl e.
Proof.
  intros Hpre Hl. unfold solve_all. rewrite executor_map_stateless.
  now apply mapM_first_failure.
Qed.

End Facts.

(** So does the pool of the S4 driver, whose workers keep their solver
    object from one call of [rta] to the next. *)
Lemma s4_spectra_fails (light struct : dict)
  (db_to_eps : float -> pyval -> result (list S4.complex))
  (GetPowerFlux : S4.Simulation -> text -> float -> result (S4.complex * S4.complex))
  (hypot : float -> float -> float) (S : S4.Simulation) (sched : list nat)
  (pre post : array) (wl : float) (e : exn) :
  (forall w, In w pre ->
     exists t, snd (S4Spectra.rta light struct db_to_eps GetPowerFlux hypot w S) = ret t) ->
  snd (S4Spectra.rta light struct db_to_eps GetPowerFlux hypot wl S) = inl e ->
  S4Spectra.spectra light struct db_to_eps GetPowerFlux hypot S sched (pre ++ wl :: post)
  = inl e.
Proof.
  intros Hpre Hwl. unfold S4Spectra.spectra.
  rewrite (executor_map_invariant S4.Simulation float (float * float * float)%type
             (fun S wl => S4Spectra.rta light struct db_to_eps GetPowerFlux hypot wl S)
             (agree S)
             (fun wl => snd (S4Spectra.rta light struct db_to_eps GetPowerFlux hypot wl S))).
  - rewrite (mapM_first_failure _ pre post wl e Hpre Hwl). reflexivity.
  - intros s w Hs. split.
    + now apply rta_agree_state.
    + now apply rta_agree_result.
  - apply agree_refl.
Qed.

(** C7, as the code has it.  When a solver call raises, the exception
    of the first failed sample, in input order, goes through the
    driver unhandled and ends the run.  In the two spectra notebooks
    nothing is saved.  In the wavelength-angle sweep nothing is passed
    to [f.write] for the failing angle or a later one, and the file is
    left as it was, open when it was open: the rows of the angles
    done before have been passed to [f.write], and the file on disk
    holds those of them that the io library has flushed by then. *)
Theorem worker_failure_aborts :
  (forall (light struct emu : dict) obj_repr (Simmo : Type) calc_modes calc_scat
          (fs : Xr.disk) (now : datetime) (sched : list nat)
          (wls : array) (ls : layer * layer * layer)
          (pre post : list Light) (l : Light) (e : exn),
      EmuSpectra.v_wl light = ret wls ->
      EmuSpectra.light_list light wls = ret (pre ++ l :: post) ->
      init_layers struct emu mats = ret ls ->
      (forall p, In p pre ->
         exists st, simulate_stack calc_modes (fst (fst ls)) (snd (fst ls)) (snd ls) p
                    = ret st) ->
      simulate_stack calc_modes (fst (fst ls)) (snd (fst ls)) (snd ls) l = inl e ->
      EmuSpectra.notebook light struct emu obj_repr Simmo calc_modes calc_scat
        fs now sched = inl e)
  /\
  (forall (light struct s4 : dict) db_to_eps GetPowerFlux hypot
          (fs : Xr.disk) (now : datetime) (sched : list nat) (S : S4.Simulation)
          (pre post : array) (wl : float) (e : exn),
      S4Spectra.v_wl light = ret (pre ++ wl :: post) ->
      S4Spectra.build light struct s4 db_to_eps = ret S ->
      (forall w, In w pre ->
         exists t, snd (S4Spectra.rta light struct db_to_eps GetPowerFlux hypot w S)
                   = ret t) ->
      snd (S4Spectra.rta light struct db_to_eps GetPowerFlux hypot wl S) = inl e ->
      S4Spectra.notebook light struct s4 db_to_eps GetPowerFlux hypot fs now sched
      = inl e)
  /\
  (forall (light : dict) (Simmo : Type) calc_modes calc_scat
          (substrate superstrate NDs : layer) (sched : float -> list nat)
          (wls : array) (f0 f1 : file) (done rest : list float) (th : float)
          (pre post : list Light) (l : Light) (e : exn),
      v_theta light = ret (done ++ th :: rest) ->
      for_each (one_angle light Simmo calc_modes calc_scat substrate superstrate NDs
                  sched wls) f0 done = (f1, ret tt) ->
      light_list light th wls = ret (pre ++ l :: post) ->
      (forall p, In p pre ->
         exists st, simulate_stack calc_modes substrate superstrate NDs p = ret st) ->
      simulate_stack calc_modes substrate superstrate NDs l = inl e ->
      sweep light Simmo calc_modes calc_scat substrate superstrate NDs sched wls f0
      = (f1, inl e) /\
      List.length (data_rows f1)
      = (List.length (data_rows f0) + List.length done * List.length wls)%nat /\
      closed f1 = closed f0 /\
      (closed f0 = false ->
       forall flushed,
         on_disk flushed f1 = firstn (flushed (written f1)) (written f1))).
Proof.
  split; [| split].
  - intros light struct emu obj_repr Simmo calc_modes calc_scat fs now sched wls ls
           pre post l e Hwl Hll Hls Hpre Hl.
    unfold EmuSpectra.notebook. rewrite Hwl. cbn [bind ret]. rewrite Hll. cbn [bind ret].
    rewrite Hls. destruct ls as [[sub sup] nds]. cbn [bind ret fst snd] in *.
    unfold EmuSpectra.spectra.
    rewrite (solve_all_fails Simmo calc_modes sub sup nds sched pre post l e Hpre Hl).
    reflexivity.
  - intros light struct s4 db_to_eps GetPowerFlux hypot fs now sched S pre post wl e
           Hwl Hb Hpre Hfail.
    unfold S4Spectra.notebook. rewrite Hwl. cbn [bind ret]. rewrite Hb. cbn [bind ret].
    rewrite (s4_spectra_fails light struct db_to_eps GetPowerFlux hypot S sched
               pre post wl e Hpre Hfail).
    reflexivity.
  - intros light Simmo calc_modes calc_scat sub sup nds sched wls f0 f1 done rest th
           pre post l e Hth Hdone Hll Hpre Hl.
    assert (Hc : angle_columns light Simmo calc_modes calc_scat sub sup nds
                   (sched th) wls th = inl e).
    { unfold angle_columns. rewrite Hll. cbn [bind ret].
      now rewrite (solve_all_fails Simmo calc_modes sub sup nds (sched th) pre post l e
                     Hpre Hl). }
    assert (C : closed f1 = closed f0).
    { apply angle_loop_rows in Hdone. destruct Hdone as (? & _ & _ & _ & _ & C).
      exact C. }
    split; [| split; [| split]].
    + unfold sweep. rewrite Hth. unfold ret at 1. cbv iota beta.
      rewrite for_each_app, Hdone. cbn [for_each].
      unfold one_angle at 1. now rewrite Hc.
    + apply angle_loop_rows in Hdone. now apply data_rows_grown in Hdone.
    + exact C.
    + intros H0 flushed. unfold on_disk. now rewrite C, H0.
Qed.

(** The first angle is solved and written, the second one fails. *)
Lemma worker_failure_aborts_witness :
  exists f1,
    sweep Example.sweep_light float Example.calc_modes_at_normal Example.calc_scat
      (Film {| tf_period := VNone; tf_period_y := VNone; tf_height_nm := VNone;
               tf_material := "Air"; tf_loss := VNone |})
      (Film {| tf_period := VNone; tf_period_y := VNone; tf_height_nm := VNone;
               tf_material := "Air"; tf_loss := VNone |})
      (Film {| tf_period := VNone; tf_period_y := VNone; tf_height_nm := VNone;
               tf_material := "Au"; tf_loss := VNone |})
      (fun _ => Example.sched) [dec 400 0; dec 800 0] (open_w "table.out")
    = (f1, inl (SolverError 1)) /\
    List.length (data_rows f1)
    = (List.length (data_rows (open_w "table.out"))
       + List.length [dec 0 (-1)] * List.length [dec 400 0; dec 800 0])%nat /\
    closed f1 = closed (open_w "table.out") /\
    (closed (open_w "table.out") = false ->
     forall flushed,
       on_disk flushed f1 = firstn (flushed (written f1)) (written f1)).
Proof.
  destruct (for_each
              (one_angle Example.sweep_light float Example.calc_modes_at_normal
                 Example.calc_scat
                 (Film {| tf_period := VNone; tf_period_y := VNone;
                          tf_height_nm := VNone; tf_material := "Air";
                          tf_loss := VNone |})
                 (Film {| tf_period := VNone; tf_period_y := VNone;
                          tf_height_nm := VNone; tf_material := "Air";
                          tf_loss := VNone |})
                 (Film {| tf_period := VNone; tf_period_y := VNone;
                          tf_height_nm := VNone; tf_material := "Au";
                          tf_loss := VNone |})
                 (fun _ => Example.sched) [dec 400 0; dec 800 0])
              (open_w "table.out") [dec 0 (-1)]) as [f1 r] eqn:E.
  exists f1.
  refine (proj2 (proj2 worker_failure_aborts) Example.sweep_light float
            Example.calc_modes_at_normal Example.calc_scat _ _ _
            (fun _ => Example.sched) [dec 400 0; dec 800 0] (open_w "table.out") f1
            [dec 0 (-1)] [] (dec 10 0)
            []
            [{| wl_nm := dec 800 0; max_order_PWs := VInt 2; theta := VFloat (dec 10 0);
                phi := VFloat (dec 0 (-1)) |}]
            {| wl_nm := dec 400 0; max_order_PWs := VInt 2; theta := VFloat (dec 10 0);
               phi := VFloat (dec 0 (-1)) |}
            (SolverError 1) _ _ _ _ _).
  - vm_compute. reflexivity.
  - rewrite E. f_equal. vm_compute in E. now injection E as _ <-.
  - vm_compute. reflexivity.
  - intros p [].
  - vm_compute. reflexivity.
Defined.

(** The claim as the specification words it fails on the sweep.  With
    fifty wavelengths the second angle fails and the run ends with
    that exception; the file was never closed, and an io library that
    holds back 8192 characters has by then written the header and 43
    of the 50 rows of the first angle to the disk. *)
Lemma partial_rows_delivered :
  exists f,
    EmuSweep.notebook Example.long_sweep_light EmuSweep.Inputs.struct EmuSweep.Inputs.emu
      float Example.calc_modes_at_normal Example.calc_scat Example.now
      (fun _ => Example.sched) = (Some f, inl (SolverError 1)) /\
    closed f = false /\
    List.length (data_rows f) = 50%nat /\
    List.length (filter is_data_row (on_disk Example.written_through f)) = 43%nat.
Proof. eexists. vm_compute. repeat split. Qed.

End Failures.

Module Scheduling.

Import F64 Py Np S4 S4Spectra Emu MaterialFacts PoolRuns SolverObject PoolFacts.

(** The S4 spectra do not depend on which worker computes which
    wavelength.  Each worker changes its own copy of [S] from call to
    call, but [rta] sets the wave, the frequency and the two materials
    before it asks for the fluxes: the driver returns what a loop of
    [rta] on fresh copies of [S] returns, and raises what the first
    failing wavelength of that loop raises. *)
Theorem s4_spectra_schedule_free
  (light struct : dict) (db_to_eps : float -> pyval -> result (list complex))
  (GetPowerFlux : Simulation -> text -> float -> result (complex * complex))
  (hypot : float -> float -> float) (S : Simulation) (sched : list nat) (wls : array) :
  S4Spectra.spectra light struct db_to_eps GetPowerFlux hypot S sched wls
  = (rows <- mapM (fun wl => snd (S4Spectra.rta light struct db_to_eps GetPowerFlux
                                    hypot wl S)) wls ;;
     unpack3 rows).
Proof.
  unfold S4Spectra.spectra.
  rewrite (executor_map_invariant Simulation float (float * float * float)%type
             (fun S wl => S4Spectra.rta light struct db_to_eps GetPowerFlux hypot wl S)
             (agree S)
             (fun wl => snd (S4Spectra.rta light struct db_to_eps GetPowerFlux hypot wl S))).
  - reflexivity.
  - intros s wl Hs. split.
    + now apply rta_agree_state.
    + now apply rta_agree_result.
  - apply agree_refl.
Qed.

(** The stacks of the EMUstack notebooks do not depend on which worker
    solves which light: [list(executor.map(simulate_stack, light_list))]
    is the list a loop of [simulate_stack] builds, and it raises what
    the first failing light of that loop raises. *)
Theorem solve_all_schedule_free
  (Simmo : Type) (calc_modes : layer -> Light -> result Simmo)
  (substrate superstrate NDs : layer) (sched : list nat) (lights : list Light) :
  solve_all calc_modes substrate superstrate NDs sched lights
  = mapM (simulate_stack calc_modes substrate superstrate NDs) lights.
Proof. unfold solve_all. apply executor_map_stateless. Qed.

End Scheduling.

Module SolverInvariant.

Import F64 Py Np S4 S4Spectra ResultFacts MaterialFacts SolverObject.

Lemma well_formed_update (S S' : Simulation) :
  same_geometry S S' ->
  (forall k, In k (map fst (Materials S)) -> In k (map fst (Materials S'))) ->
  well_formed S -> well_formed S'.
Proof.
  intros (_ & _ & HY & HR & _) HM (WL & WR). split.
  - intros n t m H. rewrite HY in H. eauto.
  - intros l m c r H. rewrite HR in H. rewrite HY.
    destruct (WR l m c r H). auto.
Qed.

(** The solver object stays well formed.  The cell that builds [S]
    leaves every layer and region with a defined material and every
    region in an existing layer; a call of [rta], whether it returns
    or raises, changes neither the lattice, the layers, the regions
    nor the options, removes no material, and so keeps [S] well
    formed. *)
Theorem solver_object_stays_well_formed
  (light struct s4 : dict) (db_to_eps : float -> pyval -> result (list complex))
  (GetPowerFlux : Simulation -> text -> float -> result (complex * complex))
  (hypot : float -> float -> float) :
  (forall S, build light struct s4 db_to_eps = ret S -> well_formed S) /\
  (forall wl S,
      same_geometry S
        (fst (S4Spectra.rta light struct db_to_eps GetPowerFlux hypot wl S)) /\
      (forall k, In k (map fst (Materials S)) ->
         In k (map fst (Materials
                 (fst (S4Spectra.rta light struct db_to_eps GetPowerFlux hypot wl S))))) /\
      (well_formed S ->
       well_formed (fst (S4Spectra.rta light struct db_to_eps GetPowerFlux hypot wl S)))).
Proof.
  split.
  - intros S H. unfold build in H.
    repeat (apply bind_inr in H as (? & _ & H)).
    injection H as <-. split; cbn.
    + intros n t m [E | [E | [E | []]]]; injection E as <- <- <-; auto.
    + intros l m c r [E | []]. injection E as <- <- <- <-. auto.
  - intros wl S.
    destruct (rta_state light struct db_to_eps GetPowerFlux hypot wl S) as (G & M).
    assert (K : forall k, In k (map fst (Materials S)) ->
                  In k (map fst (Materials
                          (fst (S4Spectra.rta light struct db_to_eps GetPowerFlux
                                  hypot wl S))))).
    { intros k Hk. destruct M as [-> | [(a & ->) | (a & b & ->)]];
        [assumption | |]; repeat (apply set_material_keys; right); assumption. }
    split; [assumption |]. split; [assumption |].
    now apply well_formed_update.
Qed.

End SolverInvariant.

Module Quotient.

Import F64 Py Np S4 S4Spectra ResultFacts.

(** Python's complex division raises exactly when both parts of the
    divisor are zero, and raises nothing else. *)
Lemma c_quot_cases (a b : complex) :
  if both_zero b then c_quot a b = raise ZeroDivisionError
  else exists q, c_quot a b = ret q.
Proof.
  destruct a as [ar ai], b as [br bi]. unfold both_zero, c_quot. cbn [fst snd].
  destruct br as [s | s | | s m e], bi as [t | t | | t n f];
    try destruct s; try destruct t; cbn;
    try reflexivity; try (eexists; reflexivity);
    repeat match goal with
           | |- context [if ?c then _ else _] => destruct c
           end;
    try reflexivity; try (eexists; reflexivity).
Qed.

(** The division by the incident flux.  When the look-ups and the two
    flux queries of [rta] succeed, [rta] raises [ZeroDivisionError] if
    the forward flux in the incident layer is zero, and otherwise
    returns a triple whose absorption is [1 - R - T]: no NaN stands
    for a missing incident flux. *)
Theorem rta_zero_flux
  (light struct : dict) (db_to_eps : float -> pyval -> result (list complex))
  (GetPowerFlux : Simulation -> text -> float -> result (complex * complex))
  (hypot : float -> float -> float) (wl : float) (S : Simulation)
  (th ph ms : pyval) (theta phi : float) (e_list : list complex) (e0 e1 : complex)
  (forw_1 back_1 forw_2 back_2 : complex) :
  getitem light "theta" = ret th -> getitem light "phi" = ret ph ->
  as_float th = ret theta -> as_float ph = ret phi ->
  getitem struct "materials_stack" = ret ms -> db_to_eps wl ms = ret e_list ->
  index e_list 0 = ret e0 -> index e_list 1 = ret e1 ->
  GetPowerFlux (flux_state S (theta, phi) wl e0 e1) "Inc" zero = ret (forw_1, back_1) ->
  GetPowerFlux (flux_state S (theta, phi) wl e0 e1) "Sub" zero = ret (forw_2, back_2) ->
  if both_zero forw_1
  then snd (S4Spectra.rta light struct db_to_eps GetPowerFlux hypot wl S)
       = raise ZeroDivisionError
  else exists R T,
      snd (S4Spectra.rta light struct db_to_eps GetPowerFlux hypot wl S)
      = ret (R, T, sub (sub one R) T).
Proof.
  intros H1 H2 H3 H4 H5 H6 H7 H8 H9 H10.
  unfold flux_state in H9, H10.
  unfold S4Spectra.rta, andthen, pure, update, query.
  unfold ret in H1, H2, H3, H4, H5, H6, H7, H8, H9, H10.
  rewrite H1, H2. cbv beta iota. rewrite H3, H4. unfold ret at 1 2. cbv beta iota.
  rewrite H5. cbv beta iota. rewrite H6. cbv beta iota.
  rewrite H7. unfold ret at 1. cbv beta iota. rewrite H8. unfold ret at 1. cbv beta iota.
  rewrite H9, H10. cbv beta iota.
  pose proof (c_quot_cases back_1 forw_1) as Q1.
  pose proof (c_quot_cases forw_2 forw_1) as Q2.
  destruct (both_zero forw_1).
  - rewrite Q1. reflexivity.
  - destruct Q1 as (qr & ->), Q2 as (qt & ->). cbn. eauto.
Qed.

Lemma rta_zero_flux_witness :
  snd (S4Spectra.rta Example.s4_light S4Spectra.Inputs.struct Example.db_to_eps
         ExampleFlux.GetPowerFlux_dark Example.hypot (dec 400 0)
         (New ((dec 600 0, zero), (zero, dec 600 0)) 100))
  = raise ZeroDivisionError.
Proof.
  apply (rta_zero_flux Example.s4_light S4Spectra.Inputs.struct Example.db_to_eps
           ExampleFlux.GetPowerFlux_dark Example.hypot (dec 400 0)
           (New ((dec 600 0, zero), (zero, dec 600 0)) 100)
           (VFloat (dec 0 (-1))) (VFloat (dec 0 (-1)))
           (VList [VStr "e_vacuum"; VStr "e_au"; VStr "e_vacuum"])
           (dec 0 (-1)) (dec 0 (-1))
           [(one, zero); (one, zero); (one, zero)] (one, zero) (one, zero)
           (zero, zero) (zero, zero) (zero, zero) (zero, zero));
    reflexivity.
Defined.

End Quotient.

Module NameFacts.

Import F64 Py Datetime Naming Writers NamingFacts TextFacts CharFacts ResultFacts.

Lemma append_inj_l (a b c : string) : (a ++ b = a ++ c)%string -> b = c.
Proof. induction a as [| x a IH]; cbn; [auto |]. intros [= H]. auto. Qed.

Lemma digit_char_inj (a b : Z) :
  0 <= a < 10 -> 0 <= b < 10 -> digit_char a = digit_char b -> a = b.
Proof.
  intros Ha Hb H. apply (f_equal ord) in H.
  rewrite !ord_digit_char in H by assumption. lia.
Qed.

Lemma two_digits_inj (a b : Z) (r s : string) :
  0 <= a < 100 -> 0 <= b < 100 ->
  (two_digits a ++ r = two_digits b ++ s)%string -> a = b /\ r = s.
Proof.
  intros Ha Hb. unfold two_digits. cbn [append]. intros [= H1 H2 H3].
  apply digit_char_inj in H1;
    [| split; [apply Z.div_pos; lia | apply Z.div_lt_upper_bound; lia] ..].
  apply digit_char_inj in H2; [| apply Z.mod_pos_bound; lia ..].
  split; [| assumption].
  rewrite (Z.div_mod a 10), (Z.div_mod b 10) by lia. congruence.
Qed.

Lemma stamp_inj (t u : datetime) :
  valid t -> valid u ->
  (DDMMYY_HHMMSS t = DDMMYY_HHMMSS u <-> stamp_fields t = stamp_fields u).
Proof.
  intros (Hy & Hm & Hd & Hh & Hmi & Hs & _) (Gy & Gm & Gd & Gh & Gmi & Gs & _).
  assert (Yt : 0 <= year t mod 100 < 100) by (apply Z.mod_pos_bound; lia).
  assert (Yu : 0 <= year u mod 100 < 100) by (apply Z.mod_pos_bound; lia).
  unfold DDMMYY_HHMMSS, stamp_fields. split.
  - intros H.
    apply two_digits_inj in H as (-> & H); [| lia ..].
    apply two_digits_inj in H as (-> & H); [| lia ..].
    apply two_digits_inj in H as (-> & H); [| lia ..].
    apply (append_inj_l "_") in H.
    apply two_digits_inj in H as (-> & H); [| lia ..].
    apply two_digits_inj in H as (-> & H); [| lia ..].
    rewrite <- (append_nil_r (two_digits (second t))) in H.
    rewrite <- (append_nil_r (two_digits (second u))) in H.
    apply two_digits_inj in H as (-> & _); [| lia ..].
    reflexivity.
  - intros [= -> -> -> -> -> ->]. reflexivity.
Qed.

(** A name is the text that depends on [struct], then the stamp. *)
Lemma out_filename_split (w : writer) (struct : dict) (t : datetime) (name : text) :
  out_filename w struct t = ret name ->
  exists base, name = (base ++ timestamp t)%string /\
               forall u, out_filename w struct u = ret (base ++ timestamp u)%string.
Proof.
  intros H.
  assert (G : Naming.out_filename (prefix w) struct t = ret name) by (destruct w; exact H).
  assert (K : forall u, out_filename w struct u = Naming.out_filename (prefix w) struct u)
    by (destruct w; reflexivity).
  unfold Naming.out_filename in G.
  apply bind_inr in G as (shape & Hs & G). apply bind_inr in G as (s & Hc & G).
  apply bind_inr in G as (px & Hx & G). apply bind_inr in G as (py & Hy & G).
  apply bind_inr in G as (r & Hr & G). apply bind_inr in G as (h & Hh & G).
  injection G as <-.
  exists (s ++ "_px" ++ str px ++ "_py" ++ str py ++ "_r" ++ str r ++ "_h" ++ str h
            ++ "_")%string.
  split.
  - now rewrite !append_assoc.
  - intros u. rewrite K. unfold Naming.out_filename.
    rewrite Hs. cbn [bind ret]. rewrite Hc. cbn [bind ret].
    rewrite Hx, Hy, Hr, Hh. cbn [bind ret]. now rewrite !append_assoc.
Qed.

End NameFacts.

Module NameClashes.

Import F64 Py Datetime Naming Writers NamingFacts TextFacts ResultFacts NameFacts.

(** Two runs of a writer on the same [struct] get the same file name
    exactly when their instants have the same day, month, year within
    the century, hour, minute and second: a later second always gives
    a new name, and the same second a hundred years later the old
    one. *)
Theorem names_clash_iff_same_stamp
  (w : writer) (struct : dict) (t u : datetime) (name_t name_u : text) :
  valid t -> valid u ->
  out_filename w struct t = ret name_t ->
  out_filename w struct u = ret name_u ->
  (name_t = name_u <-> stamp_fields t = stamp_fields u).
Proof.
  intros Vt Vu Ht Hu.
  destruct (out_filename_split w struct t name_t Ht) as (base & -> & Hb).
  rewrite Hb in Hu. injection Hu as <-.
  rewrite !timestamp_layout by assumption.
  rewrite <- (stamp_inj t u Vt Vu). split.
  - apply append_inj_l.
  - now intros ->.
Qed.

Lemma names_clash_iff_same_stamp_witness :
  ("EMU_AuNdArrayLF_circle_px600.0_py600.0_r100.0_h100.0_180222_175845"
   = "EMU_AuNdArrayLF_circle_px600.0_py600.0_r100.0_h100.0_180222_175845"
   <-> stamp_fields Example.now
       = stamp_fields {| year := 2122; month := 2; day := 18; hour := 17;
                         minute := 58; second := 45; microsecond := 7 |}).
Proof.
  apply (names_clash_iff_same_stamp EMU_LF EmuLF.Inputs.struct Example.now
           {| year := 2122; month := 2; day := 18; hour := 17;
              minute := 58; second := 45; microsecond := 7 |}).
  - unfold valid. cbn. lia.
  - unfold valid. cbn. lia.
  - reflexivity.
  - reflexivity.
Defined.

Lemma getitem_error (d : dict) (k : text) (e : exn) :
  getitem d k = raise e -> e = KeyError k.
Proof.
  induction d as [| [k' v] d IH]; cbn.
  - now intros [= <-].
  - destruct (String.eqb k' k); [discriminate | assumption].
Qed.

(** How building a file name fails.  The only exceptions are the
    [KeyError] of the first of the five geometry keys that [struct]
    lacks, in the order the expression reads them, and a [TypeError]
    when the shape is there but is no string. *)
Theorem out_filename_errors
  (w : writer) (struct : dict) (now : datetime) (e : exn) :
  out_filename w struct now = raise e ->
  (exists v, getitem struct "inc_shape" = ret v /\ (forall s, v <> VStr s)
             /\ e = TypeError) \/
  (exists pre k post,
      geometry_keys = pre ++ k :: post /\ e = KeyError k /\
      getitem struct k = raise (KeyError k) /\
      forall k', In k' pre -> exists v, getitem struct k' = ret v).
Proof.
  intros H.
  assert (G : Naming.out_filename (prefix w) struct now = raise e) by (destruct w; exact H).
  clear H. unfold Naming.out_filename, geometry_keys in *.
  destruct (getitem struct "inc_shape") as [e0 | shape] eqn:Hs.
  { right. pose proof (getitem_error _ _ _ Hs) as ->. injection G as <-.
    exists [], "inc_shape", ["nd_period_x"; "nd_period_y"; "nd_radius"; "nd_height"].
    split; [reflexivity |]. split; [reflexivity |]. split; [assumption |].
    intros k' []. }
  cbn [bind] in G.
  destruct shape as [| b | z | x | s | vs].
  all: try (injection G as <-; left; eexists; split; [reflexivity |];
            split; [discriminate | reflexivity]).
  cbn [concat_str bind ret] in G.
  destruct (getitem struct "nd_period_x") as [e0 | px] eqn:Hx.
  { right. pose proof (getitem_error _ _ _ Hx) as ->. injection G as <-.
    exists ["inc_shape"], "nd_period_x", ["nd_period_y"; "nd_radius"; "nd_height"].
    split; [reflexivity |]. split; [reflexivity |]. split; [assumption |].
    intros k' [<- | []]; eauto. }
  cbn [bind] in G.
  destruct (getitem struct "nd_period_y") as [e0 | py] eqn:Hy.
  { right. pose proof (getitem_error _ _ _ Hy) as ->. injection G as <-.
    exists ["inc_shape"; "nd_period_x"], "nd_period_y", ["nd_radius"; "nd_height"].
    split; [reflexivity |]. split; [reflexivity |]. split; [assumption |].
    intros k' [<- | [<- | []]]; eauto. }
  cbn [bind] in G.
  destruct (getitem struct "nd_radius") as [e0 | r] eqn:Hr.
  { right. pose proof (getitem_error _ _ _ Hr) as ->. injection G as <-.
    exists ["inc_shape"; "nd_period_x"; "nd_period_y"], "nd_radius", ["nd_height"].
    split; [reflexivity |]. split; [reflexivity |]. split; [assumption |].
    intros k' [<- | [<- | [<- | []]]]; eauto. }
  cbn [bind] in G.
  destruct (getitem struct "nd_height") as [e0 | h] eqn:Hh.
  { right. pose proof (getitem_error _ _ _ Hh) as ->. injection G as <-.
    exists ["inc_shape"; "nd_period_x"; "nd_period_y"; "nd_radius"], "nd_height", [].
    split; [reflexivity |]. split; [reflexivity |]. split; [assumption |].
    intros k' [<- | [<- | [<- | [<- | []]]]]; eauto. }
  discriminate G.
Qed.

Lemma out_filename_errors_witness :
  (exists v, getitem (setitem EmuLF.Inputs.struct "inc_shape" (VInt 0)) "inc_shape" = ret v
             /\ (forall s, v <> VStr s) /\ TypeError = TypeError) \/
  (exists pre k post,
      geometry_keys = pre ++ k :: post /\ TypeError = KeyError k /\
      getitem (setitem EmuLF.Inputs.struct "inc_shape" (VInt 0)) k = raise (KeyError k) /\
      forall k', In k' pre ->
        exists v, getitem (setitem EmuLF.Inputs.struct "inc_shape" (VInt 0)) k' = ret v).
Proof.
  apply (out_filename_errors EMU_LF (setitem EmuLF.Inputs.struct "inc_shape" (VInt 0))
           Example.now TypeError).
  reflexivity.
Defined.

End NameClashes.

Module EmptyAxis.

Import F64 Py Np Emu Datetime ResultFacts PoolFacts.

Lemma linspace_none (start stop : float) : linspace start stop 0 = ret [].
Proof. reflexivity. Qed.

(** An empty wavelength axis is refused by the EMUstack spectra
    notebook.  With [n_wl = 0] the layers are still initialised, no
    light is solved, and [rta_spectra] raises [IndexError] at
    [stacks_list[0]]: nothing is saved. *)
Theorem emu_notebook_refuses_empty_axis
  (light struct emu : dict) (obj_repr : material -> text) (Simmo : Type)
  (calc_modes : layer -> Light -> result Simmo)
  (calc_scat : Stack Simmo -> text -> result Scat)
  (fs : Xr.disk) (now : datetime) (sched : list nat)
  (a b : pyval) (start stop : float) (ls : layer * layer * layer) (pol : text) :
  getitem light "wl_min" = ret a -> getitem light "wl_max" = ret b ->
  getitem light "n_wl" = ret (VInt 0) ->
  as_float a = ret start -> as_float b = ret stop ->
  init_layers struct emu mats = ret ls ->
  getitem light "pol" = ret (VStr pol) ->
  EmuSpectra.notebook light struct emu obj_repr Simmo calc_modes calc_scat fs now sched
  = raise IndexError.
Proof.
  intros Ha Hb Hn Hs Ht Hls Hp.
  unfold EmuSpectra.notebook, EmuSpectra.v_wl.
  rewrite Ha, Hb, Hn. cbn [bind ret as_index]. rewrite Hs, Ht. cbn [bind ret].
  rewrite linspace_none. cbn [bind ret EmuSpectra.light_list mapM].
  rewrite Hls. destruct ls as [[sub sup] nds]. cbn [bind ret].
  unfold EmuSpectra.spectra, solve_all. rewrite executor_map_stateless.
  cbn [mapM bind ret]. rewrite Hp. reflexivity.
Qed.

Lemma emu_notebook_refuses_empty_axis_witness :
  EmuSpectra.notebook (setitem EmuSpectra.Inputs.light "n_wl" (VInt 0))
    EmuSpectra.Inputs.struct EmuSpectra.Inputs.emu (fun m => m) float
    Example.calc_modes Example.calc_scat [] Example.now Example.sched
  = raise IndexError.
Proof.
  destruct (init_layers EmuSpectra.Inputs.struct EmuSpectra.Inputs.emu mats)
    as [e | ls] eqn:E; [discriminate |].
  apply (emu_notebook_refuses_empty_axis
           (setitem EmuSpectra.Inputs.light "n_wl" (VInt 0))
           EmuSpectra.Inputs.struct EmuSpectra.Inputs.emu (fun m => m) float
           Example.calc_modes Example.calc_scat [] Example.now Example.sched
           (VFloat (dec 4000 (-1))) (VFloat (dec 8000 (-1)))
           (dec 4000 (-1)) (dec 8000 (-1)) ls "TM"); try reflexivity.
  exact E.
Defined.

(** An empty wavelength axis is refused by the S4 spectra notebook.
    With [n_wl = 0] the solver object is still built, [rta] is never
    called, and unpacking the three columns of an empty array raises
    [ValueError]: nothing is saved. *)
Theorem s4_notebook_refuses_empty_axis
  (light struct s4 : dict) (db_to_eps : float -> pyval -> result (list S4.complex))
  (GetPowerFlux : S4.Simulation -> text -> float -> result (S4.complex * S4.complex))
  (hypot : float -> float -> float)
  (fs : Xr.disk) (now : datetime) (sched : list nat)
  (a b : pyval) (start stop : float) (S : S4.Simulation) :
  getitem light "wl_min" = ret a -> getitem light "wl_max" = ret b ->
  getitem light "n_wl" = ret (VInt 0) ->
  as_float a = ret start -> as_float b = ret stop ->
  S4Spectra.build light struct s4 db_to_eps = ret S ->
  S4Spectra.notebook light struct s4 db_to_eps GetPowerFlux hypot fs now sched
  = raise ValueError.
Proof.
  intros Ha Hb Hn Hs Ht HS.
  unfold S4Spectra.notebook, S4Spectra.v_wl.
  rewrite Ha, Hb, Hn. cbn [bind ret as_index]. rewrite Hs, Ht. cbn [bind ret].
  rewrite linspace_none. cbn [bind ret]. rewrite HS. reflexivity.
Qed.

Lemma s4_notebook_refuses_empty_axis_witness :
  S4Spectra.notebook (setitem S4Spectra.Inputs.light "n_wl" (VInt 0))
    S4Spectra.Inputs.struct S4Spectra.Inputs.s4 Example.db_to_eps
    Example.GetPowerFlux Example.hypot [] Example.now Example.sched
  = raise ValueError.
Proof.
  destruct (S4Spectra.build (setitem S4Spectra.Inputs.light "n_wl" (VInt 0))
              S4Spectra.Inputs.struct S4Spectra.Inputs.s4 Example.db_to_eps)
    as [e | S] eqn:E; [vm_compute in E; discriminate E |].
  apply (s4_notebook_refuses_empty_axis
           (setitem S4Spectra.Inputs.light "n_wl" (VInt 0))
           S4Spectra.Inputs.struct S4Spectra.Inputs.s4 Example.db_to_eps
           Example.GetPowerFlux Example.hypot [] Example.now Example.sched
           (VFloat (dec 4000 (-1))) (VFloat (dec 8000 (-1)))
           (dec 4000 (-1)) (dec 8000 (-1)) S); try reflexivity.
  exact E.
Defined.

End EmptyAxis.

Module TableLayout.

Import F64 Py Np Emu EmuSweep Datetime ResultFacts PoolFacts SweepFacts.

Lemma appended_refl (f : file) : appended f f [].
Proof. unfold appended. now rewrite app_nil_r. Qed.

Lemma appended_trans (f g h : file) (r1 r2 : list text) :
  appended f g r1 -> appended g h r2 -> appended f h (r1 ++ r2).
Proof.
  intros (W1 & P1 & C1) (W2 & P2 & C2). unfold appended.
  rewrite W2, W1, <- app_assoc. repeat split; congruence.
Qed.

Section Facts.

Variables light struct emu : dict.
Variable Simmo : Type.
Variable calc_modes : layer -> Light -> result Simmo.
Variable calc_scat : Stack Simmo -> text -> result Scat.
Variables substrate superstrate NDs : layer.

Lemma rows_loop_exact (c : columns) (th : float) (iws : list (nat * float))
  (f f' : file) (u : unit) :
  for_each (fun f iw =>
              match row light c th (fst iw) (snd iw) with
              | inl e => (f, inl e)
              | inr line => (write f line, ret tt)
              end) f iws = (f', inr u) ->
  exists rows,
    mapM (fun iw => row light c th (fst iw) (snd iw)) iws = ret rows /\
    appended f f' rows.
Proof.
  revert f. induction iws as [| iw iws IH]; cbn; intros f H.
  - injection H as <-. exists []. split; [reflexivity | apply appended_refl].
  - destruct (row light c th (fst iw) (snd iw)) as [e | line] eqn:E; [discriminate |].
    apply IH in H as (rows & Hm & Ha). exists (line :: rows). rewrite Hm. cbn.
    split; [reflexivity |].
    apply (appended_trans f (write f line) f' [line] rows); [| assumption].
    repeat split.
Qed.

Lemma angle_loop_exact (sched : float -> list nat) (wls : array)
  (thetas : list float) (f f' : file) (u : unit) :
  for_each (one_angle light Simmo calc_modes calc_scat substrate superstrate NDs sched wls)
    f thetas = (f', inr u) ->
  exists blocks,
    appended f f' (List.concat blocks) /\
    Forall2 (fun th rows =>
               exists c,
                 angle_columns light Simmo calc_modes calc_scat substrate superstrate
                   NDs (sched th) wls th = ret c /\
                 angle_rows light c th wls = ret rows)
            thetas blocks.
Proof.
  revert f. induction thetas as [| th thetas IH]; cbn; intros f H.
  - injection H as <-. exists []. split; [apply appended_refl | constructor].
  - destruct (one_angle _ _ _ _ _ _ _ _ _ _ th) as [f1 [e | u1]] eqn:E; [discriminate |].
    unfold one_angle in E.
    destruct (angle_columns _ _ _ _ _ _ _ _ _ _) as [e | c] eqn:Ec; [discriminate |].
    apply rows_loop_exact in E as (rows & Hm & Ha).
    apply IH in H as (blocks & Hb & Hall).
    exists (rows :: blocks). split.
    + cbn [List.concat]. eapply appended_trans; eassumption.
    + constructor; [| assumption]. exists c. split; [exact Ec | exact Hm].
Qed.

End Facts.

(** The layout of the table of a sweep that ran to its end.  The file
    is named after [out_filename] with [.out], holds the header, then
    one block of rows per angle in the order of [v_theta], each block
    with one row per wavelength in the order of [v_wl] and each row
    the format of the sweep filled with the wavelength, the angle and
    the fifteen spectra at that wavelength, then an empty line; and
    the file is closed. *)
Theorem sweep_table_layout
  (light struct emu : dict) (Simmo : Type)
  (calc_modes : layer -> Light -> result Simmo)
  (calc_scat : Stack Simmo -> text -> result Scat)
  (now : datetime) (sched : float -> list nat) (f : file) :
  EmuSweep.notebook light struct emu Simmo calc_modes calc_scat now sched
  = (Some f, ret tt) ->
  exists name h wls thetas ls blocks,
    EmuSweep.out_filename struct now = ret name /\
    header light struct emu = ret h /\
    v_wl light = ret wls /\ v_theta light = ret thetas /\
    init_layers struct emu mats = ret ls /\
    path f = (name ++ ".out")%string /\ closed f = true /\
    written f = h :: List.concat blocks ++ [newline] /\
    Forall2 (fun th rows =>
               exists c,
                 angle_columns light Simmo calc_modes calc_scat
                   (fst (fst ls)) (snd (fst ls)) (snd ls) (sched th) wls th = ret c /\
                 angle_rows light c th wls = ret rows)
            thetas blocks.
Proof.
  unfold EmuSweep.notebook.
  destruct (v_wl light) as [| wls] eqn:Ewl; [discriminate |]. cbn [bind ret].
  destruct (init_layers struct emu mats) as [| [[sub sup] nds]] eqn:Els; [discriminate |].
  cbn [bind ret].
  destruct (start light struct emu now) as [| f0] eqn:Ef0; [discriminate |].
  cbn [bind ret]. unfold sweep.
  destruct (v_theta light) as [| thetas] eqn:Eth; [discriminate |].
  destruct (for_each _ f0 thetas) as [f1 [e | u]] eqn:Eloop; [discriminate |].
  intros [= <-].
  unfold start in Ef0.
  apply bind_inr in Ef0 as (name & Hname & Ef0).
  apply bind_inr in Ef0 as (h & Hh & Ef0). injection Ef0 as <-.
  apply angle_loop_exact in Eloop as (blocks & (W & P & C) & Hall).
  exists name, h, wls, thetas, (sub, sup, nds), blocks.
  cbn [fst snd written path closed close write] in *.
  rewrite W, P. repeat split; try reflexivity; try assumption.
Qed.

Lemma sweep_table_layout_witness :
  exists f name h wls thetas ls blocks,
    EmuSweep.notebook Example.sweep_light EmuSweep.Inputs.struct EmuSweep.Inputs.emu
      float Example.calc_modes Example.calc_scat Example.now (fun _ => Example.sched)
    = (Some f, ret tt) /\
    EmuSweep.out_filename EmuSweep.Inputs.struct Example.now = ret name /\
    header Example.sweep_light EmuSweep.Inputs.struct EmuSweep.Inputs.emu = ret h /\
    v_wl Example.sweep_light = ret wls /\ v_theta Example.sweep_light = ret thetas /\
    init_layers EmuSweep.Inputs.struct EmuSweep.Inputs.emu mats = ret ls /\
    path f = (name ++ ".out")%string /\ closed f = true /\
    written f = h :: List.concat blocks ++ [newline] /\
    Forall2 (fun th rows =>
               exists c,
                 angle_columns Example.sweep_light float Example.calc_modes
                   Example.calc_scat
                   (fst (fst ls)) (snd (fst ls)) (snd ls) Example.sched wls th = ret c /\
                 angle_rows Example.sweep_light c th wls = ret rows)
            thetas blocks.
Proof.
  destruct (EmuSweep.notebook Example.sweep_light EmuSweep.Inputs.struct
              EmuSweep.Inputs.emu float Example.calc_modes Example.calc_scat
              Example.now (fun _ => Example.sched)) as [[f |] [e | []]] eqn:E;
    try (vm_compute in E; discriminate E).
  exists f.
  destruct (sweep_table_layout _ _ _ _ _ _ _ _ _ E)
    as (name & h & wls & thetas & ls & blocks & H).
  exists name, h, wls, thetas, ls, blocks. split; [reflexivity | exact H].
Defined.

End TableLayout.

Module OrderFacts.

Import F64.

Lemma ltb_rank (x y : float) :
  is_nan x = false -> is_nan y = false ->
  (SFltb x y = true <-> below (rank x) (rank y)).
Proof.
  intros Hx Hy. unfold SFltb.
  destruct x as [s | s | | s m e], y as [t | t | | t n f]; try discriminate;
    try destruct s; try destruct t; cbn;
    try (split; [discriminate | lia]); try (split; [reflexivity | lia]);
    try (split; [intros _ | reflexivity]; lia);
    change (Pos.compare_cont Eq m n) with (Pos.compare m n);
    destruct (Z.compare_spec e f), (Pos.compare_spec m n); cbn;
    split; intros K; try discriminate K; try reflexivity; try lia.
Qed.

Lemma below_trans (a b c : Z * Z * Z) : below a b -> below b c -> below a c.
Proof. destruct a as [[? ?] ?], b as [[? ?] ?], c as [[? ?] ?]. cbn. lia. Qed.

Lemma below_total (a b : Z * Z * Z) : below a b \/ a = b \/ below b a.
Proof.
  destruct a as [[a1 a2] a3], b as [[b1 b2] b3]. cbn.
  destruct (Z.lt_trichotomy a1 b1) as [? | [-> | ?]]; [lia | | lia].
  destruct (Z.lt_trichotomy a2 b2) as [? | [-> | ?]]; [lia | | lia].
  destruct (Z.lt_trichotomy a3 b3) as [? | [-> | ?]]; [lia | | lia].
  right. left. reflexivity.
Qed.

Lemma below_irrefl (a : Z * Z * Z) : ~ below a a.
Proof. destruct a as [[? ?] ?]. cbn. lia. Qed.

(** Greater than a greater one is greater; not smaller than a greater
    one is not smaller. *)
Lemma ltb_trans (x y z : float) :
  is_nan x = false -> is_nan y = false -> is_nan z = false ->
  SFltb x y = true -> SFltb y z = true -> SFltb x z = true.
Proof.
  intros Hx Hy Hz. rewrite !ltb_rank by assumption. apply below_trans.
Qed.

Lemma not_ltb_trans (x y z : float) :
  is_nan x = false -> is_nan y = false -> is_nan z = false ->
  SFltb y x = false -> SFltb y z = true -> SFltb z x = false.
Proof.
  intros Hx Hy Hz H1 H2. destruct (SFltb z x) eqn:E; [| reflexivity].
  rewrite (ltb_trans y z x Hy Hz Hx H2 E) in H1. discriminate.
Qed.

Lemma ltb_irrefl (x : float) : SFltb x x = false.
Proof.
  destruct (is_nan x) eqn:N; [destruct x; try discriminate; reflexivity |].
  destruct (SFltb x x) eqn:E; [| reflexivity].
  apply ltb_rank in E; [| assumption ..]. now apply below_irrefl in E.
Qed.

End OrderFacts.

Module SelectionFacts.

Import F64 Py Np Xr Selection ResultFacts OrderFacts.

Lemma le_lt_trans (y b x : float) :
  is_nan y = false -> is_nan b = false -> is_nan x = false ->
  SFltb b y = false -> SFltb b x = true -> SFltb y x = true.
Proof.
  intros Hy Hb Hx H1 H2. apply ltb_rank; [assumption .. |].
  apply ltb_rank in H2; [| assumption ..].
  destruct (below_total (rank y) (rank b)) as [L | [E | G]].
  - eapply below_trans; eassumption.
  - now rewrite E.
  - apply ltb_rank in G; [| assumption ..]. congruence.
Qed.

Lemma scanned_step (pre : array) (best : option (nat * float)) (x : float) :
  scanned pre best ->
  scanned (pre ++ [x])
    (if is_nan x then best
     else match best with
          | None => Some (List.length pre, x)
          | Some (_, b) => if SFltb b x then Some (List.length pre, x) else best
          end).
Proof.
  intros H.
  assert (Last : forall j y, nth_error (pre ++ [x]) j = Some y ->
                   (nth_error pre j = Some y /\ (j < List.length pre)%nat)
                   \/ (j = List.length pre /\ y = x)).
  { intros j y Hj. destruct (Nat.lt_ge_cases j (List.length pre)) as [L | G].
    - rewrite nth_error_app1 in Hj by assumption. auto.
    - rewrite nth_error_app2 in Hj by assumption.
      destruct (j - List.length pre)%nat as [| d] eqn:D.
      + injection Hj as <-. right. split; [lia | reflexivity].
      + destruct d; discriminate. }
  destruct (is_nan x) eqn:Nx.
  - destruct best as [[k b] |]; cbn in *.
    + destruct H as (Hk & Nb & Hall). split; [| split; [assumption |]].
      * rewrite nth_error_app1; [assumption |]. apply nth_error_Some. congruence.
      * intros j y Hj Ny. destruct (Last j y Hj) as [(Hp & _) | (_ & ->)];
          [now apply Hall | congruence].
    + intros y Hy. apply in_app_or in Hy as [Hy | [<- | []]]; auto.
  - destruct best as [[k b] |]; cbn in *.
    + destruct H as (Hk & Nb & Hall).
      assert (Lk : (k < List.length pre)%nat) by (apply nth_error_Some; congruence).
      destruct (SFltb b x) eqn:Lt; cbn.
      * split; [| split; [assumption |]].
        { rewrite nth_error_app2, Nat.sub_diag by lia. reflexivity. }
        intros j y Hj Ny. destruct (Last j y Hj) as [(Hp & Lj) | (-> & ->)].
        -- destruct (Hall j y Hp Ny) as (Hb & _). split.
           ++ apply (not_ltb_trans y b x); assumption.
           ++ intros _. apply (le_lt_trans y b x); assumption.
        -- split; [apply ltb_irrefl | lia].
      * split; [| split; [assumption |]].
        { rewrite nth_error_app1; assumption. }
        intros j y Hj Ny. destruct (Last j y Hj) as [(Hp & Lj) | (-> & ->)].
        -- now apply Hall.
        -- split; [assumption | lia].
    + split; [| split; [assumption |]].
      { rewrite nth_error_app2, Nat.sub_diag by lia. reflexivity. }
      intros j y Hj Ny. destruct (Last j y Hj) as [(Hp & Lj) | (-> & ->)].
      * apply nth_error_In in Hp. apply H in Hp. congruence.
      * split; [apply ltb_irrefl | lia].
Qed.

Lemma first_max_scanned (suf pre : array) (best : option (nat * float)) :
  scanned pre best ->
  scanned (pre ++ suf) (first_max suf (List.length pre) best).
Proof.
  revert pre best. induction suf as [| x suf IH]; intros pre best H.
  - now rewrite app_nil_r.
  - cbn [first_max].
    replace (pre ++ x :: suf) with ((pre ++ [x]) ++ suf) by now rewrite <- app_assoc.
    replace (S (List.length pre)) with (List.length (pre ++ [x]))
      by (rewrite length_app; cbn; lia).
    pose proof (scanned_step pre best x H) as K.
    destruct (is_nan x); [now apply IH |].
    destruct best as [[k b] |]; [| now apply IH].
    destruct (SFltb b x); now apply IH.
Qed.

(** The place [argmax] returns holds an entry that is no NaN, that no
    entry exceeds and that every earlier entry is below, NaNs apart. *)
Lemma argmax_spec (a : array) (i : nat) :
  argmax a = ret i ->
  exists R, nth_error a i = Some R /\ is_nan R = false /\
    forall j x, nth_error a j = Some x -> is_nan x = false ->
      SFltb R x = false /\ ((j < i)%nat -> SFltb x R = true).
Proof.
  unfold argmax. pose proof (first_max_scanned a [] None) as H.
  cbn in H. specialize (H ltac:(tauto)).
  destruct (first_max a 0 None) as [[k R] |]; [| discriminate].
  destruct (_ && _); [discriminate |]. intros [= <-]. exists R. exact H.
Qed.

Lemma argmax_all_nan (a : array) :
  forallb is_nan a = true -> argmax a = raise ValueError.
Proof.
  intros Ha. unfold argmax.
  assert (G : forall i, first_max a i None = None).
  { induction a as [| x a IH]; intros i; cbn in *; [reflexivity |].
    apply andb_prop in Ha as (-> & Ha). auto. }
  now rewrite G.
Qed.

End SelectionFacts.

Module Peak.

Import F64 Py Np Xr Selection ResultFacts SelectionFacts.

(** The wavelength the local-field notebooks compute at.  When the two
    lines that pick it succeed, it is the wavelength coordinate at a
    place where the stored reflectance is no NaN, is exceeded by no
    stored reflectance and exceeds every earlier one, NaNs apart: the
    first wavelength of maximum reflectance. *)
Theorem max_reflectance_wavelength_is_first_peak (spectra : DataArray) (wl : float) :
  max_reflectance_wavelength spectra = ret wl ->
  exists v_R i R,
    sel_spectrum spectra "R" = ret v_R /\
    coord_item spectra "wavelength" i = ret wl /\
    nth_error v_R i = Some R /\ is_nan R = false /\
    forall j x, nth_error v_R j = Some x -> is_nan x = false ->
      SFltb R x = false /\ ((j < i)%nat -> SFltb x R = true).
Proof.
  unfold max_reflectance_wavelength. intros H.
  apply bind_inr in H as (v_R & Hsel & H). apply bind_inr in H as (i & Harg & H).
  destruct (argmax_spec v_R i Harg) as (R & HR & NR & Hall).
  exists v_R, i, R. auto.
Qed.

Lemma max_reflectance_wavelength_is_first_peak_witness :
  max_reflectance_wavelength ExampleSpectra.twin_peaks = ret (dec 500 0) /\
  exists v_R i R,
    sel_spectrum ExampleSpectra.twin_peaks "R" = ret v_R /\
    coord_item ExampleSpectra.twin_peaks "wavelength" i = ret (dec 500 0) /\
    nth_error v_R i = Some R /\ is_nan R = false /\
    forall j x, nth_error v_R j = Some x -> is_nan x = false ->
      SFltb R x = false /\ ((j < i)%nat -> SFltb x R = true).
Proof.
  split; [reflexivity |].
  apply (max_reflectance_wavelength_is_first_peak ExampleSpectra.twin_peaks (dec 500 0)).
  reflexivity.
Defined.

(** When the spectra file cannot give a wavelength.  A file whose
    second coordinate has no label [R] is refused with [KeyError], and
    a reflectance column that is empty or all NaN with [ValueError]. *)
Theorem max_reflectance_wavelength_errors (spectra : DataArray) :
  (forall ls, snd (dims spectra) = "spectrum" -> snd (coords spectra) = Labels ls ->
     ~ In "R" ls -> max_reflectance_wavelength spectra = raise (KeyError "R")) /\
  (forall v_R, sel_spectrum spectra "R" = ret v_R -> forallb is_nan v_R = true ->
     max_reflectance_wavelength spectra = raise ValueError).
Proof.
  split.
  - intros ls Hd Hc Hin. unfold max_reflectance_wavelength, sel_spectrum.
    rewrite Hd, Hc. cbn [String.eqb Ascii.eqb Bool.eqb].
    assert (G : forall i, places "R" ls i = []).
    { clear Hc. induction ls as [| l ls IH]; intros i; cbn; [reflexivity |].
      destruct (String.eqb_spec l "R") as [E | _].
      - exfalso. apply Hin. left. exact E.
      - apply IH. intros K. apply Hin. right. exact K. }
    now rewrite G.
  - intros v_R Hsel Hnan. unfold max_reflectance_wavelength.
    rewrite Hsel. cbn [bind ret]. now rewrite argmax_all_nan.
Qed.

End Peak.
